(** * The test tree of the Playwright VS Code extension (src/testTree.ts)

    A shallow embedding of [TestTree], the class that mirrors the logical
    test trees of the enabled models into the test items of the VS Code
    test controller, and of the free function [areEqualTags].

    Conventions of the embedding.
    - JavaScript strings are [string]; numbers that hold line and column
      positions are [Z].
    - A JavaScript [Map] or [Set] is an association list kept in insertion
      order ([JsMap]), because the code iterates over them.
    - A [TestItemCollection] (the children of a test item, the items of the
      controller) is the list of its items in order; its operations are in
      [TestItemCollection].
    - Test items are objects: every item carries the identity [obj] it got
      when it was allocated, and the functions that allocate thread the
      next free identity.
    - A function that can throw returns an [option]: [None] is the
      exception. *)

From Stdlib Require Import String Ascii List ZArith Lia Bool Arith DecimalString Permutation.
Import ListNotations.
Local Open Scope list_scope.
Local Open Scope string_scope.

Set Warnings "-register-all".

(** ** JavaScript maps keyed by strings *)

Module JsMap.

Abbreviation t V := (list (string * V)) (only parsing).

Definition empty {V} : t V := [].

Fixpoint get {V} (m : t V) (k : string) : option V :=
  match m with
  | [] => None
  | (k', v) :: m' => if String.eqb k' k then Some v else get m' k
  end.

Definition has {V} (m : t V) (k : string) : bool :=
  match get m k with Some _ => true | None => false end.

(** [Map.prototype.set]: an existing key keeps its place. *)
Fixpoint set {V} (m : t V) (k : string) (v : V) : t V :=
  match m with
  | [] => [(k, v)]
  | (k', v') :: m' =>
      if String.eqb k' k then (k', v) :: m' else (k', v') :: set m' k v
  end.

Definition delete {V} (m : t V) (k : string) : t V :=
  filter (fun e => negb (String.eqb (fst e) k)) m.

Definition keys {V} (m : t V) : list string := map fst m.

Definition values {V} (m : t V) : list V := map snd m.

(** [new Map(entries)] *)
Definition ofList {V} (entries : list (string * V)) : t V :=
  fold_left (fun m e => set m (fst e) (snd e)) entries empty.

End JsMap.

(** [new Set(strings)], with [has] and [delete]. *)
Module JsSet.

Abbreviation t := (list string) (only parsing).

Definition has (s : t) (k : string) : bool :=
  existsb (String.eqb k) s.

Definition add (s : t) (k : string) : t :=
  if has s k then s else (s ++ [k])%list.

Definition delete (s : t) (k : string) : t :=
  filter (fun x => negb (String.eqb x k)) s.

Definition ofList (l : list string) : t :=
  fold_left add l [].

End JsSet.

(** ** Data of the reporter and of the upstream test tree *)

Record Location := mkLocation {
  file : string;
  line : Z;
  column : Z }.

(** [reporterTypes.TestCase]: only its [id] is read here. *)
Record TestCase := mkTestCase { test_id : string }.

Record TestError := mkTestError {
  message : option string;
  value : option string;
  error_location : option Location }.

Inductive Kind := group | case | test.

Inductive SubKind := folder | fileKind | describe.

(** [upstream.TreeItem], a node of the logical tree. *)
Inductive TreeItem := mkTreeItem {
  u_id : string;
  u_kind : Kind;
  u_subKind : option SubKind;
  u_title : string;
  u_location : Location;
  u_tags : list string;
  u_test : option TestCase;
  u_children : list TreeItem }.

(** The suite tree a project reports ([TeleSuite] of ./upstream/teleReceiver,
    whose declaration is not among the sources): a title, a type and the
    nested suites are all that [_update] touches. *)
Inductive TeleSuite := mkTeleSuite {
  suite_title : string;
  suite_type : string;
  suites : list TeleSuite }.

Record Config := mkConfig {
  workspaceFolder : string;
  configFile : string }.

(** [TestProject]; [project.model.config] is kept with the project. *)
Record TestProject := mkTestProject {
  name : string;
  isEnabled : bool;
  suite : TeleSuite;
  project_config : Config }.

(** [TestModel], with the results of [configErrors()] and [projects()]. *)
Record TestModel := mkTestModel {
  config : Config;
  configErrors : list TestError;
  projects : list TestProject }.

(** ** Data of the VS Code API *)

Definition Uri := string.

Record Position := mkPosition {
  pos_line : Z;
  character : Z }.

Record Range := mkRange {
  start : Position;
  end_ : Position }.

(** [new Position(line, character)]: the constructor of the editor rejects
    a negative line and a negative character (it throws). *)
Definition newPosition (line0 character0 : Z) : option Position :=
  if (line0 <? 0)%Z || (character0 <? 0)%Z then None
  else Some (mkPosition line0 character0).

(** [new Range(startLine, startCharacter, endLine, endCharacter)].  The one
    call, in [_syncSuite], passes [Math.max(line - 1, 0)], [0], [line] and
    [0], where [line] is a line of the logical tree: the logical tree is
    taken to hold no negative line, so that this call does not throw. *)
Definition Range4 (l1 c1 l2 c2 : Z) : Range :=
  mkRange (mkPosition l1 c1) (mkPosition l2 c2).

Record TestTag := mkTestTag { tag_id : string }.

(** [vscodeTypes.TestItem].  The three symbol-keyed properties the file
    attaches to items are the last three fields. *)
Inductive TestItem := mkTestItem {
  obj : nat;
  id : string;
  label : string;
  uri : option Uri;
  children : list TestItem;
  tags : list TestTag;
  canResolveChildren : bool;
  range : option Range;
  error : option string;
  description : option string;
  sortText : option string;
  testTreeItemSymbol : option TreeItem;
  disabledProjectSymbol : option TestProject;
  configErrorSymbol : option TestError }.

Definition set_children (cs : list TestItem) (i : TestItem) : TestItem :=
  mkTestItem (obj i) (id i) (label i) (uri i) cs (tags i)
    (canResolveChildren i) (range i) (error i) (description i) (sortText i)
    (testTreeItemSymbol i) (disabledProjectSymbol i) (configErrorSymbol i).

Definition set_tags (ts : list TestTag) (i : TestItem) : TestItem :=
  mkTestItem (obj i) (id i) (label i) (uri i) (children i) ts
    (canResolveChildren i) (range i) (error i) (description i) (sortText i)
    (testTreeItemSymbol i) (disabledProjectSymbol i) (configErrorSymbol i).

Definition set_canResolveChildren (b : bool) (i : TestItem) : TestItem :=
  mkTestItem (obj i) (id i) (label i) (uri i) (children i) (tags i)
    b (range i) (error i) (description i) (sortText i)
    (testTreeItemSymbol i) (disabledProjectSymbol i) (configErrorSymbol i).

Definition set_range (r : option Range) (i : TestItem) : TestItem :=
  mkTestItem (obj i) (id i) (label i) (uri i) (children i) (tags i)
    (canResolveChildren i) r (error i) (description i) (sortText i)
    (testTreeItemSymbol i) (disabledProjectSymbol i) (configErrorSymbol i).

Definition set_error (e : option string) (i : TestItem) : TestItem :=
  mkTestItem (obj i) (id i) (label i) (uri i) (children i) (tags i)
    (canResolveChildren i) (range i) e (description i) (sortText i)
    (testTreeItemSymbol i) (disabledProjectSymbol i) (configErrorSymbol i).

Definition set_description (d : option string) (i : TestItem) : TestItem :=
  mkTestItem (obj i) (id i) (label i) (uri i) (children i) (tags i)
    (canResolveChildren i) (range i) (error i) d (sortText i)
    (testTreeItemSymbol i) (disabledProjectSymbol i) (configErrorSymbol i).

Definition set_sortText (s : option string) (i : TestItem) : TestItem :=
  mkTestItem (obj i) (id i) (label i) (uri i) (children i) (tags i)
    (canResolveChildren i) (range i) (error i) (description i) s
    (testTreeItemSymbol i) (disabledProjectSymbol i) (configErrorSymbol i).

Definition set_testTreeItemSymbol (u : option TreeItem) (i : TestItem) : TestItem :=
  mkTestItem (obj i) (id i) (label i) (uri i) (children i) (tags i)
    (canResolveChildren i) (range i) (error i) (description i) (sortText i)
    u (disabledProjectSymbol i) (configErrorSymbol i).

Definition set_disabledProjectSymbol (p : option TestProject) (i : TestItem) : TestItem :=
  mkTestItem (obj i) (id i) (label i) (uri i) (children i) (tags i)
    (canResolveChildren i) (range i) (error i) (description i) (sortText i)
    (testTreeItemSymbol i) p (configErrorSymbol i).

Definition set_configErrorSymbol (e : option TestError) (i : TestItem) : TestItem :=
  mkTestItem (obj i) (id i) (label i) (uri i) (children i) (tags i)
    (canResolveChildren i) (range i) (error i) (description i) (sortText i)
    (testTreeItemSymbol i) (disabledProjectSymbol i) e.

(** [testController.createTestItem(id, label, uri)]: a fresh item without
    children, tags, range or attachments; [n] is the next free identity. *)
Definition createTestItem (id0 label0 : string) (uri0 : option Uri) (n : nat)
  : TestItem * nat :=
  (mkTestItem n id0 label0 uri0 [] [] false None None None None None None None,
   S n).

(** ** Collections of test items, keyed by id *)

Module TestItemCollection.

Abbreviation t := (list TestItem) (only parsing).

Fixpoint get (c : t) (k : string) : option TestItem :=
  match c with
  | [] => None
  | i :: c' => if String.eqb (id i) k then Some i else get c' k
  end.

Definition delete (c : t) (k : string) : t :=
  filter (fun i => negb (String.eqb (id i) k)) c.

(** [add]: an item whose id is already there replaces the old one. *)
Fixpoint add (c : t) (i : TestItem) : t :=
  match c with
  | [] => [i]
  | j :: c' => if String.eqb (id j) (id i) then i :: c' else j :: add c' i
  end.

Definition replace (items : list TestItem) : t :=
  fold_left add items [].

(** A write through the reference to the item stored under [k]. *)
Definition update (c : t) (k : string) (f : TestItem -> TestItem) : t :=
  map (fun i => if String.eqb (id i) k then f i else i) c.

Definition ids (c : t) : list string := map id c.

End TestItemCollection.

(** ** [areEqualTags] *)

Definition areEqualTags (uTags : list string) (vsTags : list TestTag) : bool :=
  if negb (Nat.eqb (List.length uTags) (List.length vsTags)) then false
  else
    let uTagsSet := JsSet.ofList uTags in
    forallb (fun tag => JsSet.has uTagsSet (tag_id tag)) vsTags.

(** ** What the file takes from its host and from the rest of the extension

    [uriToPath] and [normalizePath] come from ./utils, [basename] and
    [relative] from Node's [path], [Uri_file] is [vscode.Uri.file],
    [localeCompare] is [String.prototype.localeCompare] and
    [upstreamRootItem workspaceFSPath rootSuite] is the [rootItem] of
    [new upstream.TestTree(workspaceFSPath, rootSuite, [], undefined, path.sep)]
    after [sortAndPropagateStatus()] and [flattenForSingleProject()].  None of
    them is among the sources, so the tree is parameterised by them. *)

Class Platform := {
  uriToPath : Uri -> string;
  Uri_file : string -> Uri;
  normalizePath : string -> string;
  path_basename : string -> string;
  path_relative : string -> string -> string;
  localeCompare : string -> string -> Z;
  upstreamRootItem : string -> TeleSuite -> TreeItem }.

(** ** Strings *)

(** [s.startsWith(p)] *)
Definition startsWith (s p : string) : bool := String.prefix p s.

(** [s.substring(n)] *)
Fixpoint substringFrom (n : nat) (s : string) : string :=
  match n, s with
  | O, _ => s
  | S n', String _ s' => substringFrom n' s'
  | S _, EmptyString => EmptyString
  end.

(** The decimal text of a number inside a template string. *)
Definition numberToString (z : Z) : string :=
  NilZero.string_of_int (Z.to_int z).

(** Truthiness of a number, and [a || b] on numbers. *)
Definition truthy (z : Z) : bool := negb (Z.eqb z 0).

Definition jsOr (a b : Z) : Z := if truthy a then a else b.

(** [a ?? b] *)
Definition nullish {A} (a : option A) (b : A) : A :=
  match a with Some x => x | None => b end.

Definition isNone {A} (a : option A) : bool :=
  match a with Some _ => false | None => true end.

Definition isCase (k : Kind) : bool :=
  match k with case => true | _ => false end.

Definition isCaseOrTest (k : Kind) : bool :=
  match k with case | test => true | group => false end.

Definition isFileGroup (u : TreeItem) : bool :=
  match u_kind u, u_subKind u with
  | group, Some fileKind => true
  | _, _ => false
  end.

(** [Array.prototype.sort] with a comparator: a stable sort. *)
Section Sort.
Context {A : Type}.
Variable compare : A -> A -> Z.

Fixpoint insertSorted (x : A) (l : list A) : list A :=
  match l with
  | [] => [x]
  | y :: l' => if Z.ltb (compare x y) 0 then x :: y :: l' else y :: insertSorted x l'
  end.

Definition sort (l : list A) : list A :=
  fold_left (fun acc x => insertSorted x acc) l [].
End Sort.

(** A [for] loop whose body can throw: the state after the last turn, or
    [None] as soon as a turn throws. *)
Fixpoint forEach {A B} (body : A -> B -> option A) (l : list B) (a : A)
  : option A :=
  match l with
  | [] => Some a
  | x :: l' =>
      match body a x with
      | Some a' => forEach body l' a'
      | None => None
      end
  end.

(** ** The tree differ *)

Definition _idWithGeneration (_testGeneration id0 : string) : string :=
  _testGeneration ++ id0.

(** Lines 164-173 of [_syncSuite]: the attributes of [vsChild] are brought
    in line with [uChild]. *)
Definition syncAttributes (uChild : TreeItem) (vsChild : TestItem) : TestItem :=
  let vsChild := set_testTreeItemSymbol (Some uChild) vsChild in
  let vsChild :=
    if isCase (u_kind uChild) && negb (areEqualTags (u_tags uChild) (tags vsChild))
    then set_tags (map mkTestTag (u_tags uChild)) vsChild
    else vsChild in
  let hasLocation :=
    truthy (jsOr (line (u_location uChild)) (column (u_location uChild))) in
  if hasLocation &&
     match range vsChild with
     | None => true
     | Some r => negb (Z.eqb (pos_line (start r) + 1) (line (u_location uChild)))
     end
  then
    let line0 := line (u_location uChild) in
    set_range (Some (Range4 (Z.max (line0 - 1) 0) 0 line0 0)) vsChild
  else if hasLocation && isNone (range vsChild)
  then set_range None vsChild
  else vsChild.

(** The recursive call on one logical child: it rewrites the children of the
    matching test item. *)
Abbreviation Sync := (list TestItem -> nat -> list TestItem * nat) (only parsing).

(** [uChildrenById], each logical child together with its recursive call. *)
Abbreviation UChildrenById := (JsMap.t (TreeItem * Sync)) (only parsing).

(** [vsChildrenById] maps a stripped id to a test item of [vsChildren]; the
    reference to that item is the id it is stored under in [vsChildren]. *)
Abbreviation VsChildrenById := (JsMap.t string) (only parsing).

Section SyncSuite.
Context {P : Platform}.
Variable _testGeneration : string.

Definition vsChildrenById_of (vsChildren : list TestItem) : VsChildrenById :=
  fold_left
    (fun m c =>
       if startsWith (id c) _testGeneration
       then JsMap.set m (substringFrom (String.length _testGeneration) (id c)) (id c)
       else m)
    vsChildren JsMap.empty.

(** Remove deleted children. *)
Definition removeDeleted (uChildrenById : UChildrenById)
    (vsChildren : list TestItem) (vsChildrenById : VsChildrenById)
  : list TestItem * VsChildrenById :=
  fold_left
    (fun (acc : list TestItem * VsChildrenById) id0 =>
       let (vs, byId) := acc in
       if negb (JsMap.has uChildrenById id0)
       then (TestItemCollection.delete vs (_idWithGeneration _testGeneration id0),
             JsMap.delete byId id0)
       else (vs, byId))
    (JsMap.keys vsChildrenById) (vsChildren, vsChildrenById).

Definition newChild (id0 : string) (uChild : TreeItem) (n : nat) : TestItem * nat :=
  let (vsChild, n') :=
    createTestItem (_idWithGeneration _testGeneration id0) (u_title uChild)
      (Some (Uri_file (file (u_location uChild)))) n in
  (if isFileGroup uChild && Nat.eqb (List.length (u_children uChild)) 0
   then set_canResolveChildren true vsChild
   else vsChild, n').

(** Add new children, and sync the attributes of every child. *)
Definition addNew (uChildrenById : UChildrenById)
    (vsChildren : list TestItem) (vsChildrenById : VsChildrenById) (n : nat)
  : list TestItem * VsChildrenById * nat :=
  fold_left
    (fun (acc : list TestItem * VsChildrenById * nat) (e : string * (TreeItem * Sync)) =>
       let '(vs, byId, n) := acc in
       let '(id0, (uChild, _)) := e in
       let '(ref, vs, byId, n) :=
         match JsMap.get byId id0 with
         | Some ref => (ref, vs, byId, n)
         | None =>
             let (vsChild, n') := newChild id0 uChild n in
             (id vsChild, TestItemCollection.add vs vsChild,
              JsMap.set byId id0 (id vsChild), n')
         end in
       (TestItemCollection.update vs ref (syncAttributes uChild), byId, n))
    uChildrenById (vsChildren, vsChildrenById, n).

(** Sync children.  A child that [vsChildrenById] does not know cannot
    occur after [addNew]; the source asserts so with [vsChild!]. *)
Definition syncChildren (uChildrenById : UChildrenById)
    (vsChildren : list TestItem) (vsChildrenById : VsChildrenById) (n : nat)
  : list TestItem * nat :=
  fold_left
    (fun (acc : list TestItem * nat) (e : string * (TreeItem * Sync)) =>
       let (vs, n) := acc in
       let '(id0, (_, sync)) := e in
       match JsMap.get vsChildrenById id0 with
       | Some ref =>
           match TestItemCollection.get vs ref with
           | Some vsChild =>
               let (cs, n') := sync (children vsChild) n in
               (TestItemCollection.update vs ref (set_children cs), n')
           | None => (vs, n)
           end
       | None => (vs, n)
       end)
    uChildrenById (vsChildren, n).

Definition syncLevel (uChildrenById : UChildrenById) : Sync :=
  fun vsChildren n =>
    let vsChildrenById := vsChildrenById_of vsChildren in
    let (vsChildren, vsChildrenById) :=
      removeDeleted uChildrenById vsChildren vsChildrenById in
    let '(vsChildren, vsChildrenById, n) :=
      addNew uChildrenById vsChildren vsChildrenById n in
    syncChildren uChildrenById vsChildren vsChildrenById n.

(** [_syncSuite(uItem, vsItem)], as a function of [vsItem.children]. *)
Fixpoint _syncSuite (uItem : TreeItem) {struct uItem} : Sync :=
  match uItem with
  | mkTreeItem _ _ _ _ _ _ _ uChildren =>
      syncLevel
        (JsMap.ofList (map (fun c => (u_id c, (c, _syncSuite c))) uChildren))
  end.

End SyncSuite.

(** ** The auxiliary synchronizers *)

(** [errorsByModel] is keyed by the model objects; they are listed with
    their errors in insertion order. *)
Abbreviation ErrorsByModel := (list (TestModel * list TestError)) (only parsing).

Section Auxiliary.
Context {P : Platform}.

Definition disabledProjectId (project : TestProject) : string :=
  "[disabled] " ++ name project ++ " - " ++ configFile (project_config project).

Definition disabledSortKey (project : TestProject) : string :=
  configFile (project_config project) ++ ":" ++ name project.

Definition newDisabledItem (project : TestProject) (n : nat) : TestItem * nat :=
  let config0 := project_config project in
  let (item, n') := createTestItem (disabledProjectId project) "" None n in
  let item :=
    set_description
      (Some (path_relative (workspaceFolder config0) (normalizePath (configFile config0))
             ++ " [" ++ name project ++ "] — disabled")) item in
  let item := set_sortText (Some ("z" ++ name project)) item in
  (set_disabledProjectSymbol (Some project) item, n').

(** [_syncDisabledProjects(workspaceRootItem, disabledProjects)], as a
    function of [workspaceRootItem.children]. *)
Definition _syncDisabledProjects (disabledProjects : list TestProject) : Sync :=
  fun rootChildren n =>
    let topLevelItems := map id rootChildren in
    let oldDisabledProjectIds :=
      JsSet.ofList (filter (fun item => startsWith item "[disabled] ") topLevelItems) in
    let sortedProject :=
      sort (fun a b => localeCompare (disabledSortKey a) (disabledSortKey b))
        disabledProjects in
    let '(rootChildren, oldDisabledProjectIds, n) :=
      fold_left
        (fun (acc : list TestItem * JsSet.t * nat) project =>
           let '(cs, old, n) := acc in
           let projectId := disabledProjectId project in
           if JsSet.has old projectId
           then (cs, JsSet.delete old projectId, n)
           else
             let (item, n') := newDisabledItem project n in
             (TestItemCollection.add cs item, old, n'))
        sortedProject (rootChildren, oldDisabledProjectIds, n) in
    (fold_left TestItemCollection.delete oldDisabledProjectIds rootChildren, n).

Definition errorMessage (error0 : TestError) : string :=
  nullish (message error0) (nullish (value error0) "Unknown error").

Definition errorId (model : TestModel) (error0 : TestError) : string :=
  let location :=
    match error_location error0 with
    | Some l => file l ++ ":" ++ numberToString (line l)
    | None => configFile (config model)
    end in
  "[error] " ++ location ++ " - " ++ errorMessage error0.

(** The new item of a configuration error.  [new Position] throws when
    the error is located at line 0 or column 0, before the item is added. *)
Definition newErrorItem (model : TestModel) (error0 : TestError) (n : nat)
  : option (TestItem * nat) :=
  let message0 := errorMessage error0 in
  let errorId0 := errorId model error0 in
  let (item, n') :=
    createTestItem errorId0 ""
      (Some (Uri_file (match error_location error0 with
                       | Some l => file l
                       | None => configFile (config model)
                       end))) n in
  let item := set_error (Some message0) item in
  let item :=
    set_description
      (Some (path_relative (workspaceFolder (config model))
               (normalizePath (configFile (config model)))
             ++ " — " ++ message0)) item in
  let item := set_sortText (Some ("z" ++ errorId0)) item in
  match error_location error0 with
  | Some l =>
      match newPosition (line l - 1) (column l - 1) with
      | Some position =>
          let item := set_range (Some (mkRange position position)) item in
          Some (set_configErrorSymbol (Some error0) item, n')
      | None => None
      end
  | None => Some (set_configErrorSymbol (Some error0) item, n')
  end.

(** [_syncConfigErrors(workspaceRootItem, errorsByModel)], as a function
    of [workspaceRootItem.children]; [None] when it throws. *)
Definition _syncConfigErrors (errorsByModel : ErrorsByModel)
    (rootChildren : list TestItem) (n : nat) : option (list TestItem * nat) :=
  let topLevelItems := map id rootChildren in
  let oldErrorIds :=
    JsSet.ofList (filter (fun item => startsWith item "[error] ") topLevelItems) in
  match
    forEach
      (fun (acc : list TestItem * JsSet.t * nat) (me : TestModel * list TestError) =>
         let (model, errors) := me in
         forEach
           (fun (acc : list TestItem * JsSet.t * nat) error0 =>
              let '(cs, old, n) := acc in
              let errorId0 := errorId model error0 in
              if JsSet.has old errorId0
              then Some (cs, JsSet.delete old errorId0, n)
              else
                match newErrorItem model error0 n with
                | Some (item, n') => Some (TestItemCollection.add cs item, old, n')
                | None => None
                end)
           errors acc)
      errorsByModel (rootChildren, oldErrorIds, n)
  with
  | Some (rootChildren, oldErrorIds, n) =>
      Some (fold_left TestItemCollection.delete oldErrorIds rootChildren, n)
  | None => None
  end.

End Auxiliary.

(** ** The tree and its roots *)

(** A registered root is one of two objects.  The flat root is the object
    literal of [_createRootItemIfNeeded] whose [children] is the controller's
    own collection; the other is a test item, known here by its identity. *)
Inductive RootItem :=
| FlatRoot (o : nat) (id0 : string) (uri0 : Uri)
| NestedRoot (o : nat).

(** The fields of [TestTree], with the state of the controller it owns.
    [items] is [_testController.items].  [detached] holds the roots that are
    still registered in [_rootItems] although the controller no longer holds
    them; [nextObj] is the next free object identity. *)
Record TestTree := mkTestTree {
  _testGeneration : string;
  _rootItems : JsMap.t RootItem;
  items : list TestItem;
  detached : list TestItem;
  _loadingItem : TestItem;
  _testItemByTestId : JsMap.t TestItem;
  _testItemByFile : JsMap.t TestItem;
  nextObj : nat }.

Definition findObj (o : nat) (l : list TestItem) : option TestItem :=
  find (fun i => Nat.eqb (obj i) o) l.

Definition isNested (o : nat) (r : RootItem) : bool :=
  match r with
  | NestedRoot o' => Nat.eqb o o'
  | FlatRoot _ _ _ => false
  end.

Definition registeredNested (roots : JsMap.t RootItem) (o : nat) : bool :=
  existsb (isNested o) (JsMap.values roots).

Definition holds (l : list TestItem) (o : nat) : bool :=
  existsb (fun i => Nat.eqb (obj i) o) l.

(** A write to [_testController.items]: a registered root that leaves the
    collection stays alive through [_rootItems]. *)
Definition setItems (new : list TestItem) (t : TestTree) : TestTree :=
  let evicted :=
    filter (fun i => registeredNested (_rootItems t) (obj i) && negb (holds new (obj i)))
      (items t) in
  mkTestTree (_testGeneration t) (_rootItems t) new (detached t ++ evicted)%list
    (_loadingItem t) (_testItemByTestId t) (_testItemByFile t) (nextObj t).

Definition setNextObj (n : nat) (t : TestTree) : TestTree :=
  mkTestTree (_testGeneration t) (_rootItems t) (items t) (detached t)
    (_loadingItem t) (_testItemByTestId t) (_testItemByFile t) n.

(** [_rootItems.set(fsPath, item)] *)
Definition setRoot (fsPath : string) (r : RootItem) (t : TestTree) : TestTree :=
  mkTestTree (_testGeneration t) (JsMap.set (_rootItems t) fsPath r) (items t)
    (detached t) (_loadingItem t) (_testItemByTestId t) (_testItemByFile t)
    (nextObj t).

(** [_rootItems.delete(fsPath)]; a detached root that is no longer
    registered is unreachable. *)
Definition deleteRoot (fsPath : string) (t : TestTree) : TestTree :=
  let roots := JsMap.delete (_rootItems t) fsPath in
  mkTestTree (_testGeneration t) roots (items t)
    (filter (fun i => registeredNested roots (obj i)) (detached t))
    (_loadingItem t) (_testItemByTestId t) (_testItemByFile t) (nextObj t).

(** The object behind a registered root. *)
Definition rootObject (t : TestTree) (r : RootItem) : option TestItem :=
  match r with
  | FlatRoot o id0 uri0 =>
      Some (mkTestItem o id0 "<root>" (Some uri0) (items t) [] false
              None None None None None None None)
  | NestedRoot o =>
      match findObj o (items t) with
      | Some i => Some i
      | None => findObj o (detached t)
      end
  end.

Definition rootChildren (t : TestTree) (r : RootItem) : list TestItem :=
  match rootObject t r with
  | Some i => children i
  | None => []
  end.

Definition updateObj (o : nat) (f : TestItem -> TestItem) (l : list TestItem)
  : list TestItem :=
  map (fun i => if Nat.eqb (obj i) o then f i else i) l.

(** A write to the children of a registered root. *)
Definition setRootChildren (r : RootItem) (cs : list TestItem) (t : TestTree)
  : TestTree :=
  match r with
  | FlatRoot _ _ _ => setItems cs t
  | NestedRoot o =>
      if holds (items t) o
      then mkTestTree (_testGeneration t) (_rootItems t)
             (updateObj o (set_children cs) (items t)) (detached t)
             (_loadingItem t) (_testItemByTestId t) (_testItemByFile t) (nextObj t)
      else mkTestTree (_testGeneration t) (_rootItems t) (items t)
             (updateObj o (set_children cs) (detached t))
             (_loadingItem t) (_testItemByTestId t) (_testItemByFile t) (nextObj t)
  end.

(** Runs a synchronizer on the children of a root. *)
Definition syncRoot (r : RootItem) (sync : Sync) (t : TestTree) : TestTree :=
  let (cs, n) := sync (rootChildren t r) (nextObj t) in
  setRootChildren r cs (setNextObj n t).

Section Tree.
Context {P : Platform}.

(** [workspace.workspaceFolders] is [undefined] or a list of folders,
    each known by its [uri]. *)
Definition WorkspaceFolders := option (list Uri).

Definition TestTree_new : TestTree :=
  let (loadingItem, n) := createTestItem "loading" "Loading…" None 0 in
  mkTestTree "" JsMap.empty [] [] loadingItem JsMap.empty JsMap.empty n.

(** [startedLoading()]; [guid] is what [createGuid()] returns. *)
Definition startedLoading (workspaceFolders : WorkspaceFolders) (guid : string)
    (t : TestTree) : TestTree :=
  let t := setItems (TestItemCollection.replace []) t in
  let t :=
    mkTestTree (guid ++ ":") JsMap.empty (items t) [] (_loadingItem t)
      JsMap.empty JsMap.empty (nextObj t) in
  match workspaceFolders with
  | None | Some [] => t
  | Some (_ :: _) => setItems (TestItemCollection.replace [_loadingItem t]) t
  end.

(** [finishedLoading()].  The loading item is only ever put among the
    items of the controller, where an item has no parent, so the first
    branch of the source is never taken. *)
Definition finishedLoading (t : TestTree) : TestTree :=
  match TestItemCollection.get (items t) (id (_loadingItem t)) with
  | Some _ =>
      setItems (TestItemCollection.delete (items t) (id (_loadingItem t))) t
  | None => t
  end.

Definition _createRootItemIfNeeded (workspaceFolders : list Uri) (uri0 : Uri)
    (t : TestTree) : RootItem * TestTree :=
  let fsPath := uriToPath uri0 in
  match JsMap.get (_rootItems t) fsPath with
  | Some r => (r, t)
  | None =>
      if Nat.eqb (List.length workspaceFolders) 1
      then
        let item :=
          FlatRoot (nextObj t) (_idWithGeneration (_testGeneration t) fsPath) uri0 in
        (item, setRoot fsPath item (setNextObj (S (nextObj t)) t))
      else
        let (item, n) :=
          createTestItem (_idWithGeneration (_testGeneration t) fsPath)
            (path_basename fsPath) (Some uri0) (nextObj t) in
        let t := setItems (TestItemCollection.add (items t) item) (setNextObj n t) in
        (NestedRoot (obj item), setRoot fsPath (NestedRoot (obj item)) t)
  end.

Definition _deleteRootItem (workspaceFolders : list Uri) (fsPath : string)
    (t : TestTree) : TestTree :=
  let t :=
    if Nat.eqb (List.length workspaceFolders) 1
    then
      setItems
        (TestItemCollection.replace
           (filter (fun i => String.eqb (id i) "loading" || String.eqb (id i) "disabled")
              (items t))) t
    else
      setItems
        (TestItemCollection.delete (items t)
           (_idWithGeneration (_testGeneration t) fsPath)) t in
  deleteRoot fsPath t.

(** The visit of [_indexTree]. *)
Fixpoint visit (item : TestItem) (ix : JsMap.t TestItem * JsMap.t TestItem)
  {struct item} : JsMap.t TestItem * JsMap.t TestItem :=
  match item with
  | mkTestItem _ _ _ uri0 children0 _ _ range0 _ _ _ treeItem _ _ =>
      let (byId, byFile) := ix in
      let byId :=
        match treeItem with
        | Some u =>
            if isCaseOrTest (u_kind u)
            then match u_test u with
                 | Some test0 => JsMap.set byId (test_id test0) item
                 | None => byId
                 end
            else byId
        | None => byId
        end in
      let (byId, byFile) :=
        fold_left (fun ix child => visit child ix) children0 (byId, byFile) in
      match uri0, range0 with
      | Some u, None => (byId, JsMap.set byFile (uriToPath u) item)
      | _, _ => (byId, byFile)
      end
  end.

Definition _indexTree (t : TestTree) : TestTree :=
  let (byId, byFile) :=
    fold_left
      (fun ix r => match rootObject t r with
                   | Some item => visit item ix
                   | None => ix
                   end)
      (JsMap.values (_rootItems t)) (JsMap.empty, JsMap.empty) in
  mkTestTree (_testGeneration t) (_rootItems t) (items t) (detached t)
    (_loadingItem t) byId byFile (nextObj t).

(** The inner loop of [_update] over the enabled models of one folder:
    the root suite, the disabled projects and the configuration errors.
    The models of the collection are distinct objects, so every model with
    errors adds an entry of its own to [configErrorsByModel]. *)
Definition collect (models : list TestModel) (workspaceFSPath : string)
  : TeleSuite * list TestProject * ErrorsByModel :=
  fold_left
    (fun (acc : TeleSuite * list TestProject * ErrorsByModel) model =>
       let '(rootSuite, disabledProjects, configErrorsByModel) := acc in
       let configErrorsByModel :=
         if negb (Nat.eqb (List.length (configErrors model)) 0)
         then (configErrorsByModel ++ [(model, configErrors model)])%list
         else configErrorsByModel in
       fold_left
         (fun (acc : TeleSuite * list TestProject * ErrorsByModel) project =>
            let '(rootSuite, disabledProjects, configErrorsByModel) := acc in
            if isEnabled project
            then (mkTeleSuite (suite_title rootSuite) (suite_type rootSuite)
                    (suites rootSuite ++ [suite project])%list,
                  disabledProjects, configErrorsByModel)
            else (rootSuite, (disabledProjects ++ [project])%list, configErrorsByModel))
         (projects model) (rootSuite, disabledProjects, configErrorsByModel))
    (filter (fun m => String.eqb (workspaceFolder (config m)) workspaceFSPath) models)
    (mkTeleSuite "" "root" [], [], []).

(** The body of the first loop of [_update] for one workspace folder;
    [None] when [_syncConfigErrors] throws. *)
Definition updateFolder (workspaceFolders : list Uri) (models : list TestModel)
    (t : TestTree) (folder0 : Uri) : option TestTree :=
  let workspaceFSPath := uriToPath folder0 in
  let '(rootSuite, disabledProjects, configErrorsByModel) :=
    collect models workspaceFSPath in
  let rootItem := upstreamRootItem workspaceFSPath rootSuite in
  if Nat.eqb (List.length (u_children rootItem)) 0
     && Nat.eqb (List.length disabledProjects) 0
     && Nat.eqb (List.length configErrorsByModel) 0
  then Some (_deleteRootItem workspaceFolders workspaceFSPath t)
  else
    let (workspaceRootItem, t) := _createRootItemIfNeeded workspaceFolders folder0 t in
    let t := syncRoot workspaceRootItem (_syncSuite (_testGeneration t) rootItem) t in
    let t := syncRoot workspaceRootItem (_syncDisabledProjects disabledProjects) t in
    match
      _syncConfigErrors configErrorsByModel (rootChildren t workspaceRootItem)
        (nextObj t)
    with
    | Some (cs, n) => Some (setRootChildren workspaceRootItem cs (setNextObj n t))
    | None => None
    end.

(** Remove stale root items. *)
Definition removeStale (workspaceFolders : list Uri) (t : TestTree) : TestTree :=
  fold_left
    (fun t itemFsPath =>
       if existsb (fun f => String.eqb (uriToPath f) itemFsPath) workspaceFolders
       then t
       else _deleteRootItem workspaceFolders itemFsPath t)
    (JsMap.keys (_rootItems t)) t.

(** [_update()]; [models] is [this._models.enabledModels()].  It throws
    ([None]) when [_syncConfigErrors] throws for a folder.  With
    [workspaceFolders] undefined the first loop runs over nothing and the
    second throws as soon as a root is registered. *)
Definition _update (workspaceFolders : WorkspaceFolders) (models : list TestModel)
    (t : TestTree) : option TestTree :=
  match workspaceFolders with
  | Some folders =>
      match forEach (updateFolder folders models) folders t with
      | Some t => Some (_indexTree (removeStale folders t))
      | None => None
      end
  | None =>
      match JsMap.keys (_rootItems t) with
      | [] => Some (_indexTree t)
      | _ :: _ => None
      end
  end.

Definition testItemForTest (t : TestTree) (test0 : TestCase) : option TestItem :=
  JsMap.get (_testItemByTestId t) (test_id test0).

Definition testItemForFile (t : TestTree) (file0 : string) : option TestItem :=
  JsMap.get (_testItemByFile t) file0.

End Tree.

(** ** The other entry points *)

(** The test of [collectTestsInside] and of [_indexTree]: the item stands for
    a test case (or a test) that has its [test]. *)
Definition holdsTest (testItem : TestItem) : bool :=
  match testTreeItemSymbol testItem with
  | Some treeItem => isCaseOrTest (u_kind treeItem) && negb (isNone (u_test treeItem))
  | None => false
  end.

(** [collectTestsInside(rootItem)]: the visit stops at an item that holds a
    test and goes through the children of any other item, in their order. *)
Fixpoint collectTestsInside (rootItem : TestItem) : list TestItem :=
  match rootItem with
  | mkTestItem _ _ _ _ children0 _ _ _ _ _ _ _ _ _ =>
      if holdsTest rootItem then [rootItem]
      else flat_map collectTestsInside children0
  end.

(** [upstreamTreeItem(treeItem)], [undefined] being [None]. *)
Definition upstreamTreeItem (treeItem : TestItem) : option TreeItem :=
  testTreeItemSymbol treeItem.

(** ** Definitions used to state and prove the properties *)

(** [hasLocation] of [_syncSuite]. *)
Definition hasLocation (uChild : TreeItem) : bool :=
  truthy (jsOr (line (u_location uChild)) (column (u_location uChild))).

(** [uChildrenById] of [_syncSuite], without the recursive calls. *)
Definition uChildrenById (uItem : TreeItem) : JsMap.t TreeItem :=
  JsMap.ofList (map (fun c => (u_id c, c)) (u_children uItem)).

(** The same map with a value computed from every child next to it. *)
Definition decorate {A} (F : TreeItem -> A) (m : JsMap.t TreeItem)
  : JsMap.t (TreeItem * A) :=
  map (fun e => (fst e, (snd e, F (snd e)))) m.

Section Level.
Context {P : Platform}.
Variable gen : string.

(** What [vsChildrenById] holds for the children [vs]: a stripped id leads
    to the child stored under the id with the generation. *)
Definition Refs (byId : VsChildrenById) (vs : list TestItem) : Prop :=
  forall k, JsMap.get byId k =
            option_map (fun _ => _idWithGeneration gen k)
              (TestItemCollection.get vs (_idWithGeneration gen k)).

(** The three loops of [_syncSuite] as they act on the children alone. *)
Definition keepChild {A} (uById : JsMap.t A) (c : TestItem) : bool :=
  negb (startsWith (id c) gen)
  || JsMap.has uById (substringFrom (String.length gen) (id c)).

Definition ensureChild {A} (acc : list TestItem * nat) (e : string * (TreeItem * A))
  : list TestItem * nat :=
  let (vs, n) := acc in
  let ref := _idWithGeneration gen (fst e) in
  match TestItemCollection.get vs ref with
  | Some _ => (TestItemCollection.update vs ref (syncAttributes (fst (snd e))), n)
  | None =>
      let (vsChild, n') := newChild gen (fst e) (fst (snd e)) n in
      (TestItemCollection.update (TestItemCollection.add vs vsChild) ref
         (syncAttributes (fst (snd e))), n')
  end.

Definition recurseChild (acc : list TestItem * nat) (e : string * (TreeItem * Sync))
  : list TestItem * nat :=
  let (vs, n) := acc in
  let ref := _idWithGeneration gen (fst e) in
  match TestItemCollection.get vs ref with
  | Some vsChild =>
      let (cs, n') := snd (snd e) (children vsChild) n in
      (TestItemCollection.update vs ref (set_children cs), n')
  | None => (vs, n)
  end.

Definition nonGeneration (c : TestItem) : bool := negb (startsWith (id c) gen).

End Level.

(** ** The nodes of the presentation tree *)

Fixpoint nodes (item : TestItem) : list TestItem :=
  match item with
  | mkTestItem _ _ _ _ children0 _ _ _ _ _ _ _ _ _ =>
      item :: flat_map nodes children0
  end.

(** All the nodes below a collection of items. *)
Definition allNodes (c : list TestItem) : list TestItem := flat_map nodes c.

(** [x] is an object that [old] already held, under the same id. *)
Definition Carried (old : list TestItem) (x : TestItem) : Prop :=
  exists y, In y (allNodes old) /\ obj y = obj x /\ id y = id x.

(** Every node of [new] was in [old] or has an id with the generation. *)
Definition AddsOnlyGeneration (gen : string) (old new : list TestItem) : Prop :=
  forall x, In x (allNodes new) -> Carried old x \/ startsWith (id x) gen = true.

(** ** Well-formed and synced collections *)

(** The items that [_syncSuite] reaches through ids with the generation form
    keyed collections (distinct ids) at every level; an item under another id
    (a disabled project, a configuration error, the loading item) has no
    children. *)
Fixpoint wfItem (gen : string) (item : TestItem) : Prop :=
  match item with
  | mkTestItem _ id0 _ _ children0 _ _ _ _ _ _ _ _ _ =>
      if startsWith id0 gen
      then NoDup (map id children0)
           /\ (fix all (l : list TestItem) : Prop :=
                 match l with
                 | [] => True
                 | x :: l' => wfItem gen x /\ all l'
                 end) children0
      else children0 = []
  end.

Definition wfItems (gen : string) (c : list TestItem) : Prop :=
  NoDup (map id c) /\ Forall (wfItem gen) c.

(** One level of a collection in sync with the logical children [E]: every
    child with the generation answers to a logical child, and every logical
    child has its test item, with its attributes in sync and [snd] of the
    entry true of the item's children. *)
Definition levelSynced (gen : string)
    (E : JsMap.t (TreeItem * (list TestItem -> Prop))) (c : list TestItem) : Prop :=
  NoDup (map id c)
  /\ (forall i, In i c -> startsWith (id i) gen = true ->
        JsMap.has E (substringFrom (String.length gen) (id i)) = true)
  /\ Forall
       (fun e =>
          exists v, TestItemCollection.get c (_idWithGeneration gen (fst e)) = Some v
                    /\ syncAttributes (fst (snd e)) v = v
                    /\ snd (snd e) (children v))
       E.

(** The children [c] of a test item are in sync with the logical item
    [uItem], at every level. *)
Fixpoint Synced (gen : string) (uItem : TreeItem) : list TestItem -> Prop :=
  match uItem with
  | mkTreeItem _ _ _ _ _ _ _ uChildren =>
      levelSynced gen
        (JsMap.ofList (map (fun c => (u_id c, (c, Synced gen c))) uChildren))
  end.

(** ** The two auxiliary synchronizers as one loop

    Both keep, under one parent, the entries of a list [L]: the id of an
    entry is [idOf e], its item is built by [new e], and [prefix] tells the
    entries of this synchronizer from the other children. *)

Section Entries.
Context {E : Type}.
Variable idOf : E -> string.
Variable new : E -> nat -> TestItem * nat.

Definition entryStep (acc : list TestItem * JsSet.t * nat) (e : E)
  : list TestItem * JsSet.t * nat :=
  let '(cs, old, n) := acc in
  if JsSet.has old (idOf e)
  then (cs, JsSet.delete old (idOf e), n)
  else
    let (item, n') := new e n in
    (TestItemCollection.add cs item, old, n').

Definition syncEntries (prefix : string) (L : list E) : Sync :=
  fun rootChildren n =>
    let old :=
      JsSet.ofList
        (filter (fun item => startsWith item prefix) (map id rootChildren)) in
    let '(rootChildren, old, n) := fold_left entryStep L (rootChildren, old, n) in
    (fold_left TestItemCollection.delete old rootChildren, n).

End Entries.

(** The configuration errors of all models, each with its model. *)
Definition errorEntries (errorsByModel : ErrorsByModel)
  : list (TestModel * TestError) :=
  flat_map (fun me => map (pair (fst me)) (snd me)) errorsByModel.

Definition errorIdOf (me : TestModel * TestError) : string :=
  errorId (fst me) (snd me).

(** *** The pass when no position is rejected

    What [newErrorItem], [_syncConfigErrors], the body of the first loop of
    [_update] and [_update] compute when [new Position] does not throw
    (lemmas [newErrorItem_returns], [syncConfigErrors_returns],
    [updateFolder_returns] and [update_returns]). *)

Definition builtErrorItem `{P : Platform} (model : TestModel) (error0 : TestError)
    (n : nat) : TestItem * nat :=
  let message0 := errorMessage error0 in
  let errorId0 := errorId model error0 in
  let (item, n') :=
    createTestItem errorId0 ""
      (Some (Uri_file (match error_location error0 with
                       | Some l => file l
                       | None => configFile (config model)
                       end))) n in
  let item := set_error (Some message0) item in
  let item :=
    set_description
      (Some (path_relative (workspaceFolder (config model))
               (normalizePath (configFile (config model)))
             ++ " — " ++ message0)) item in
  let item := set_sortText (Some ("z" ++ errorId0)) item in
  let item :=
    match error_location error0 with
    | Some l =>
        let position := mkPosition (line l - 1) (column l - 1) in
        set_range (Some (mkRange position position)) item
    | None => item
    end in
  (set_configErrorSymbol (Some error0) item, n').

Definition newErrorItemOf `{P : Platform} (me : TestModel * TestError) (n : nat)
  : TestItem * nat :=
  builtErrorItem (fst me) (snd me) n.

(** The position of the error is one that [new Position] accepts. *)
Definition positioned (error0 : TestError) : bool :=
  match error_location error0 with
  | Some l => negb ((line l - 1 <? 0)%Z || (column l - 1 <? 0)%Z)
  | None => true
  end.

(** One turn of the inner loop of [_syncConfigErrors]. *)
Definition errorStep `{P : Platform} (acc : list TestItem * JsSet.t * nat)
    (me : TestModel * TestError) : option (list TestItem * JsSet.t * nat) :=
  let '(cs, old, n) := acc in
  if JsSet.has old (errorIdOf me)
  then Some (cs, JsSet.delete old (errorIdOf me), n)
  else
    match newErrorItem (fst me) (snd me) n with
    | Some (item, n') => Some (TestItemCollection.add cs item, old, n')
    | None => None
    end.

Definition syncConfigErrorsReturned `{P : Platform} (errorsByModel : ErrorsByModel)
  : Sync :=
  syncEntries errorIdOf newErrorItemOf "[error] " (errorEntries errorsByModel).

Section Returned.
Context {P : Platform}.

Definition updateFolderReturned (workspaceFolders : list Uri) (models : list TestModel)
    (t : TestTree) (folder0 : Uri) : TestTree :=
  let workspaceFSPath := uriToPath folder0 in
  let '(rootSuite, disabledProjects, configErrorsByModel) :=
    collect models workspaceFSPath in
  let rootItem := upstreamRootItem workspaceFSPath rootSuite in
  if Nat.eqb (List.length (u_children rootItem)) 0
     && Nat.eqb (List.length disabledProjects) 0
     && Nat.eqb (List.length configErrorsByModel) 0
  then _deleteRootItem workspaceFolders workspaceFSPath t
  else
    let (workspaceRootItem, t) := _createRootItemIfNeeded workspaceFolders folder0 t in
    let t := syncRoot workspaceRootItem (_syncSuite (_testGeneration t) rootItem) t in
    let t := syncRoot workspaceRootItem (_syncDisabledProjects disabledProjects) t in
    syncRoot workspaceRootItem (syncConfigErrorsReturned configErrorsByModel) t.

Definition updateReturned (workspaceFolders : WorkspaceFolders) (models : list TestModel)
    (t : TestTree) : option TestTree :=
  match workspaceFolders with
  | Some folders =>
      let t := fold_left (updateFolderReturned folders models) folders t in
      Some (_indexTree (removeStale folders t))
  | None =>
      match JsMap.keys (_rootItems t) with
      | [] => Some (_indexTree t)
      | _ :: _ => None
      end
  end.

End Returned.

Definition sortedProjects `{P : Platform} (disabledProjects : list TestProject)
  : list TestProject :=
  sort (fun a b => localeCompare (disabledSortKey a) (disabledSortKey b))
    disabledProjects.

(** ** Generations *)

(** [createGuid()] of ./utils is not among the sources; what the properties
    below need of the guid is that it is written in hexadecimal digits. *)
Definition isHexDigit (c : ascii) : bool :=
  existsb (Ascii.eqb c) (list_ascii_of_string "0123456789abcdef").

Fixpoint isHex (s : string) : bool :=
  match s with
  | EmptyString => true
  | String c s' => isHexDigit c && isHex s'
  end.

(** ** The ids of the tree

    An id that does not carry the generation is that of a disabled project,
    of a configuration error, or of the loading item. *)
Definition synthetic (k : string) : bool :=
  startsWith k "[disabled] " || startsWith k "[error] " || String.eqb k "loading".

Definition Classified (gen : string) (c : list TestItem) : Prop :=
  forall v, In v (allNodes c) ->
    startsWith (id v) gen = true \/ synthetic (id v) = true.

(** ** The content of a workspace folder in one pass *)

Section Scope.
Context {P : Platform}.

(** [upstreamTree.rootItem] for the folder. *)
Definition scopeRootItem (models : list TestModel) (fsPath : string) : TreeItem :=
  upstreamRootItem fsPath (fst (fst (collect models fsPath))).

Definition scopeDisabled (models : list TestModel) (fsPath : string)
  : list TestProject :=
  snd (fst (collect models fsPath)).

Definition scopeErrors (models : list TestModel) (fsPath : string) : ErrorsByModel :=
  snd (collect models fsPath).

(** The test of line 116. *)
Definition scopeEmpty (models : list TestModel) (fsPath : string) : bool :=
  Nat.eqb (List.length (u_children (scopeRootItem models fsPath))) 0
  && Nat.eqb (List.length (scopeDisabled models fsPath)) 0
  && Nat.eqb (List.length (scopeErrors models fsPath)) 0.

(** The ids of the logical nodes below [uItem]. *)
Fixpoint uIds (uItem : TreeItem) : list string :=
  match uItem with
  | mkTreeItem _ _ _ _ _ _ _ uChildren =>
      flat_map (fun c => u_id c :: uIds c) uChildren
  end.

(** The logical ids of a pass: the ids of the roots, which are the paths of
    the workspace folders, and the ids of the nodes of their trees. *)
Definition logicalIds (folders : list Uri) (models : list TestModel) : list string :=
  (map uriToPath folders
   ++ flat_map (fun f => uIds (scopeRootItem models (uriToPath f))) folders)%list.

Definition foldersOf (workspaceFolders : WorkspaceFolders) : list Uri :=
  match workspaceFolders with
  | Some folders => folders
  | None => []
  end.


(** ** The states of a session *)

(** The trees that the constructor, [startedLoading], [finishedLoading] and
    [_update] produce. *)
Inductive Alive : TestTree -> Prop :=
| alive_new : Alive TestTree_new
| alive_started workspaceFolders guid t :
    Alive t -> Alive (startedLoading workspaceFolders guid t)
| alive_finished t : Alive t -> Alive (finishedLoading t)
| alive_updated workspaceFolders models t t' :
    Alive t -> _update workspaceFolders models t = Some t' -> Alive t'.

(** Two lists of workspace folders call for roots of the same kind: each
    of them has exactly one folder, or none of them has. *)
Definition sameRoots (workspaceFolders workspaceFolders' : WorkspaceFolders) : Prop :=
  Nat.eqb (List.length (foldersOf workspaceFolders)) 1
  = Nat.eqb (List.length (foldersOf workspaceFolders')) 1.

(** The trees of one session: [startedLoading] opens it with the
    generation of [guid]; [finishedLoading] and update passes follow.  The
    workspace folders may change from one pass to the next as long as they
    call for roots of the same kind.  Only passes that return are
    followed: what a pass that throws leaves behind is not described.
    [Session workspaceFolders guid t]: [t] is a tree of a session of
    [guid] whose latest folders are [workspaceFolders]. *)
Inductive Session : WorkspaceFolders -> string -> TestTree -> Prop :=
| session_started workspaceFolders guid t :
    Alive t -> Session workspaceFolders guid (startedLoading workspaceFolders guid t)
| session_finished workspaceFolders guid t :
    Session workspaceFolders guid t ->
    Session workspaceFolders guid (finishedLoading t)
| session_updated workspaceFolders workspaceFolders' guid models t t' :
    Session workspaceFolders guid t ->
    sameRoots workspaceFolders workspaceFolders' ->
    _update workspaceFolders' models t = Some t' ->
    Session workspaceFolders' guid t'.

(** What holds of the trees of a session. *)
Record WfTree (folders : list Uri) (gen : string) (t : TestTree) : Prop := {
  wf_gen : _testGeneration t = gen;
  wf_detached : detached t = [];
  wf_loading : _loadingItem t = fst (createTestItem "loading" "Loading…" None 0);
  wf_next : 1 <= nextObj t;
  wf_items : wfItems gen (items t);
  wf_keys : NoDup (JsMap.keys (_rootItems t));
  wf_active : forall p, In p (JsMap.keys (_rootItems t)) ->
                        In p (map uriToPath folders);
  wf_single :
    List.length folders = 1 ->
    forall p r, In (p, r) (_rootItems t) ->
                exists o f, r = FlatRoot o (_idWithGeneration gen p) f;
  wf_multi :
    List.length folders <> 1 ->
    NoDup (map obj (items t))
    /\ (forall i, In i (items t) -> obj i < nextObj t)
    /\ (forall p r, In (p, r) (_rootItems t) ->
          exists i, r = NestedRoot (obj i) /\ In i (items t)
                    /\ id i = _idWithGeneration gen p
                    /\ label i = path_basename p)
    /\ (forall i, In i (items t) -> startsWith (id i) gen = true ->
          exists p, In p (JsMap.keys (_rootItems t))
                    /\ id i = _idWithGeneration gen p);
  wf_ids : Classified gen (items t) }.

(** The children of a root after [_syncSuite], [_syncDisabledProjects] and
    [_syncConfigErrors], when the last one returns. *)
Definition syncScope (gen : string) (uItem : TreeItem)
    (disabledProjects : list TestProject) (errorsByModel : ErrorsByModel) : Sync :=
  fun c n =>
    let (c1, n1) := _syncSuite gen uItem c n in
    let (c2, n2) := _syncDisabledProjects disabledProjects c1 n1 in
    syncConfigErrorsReturned errorsByModel c2 n2.

(** The children [c] of a root hold what the folder has: the logical tree,
    in sync, and exactly its disabled projects and configuration errors. *)
Definition ScopeSynced (gen : string) (uItem : TreeItem)
    (disabledProjects : list TestProject) (errorsByModel : ErrorsByModel)
    (c : list TestItem) : Prop :=
  Synced gen uItem c
  /\ (forall k, startsWith k "[disabled] " = true ->
        (In k (map id c) <-> In k (map disabledProjectId disabledProjects)))
  /\ (forall k, startsWith k "[error] " = true ->
        (In k (map id c) <-> In k (map errorIdOf (errorEntries errorsByModel)))).

(** The folder [fsPath] has been brought up to date in [t]. *)
Definition ScopeDone (folders : list Uri) (models : list TestModel) (gen : string)
    (t : TestTree) (fsPath : string) : Prop :=
  if scopeEmpty models fsPath
  then JsMap.get (_rootItems t) fsPath = None
       /\ (if Nat.eqb (List.length folders) 1
           then forall i, In i (items t) ->
                  String.eqb (id i) "loading" || String.eqb (id i) "disabled" = true
           else TestItemCollection.get (items t) (_idWithGeneration gen fsPath) = None)
  else exists r,
      JsMap.get (_rootItems t) fsPath = Some r
      /\ ScopeSynced gen (scopeRootItem models fsPath) (scopeDisabled models fsPath)
           (scopeErrors models fsPath) (rootChildren t r).

End Scope.

(** ** Auxiliary notions of the proofs *)

(** What every live tree keeps: the loading item of the constructor, and
    an allocator that is past it. *)
Definition Kept (t : TestTree) : Prop :=
  _loadingItem t = fst (createTestItem "loading" "Loading…" None 0)
  /\ 1 <= nextObj t.


(** Reduces the projections of a tree that is given by its fields. *)
Ltac fields :=
  cbn [_testGeneration _rootItems items detached _loadingItem _testItemByTestId
       _testItemByFile nextObj fst snd].

(** What a pass over the folder [p] leaves alone of another folder [q]:
    its registration, the children of its root, and the absence of its
    root item. *)
Definition Apart (gen : string) (t t' : TestTree) (p : string) : Prop :=
  forall q, q <> p ->
    JsMap.get (_rootItems t') q = JsMap.get (_rootItems t) q
    /\ (forall r, JsMap.get (_rootItems t) q = Some r ->
          rootChildren t' r = rootChildren t r)
    /\ (TestItemCollection.get (items t) (_idWithGeneration gen q) = None ->
        TestItemCollection.get (items t') (_idWithGeneration gen q) = None).

(** What is in the indices was in them before or is one of [l]. *)
Definition Indexed (ix ix' : JsMap.t TestItem * JsMap.t TestItem)
    (l : list TestItem) : Prop :=
  forall v,
    (In v (JsMap.values (fst ix')) -> In v (JsMap.values (fst ix)) \/ In v l)
    /\ (In v (JsMap.values (snd ix')) -> In v (JsMap.values (snd ix)) \/ In v l).

(** The root of the path [p] is gone: no root is registered for [p] and the
    controller has no item under the id of the root. *)
Definition Gone (gen : string) (t : TestTree) (p : string) : Prop :=
  JsMap.get (_rootItems t) p = None
  /\ TestItemCollection.get (items t) (_idWithGeneration gen p) = None.

(** No root is left for the path [p]: none is registered, and its items are
    out of the controller, in the way of [_deleteRootItem] for the number of
    folders. *)
Definition Removed (folders : list Uri) (gen : string) (t : TestTree) (p : string)
  : Prop :=
  JsMap.get (_rootItems t) p = None
  /\ (if Nat.eqb (List.length folders) 1
      then forall i, In i (items t) ->
             String.eqb (id i) "loading" || String.eqb (id i) "disabled" = true
      else TestItemCollection.get (items t) (_idWithGeneration gen p) = None).

(** The registry after a pass, for the folder of path [p]. *)
Definition RootDone `{P : Platform} (folders : list Uri) (models : list TestModel)
    (gen : string) (t : TestTree) (p : string) : Prop :=
  if scopeEmpty models p
  then Removed folders gen t p
  else exists r, JsMap.get (_rootItems t) p = Some r.

(** [t] with the root [r] registered for [p], ahead of the roots of [t]. *)
Definition withRoot (p : string) (r : RootItem) (t : TestTree) : TestTree :=
  mkTestTree (_testGeneration t) ((p, r) :: _rootItems t) (items t) (detached t)
    (_loadingItem t) (_testItemByTestId t) (_testItemByFile t) (nextObj t).

(** The state of the loop of [syncEntries] over the entries [L] that it has
    gone through, from the children [c0], the old ids [old0] and the
    allocator [n0]. *)
Section EntriesLoop.
Context {E : Type}.
Variable idOf : E -> string.
Variable new : E -> nat -> TestItem * nat.
Variable prefix : string.

Record LoopOk (c0 : list TestItem) (old0 : list string) (n0 : nat)
    (L : list E) (c : list TestItem) (old : list string) (n : nat) : Prop := {
  loop_old : forall k, In k old <-> In k old0 /\ ~ In k (map idOf L);
  loop_ids : forall k, In k (TestItemCollection.ids c) <->
                       In k (TestItemCollection.ids c0) \/
                       (In k (map idOf L) /\ ~ In k old0);
  loop_items : forall x, In x c ->
                 In x c0 \/ exists e m, In e L /\ x = fst (new e m);
  loop_get : forall k, startsWith k prefix = false ->
               TestItemCollection.get c k = TestItemCollection.get c0 k;
  loop_nodup : NoDup (TestItemCollection.ids c0) -> NoDup (TestItemCollection.ids c);
  loop_next : n0 <= n }.

End EntriesLoop.



(** ** The indices *)

Section IndexNotions.
Context {P : Platform}.

(** The entries of the two indices: a test id leads to an item that holds
    a test with that id, a path to an item without range whose uri has
    that path; and the items are among [l]. *)
Definition byIdOk (l : list TestItem) (k : string) (v : TestItem) : Prop :=
  In v l
  /\ exists u T, testTreeItemSymbol v = Some u
                 /\ isCaseOrTest (u_kind u) = true
                 /\ u_test u = Some T /\ test_id T = k.

Definition byFileOk (l : list TestItem) (k : string) (v : TestItem) : Prop :=
  In v l /\ exists u, uri v = Some u /\ uriToPath u = k /\ range v = None.

Definition IndexSound (l : list TestItem)
    (ix : JsMap.t TestItem * JsMap.t TestItem) : Prop :=
  (forall k v, In (k, v) (fst ix) -> byIdOk l k v)
  /\ (forall k v, In (k, v) (snd ix) -> byFileOk l k v).

(** Keys only come into the indices, and the indices cover the items of
    [l]. *)
Definition Grown (ix ix' : JsMap.t TestItem * JsMap.t TestItem) : Prop :=
  (forall k, JsMap.has (fst ix) k = true -> JsMap.has (fst ix') k = true)
  /\ (forall k, JsMap.has (snd ix) k = true -> JsMap.has (snd ix') k = true).

Definition Covered (l : list TestItem)
    (ix : JsMap.t TestItem * JsMap.t TestItem) : Prop :=
  (forall v u T, In v l -> testTreeItemSymbol v = Some u ->
     isCaseOrTest (u_kind u) = true -> u_test u = Some T ->
     JsMap.has (fst ix) (test_id T) = true)
  /\ (forall v u, In v l -> uri v = Some u -> range v = None ->
        JsMap.has (snd ix) (uriToPath u) = true).

End IndexNotions.

(** ** A sample platform and sample inputs

    A platform to run the tree on: paths are their own uris, [localeCompare]
    compares code units, and the upstream tree turns every suite into a tree
    item whose id is the suite's title (a suite of type ["case"] into a test
    case with that id, one of type ["file"] into a file group). *)

Module Sample.

Fixpoint lastSegment (acc s : string) : string :=
  match s with
  | EmptyString => acc
  | String c s' =>
      if Ascii.eqb c "/" then lastSegment EmptyString s'
      else lastSegment (acc ++ String c EmptyString) s'
  end.

Definition compareStrings (a b : string) : Z :=
  match String.compare a b with
  | Lt => (-1)%Z
  | Eq => 0%Z
  | Gt => 1%Z
  end.

Fixpoint treeItemOf (s : TeleSuite) : TreeItem :=
  match s with
  | mkTeleSuite title0 type0 suites0 =>
      mkTreeItem title0
        (if String.eqb type0 "case" then case else group)
        (if String.eqb type0 "case" then None
         else if String.eqb type0 "file" then Some fileKind else Some describe)
        title0 (mkLocation title0 0 0) []
        (if String.eqb type0 "case" then Some (mkTestCase title0) else None)
        (map treeItemOf suites0)
  end.

Definition rootItemOf (workspaceFSPath : string) (rootSuite : TeleSuite) : TreeItem :=
  mkTreeItem workspaceFSPath group (Some folder) "" (mkLocation workspaceFSPath 0 0)
    [] None (flat_map (fun s => u_children (treeItemOf s)) (suites rootSuite)).

#[export] Instance platform : Platform := {
  uriToPath := fun u => u;
  Uri_file := fun p => p;
  normalizePath := fun p => p;
  path_basename := lastSegment EmptyString;
  path_relative := fun _ to => to;
  localeCompare := compareStrings;
  upstreamRootItem := rootItemOf }.

Definition fileSuite (title0 : string) (cases : list string) : TeleSuite :=
  mkTeleSuite title0 "file" (map (fun c => mkTeleSuite c "case" []) cases).

Definition projectSuite (files : list TeleSuite) : TeleSuite :=
  mkTeleSuite "project" "project" files.

Definition cfg (ws : string) : Config := mkConfig ws (ws ++ "/playwright.config.ts").

Definition enabledProject (ws : string) (files : list TeleSuite) : TestProject :=
  mkTestProject "chromium" true (projectSuite files) (cfg ws).

Definition disabledProject (ws name0 : string) : TestProject :=
  mkTestProject name0 false (projectSuite []) (cfg ws).

Definition anError (msg : string) : TestError :=
  mkTestError (Some msg) None None.

(** A file with one test case declared at the given line and column. *)
Definition caseAt (line0 column0 : Z) : TreeItem :=
  mkTreeItem "test:a" case None "a" (mkLocation "a.spec.ts" line0 column0) []
    (Some (mkTestCase "a")) [].

(** An item under the id of [caseAt] in the generation ["0a1b:"], as a
    former pass could have left it. *)
Definition oldCase : TestItem :=
  set_canResolveChildren true (fst (createTestItem "0a1b:test:a" "old label" None 3)).

Definition fileWith (cases : list TreeItem) : TreeItem :=
  mkTreeItem "a.spec.ts" group (Some fileKind) "a.spec.ts"
    (mkLocation "a.spec.ts" 0 0) [] None cases.

(** Sample sessions: the guid, the tree after [startedLoading], and an
    update pass that goes on from the result of another. *)
Definition guid0 : string := "0a1b".

Definition started (workspaceFolders : WorkspaceFolders) : TestTree :=
  startedLoading workspaceFolders guid0 TestTree_new.

Definition andThen (workspaceFolders : WorkspaceFolders) (models : list TestModel)
    (t : option TestTree) : option TestTree :=
  match t with
  | Some t => _update workspaceFolders models t
  | None => None
  end.

(** The folder [/ws] with a file of two tests and a disabled project. *)
Definition modelWs : TestModel :=
  mkTestModel (cfg "/ws") []
    [enabledProject "/ws" [fileSuite "fileA" ["testX"; "testY"]];
     disabledProject "/ws" "firefox"].

(** The tree after a first pass over [modelWs], and in it the item of the
    disabled project. *)
Definition afterWs : TestTree :=
  match _update (Some ["/ws"]) [modelWs] (started (Some ["/ws"])) with
  | Some t => t
  | None => TestTree_new
  end.

Definition disabledItem : TestItem :=
  nth 4 (allNodes (items afterWs)) (_loadingItem afterWs).

(** In the same tree, the item of the test [testX]. *)
Definition testXItem : TestItem :=
  nth 2 (allNodes (items afterWs)) (_loadingItem afterWs).

(** The same folder once the test [testY] is gone. *)
Definition modelWsLater : TestModel :=
  mkTestModel (cfg "/ws") []
    [enabledProject "/ws" [fileSuite "fileA" ["testX"]];
     disabledProject "/ws" "firefox"].

(** A model that reports the same configuration error twice. *)
Definition modelTwice : TestModel :=
  mkTestModel (cfg "/ws") [anError "boom"; anError "boom"] [].

(** A file whose logical id reads like the id of a disabled project. *)
Definition modelAlike : TestModel :=
  mkTestModel (cfg "/ws") []
    [enabledProject "/ws" [fileSuite "[disabled] firefox - /ws/playwright.config.ts" []];
     disabledProject "/ws" "firefox"].

(** Two folders: [/a] has a file with a test, [/b] a configuration error. *)
Definition modelA : TestModel :=
  mkTestModel (cfg "/a") [] [enabledProject "/a" [fileSuite "fileA" ["testX"]]].

Definition modelB : TestModel := mkTestModel (cfg "/b") [anError "bad"] [].

(** The folder [/b] with a file and a test of its own. *)
Definition modelBTests : TestModel :=
  mkTestModel (cfg "/b") [] [enabledProject "/b" [fileSuite "fileB" ["testY"]]].

(** A configuration error located in the configuration file of [/ws], and
    a model with one such error and no project. *)
Definition errorAt (line0 column0 : Z) : TestError :=
  mkTestError (Some "bad option") None
    (Some (mkLocation "/ws/playwright.config.ts" line0 column0)).

Definition modelLocated (line0 column0 : Z) : TestModel :=
  mkTestModel (cfg "/ws") [errorAt line0 column0] [].

End Sample.

(** * Properties *)

(** ** Strings *)

Section StringFacts.

Lemma prefix_nil (s : string) : String.prefix EmptyString s = true.
Proof. destruct s; reflexivity. Qed.

Lemma prefix_cons (a b : ascii) (p s : string) :
  String.prefix (String a p) (String b s) = Ascii.eqb a b && String.prefix p s.
Proof.
  simpl. destruct (ascii_dec a b) as [->|ne].
  - now rewrite Ascii.eqb_refl.
  - apply Ascii.eqb_neq in ne. now rewrite ne.
Qed.

Lemma prefix_append (p s : string) : String.prefix p (p ++ s) = true.
Proof.
  induction p as [|a p IH]; [apply prefix_nil|].
  cbn [append]. now rewrite prefix_cons, Ascii.eqb_refl, IH.
Qed.

Lemma substringFrom_append (p s : string) :
  substringFrom (String.length p) (p ++ s) = s.
Proof. induction p as [|a p IH]; [reflexivity| exact IH]. Qed.

Lemma prefix_strip (p s : string) :
  String.prefix p s = true -> p ++ substringFrom (String.length p) s = s.
Proof.
  revert s. induction p as [|a p IH]; intros s H; [reflexivity|].
  destruct s as [|b s]; [discriminate|].
  rewrite prefix_cons in H. apply andb_prop in H as [Hab Hp].
  apply Ascii.eqb_eq in Hab. subst b. cbn. now rewrite IH.
Qed.

Lemma append_inj (p a b : string) : p ++ a = p ++ b -> a = b.
Proof.
  induction p as [|c p IH]; cbn; intros H; [exact H|].
  injection H as H. now apply IH.
Qed.

Lemma append_assoc (a b c : string) : (a ++ b) ++ c = a ++ (b ++ c).
Proof. induction a as [|x a IH]; cbn; [reflexivity| now rewrite IH]. Qed.

Lemma startsWith_idWithGeneration (gen id0 : string) :
  startsWith (_idWithGeneration gen id0) gen = true.
Proof. apply prefix_append. Qed.

Lemma idWithGeneration_inj (gen a b : string) :
  _idWithGeneration gen a = _idWithGeneration gen b -> a = b.
Proof. apply append_inj. Qed.

Lemma idWithGeneration_strip (gen s : string) :
  startsWith s gen = true ->
  _idWithGeneration gen (substringFrom (String.length gen) s) = s.
Proof. apply prefix_strip. Qed.

Lemma strip_idWithGeneration (gen id0 : string) :
  substringFrom (String.length gen) (_idWithGeneration gen id0) = id0.
Proof. apply substringFrom_append. Qed.

(** The first character of a string that starts with [p] is that of [p]. *)
Lemma prefix_head (a : ascii) (p s : string) :
  String.prefix (String a p) s = true -> exists s', s = String a s'.
Proof.
  destruct s as [|b s]; [discriminate|].
  rewrite prefix_cons. intros H. apply andb_prop in H as [Hab _].
  apply Ascii.eqb_eq in Hab. subst. now exists s.
Qed.

Lemma eqb_sym_string (a b : string) : String.eqb a b = String.eqb b a.
Proof.
  destruct (String.eqb a b) eqn:E.
  - apply String.eqb_eq in E. subst. now rewrite String.eqb_refl.
  - destruct (String.eqb b a) eqn:E'; [|reflexivity].
    apply String.eqb_eq in E'. subst. now rewrite String.eqb_refl in E.
Qed.

End StringFacts.

(** ** JavaScript sets *)

Section JsSetFacts.

Lemma JsSet_has_In (s : JsSet.t) (k : string) :
  JsSet.has s k = true <-> In k s.
Proof.
  unfold JsSet.has. rewrite existsb_exists. split.
  - intros [x [Hx E]]. apply String.eqb_eq in E. now subst.
  - intros H. exists k. split; [exact H| apply String.eqb_refl].
Qed.

Lemma JsSet_add_In (s : JsSet.t) (k x : string) :
  In x (JsSet.add s k) <-> In x s \/ x = k.
Proof.
  unfold JsSet.add. destruct (JsSet.has s k) eqn:E.
  - apply JsSet_has_In in E. split; [auto|]. intros [H| ->]; assumption.
  - rewrite in_app_iff. cbn. intuition.
Qed.

Lemma JsSet_ofList_aux (l : list string) (acc : JsSet.t) (x : string) :
  In x (fold_left JsSet.add l acc) <-> In x acc \/ In x l.
Proof.
  revert acc. induction l as [|k l IH]; intros acc; cbn.
  - intuition.
  - rewrite IH, JsSet_add_In. intuition.
Qed.

Lemma JsSet_ofList_In (l : list string) (x : string) :
  In x (JsSet.ofList l) <-> In x l.
Proof. unfold JsSet.ofList. rewrite JsSet_ofList_aux. cbn. intuition. Qed.

Lemma JsSet_add_NoDup (s : JsSet.t) (k : string) :
  NoDup s -> NoDup (JsSet.add s k).
Proof.
  intros H. unfold JsSet.add. destruct (JsSet.has s k) eqn:E; [exact H|].
  apply NoDup_app; repeat split; try assumption.
  - constructor; [intros []| constructor].
  - intros x Hx [<-|[]]. apply JsSet_has_In in Hx. congruence.
Qed.

Lemma JsSet_ofList_NoDup (l : list string) : NoDup (JsSet.ofList l).
Proof.
  unfold JsSet.ofList. assert (H : NoDup (@nil string)) by constructor.
  revert H. generalize (@nil string) as acc.
  induction l as [|k l IH]; intros acc H; cbn; [exact H|].
  apply IH, JsSet_add_NoDup, H.
Qed.

Lemma JsSet_delete_In (s : JsSet.t) (k x : string) :
  In x (JsSet.delete s k) <-> In x s /\ x <> k.
Proof.
  unfold JsSet.delete. rewrite filter_In, negb_true_iff, String.eqb_neq.
  reflexivity.
Qed.

(** A set built from a list without duplicates is that list. *)
Lemma JsSet_ofList_NoDup_id_aux (l : list string) (acc : JsSet.t) :
  NoDup (acc ++ l)%list -> fold_left JsSet.add l acc = (acc ++ l)%list.
Proof.
  revert acc. induction l as [|k l IH]; intros acc H; cbn.
  - now rewrite app_nil_r.
  - assert (E : JsSet.has acc k = false).
    { destruct (JsSet.has acc k) eqn:E; [|reflexivity].
      apply JsSet_has_In in E. apply NoDup_remove_2 in H.
      exfalso. apply H. apply in_or_app. now left. }
    unfold JsSet.add at 2. rewrite E.
    rewrite IH; rewrite <- app_assoc; [reflexivity| exact H].
Qed.

Lemma JsSet_ofList_NoDup_id (l : list string) :
  NoDup l -> JsSet.ofList l = l.
Proof. intros H. unfold JsSet.ofList. now rewrite JsSet_ofList_NoDup_id_aux. Qed.

End JsSetFacts.

(** ** [areEqualTags] *)

Section Tags.

Lemma areEqualTags_spec (uTags : list string) (vsTags : list TestTag) :
  areEqualTags uTags vsTags = true <->
  List.length uTags = List.length vsTags /\
  (forall x, In x (map tag_id vsTags) -> In x uTags).
Proof.
  unfold areEqualTags.
  destruct (Nat.eqb (List.length uTags) (List.length vsTags)) eqn:E; cbn.
  - apply Nat.eqb_eq in E. rewrite forallb_forall. split.
    + intros H. split; [exact E|]. intros x Hx.
      apply in_map_iff in Hx as [tag [<- Htag]].
      apply JsSet_ofList_In, JsSet_has_In, H, Htag.
    + intros [_ H] tag Htag.
      apply JsSet_has_In, JsSet_ofList_In, H, in_map, Htag.
  - apply Nat.eqb_neq in E. split; [discriminate| intros [H _]; contradiction].
Qed.

Lemma areEqualTags_own_tags (uTags : list string) :
  areEqualTags uTags (map mkTestTag uTags) = true.
Proof.
  apply areEqualTags_spec. split.
  - now rewrite length_map.
  - intros x. rewrite map_map. cbn. now rewrite map_id.
Qed.

End Tags.

(** ** Collections of test items *)

Section CollectionFacts.

Import TestItemCollection.

Lemma get_Some_In (c : list TestItem) (k : string) (i : TestItem) :
  get c k = Some i -> In i c /\ id i = k.
Proof.
  induction c as [|j c IH]; cbn; [discriminate|].
  destruct (String.eqb (id j) k) eqn:E.
  - intros [= ->]. apply String.eqb_eq in E. auto.
  - intros H. destruct (IH H). auto.
Qed.

Lemma get_None_iff (c : list TestItem) (k : string) :
  get c k = None <-> ~ In k (ids c).
Proof.
  induction c as [|j c IH]; cbn; [intuition|].
  destruct (String.eqb (id j) k) eqn:E.
  - apply String.eqb_eq in E. split; [discriminate| intuition].
  - apply String.eqb_neq in E. rewrite IH. intuition.
Qed.

Lemma get_In_ids (c : list TestItem) (k : string) :
  In k (ids c) -> exists i, get c k = Some i.
Proof.
  intros H. destruct (get c k) eqn:E; [eauto|].
  apply get_None_iff in E. contradiction.
Qed.

Lemma get_NoDup_In (c : list TestItem) (i : TestItem) :
  NoDup (ids c) -> In i c -> get c (id i) = Some i.
Proof.
  induction c as [|j c IH]; cbn; [intros _ []|].
  intros Hnd [->|Hin].
  - now rewrite String.eqb_refl.
  - inversion Hnd as [|? ? Hj Hc]; subst.
    destruct (String.eqb (id j) (id i)) eqn:E; [|auto].
    apply String.eqb_eq in E. exfalso. apply Hj. rewrite E.
    now apply in_map.
Qed.

Lemma add_absent (c : list TestItem) (i : TestItem) :
  ~ In (id i) (ids c) -> add c i = (c ++ [i])%list.
Proof.
  induction c as [|j c IH]; cbn; [reflexivity|]. intros H.
  destruct (String.eqb (id j) (id i)) eqn:E.
  - apply String.eqb_eq in E. intuition.
  - rewrite IH; intuition.
Qed.

Lemma add_ids_present (c : list TestItem) (i : TestItem) :
  In (id i) (ids c) -> ids (add c i) = ids c.
Proof.
  induction c as [|j c IH]; cbn; [intros []|]. intros H.
  destruct (String.eqb (id j) (id i)) eqn:E; cbn.
  - apply String.eqb_eq in E. now rewrite E.
  - f_equal. apply IH. destruct H as [H|H]; [|exact H].
    apply String.eqb_neq in E. congruence.
Qed.

Lemma add_In (c : list TestItem) (i x : TestItem) :
  In x (add c i) -> x = i \/ In x c.
Proof.
  induction c as [|j c IH]; cbn; [intuition|].
  destruct (String.eqb (id j) (id i)); cbn; intuition.
Qed.

Lemma add_In_new (c : list TestItem) (i : TestItem) : In i (add c i).
Proof.
  induction c as [|j c IH]; cbn; [auto|].
  destruct (String.eqb (id j) (id i)); cbn; auto.
Qed.

Lemma add_In_other (c : list TestItem) (i x : TestItem) :
  In x c -> id x <> id i -> In x (add c i).
Proof.
  induction c as [|j c IH]; cbn; [intros []|].
  intros [->|H] Hne.
  - apply String.eqb_neq in Hne. rewrite Hne. now left.
  - destruct (String.eqb (id j) (id i)); cbn; auto.
Qed.

Lemma add_ids_incl (c : list TestItem) (i : TestItem) (k : string) :
  In k (ids (add c i)) <-> k = id i \/ In k (ids c).
Proof.
  induction c as [|j c IH]; cbn; [intuition|].
  destruct (String.eqb (id j) (id i)) eqn:E; cbn.
  - apply String.eqb_eq in E. rewrite E. intuition.
  - rewrite IH. intuition.
Qed.

Lemma add_NoDup (c : list TestItem) (i : TestItem) :
  NoDup (ids c) -> NoDup (ids (add c i)).
Proof.
  induction c as [|j c IH]; cbn; intros H.
  - constructor; [intros []| constructor].
  - inversion H as [|? ? Hj Hc]; subst.
    destruct (String.eqb (id j) (id i)) eqn:E; cbn.
    + apply String.eqb_eq in E. rewrite <- E. now constructor.
    + apply String.eqb_neq in E. constructor; [|auto].
      intros Hin. apply add_ids_incl in Hin as [Hin|Hin]; auto.
Qed.

Lemma delete_In (c : list TestItem) (k : string) (x : TestItem) :
  In x (delete c k) <-> In x c /\ id x <> k.
Proof.
  unfold delete. now rewrite filter_In, negb_true_iff, String.eqb_neq.
Qed.

Lemma delete_ids (c : list TestItem) (k x : string) :
  In x (ids (delete c k)) <-> In x (ids c) /\ x <> k.
Proof.
  unfold ids. rewrite !in_map_iff. split.
  - intros [i [<- Hi]]. apply delete_In in Hi as [Hi Hne]. eauto.
  - intros [[i [<- Hi]] Hne]. exists i. split; [reflexivity|].
    now apply delete_In.
Qed.

Lemma ids_filter_NoDup (f : TestItem -> bool) (c : list TestItem) :
  NoDup (ids c) -> NoDup (ids (filter f c)).
Proof.
  induction c as [|j c IH]; cbn; [auto|]. intros H.
  inversion H as [|? ? Hj Hc]; subst.
  destruct (f j); cbn; [|auto]. constructor; [|auto].
  intros Hin. apply Hj. apply in_map_iff in Hin as [x [E Hx]].
  apply filter_In in Hx as [Hx _]. rewrite <- E. now apply in_map.
Qed.

Lemma delete_NoDup (c : list TestItem) (k : string) :
  NoDup (ids c) -> NoDup (ids (delete c k)).
Proof. apply ids_filter_NoDup. Qed.

Lemma delete_absent (c : list TestItem) (k : string) :
  ~ In k (ids c) -> delete c k = c.
Proof.
  unfold delete. induction c as [|j c IH]; cbn; [reflexivity|]. intros H.
  destruct (String.eqb (id j) k) eqn:E; cbn.
  - apply String.eqb_eq in E. intuition.
  - f_equal. apply IH. intuition.
Qed.

Lemma update_ids (c : list TestItem) (k : string) (f : TestItem -> TestItem) :
  (forall i, id (f i) = id i) -> ids (update c k f) = ids c.
Proof.
  intros Hf. unfold ids, update. rewrite map_map. apply map_ext.
  intros i. destruct (String.eqb (id i) k); [apply Hf| reflexivity].
Qed.

Lemma get_update (c : list TestItem) (k k' : string) (f : TestItem -> TestItem) :
  (forall i, id (f i) = id i) ->
  get (update c k f) k' =
  if String.eqb k k' then option_map f (get c k') else get c k'.
Proof.
  intros Hf. induction c as [|j c IH]; cbn.
  - now destruct (String.eqb k k').
  - destruct (String.eqb (id j) k) eqn:E.
    + rewrite Hf. apply String.eqb_eq in E. subst k.
      destruct (String.eqb (id j) k') eqn:E'; [reflexivity| exact IH].
    + destruct (String.eqb (id j) k') eqn:E'; [|exact IH].
      apply String.eqb_eq in E'. subst k'.
      rewrite eqb_sym_string, E. reflexivity.
Qed.

Lemma update_absent (c : list TestItem) (k : string) (f : TestItem -> TestItem) :
  ~ In k (ids c) -> update c k f = c.
Proof.
  unfold update. induction c as [|j c IH]; cbn; [reflexivity|]. intros H.
  destruct (String.eqb (id j) k) eqn:E.
  - apply String.eqb_eq in E. intuition.
  - f_equal. apply IH. intuition.
Qed.

Lemma update_fixed (c : list TestItem) (k : string) (f : TestItem -> TestItem) :
  (forall i, get c k = Some i -> f i = i) -> NoDup (ids c) -> update c k f = c.
Proof.
  induction c as [|j c IH]; cbn; [reflexivity|]. intros H Hnd.
  inversion Hnd as [|? ? Hj Hc]; subst.
  destruct (String.eqb (id j) k) eqn:E.
  - rewrite H by reflexivity. f_equal. apply update_absent.
    apply String.eqb_eq in E. now subst.
  - f_equal. apply IH; assumption.
Qed.

Lemma update_app (c c' : list TestItem) (k : string) (f : TestItem -> TestItem) :
  update (c ++ c')%list k f = (update c k f ++ update c' k f)%list.
Proof. apply map_app. Qed.

Lemma replace_NoDup_aux (l acc : list TestItem) :
  NoDup (ids (acc ++ l)%list) -> fold_left add l acc = (acc ++ l)%list.
Proof.
  revert acc. induction l as [|i l IH]; intros acc H; cbn.
  - now rewrite app_nil_r.
  - rewrite add_absent.
    + rewrite IH; rewrite <- app_assoc; [reflexivity| exact H].
    + unfold ids in *. rewrite map_app in H. cbn in H.
      apply NoDup_remove_2 in H. intros Hin. apply H.
      apply in_or_app. now left.
Qed.

Lemma replace_NoDup (l : list TestItem) : NoDup (ids l) -> replace l = l.
Proof. intros H. unfold replace. now rewrite replace_NoDup_aux. Qed.

End CollectionFacts.

(** ** JavaScript maps *)

Section JsMapFacts.
Context {V : Type}.
Implicit Types (m : JsMap.t V) (k : string) (v : V).

Lemma JsMap_get_set m k k' v :
  JsMap.get (JsMap.set m k v) k' =
  if String.eqb k k' then Some v else JsMap.get m k'.
Proof.
  induction m as [|[k0 v0] m IH]; cbn.
  - reflexivity.
  - destruct (String.eqb k0 k) eqn:E; cbn.
    + apply String.eqb_eq in E. subst k0.
      destruct (String.eqb k k'); reflexivity.
    + rewrite IH. destruct (String.eqb k0 k') eqn:E'; [|reflexivity].
      apply String.eqb_eq in E'. subst k0.
      rewrite eqb_sym_string, E. reflexivity.
Qed.

Lemma JsMap_get_delete m k k' :
  JsMap.get (JsMap.delete m k) k' =
  if String.eqb k k' then None else JsMap.get m k'.
Proof.
  unfold JsMap.delete. induction m as [|[k0 v0] m IH]; cbn.
  - now destruct (String.eqb k k').
  - destruct (String.eqb k0 k) eqn:E; cbn.
    + apply String.eqb_eq in E. subst k0. rewrite IH.
      destruct (String.eqb k k'); reflexivity.
    + rewrite IH. destruct (String.eqb k0 k') eqn:E'; [|reflexivity].
      apply String.eqb_eq in E'. subst k0.
      rewrite eqb_sym_string, E. reflexivity.
Qed.

Lemma JsMap_get_In m k v : JsMap.get m k = Some v -> In (k, v) m.
Proof.
  induction m as [|[k0 v0] m IH]; cbn; [discriminate|].
  destruct (String.eqb k0 k) eqn:E.
  - intros [= ->]. apply String.eqb_eq in E. subst. now left.
  - auto.
Qed.

Lemma JsMap_has_keys m k : JsMap.has m k = true <-> In k (JsMap.keys m).
Proof.
  unfold JsMap.has. induction m as [|[k0 v0] m IH]; cbn.
  - intuition discriminate.
  - destruct (String.eqb k0 k) eqn:E.
    + apply String.eqb_eq in E. intuition.
    + apply String.eqb_neq in E. rewrite IH. intuition.
Qed.

Lemma JsMap_has_false m k : JsMap.has m k = false <-> ~ In k (JsMap.keys m).
Proof. rewrite <- JsMap_has_keys. destruct (JsMap.has m k); intuition discriminate. Qed.

Lemma JsMap_In_get m k v :
  NoDup (JsMap.keys m) -> In (k, v) m -> JsMap.get m k = Some v.
Proof.
  induction m as [|[k0 v0] m IH]; cbn; [intros _ []|].
  intros Hnd [[= -> ->]|Hin].
  - now rewrite String.eqb_refl.
  - inversion Hnd as [|? ? Hk Hm]; subst.
    destruct (String.eqb k0 k) eqn:E; [|auto].
    apply String.eqb_eq in E. subst k0. exfalso. apply Hk.
    change k with (fst (k, v)). now apply in_map.
Qed.

Lemma JsMap_keys_set m k v x :
  In x (JsMap.keys (JsMap.set m k v)) <-> x = k \/ In x (JsMap.keys m).
Proof.
  induction m as [|[k0 v0] m IH]; cbn.
  - intuition.
  - destruct (String.eqb k0 k) eqn:E; cbn.
    + apply String.eqb_eq in E. subst. intuition.
    + rewrite IH. intuition.
Qed.

Lemma JsMap_set_NoDup m k v :
  NoDup (JsMap.keys m) -> NoDup (JsMap.keys (JsMap.set m k v)).
Proof.
  induction m as [|[k0 v0] m IH]; cbn; intros H.
  - constructor; [intros []| constructor].
  - inversion H as [|? ? Hk Hm]; subst.
    destruct (String.eqb k0 k) eqn:E; cbn.
    + now constructor.
    + apply String.eqb_neq in E. constructor; [|auto].
      intros Hin. apply JsMap_keys_set in Hin as [Hin|Hin]; auto.
Qed.

Lemma JsMap_set_In m k v e :
  In e (JsMap.set m k v) -> e = (k, v) \/ In e m.
Proof.
  induction m as [|[k0 v0] m IH]; cbn.
  - intuition.
  - destruct (String.eqb k0 k) eqn:E; cbn.
    + apply String.eqb_eq in E. subst. intuition.
    + intuition.
Qed.

Lemma JsMap_ofList_aux_NoDup (l : list (string * V)) m :
  NoDup (JsMap.keys m) ->
  NoDup (JsMap.keys (fold_left (fun m e => JsMap.set m (fst e) (snd e)) l m)).
Proof.
  revert m. induction l as [|e l IH]; intros m H; cbn; [exact H|].
  apply IH, JsMap_set_NoDup, H.
Qed.

Lemma JsMap_ofList_NoDup (l : list (string * V)) :
  NoDup (JsMap.keys (JsMap.ofList l)).
Proof. apply JsMap_ofList_aux_NoDup. constructor. Qed.

Lemma JsMap_ofList_aux_In (l : list (string * V)) m e :
  In e (fold_left (fun m e => JsMap.set m (fst e) (snd e)) l m) ->
  In e m \/ In e l.
Proof.
  revert m. induction l as [|e0 l IH]; intros m H; cbn in *; [auto|].
  apply IH in H as [H|H]; [|auto].
  apply JsMap_set_In in H as [->|H]; [|auto].
  right. left. now destruct e0.
Qed.

Lemma JsMap_ofList_In (l : list (string * V)) e :
  In e (JsMap.ofList l) -> In e l.
Proof. intros H. apply JsMap_ofList_aux_In in H as [[]|H]. exact H. Qed.

Lemma JsMap_ofList_aux_keys (l : list (string * V)) m x :
  In x (JsMap.keys (fold_left (fun m e => JsMap.set m (fst e) (snd e)) l m)) <->
  In x (JsMap.keys m) \/ In x (map fst l).
Proof.
  revert m. induction l as [|e0 l IH]; intros m; cbn [fold_left map].
  - cbn. intuition.
  - rewrite IH, JsMap_keys_set. cbn. intuition.
Qed.

Lemma JsMap_ofList_keys (l : list (string * V)) x :
  In x (JsMap.keys (JsMap.ofList l)) <-> In x (map fst l).
Proof.
  pose proof (JsMap_ofList_aux_keys l JsMap.empty x) as H. cbn in H.
  unfold JsMap.ofList. intuition.
Qed.

Lemma JsMap_delete_absent m k :
  ~ In k (JsMap.keys m) -> JsMap.delete m k = m.
Proof.
  unfold JsMap.delete. induction m as [|[k0 v0] m IH]; cbn; [reflexivity|].
  intros H. destruct (String.eqb k0 k) eqn:E; cbn.
  - apply String.eqb_eq in E. intuition.
  - f_equal. apply IH. intuition.
Qed.

Lemma JsMap_keys_delete m k x :
  In x (JsMap.keys (JsMap.delete m k)) <-> In x (JsMap.keys m) /\ x <> k.
Proof.
  unfold JsMap.delete, JsMap.keys. rewrite !in_map_iff. split.
  - intros [e [<- He]]. apply filter_In in He as [He Hne].
    apply negb_true_iff, String.eqb_neq in Hne. eauto.
  - intros [[e [<- He]] Hne]. exists e. split; [reflexivity|].
    apply filter_In. split; [exact He|].
    now apply negb_true_iff, String.eqb_neq.
Qed.

Lemma JsMap_delete_NoDup m k :
  NoDup (JsMap.keys m) -> NoDup (JsMap.keys (JsMap.delete m k)).
Proof.
  unfold JsMap.delete, JsMap.keys. induction m as [|[k0 v0] m IH]; cbn; [auto|].
  intros H. inversion H as [|? ? Hk Hm]; subst.
  destruct (String.eqb k0 k); cbn; [auto|]. constructor; [|auto].
  intros Hin. apply Hk. apply in_map_iff in Hin as [e [E He]].
  apply filter_In in He as [He _]. rewrite <- E. now apply in_map.
Qed.

End JsMapFacts.

Section Decorate.
Context {A : Type}.
Variable F : TreeItem -> A.

Lemma decorate_set (m : JsMap.t TreeItem) (k : string) (c : TreeItem) :
  decorate F (JsMap.set m k c) = JsMap.set (decorate F m) k (c, F c).
Proof.
  unfold decorate. induction m as [|[k0 c0] m IH]; cbn; [reflexivity|].
  destruct (String.eqb k0 k); cbn; [reflexivity|]. now rewrite IH.
Qed.

Lemma ofList_decorate_aux (l : list TreeItem) (m : JsMap.t TreeItem) :
  fold_left (fun m e => JsMap.set m (fst e) (snd e))
    (map (fun c => (u_id c, (c, F c))) l) (decorate F m) =
  decorate F
    (fold_left (fun m e => JsMap.set m (fst e) (snd e))
       (map (fun c => (u_id c, c)) l) m).
Proof.
  revert m. induction l as [|c l IH]; intros m; cbn [fold_left map fst snd];
    [reflexivity|].
  rewrite <- IH, decorate_set. reflexivity.
Qed.

Lemma ofList_decorate (uItem : TreeItem) :
  JsMap.ofList (map (fun c => (u_id c, (c, F c))) (u_children uItem)) =
  decorate F (uChildrenById uItem).
Proof. apply (ofList_decorate_aux (u_children uItem) []). Qed.

Lemma decorate_keys (m : JsMap.t TreeItem) :
  JsMap.keys (decorate F m) = JsMap.keys m.
Proof. unfold JsMap.keys, decorate. rewrite map_map. reflexivity. Qed.

Lemma decorate_has (m : JsMap.t TreeItem) (k : string) :
  JsMap.has (decorate F m) k = JsMap.has m k.
Proof.
  unfold JsMap.has. induction m as [|[k0 c0] m IH]; cbn; [reflexivity|].
  destruct (String.eqb k0 k); [reflexivity| exact IH].
Qed.

End Decorate.

Section UChildren.

Lemma uChildrenById_In (uItem : TreeItem) (k : string) (c : TreeItem) :
  In (k, c) (uChildrenById uItem) -> In c (u_children uItem) /\ k = u_id c.
Proof.
  intros H. apply JsMap_ofList_In, in_map_iff in H as [c' [[= <- <-] Hc]]. auto.
Qed.

Lemma uChildrenById_NoDup (uItem : TreeItem) :
  NoDup (JsMap.keys (uChildrenById uItem)).
Proof. apply JsMap_ofList_NoDup. Qed.

Lemma uChildrenById_keys (uItem : TreeItem) (k : string) :
  In k (JsMap.keys (uChildrenById uItem)) <-> In k (map u_id (u_children uItem)).
Proof.
  unfold uChildrenById. rewrite JsMap_ofList_keys, map_map. reflexivity.
Qed.

(** Induction on a logical tree, with the property at hand for every child. *)
Lemma TreeItem_children_ind (Q : TreeItem -> Prop) :
  (forall u, Forall Q (u_children u) -> Q u) -> forall u, Q u.
Proof.
  intros H. fix IH 1. intros [i k s t l g c ch]. apply H. cbn.
  induction ch as [|x ch IHch]; constructor; [apply IH| exact IHch].
Qed.

End UChildren.

(** ** The loops of [_syncSuite] *)

Section MoreCollectionFacts.

Import TestItemCollection.

Lemma get_app (c c' : list TestItem) (k : string) :
  get (c ++ c')%list k =
  match get c k with Some i => Some i | None => get c' k end.
Proof.
  induction c as [|j c IH]; cbn; [reflexivity|].
  destruct (String.eqb (id j) k); [reflexivity| exact IH].
Qed.

Lemma get_delete (c : list TestItem) (k k' : string) :
  get (delete c k) k' = if String.eqb k k' then None else get c k'.
Proof.
  unfold delete. induction c as [|j c IH]; cbn.
  - now destruct (String.eqb k k').
  - destruct (String.eqb (id j) k) eqn:E; cbn.
    + apply String.eqb_eq in E. subst k. rewrite IH.
      destruct (String.eqb (id j) k'); reflexivity.
    + rewrite IH. destruct (String.eqb (id j) k') eqn:E'; [|reflexivity].
      apply String.eqb_eq in E'. subst k'.
      rewrite eqb_sym_string, E. reflexivity.
Qed.

Lemma get_add (c : list TestItem) (i : TestItem) (k : string) :
  get (add c i) k = if String.eqb (id i) k then Some i else get c k.
Proof.
  induction c as [|j c IH]; cbn.
  - reflexivity.
  - destruct (String.eqb (id j) (id i)) eqn:E; cbn.
    + apply String.eqb_eq in E. rewrite E.
      destruct (String.eqb (id i) k); reflexivity.
    + rewrite IH. destruct (String.eqb (id j) k) eqn:E'; [|reflexivity].
      apply String.eqb_eq in E'. subst k.
      rewrite eqb_sym_string, E. reflexivity.
Qed.

End MoreCollectionFacts.

Section FilterFacts.

Lemma filter_all (B : Type) (f : B -> bool) (l : list B) :
  (forall x, In x l -> f x = true) -> filter f l = l.
Proof.
  induction l as [|x l IH]; cbn; intros H; [reflexivity|].
  rewrite (H x) by now left. f_equal. apply IH. intros y Hy. apply H. now right.
Qed.

Lemma filter_filter (B : Type) (f g : B -> bool) (l : list B) :
  filter f (filter g l) = filter (fun x => g x && f x) l.
Proof.
  induction l as [|x l IH]; cbn; [reflexivity|].
  destruct (g x); cbn; [destruct (f x)|]; now rewrite IH.
Qed.

End FilterFacts.

Section Loops.
Context {P : Platform}.
Variable gen : string.

Import TestItemCollection.

Lemma syncAttributes_id (uChild : TreeItem) (vsChild : TestItem) :
  id (syncAttributes uChild vsChild) = id vsChild.
Proof.
  unfold syncAttributes.
  repeat match goal with |- context [if ?c then _ else _] => destruct c end;
    reflexivity.
Qed.

Lemma syncAttributes_children (uChild : TreeItem) (vsChild : TestItem) :
  children (syncAttributes uChild vsChild) = children vsChild.
Proof.
  unfold syncAttributes.
  repeat match goal with |- context [if ?c then _ else _] => destruct c end;
    reflexivity.
Qed.

Lemma syncAttributes_obj (uChild : TreeItem) (vsChild : TestItem) :
  obj (syncAttributes uChild vsChild) = obj vsChild.
Proof.
  unfold syncAttributes.
  repeat match goal with |- context [if ?c then _ else _] => destruct c end;
    reflexivity.
Qed.

Lemma newChild_id (k : string) (uChild : TreeItem) (n : nat) :
  id (fst (newChild gen k uChild n)) = _idWithGeneration gen k.
Proof. unfold newChild. cbn. now destruct (_ && _). Qed.

Lemma newChild_children (k : string) (uChild : TreeItem) (n : nat) :
  children (fst (newChild gen k uChild n)) = [].
Proof. unfold newChild. cbn. now destruct (_ && _). Qed.

Lemma newChild_obj (k : string) (uChild : TreeItem) (n : nat) :
  obj (fst (newChild gen k uChild n)) = n /\ snd (newChild gen k uChild n) = S n.
Proof. unfold newChild. cbn. now destruct (_ && _). Qed.

(** [vsChildrenById] after its construction. *)
Lemma Refs_vsChildrenById_of_aux (l pre : list TestItem) (m : VsChildrenById) :
  Refs gen m pre ->
  Refs gen
    (fold_left
       (fun m c =>
          if startsWith (id c) gen
          then JsMap.set m (substringFrom (String.length gen) (id c)) (id c)
          else m) l m)
    (pre ++ l)%list.
Proof.
  revert pre m. induction l as [|c l IH]; intros pre m H; cbn [fold_left].
  - now rewrite app_nil_r.
  - replace (pre ++ c :: l)%list with ((pre ++ [c]) ++ l)%list
      by now rewrite <- app_assoc.
    apply IH. intros k. rewrite get_app. cbn [get].
    destruct (startsWith (id c) gen) eqn:Hc.
    + rewrite JsMap_get_set, H.
      destruct (String.eqb (substringFrom (String.length gen) (id c)) k) eqn:E.
      * apply String.eqb_eq in E. subst k.
        rewrite (idWithGeneration_strip _ _ Hc), String.eqb_refl.
        now destruct (get pre (id c)).
      * destruct (get pre (_idWithGeneration gen k)); [reflexivity|].
        destruct (String.eqb (id c) (_idWithGeneration gen k)) eqn:E';
          [|reflexivity].
        apply String.eqb_eq in E'. rewrite E', strip_idWithGeneration in E.
        now rewrite String.eqb_refl in E.
    + rewrite H. destruct (get pre (_idWithGeneration gen k)); [reflexivity|].
      destruct (String.eqb (id c) (_idWithGeneration gen k)) eqn:E';
        [|reflexivity].
      apply String.eqb_eq in E'.
      rewrite E', startsWith_idWithGeneration in Hc. discriminate.
Qed.

Lemma Refs_vsChildrenById_of (vs : list TestItem) :
  Refs gen (vsChildrenById_of gen vs) vs.
Proof.
  apply (Refs_vsChildrenById_of_aux vs [] JsMap.empty). intros k. reflexivity.
Qed.

Lemma Refs_key (byId : VsChildrenById) (vs : list TestItem) (c : TestItem) :
  Refs gen byId vs -> In c vs -> startsWith (id c) gen = true ->
  In (substringFrom (String.length gen) (id c)) (JsMap.keys byId).
Proof.
  intros H Hin Hc. apply JsMap_has_keys. unfold JsMap.has. rewrite H.
  rewrite (idWithGeneration_strip _ _ Hc).
  destruct (get vs (id c)) eqn:E; [reflexivity|].
  apply get_None_iff in E. exfalso. apply E. now apply in_map.
Qed.

Section RemoveDeleted.
Variable uById : UChildrenById.

Let stepVs (vs : list TestItem) (k : string) : list TestItem :=
  if negb (JsMap.has uById k)
  then delete vs (_idWithGeneration gen k) else vs.

Let stepMap (m : VsChildrenById) (k : string) : VsChildrenById :=
  if negb (JsMap.has uById k) then JsMap.delete m k else m.

Lemma removeDeleted_split (keys : list string) (vs : list TestItem)
    (m : VsChildrenById) :
  fold_left
    (fun (acc : list TestItem * VsChildrenById) id0 =>
       let (vs, byId) := acc in
       if negb (JsMap.has uById id0)
       then (delete vs (_idWithGeneration gen id0), JsMap.delete byId id0)
       else (vs, byId)) keys (vs, m) =
  (fold_left stepVs keys vs, fold_left stepMap keys m).
Proof.
  revert vs m. induction keys as [|k keys IH]; intros vs m; cbn [fold_left];
    [reflexivity|].
  unfold stepVs at 2, stepMap at 2.
  destruct (negb (JsMap.has uById k)); apply IH.
Qed.

Lemma removeDeleted_Refs (keys : list string) (vs : list TestItem)
    (m : VsChildrenById) :
  Refs gen m vs -> Refs gen (fold_left stepMap keys m) (fold_left stepVs keys vs).
Proof.
  revert vs m. induction keys as [|k keys IH]; intros vs m H; cbn [fold_left];
    [exact H|].
  apply IH. unfold stepVs, stepMap.
  destruct (negb (JsMap.has uById k)); [|exact H].
  intros k'. rewrite JsMap_get_delete, get_delete, H.
  destruct (String.eqb k k') eqn:E.
  - apply String.eqb_eq in E. subst k'. now rewrite String.eqb_refl.
  - destruct (String.eqb (_idWithGeneration gen k) (_idWithGeneration gen k'))
      eqn:E'; [|reflexivity].
    apply String.eqb_eq, idWithGeneration_inj in E'. subst k'.
    now rewrite String.eqb_refl in E.
Qed.

Lemma stepVs_filter (vs : list TestItem) (k : string) :
  stepVs vs k =
  filter (fun c => negb (negb (JsMap.has uById k)
                         && String.eqb (id c) (_idWithGeneration gen k))) vs.
Proof.
  unfold stepVs. destruct (JsMap.has uById k); cbn [negb andb].
  - symmetry. now apply filter_all.
  - reflexivity.
Qed.

Lemma removeDeleted_filter (keys : list string) (vs : list TestItem) :
  fold_left stepVs keys vs =
  filter
    (fun c =>
       negb (existsb
               (fun k => negb (JsMap.has uById k)
                         && String.eqb (id c) (_idWithGeneration gen k)) keys))
    vs.
Proof.
  revert vs. induction keys as [|k keys IH]; intros vs; cbn [fold_left existsb].
  - symmetry. now apply filter_all.
  - rewrite IH, stepVs_filter, filter_filter. apply filter_ext. intros c.
    now rewrite negb_orb.
Qed.

Lemma removeDeleted_spec (vs : list TestItem) :
  let byId := vsChildrenById_of gen vs in
  exists byId',
    removeDeleted gen uById vs byId = (filter (keepChild gen uById) vs, byId')
    /\ Refs gen byId' (filter (keepChild gen uById) vs).
Proof.
  intros byId. unfold removeDeleted. rewrite removeDeleted_split.
  pose proof (Refs_vsChildrenById_of vs) as HR. fold byId in HR.
  assert (E : fold_left stepVs (JsMap.keys byId) vs =
              filter (keepChild gen uById) vs).
  { rewrite removeDeleted_filter. apply filter_ext_in. intros c Hc.
    unfold keepChild. destruct (startsWith (id c) gen) eqn:Hg; cbn [negb orb].
    - destruct (JsMap.has uById (substringFrom (String.length gen) (id c)))
        eqn:Hu.
      + apply negb_true_iff. apply not_true_iff_false. intros Hex.
        apply existsb_exists in Hex as [k [_ Hk]].
        apply andb_prop in Hk as [Hk1 Hk2].
        apply String.eqb_eq in Hk2. rewrite Hk2, strip_idWithGeneration in Hu.
        rewrite Hu in Hk1. discriminate.
      + apply negb_false_iff. apply existsb_exists.
        exists (substringFrom (String.length gen) (id c)). split.
        * now apply (Refs_key _ _ _ HR).
        * rewrite Hu, (idWithGeneration_strip _ _ Hg), String.eqb_refl.
          reflexivity.
    - apply negb_true_iff. apply not_true_iff_false. intros Hex.
      apply existsb_exists in Hex as [k [_ Hk]].
      apply andb_prop in Hk as [_ Hk2]. apply String.eqb_eq in Hk2.
      rewrite Hk2, startsWith_idWithGeneration in Hg. discriminate. }
  exists (fold_left stepMap (JsMap.keys byId) byId). split.
  - now rewrite E.
  - rewrite <- E. now apply removeDeleted_Refs.
Qed.

End RemoveDeleted.

Lemma addNew_spec (E : UChildrenById) (vs : list TestItem) (byId : VsChildrenById)
    (n : nat) :
  Refs gen byId vs ->
  exists byId',
    addNew gen E vs byId n =
      (fst (fold_left (ensureChild gen) E (vs, n)), byId',
       snd (fold_left (ensureChild gen) E (vs, n)))
    /\ Refs gen byId' (fst (fold_left (ensureChild gen) E (vs, n))).
Proof.
  unfold addNew. revert vs byId n.
  induction E as [|[k [uChild sync]] E IH]; intros vs byId n H; cbn [fold_left].
  - exists byId. split; [reflexivity| exact H].
  - unfold ensureChild at 2 4 6. cbn [fst snd].
    rewrite (H k).
    destruct (get vs (_idWithGeneration gen k)) as [v|] eqn:Hget; cbn [option_map].
    + apply IH. intros k'. rewrite get_update by apply syncAttributes_id.
      rewrite H. destruct (String.eqb _ _); [|reflexivity].
      now destruct (get vs (_idWithGeneration gen k')).
    + destruct (newChild gen k uChild n) as [vsChild n'] eqn:Hnew.
      assert (Hid : id vsChild = _idWithGeneration gen k).
      { pose proof (newChild_id k uChild n) as Hid. now rewrite Hnew in Hid. }
      rewrite Hid. apply IH. intros k'.
      rewrite JsMap_get_set, get_update by apply syncAttributes_id.
      rewrite get_add, Hid, H.
      destruct (String.eqb k k') eqn:Ek.
      * apply String.eqb_eq in Ek. subst k'. now rewrite String.eqb_refl.
      * destruct (String.eqb (_idWithGeneration gen k) (_idWithGeneration gen k'))
          eqn:E'; [|reflexivity].
        apply String.eqb_eq, idWithGeneration_inj in E'. subst k'.
        now rewrite String.eqb_refl in Ek.
Qed.

Lemma set_children_id (cs : list TestItem) (i : TestItem) :
  id (set_children cs i) = id i.
Proof. reflexivity. Qed.

Lemma syncChildren_spec (E : UChildrenById) (vs : list TestItem)
    (byId : VsChildrenById) (n : nat) :
  Refs gen byId vs ->
  syncChildren E vs byId n = fold_left (recurseChild gen) E (vs, n).
Proof.
  unfold syncChildren. revert vs n.
  induction E as [|[k [uChild sync]] E IH]; intros vs n H; cbn [fold_left];
    [reflexivity|].
  unfold recurseChild at 2. cbn [fst snd]. rewrite (H k).
  destruct (get vs (_idWithGeneration gen k)) as [v|] eqn:Hget; cbn [option_map].
  - rewrite Hget. destruct (sync (children v) n) as [cs n'].
    apply IH. intros k'. rewrite get_update by apply set_children_id.
    rewrite H. destruct (String.eqb _ _); [|reflexivity].
    now destruct (get vs (_idWithGeneration gen k')).
  - now apply IH.
Qed.

(** The loops of one level act on the children alone. *)
Lemma syncLevel_spec (E : UChildrenById) (vs : list TestItem) (n : nat) :
  syncLevel gen E vs n =
  fold_left (recurseChild gen) E
    (fold_left (ensureChild gen) E (filter (keepChild gen E) vs, n)).
Proof.
  unfold syncLevel.
  destruct (removeDeleted_spec E vs) as [byId1 [-> H1]].
  destruct (addNew_spec E _ _ n H1) as [byId2 [-> H2]].
  rewrite (syncChildren_spec E _ _ _ H2).
  now destruct (fold_left (ensureChild gen) E (filter (keepChild gen E) vs, n)).
Qed.

Lemma syncSuite_unfold (uItem : TreeItem) :
  _syncSuite gen uItem =
  syncLevel gen (decorate (_syncSuite gen) (uChildrenById uItem)).
Proof.
  destruct uItem as [i k s t l g c ch].
  rewrite <- (ofList_decorate (_syncSuite gen) (mkTreeItem i k s t l g c ch)).
  reflexivity.
Qed.

End Loops.

(** ** What [_syncSuite] leaves alone and what it adds *)

Section Frame.
Context {P : Platform}.
Variable gen : string.

Import TestItemCollection.

Lemma nonGeneration_update (vs : list TestItem) (k : string)
    (f : TestItem -> TestItem) :
  (forall i, id (f i) = id i) ->
  filter (nonGeneration gen) (update vs (_idWithGeneration gen k) f) =
  filter (nonGeneration gen) vs.
Proof.
  intros Hf. unfold update. induction vs as [|j vs IH]; cbn; [reflexivity|].
  destruct (String.eqb (id j) (_idWithGeneration gen k)) eqn:E.
  - apply String.eqb_eq in E.
    assert (H1 : nonGeneration gen (f j) = false).
    { unfold nonGeneration. now rewrite Hf, E, startsWith_idWithGeneration. }
    assert (H2 : nonGeneration gen j = false).
    { unfold nonGeneration. now rewrite E, startsWith_idWithGeneration. }
    rewrite H1, H2. exact IH.
  - destruct (nonGeneration gen j); now rewrite IH.
Qed.

Lemma nonGeneration_add (vs : list TestItem) (v : TestItem) :
  startsWith (id v) gen = true ->
  filter (nonGeneration gen) (add vs v) = filter (nonGeneration gen) vs.
Proof.
  intros Hv. induction vs as [|j vs IH]; cbn.
  - unfold nonGeneration. now rewrite Hv.
  - assert (H1 : nonGeneration gen v = false).
    { unfold nonGeneration. now rewrite Hv. }
    destruct (String.eqb (id j) (id v)) eqn:E; cbn.
    + apply String.eqb_eq in E.
      assert (H2 : nonGeneration gen j = false).
      { unfold nonGeneration. now rewrite E, Hv. }
      now rewrite H1, H2.
    + destruct (nonGeneration gen j); now rewrite IH.
Qed.

Lemma nonGeneration_keep {A} (uById : JsMap.t A) (vs : list TestItem) :
  filter (nonGeneration gen) (filter (keepChild gen uById) vs) =
  filter (nonGeneration gen) vs.
Proof.
  rewrite filter_filter. apply filter_ext. intros c.
  unfold keepChild, nonGeneration.
  destruct (startsWith (id c) gen); cbn; [apply andb_false_r| reflexivity].
Qed.

Lemma nonGeneration_ensure (E : UChildrenById) (vs : list TestItem) (n : nat) :
  filter (nonGeneration gen) (fst (fold_left (ensureChild gen) E (vs, n))) =
  filter (nonGeneration gen) vs.
Proof.
  revert vs n. induction E as [|e E IH]; intros vs n; cbn [fold_left];
    [reflexivity|].
  unfold ensureChild at 2.
  destruct (get vs (_idWithGeneration gen (fst e))).
  - rewrite IH. apply nonGeneration_update, syncAttributes_id.
  - destruct (newChild gen (fst e) (fst (snd e)) n) as [v n'] eqn:Hnew.
    rewrite IH, nonGeneration_update by apply syncAttributes_id.
    apply nonGeneration_add.
    pose proof (newChild_id gen (fst e) (fst (snd e)) n) as Hid.
    rewrite Hnew in Hid. cbn in Hid. rewrite Hid.
    apply startsWith_idWithGeneration.
Qed.

Lemma nonGeneration_recurse (E : UChildrenById) (vs : list TestItem) (n : nat) :
  filter (nonGeneration gen) (fst (fold_left (recurseChild gen) E (vs, n))) =
  filter (nonGeneration gen) vs.
Proof.
  revert vs n. induction E as [|e E IH]; intros vs n; cbn [fold_left];
    [reflexivity|].
  unfold recurseChild at 2.
  destruct (get vs (_idWithGeneration gen (fst e))) as [v|]; [|apply IH].
  destruct (snd (snd e) (children v) n) as [cs n'].
  rewrite IH. apply nonGeneration_update, set_children_id.
Qed.

Lemma nonGeneration_syncLevel (E : UChildrenById) (vs : list TestItem) (n : nat) :
  filter (nonGeneration gen) (fst (syncLevel gen E vs n)) =
  filter (nonGeneration gen) vs.
Proof.
  rewrite syncLevel_spec.
  destruct (fold_left (ensureChild gen) E (filter (keepChild gen E) vs, n))
    as [vs2 n2] eqn:E2.
  rewrite nonGeneration_recurse.
  change vs2 with (fst (vs2, n2)). rewrite <- E2.
  rewrite nonGeneration_ensure. apply nonGeneration_keep.
Qed.

End Frame.

(** C9: [_syncSuite] leaves every child without the generation prefix where
    it is and as it is: the children whose id does not start with the active
    generation are the same list before and after, so each of them is still
    in the collection, unchanged; only ids with the generation are deleted. *)
Theorem syncSuite_keeps_other_generations `{P : Platform}
    (gen : string) (uItem : TreeItem) (vsChildren : list TestItem) (n : nat) :
  filter (nonGeneration gen) (fst (_syncSuite gen uItem vsChildren n)) =
  filter (nonGeneration gen) vsChildren
  /\ (forall c, In c vsChildren -> startsWith (id c) gen = false ->
        In c (fst (_syncSuite gen uItem vsChildren n))).
Proof.
  assert (E : filter (nonGeneration gen) (fst (_syncSuite gen uItem vsChildren n)) =
              filter (nonGeneration gen) vsChildren).
  { rewrite syncSuite_unfold. apply nonGeneration_syncLevel. }
  split; [exact E|].
  intros c Hin Hc.
  assert (H : In c (filter (nonGeneration gen) vsChildren)).
  { apply filter_In. split; [exact Hin|]. unfold nonGeneration. now rewrite Hc. }
  rewrite <- E in H. now apply filter_In in H.
Qed.

(** ** The nodes [_syncSuite] adds *)

Section Added.
Context {P : Platform}.
Variable gen : string.

Import TestItemCollection.

Lemma nodes_unfold (i : TestItem) : nodes i = i :: allNodes (children i).
Proof. now destruct i. Qed.

Lemma allNodes_app (c c' : list TestItem) :
  allNodes (c ++ c')%list = (allNodes c ++ allNodes c')%list.
Proof. apply flat_map_app. Qed.

Lemma allNodes_In (c : list TestItem) (x : TestItem) :
  In x (allNodes c) <->
  exists i, In i c /\ (x = i \/ In x (allNodes (children i))).
Proof.
  unfold allNodes at 1. rewrite in_flat_map. split.
  - intros [i [Hi Hx]]. exists i. split; [exact Hi|].
    rewrite nodes_unfold in Hx. destruct Hx as [<-|Hx]; auto.
  - intros [i [Hi Hx]]. exists i. split; [exact Hi|].
    rewrite nodes_unfold. destruct Hx as [->|Hx]; [now left| now right].
Qed.

Lemma allNodes_top (c : list TestItem) (i : TestItem) :
  In i c -> In i (allNodes c).
Proof. intros H. apply allNodes_In. exists i. auto. Qed.

Lemma allNodes_below (c : list TestItem) (i x : TestItem) :
  In i c -> In x (allNodes (children i)) -> In x (allNodes c).
Proof. intros H Hx. apply allNodes_In. exists i. auto. Qed.

Lemma AddsOnly_refl (c : list TestItem) : AddsOnlyGeneration gen c c.
Proof. intros x Hx. left. exists x. auto. Qed.

Lemma AddsOnly_trans (a b c : list TestItem) :
  AddsOnlyGeneration gen a b -> AddsOnlyGeneration gen b c ->
  AddsOnlyGeneration gen a c.
Proof.
  intros Hab Hbc x Hx. destruct (Hbc x Hx) as [[y [Hy [Ho Hi]]]|Hg]; [|auto].
  destruct (Hab y Hy) as [[z [Hz [Ho' Hi']]]|Hg].
  - left. exists z. split; [exact Hz|]. split; congruence.
  - right. now rewrite <- Hi.
Qed.

Lemma AddsOnly_filter (f : TestItem -> bool) (c : list TestItem) :
  AddsOnlyGeneration gen c (filter f c).
Proof.
  intros x Hx. left. exists x. split; [|auto].
  apply allNodes_In in Hx as [i [Hi Hx]]. apply filter_In in Hi as [Hi _].
  apply allNodes_In. eauto.
Qed.

Lemma AddsOnly_update (c : list TestItem) (k : string) (f : TestItem -> TestItem) :
  (forall i, In i c -> id i = k ->
     obj (f i) = obj i /\ id (f i) = id i /\
     forall x, In x (allNodes (children (f i))) ->
               Carried c x \/ startsWith (id x) gen = true) ->
  AddsOnlyGeneration gen c (update c k f).
Proof.
  intros Hf x Hx. apply allNodes_In in Hx as [i' [Hi' Hx]].
  unfold update in Hi'. apply in_map_iff in Hi' as [i [<- Hi]].
  destruct (String.eqb (id i) k) eqn:E.
  - apply String.eqb_eq in E. destruct (Hf i Hi E) as [Ho [Hid Hch]].
    destruct Hx as [->|Hx]; [|auto].
    left. exists i. split; [now apply allNodes_top| auto].
  - left. exists x. split; [|auto]. apply allNodes_In. eauto.
Qed.

Lemma AddsOnly_add (c : list TestItem) (v : TestItem) :
  startsWith (id v) gen = true -> children v = [] ->
  AddsOnlyGeneration gen c (add c v).
Proof.
  intros Hv Hch x Hx. apply allNodes_In in Hx as [i [Hi Hx]].
  apply add_In in Hi as [->|Hi].
  - rewrite Hch in Hx. destruct Hx as [->|[]]. now right.
  - left. exists x. split; [|auto]. apply allNodes_In. eauto.
Qed.

Lemma AddsOnly_ensure (E : UChildrenById) (vs : list TestItem) (n : nat) :
  AddsOnlyGeneration gen vs (fst (fold_left (ensureChild gen) E (vs, n))).
Proof.
  revert vs n. induction E as [|e E IH]; intros vs n; cbn [fold_left].
  - apply AddsOnly_refl.
  - unfold ensureChild at 2.
    assert (Hattr : forall c i, In i c -> id i = _idWithGeneration gen (fst e) ->
              obj (syncAttributes (fst (snd e)) i) = obj i /\
              id (syncAttributes (fst (snd e)) i) = id i /\
              forall x, In x (allNodes (children (syncAttributes (fst (snd e)) i))) ->
                        Carried c x \/ startsWith (id x) gen = true).
    { intros c i Hi _. rewrite syncAttributes_obj, syncAttributes_id,
        syncAttributes_children. repeat split. intros x Hx.
      left. exists x. split; [|auto]. now apply (allNodes_below c i). }
    destruct (get vs (_idWithGeneration gen (fst e))).
    + eapply AddsOnly_trans; [|apply IH]. apply AddsOnly_update, Hattr.
    + destruct (newChild gen (fst e) (fst (snd e)) n) as [v n'] eqn:Hnew.
      eapply AddsOnly_trans; [|apply IH].
      eapply AddsOnly_trans; [|apply AddsOnly_update, Hattr].
      pose proof (newChild_id gen (fst e) (fst (snd e)) n) as Hid.
      pose proof (newChild_children gen (fst e) (fst (snd e)) n) as Hch.
      rewrite Hnew in Hid, Hch. cbn in Hid, Hch.
      apply AddsOnly_add; [|exact Hch].
      rewrite Hid. apply startsWith_idWithGeneration.
Qed.

Lemma AddsOnly_recurse (E : UChildrenById) (vs : list TestItem) (n : nat) :
  Forall (fun e => forall cs m,
            AddsOnlyGeneration gen cs (fst (snd (snd e) cs m))) E ->
  AddsOnlyGeneration gen vs (fst (fold_left (recurseChild gen) E (vs, n))).
Proof.
  intros HE. revert vs n. induction HE as [|e E He HE IH]; intros vs n;
    cbn [fold_left].
  - apply AddsOnly_refl.
  - unfold recurseChild at 2.
    match goal with
    | |- context [match ?g with Some _ => _ | None => _ end] =>
        destruct g as [v|] eqn:Hget; [|apply IH]
    end.
    match goal with
    | |- context [let (_, _) := ?g in _] => destruct g as [cs n'] eqn:Hrec
    end.
    eapply AddsOnly_trans; [|apply IH].
    apply AddsOnly_update. intros i Hi Hid. repeat split. cbn.
    intros x Hx. specialize (He (children v) n). rewrite Hrec in He.
    destruct (He x Hx) as [[y [Hy Hxy]]|Hg]; [|auto].
    left. exists y. split; [|exact Hxy].
    apply get_Some_In in Hget as [Hv _]. now apply (allNodes_below vs v).
Qed.

Lemma AddsOnly_syncSuite (uItem : TreeItem) :
  forall vs n, AddsOnlyGeneration gen vs (fst (_syncSuite gen uItem vs n)).
Proof.
  induction uItem as [uItem IH] using TreeItem_children_ind. intros vs n.
  rewrite syncSuite_unfold, syncLevel_spec.
  set (E := decorate (_syncSuite gen) (uChildrenById uItem)).
  destruct (fold_left (ensureChild gen) E (filter (keepChild gen E) vs, n))
    as [vs2 n2] eqn:E2.
  eapply AddsOnly_trans; [apply AddsOnly_filter|].
  eapply AddsOnly_trans.
  - pose proof (AddsOnly_ensure E (filter (keepChild gen E) vs) n) as H.
    rewrite E2 in H. exact H.
  - apply AddsOnly_recurse. apply Forall_forall. intros [k [c sync]] He.
    unfold E, decorate in He. apply in_map_iff in He as [[k' c'] [[= -> -> <-] He]].
    apply uChildrenById_In in He as [Hc _]. cbn.
    rewrite Forall_forall in IH. now apply IH.
Qed.

End Added.

(** ** A second pass of [_syncSuite] changes nothing *)

Section AttributesTwice.

Lemma TestItem_eq (a b : TestItem) :
  obj a = obj b -> id a = id b -> label a = label b -> uri a = uri b ->
  children a = children b -> tags a = tags b ->
  canResolveChildren a = canResolveChildren b -> range a = range b ->
  error a = error b -> description a = description b ->
  sortText a = sortText b -> testTreeItemSymbol a = testTreeItemSymbol b ->
  disabledProjectSymbol a = disabledProjectSymbol b ->
  configErrorSymbol a = configErrorSymbol b -> a = b.
Proof. destruct a, b. cbn. intros. subst. reflexivity. Qed.

Lemma syncAttributes_tags (uChild : TreeItem) (v : TestItem) :
  tags (syncAttributes uChild v) =
  if isCase (u_kind uChild) && negb (areEqualTags (u_tags uChild) (tags v))
  then map mkTestTag (u_tags uChild) else tags v.
Proof.
  unfold syncAttributes.
  change (tags (set_testTreeItemSymbol (Some uChild) v)) with (tags v).
  destruct (isCase (u_kind uChild) && negb (areEqualTags (u_tags uChild) (tags v)));
    repeat match goal with |- context [if ?c then _ else _] => destruct c end;
    reflexivity.
Qed.

Lemma syncAttributes_range (uChild : TreeItem) (v : TestItem) :
  range (syncAttributes uChild v) =
  if hasLocation uChild &&
     match range v with
     | None => true
     | Some r => negb (Z.eqb (pos_line (start r) + 1) (line (u_location uChild)))
     end
  then Some (Range4 (Z.max (line (u_location uChild) - 1) 0) 0
               (line (u_location uChild)) 0)
  else range v.
Proof.
  destruct v as [o i l u ch tg cr rg er ds st sy dp ce].
  unfold syncAttributes, hasLocation.
  cbn [range tags set_testTreeItemSymbol set_tags].
  destruct (isCase (u_kind uChild) && _);
    cbn [range tags set_testTreeItemSymbol set_tags];
    destruct (truthy _); cbn [andb]; destruct rg as [r|]; cbn;
    try destruct (negb _); reflexivity.
Qed.

Lemma syncAttributes_symbol (uChild : TreeItem) (v : TestItem) :
  testTreeItemSymbol (syncAttributes uChild v) = Some uChild.
Proof.
  unfold syncAttributes.
  repeat match goal with |- context [if ?c then _ else _] => destruct c end;
    reflexivity.
Qed.

Lemma syncAttributes_rest (uChild : TreeItem) (v : TestItem) :
  label (syncAttributes uChild v) = label v
  /\ uri (syncAttributes uChild v) = uri v
  /\ canResolveChildren (syncAttributes uChild v) = canResolveChildren v
  /\ error (syncAttributes uChild v) = error v
  /\ description (syncAttributes uChild v) = description v
  /\ sortText (syncAttributes uChild v) = sortText v
  /\ disabledProjectSymbol (syncAttributes uChild v) = disabledProjectSymbol v
  /\ configErrorSymbol (syncAttributes uChild v) = configErrorSymbol v.
Proof.
  unfold syncAttributes.
  repeat match goal with |- context [if ?c then _ else _] => destruct c end;
    repeat split; reflexivity.
Qed.

Lemma syncAttributes_set_children (uChild : TreeItem) (cs : list TestItem)
    (v : TestItem) :
  syncAttributes uChild (set_children cs v) =
  set_children cs (syncAttributes uChild v).
Proof.
  destruct (syncAttributes_rest uChild (set_children cs v))
    as (H1 & H2 & H3 & H4 & H5 & H6 & H7 & H8).
  destruct (syncAttributes_rest uChild v) as (G1 & G2 & G3 & G4 & G5 & G6 & G7 & G8).
  apply TestItem_eq;
    change (set_children cs (syncAttributes uChild v))
      with (mkTestItem (obj (syncAttributes uChild v)) (id (syncAttributes uChild v))
              (label (syncAttributes uChild v)) (uri (syncAttributes uChild v)) cs
              (tags (syncAttributes uChild v))
              (canResolveChildren (syncAttributes uChild v))
              (range (syncAttributes uChild v)) (error (syncAttributes uChild v))
              (description (syncAttributes uChild v))
              (sortText (syncAttributes uChild v))
              (testTreeItemSymbol (syncAttributes uChild v))
              (disabledProjectSymbol (syncAttributes uChild v))
              (configErrorSymbol (syncAttributes uChild v)));
    cbn [obj id label uri children tags canResolveChildren range error description
         sortText testTreeItemSymbol disabledProjectSymbol configErrorSymbol].
  - rewrite !syncAttributes_obj. reflexivity.
  - rewrite !syncAttributes_id. reflexivity.
  - rewrite H1, G1. reflexivity.
  - rewrite H2, G2. reflexivity.
  - rewrite syncAttributes_children. reflexivity.
  - rewrite !syncAttributes_tags. reflexivity.
  - rewrite H3, G3. reflexivity.
  - rewrite !syncAttributes_range. reflexivity.
  - rewrite H4, G4. reflexivity.
  - rewrite H5, G5. reflexivity.
  - rewrite H6, G6. reflexivity.
  - rewrite !syncAttributes_symbol. reflexivity.
  - rewrite H7, G7. reflexivity.
  - rewrite H8, G8. reflexivity.
Qed.

Lemma set_children_same (v : TestItem) : set_children (children v) v = v.
Proof. now destruct v. Qed.

Lemma syncAttributes_twice (uChild : TreeItem) (v : TestItem) :
  syncAttributes uChild (syncAttributes uChild v) = syncAttributes uChild v.
Proof.
  destruct (syncAttributes_rest uChild (syncAttributes uChild v))
    as (H1 & H2 & H3 & H4 & H5 & H6 & H7 & H8).
  apply TestItem_eq; try assumption.
  - apply syncAttributes_obj.
  - apply syncAttributes_id.
  - apply syncAttributes_children.
  - rewrite (syncAttributes_tags uChild (syncAttributes uChild v)).
    rewrite (syncAttributes_tags uChild v).
    destruct (isCase (u_kind uChild)); [|reflexivity]. cbn [andb].
    destruct (areEqualTags (u_tags uChild) (tags v)) eqn:E; cbn [negb].
    + now rewrite E.
    + now rewrite areEqualTags_own_tags.
  - rewrite (syncAttributes_range uChild (syncAttributes uChild v)).
    destruct (hasLocation uChild) eqn:Hl; [|reflexivity]. cbn [andb].
    rewrite (syncAttributes_range uChild v), Hl. cbn [andb].
    destruct (range v) as [r|]; cbn.
    + destruct (pos_line (start r) + 1 =? line (u_location uChild))%Z eqn:Hr;
        cbn.
      * now rewrite Hr.
      * destruct (negb _); reflexivity.
    + destruct (negb _); reflexivity.
  - now rewrite !syncAttributes_symbol.
Qed.

End AttributesTwice.

Section SyncedFacts.
Context {P : Platform}.
Variable gen : string.

Import TestItemCollection.

Lemma wfItem_unfold (i : TestItem) :
  wfItem gen i <->
  if startsWith (id i) gen then wfItems gen (children i) else children i = [].
Proof.
  destruct i as [o i l u ch tg cr rg er ds st sy dp ce]. cbn [wfItem id children].
  destruct (startsWith i gen); [|reflexivity].
  unfold wfItems. apply and_iff_compat_l.
  induction ch as [|x ch IH]; [split; auto|].
  rewrite Forall_cons_iff, IH. reflexivity.
Qed.

Lemma wfItem_same (i j : TestItem) :
  id j = id i -> children j = children i -> wfItem gen i -> wfItem gen j.
Proof. intros Hi Hc. rewrite !wfItem_unfold, Hi, Hc. auto. Qed.

Lemma wfItems_nil : wfItems gen [].
Proof. split; constructor. Qed.

Lemma wfItems_filter (f : TestItem -> bool) (c : list TestItem) :
  wfItems gen c -> wfItems gen (filter f c).
Proof.
  intros [Hnd Hall]. split; [now apply ids_filter_NoDup|].
  apply Forall_forall. intros x Hx. apply filter_In in Hx as [Hx _].
  rewrite Forall_forall in Hall. auto.
Qed.

Lemma wfItems_update (c : list TestItem) (k : string) (f : TestItem -> TestItem) :
  (forall i, id (f i) = id i) ->
  (forall i, In i c -> id i = k -> wfItem gen i -> wfItem gen (f i)) ->
  wfItems gen c -> wfItems gen (update c k f).
Proof.
  intros Hid Hf [Hnd Hall]. split.
  - change (map id (update c k f)) with (ids (update c k f)).
    now rewrite update_ids.
  - unfold update. apply Forall_forall. intros x Hx.
    apply in_map_iff in Hx as [i [<- Hi]]. rewrite Forall_forall in Hall.
    destruct (String.eqb (id i) k) eqn:E; [|auto].
    apply String.eqb_eq in E. auto.
Qed.

Lemma wfItems_add (c : list TestItem) (v : TestItem) :
  wfItem gen v -> wfItems gen c -> wfItems gen (add c v).
Proof.
  intros Hv [Hnd Hall]. split; [now apply add_NoDup|].
  apply Forall_forall. intros x Hx. apply add_In in Hx as [->|Hx]; [exact Hv|].
  rewrite Forall_forall in Hall. auto.
Qed.

Lemma wfItems_get (c : list TestItem) (k : string) (v : TestItem) :
  wfItems gen c -> get c k = Some v -> wfItem gen v.
Proof.
  intros [_ Hall] Hget. apply get_Some_In in Hget as [Hin _].
  rewrite Forall_forall in Hall. auto.
Qed.

(** [Synced], one level at a time. *)
Lemma Synced_unfold (uItem : TreeItem) (c : list TestItem) :
  Synced gen uItem c <->
  NoDup (map id c)
  /\ (forall i, In i c -> startsWith (id i) gen = true ->
        JsMap.has (uChildrenById uItem)
          (substringFrom (String.length gen) (id i)) = true)
  /\ (forall k uChild, In (k, uChild) (uChildrenById uItem) ->
        exists v, get c (_idWithGeneration gen k) = Some v
                  /\ syncAttributes uChild v = v
                  /\ Synced gen uChild (children v)).
Proof.
  assert (E : Synced gen uItem c =
              levelSynced gen (decorate (Synced gen) (uChildrenById uItem)) c).
  { destruct uItem as [i k s t l g cse ch].
    rewrite <- (ofList_decorate (Synced gen) (mkTreeItem i k s t l g cse ch)).
    reflexivity. }
  rewrite E. unfold levelSynced.
  apply and_iff_compat_l.
  apply Morphisms_Prop.and_iff_morphism.
  - split; intros H i Hi Hg; specialize (H i Hi Hg);
      now rewrite decorate_has in *.
  - rewrite Forall_forall. unfold decorate. split.
    + intros H k uChild Hin.
      apply (H (k, (uChild, Synced gen uChild))).
      apply in_map_iff. now exists (k, uChild).
    + intros H e He. apply in_map_iff in He as [[k uChild] [<- Hin]]. cbn.
      now apply H.
Qed.

Lemma ensure_fixed {A} (E : JsMap.t (TreeItem * A)) (c : list TestItem) (n : nat) :
  NoDup (map id c) ->
  (forall e, In e E ->
     exists v, get c (_idWithGeneration gen (fst e)) = Some v
               /\ syncAttributes (fst (snd e)) v = v) ->
  fold_left (ensureChild gen) E (c, n) = (c, n).
Proof.
  intros Hnd. induction E as [|e E IH]; intros H; cbn [fold_left]; [reflexivity|].
  destruct (H e (or_introl eq_refl)) as [v [Hget Hv]].
  unfold ensureChild at 2. rewrite Hget.
  rewrite update_fixed; [|intros i Hi; congruence|exact Hnd].
  apply IH. intros e' He'. apply H. now right.
Qed.

Lemma recurse_fixed (E : UChildrenById) (c : list TestItem) (n : nat) :
  NoDup (map id c) ->
  (forall e, In e E ->
     exists v, get c (_idWithGeneration gen (fst e)) = Some v
               /\ forall m, snd (snd e) (children v) m = (children v, m)) ->
  fold_left (recurseChild gen) E (c, n) = (c, n).
Proof.
  intros Hnd. induction E as [|e E IH]; intros H; cbn [fold_left]; [reflexivity|].
  destruct (H e (or_introl eq_refl)) as [v [Hget Hv]].
  unfold recurseChild at 2. rewrite Hget, Hv.
  rewrite update_fixed; [|intros i Hi|exact Hnd].
  - apply IH. intros e' He'. apply H. now right.
  - assert (i = v) by congruence. subst i. apply set_children_same.
Qed.

(** A collection in sync with [uItem] is a fixed point of [_syncSuite]:
    nothing is created, deleted or written differently. *)
Lemma syncSuite_fixed (uItem : TreeItem) :
  forall c n, Synced gen uItem c -> _syncSuite gen uItem c n = (c, n).
Proof.
  induction uItem as [uItem IH] using TreeItem_children_ind. intros c n H.
  apply Synced_unfold in H as [Hnd [Hkeep Hall]].
  rewrite syncSuite_unfold, syncLevel_spec.
  set (E := decorate (_syncSuite gen) (uChildrenById uItem)).
  rewrite filter_all.
  2:{ intros i Hi. unfold keepChild.
      destruct (startsWith (id i) gen) eqn:Hg; [|reflexivity]. cbn.
      unfold E. rewrite decorate_has. now apply Hkeep. }
  rewrite ensure_fixed; [|exact Hnd|].
  2:{ intros e He. unfold E, decorate in He.
      apply in_map_iff in He as [[k uChild] [<- Hin]]. cbn.
      destruct (Hall k uChild Hin) as [v [Hget [Hv _]]]. eauto. }
  apply recurse_fixed; [exact Hnd|].
  intros e He. unfold E, decorate in He.
  apply in_map_iff in He as [[k uChild] [<- Hin]]. cbn.
  destruct (Hall k uChild Hin) as [v [Hget [_ Hs]]].
  exists v. split; [exact Hget|]. intros m.
  rewrite Forall_forall in IH. apply IH; [|exact Hs].
  now apply uChildrenById_In in Hin as [Hin _].
Qed.

End SyncedFacts.

(** ** [_syncSuite] brings a collection in sync *)

Section Establish.
Context {P : Platform}.
Variable gen : string.

Import TestItemCollection.

Lemma update_In (c : list TestItem) (k : string) (f : TestItem -> TestItem)
    (x : TestItem) :
  In x (update c k f) -> exists i, In i c /\ (x = i \/ (id i = k /\ x = f i)).
Proof.
  unfold update. intros H. apply in_map_iff in H as [i [<- Hi]].
  exists i. split; [exact Hi|].
  destruct (String.eqb (id i) k) eqn:E; [|now left].
  apply String.eqb_eq in E. now right.
Qed.

Lemma wfItem_newChild (k : string) (uChild : TreeItem) (n : nat) :
  wfItem gen (fst (newChild gen k uChild n)).
Proof.
  apply wfItem_unfold.
  rewrite newChild_id, startsWith_idWithGeneration, newChild_children.
  apply wfItems_nil.
Qed.

Lemma ensure_establishes {A} (KS : string -> bool) (E : JsMap.t (TreeItem * A)) :
  forall vs n,
    NoDup (JsMap.keys E) ->
    (forall k, In k (JsMap.keys E) -> KS k = true) ->
    wfItems gen vs ->
    (forall i, In i vs -> startsWith (id i) gen = true ->
       KS (substringFrom (String.length gen) (id i)) = true) ->
    let r := fold_left (ensureChild gen) E (vs, n) in
    wfItems gen (fst r)
    /\ (forall i, In i (fst r) -> startsWith (id i) gen = true ->
          KS (substringFrom (String.length gen) (id i)) = true)
    /\ (forall e, In e E ->
          exists v, get (fst r) (_idWithGeneration gen (fst e)) = Some v
                    /\ syncAttributes (fst (snd e)) v = v)
    /\ (forall x, (forall k, In k (JsMap.keys E) -> x <> _idWithGeneration gen k) ->
          get (fst r) x = get vs x)
    /\ n <= snd r.
Proof.
  induction E as [|e E IH]; intros vs n Hnd HKS Hwf Hpre; cbn [fold_left].
  - cbn. split; [exact Hwf|]. split; [exact Hpre|]. split; [intros e []|].
    split; [reflexivity| lia].
  - cbn [JsMap.keys map] in Hnd, HKS. inversion Hnd as [|? ? Hk HndE]; subst.
    set (k := fst e) in *. set (c := fst (snd e)).
    assert (Hstep :
      exists vs1 n1,
        ensureChild gen (vs, n) e = (vs1, n1)
        /\ wfItems gen vs1
        /\ (forall i, In i vs1 -> startsWith (id i) gen = true ->
              KS (substringFrom (String.length gen) (id i)) = true)
        /\ (exists v, get vs1 (_idWithGeneration gen k) = Some v
                      /\ syncAttributes c v = v)
        /\ (forall x, x <> _idWithGeneration gen k -> get vs1 x = get vs x)
        /\ n <= n1).
    { unfold ensureChild. fold k c.
      destruct (get vs (_idWithGeneration gen k)) as [v0|] eqn:Hget.
      - do 2 eexists. split; [reflexivity|].
        refine (conj _ (conj _ (conj _ (conj _ _)))).
        + apply wfItems_update; [apply syncAttributes_id| |exact Hwf].
          intros i _ _. apply wfItem_same;
            [apply syncAttributes_id| apply syncAttributes_children].
        + intros i Hi Hg. apply update_In in Hi as [i0 [Hi0 [->|[_ ->]]]].
          * now apply Hpre.
          * rewrite syncAttributes_id in *. now apply Hpre.
        + exists (syncAttributes c v0). split.
          * rewrite get_update by apply syncAttributes_id.
            now rewrite String.eqb_refl, Hget.
          * apply syncAttributes_twice.
        + intros x Hx. rewrite get_update by apply syncAttributes_id.
          apply not_eq_sym, String.eqb_neq in Hx. now rewrite Hx.
        + lia.
      - destruct (newChild gen k c n) as [v n1] eqn:Hnew.
        assert (Hv : v = fst (newChild gen k c n)) by now rewrite Hnew.
        assert (Hid : id v = _idWithGeneration gen k)
          by (rewrite Hv; apply newChild_id).
        assert (Hwfadd : wfItems gen (add vs v)).
        { apply wfItems_add; [|exact Hwf]. rewrite Hv. apply wfItem_newChild. }
        do 2 eexists. split; [reflexivity|].
        refine (conj _ (conj _ (conj _ (conj _ _)))).
        + apply wfItems_update; [apply syncAttributes_id| |exact Hwfadd].
          intros i _ _. apply wfItem_same;
            [apply syncAttributes_id| apply syncAttributes_children].
        + intros i Hi Hg.
          assert (Hin : exists i0, In i0 (add vs v) /\ id i = id i0).
          { apply update_In in Hi as [i0 [Hi0 [->|[_ ->]]]]; exists i0;
              split; auto. apply syncAttributes_id. }
          destruct Hin as [i0 [Hi0 Hii]]. rewrite Hii in *.
          apply add_In in Hi0 as [->|Hi0]; [|now apply Hpre].
          rewrite Hid, strip_idWithGeneration. apply HKS. now left.
        + exists (syncAttributes c v). split.
          * rewrite get_update by apply syncAttributes_id.
            now rewrite String.eqb_refl, get_add, Hid, String.eqb_refl.
          * apply syncAttributes_twice.
        + intros x Hx. rewrite get_update by apply syncAttributes_id.
          rewrite get_add, Hid.
          apply not_eq_sym, String.eqb_neq in Hx. now rewrite Hx.
        + pose proof (newChild_obj gen k c n) as [_ Hn]. rewrite Hnew in Hn.
          cbn in Hn. lia. }
    destruct Hstep as (vs1 & n1 & -> & Hwf1 & Hpre1 & Hk1 & Hfr1 & Hn1).
    specialize (IH vs1 n1 HndE (fun k' Hk' => HKS k' (or_intror Hk')) Hwf1 Hpre1).
    cbn zeta in IH. destruct IH as (IH1 & IH2 & IH3 & IH4 & IH5).
    refine (conj IH1 (conj IH2 (conj _ (conj _ _)))).
    + intros e' [<-|He'].
      * destruct Hk1 as [v [Hget Hv]]. exists v. split; [|exact Hv].
        rewrite IH4; [exact Hget|]. intros k' Hk' Heq.
        apply idWithGeneration_inj in Heq. subst k'. contradiction.
      * now apply IH3.
    + intros x Hx. rewrite IH4, Hfr1; [reflexivity| |].
      * apply Hx. now left.
      * intros k' Hk'. apply Hx. now right.
    + lia.
Qed.

Lemma recurse_establishes (Q : TreeItem -> list TestItem -> Prop)
    (E : UChildrenById) :
  (forall e, In e E -> forall cs m,
     wfItems gen cs ->
     Q (fst (snd e)) (fst (snd (snd e) cs m))
     /\ wfItems gen (fst (snd (snd e) cs m))
     /\ m <= snd (snd (snd e) cs m)) ->
  forall vs n,
    NoDup (JsMap.keys E) ->
    wfItems gen vs ->
    (forall e, In e E ->
       exists v, get vs (_idWithGeneration gen (fst e)) = Some v) ->
    let r := fold_left (recurseChild gen) E (vs, n) in
    wfItems gen (fst r)
    /\ map id (fst r) = map id vs
    /\ (forall e, In e E ->
          exists v cs,
            get vs (_idWithGeneration gen (fst e)) = Some v
            /\ get (fst r) (_idWithGeneration gen (fst e)) = Some (set_children cs v)
            /\ Q (fst (snd e)) cs)
    /\ (forall x, (forall k, In k (JsMap.keys E) -> x <> _idWithGeneration gen k) ->
          get (fst r) x = get vs x)
    /\ n <= snd r.
Proof.
  induction E as [|e E IH]; intros HQ vs n Hnd Hwf Hex; cbn [fold_left].
  - cbn. split; [exact Hwf|]. split; [reflexivity|]. split; [intros e []|].
    split; [reflexivity| lia].
  - cbn [JsMap.keys map] in Hnd. inversion Hnd as [|? ? Hk HndE]; subst.
    destruct (Hex e (or_introl eq_refl)) as [v Hget].
    assert (Hidv : id v = _idWithGeneration gen (fst e))
      by now apply get_Some_In in Hget.
    assert (Hwfv : wfItems gen (children v)).
    { pose proof (wfItems_get _ _ _ _ Hwf Hget) as Hv.
      apply wfItem_unfold in Hv.
      now rewrite Hidv, startsWith_idWithGeneration in Hv. }
    destruct (HQ e (or_introl eq_refl) (children v) n Hwfv) as (Hq & Hwfc & Hn).
    destruct (snd (snd e) (children v) n) as [cs n1] eqn:Hrec.
    cbn [fst snd] in Hq, Hwfc, Hn.
    set (vs1 := update vs (_idWithGeneration gen (fst e)) (set_children cs)).
    assert (Estep : recurseChild gen (vs, n) e = (vs1, n1)).
    { unfold recurseChild. now rewrite Hget, Hrec. }
    cbn zeta. rewrite Estep.
    assert (Hwf1 : wfItems gen vs1).
    { apply wfItems_update; [apply set_children_id| |exact Hwf].
      intros i _ Hi _. apply wfItem_unfold. cbn [id children set_children].
      now rewrite Hi, startsWith_idWithGeneration. }
    assert (Hfr1 : forall x, x <> _idWithGeneration gen (fst e) ->
                             get vs1 x = get vs x).
    { intros x Hx. unfold vs1. rewrite get_update by apply set_children_id.
      apply not_eq_sym, String.eqb_neq in Hx. now rewrite Hx. }
    assert (Hne : forall e', In e' E ->
              _idWithGeneration gen (fst e') <> _idWithGeneration gen (fst e)).
    { intros e' He' Heq. apply idWithGeneration_inj in Heq. apply Hk.
      rewrite <- Heq. now apply in_map. }
    specialize (IH (fun e' He' => HQ e' (or_intror He')) vs1 n1 HndE Hwf1).
    cbn zeta in IH. destruct IH as (IH1 & IH2 & IH3 & IH4 & IH5).
    { intros e' He'. rewrite Hfr1 by now apply Hne. apply Hex. now right. }
    refine (conj IH1 (conj _ (conj _ (conj _ _)))).
    + transitivity (map id vs1); [exact IH2|].
      apply (update_ids vs (_idWithGeneration gen (fst e)) (set_children cs)).
      apply set_children_id.
    + intros e' [<-|He'].
      * exists v, cs. repeat split; [exact Hget| |exact Hq].
        rewrite IH4.
        -- unfold vs1. rewrite get_update by apply set_children_id.
           now rewrite String.eqb_refl, Hget.
        -- intros k' Hk' Heq. apply idWithGeneration_inj in Heq. subst k'.
           contradiction.
      * destruct (IH3 e' He') as (v' & cs' & Hg1 & Hg2 & Hq').
        exists v', cs'. repeat split; try assumption.
        rewrite <- Hg1. symmetry. apply Hfr1. now apply Hne.
    + intros x Hx. rewrite IH4, Hfr1; [reflexivity| |].
      * apply Hx. now left.
      * intros k' Hk'. apply Hx. now right.
    + lia.
Qed.

(** [_syncSuite] turns a well-formed collection into one that is in sync
    with the logical item, and well-formed; identities are only handed out
    upwards. *)
Lemma syncSuite_establishes (uItem : TreeItem) :
  forall c n,
    wfItems gen c ->
    Synced gen uItem (fst (_syncSuite gen uItem c n))
    /\ wfItems gen (fst (_syncSuite gen uItem c n))
    /\ n <= snd (_syncSuite gen uItem c n).
Proof.
  induction uItem as [uItem IH] using TreeItem_children_ind. intros c n Hwf.
  rewrite syncSuite_unfold, syncLevel_spec.
  set (B := uChildrenById uItem).
  set (E := decorate (_syncSuite gen) B).
  assert (HndE : NoDup (JsMap.keys E)).
  { unfold E. rewrite decorate_keys. apply uChildrenById_NoDup. }
  assert (HKS : forall k, In k (JsMap.keys E) -> JsMap.has B k = true).
  { intros k Hk. unfold E in Hk. rewrite decorate_keys in Hk.
    now apply JsMap_has_keys. }
  pose proof (ensure_establishes (JsMap.has B) E (filter (keepChild gen E) c) n
                HndE HKS (wfItems_filter _ _ _ Hwf)) as H2.
  cbn zeta in H2. destruct H2 as (Hwf2 & Hpre2 & Hall2 & _ & Hn2).
  { intros i Hi Hg. apply filter_In in Hi as [_ Hi]. unfold keepChild in Hi.
    rewrite Hg in Hi. cbn in Hi. unfold E in Hi. now rewrite decorate_has in Hi. }
  destruct (fold_left (ensureChild gen) E (filter (keepChild gen E) c, n))
    as [c2 n2] eqn:E2. cbn [fst snd] in *.
  pose proof (recurse_establishes (Synced gen) E) as H3.
  specialize (H3) with (vs := c2) (n := n2). cbn zeta in H3.
  destruct H3 as (Hwf3 & Hids3 & Hall3 & _ & Hn3); try assumption.
  { intros e He cs m Hcs. unfold E, decorate in He.
    apply in_map_iff in He as [[k uChild] [<- Hin]]. cbn [fst snd].
    rewrite Forall_forall in IH. apply IH; [|exact Hcs].
    now apply uChildrenById_In in Hin as [Hin _]. }
  { intros e He. destruct (Hall2 e He) as [v [Hv _]]. eauto. }
  destruct (fold_left (recurseChild gen) E (c2, n2)) as [c3 n3] eqn:E3.
  cbn [fst snd] in *. split; [|split; [exact Hwf3| lia]].
  apply Synced_unfold. split; [apply Hwf3|]. split.
  - intros i Hi Hg.
    assert (Hin : In (id i) (map id c2)) by (rewrite <- Hids3; now apply in_map).
    apply in_map_iff in Hin as [i0 [Hii Hi0]]. rewrite <- Hii.
    apply Hpre2; [exact Hi0| now rewrite Hii].
  - intros k uChild Hin.
    assert (He : In (k, (uChild, _syncSuite gen uChild)) E).
    { unfold E, decorate. apply in_map_iff. now exists (k, uChild). }
    destruct (Hall3 _ He) as (v & cs & Hg2 & Hg3 & Hq). cbn [fst snd] in *.
    destruct (Hall2 _ He) as (v' & Hg2' & Hv'). cbn [fst snd] in *.
    assert (v' = v) by congruence. subst v'.
    exists (set_children cs v). repeat split; [exact Hg3| |exact Hq].
    now rewrite syncAttributes_set_children, Hv'.
Qed.

End Establish.

(** ** The auxiliary synchronizers *)

Section SortFacts.
Context {A : Type}.
Variable compare : A -> A -> Z.

Lemma insertSorted_Permutation (x : A) (l : list A) :
  Permutation (insertSorted compare x l) (x :: l).
Proof.
  induction l as [|y l IH]; cbn; [reflexivity|].
  destruct (compare x y <? 0)%Z; [reflexivity|].
  rewrite IH. apply perm_swap.
Qed.

Lemma sort_Permutation_aux (l acc : list A) :
  Permutation (fold_left (fun acc x => insertSorted compare x acc) l acc)
    (acc ++ l)%list.
Proof.
  revert acc. induction l as [|x l IH]; intros acc; cbn.
  - now rewrite app_nil_r.
  - rewrite IH, insertSorted_Permutation. apply Permutation_middle.
Qed.

Lemma sort_Permutation (l : list A) : Permutation (sort compare l) l.
Proof. apply (sort_Permutation_aux l []). Qed.

Lemma sort_In (l : list A) (x : A) : In x (sort compare l) <-> In x l.
Proof.
  split; apply Permutation_in; [|symmetry]; apply sort_Permutation.
Qed.

Lemma sort_NoDup_map {B} (f : A -> B) (l : list A) :
  NoDup (map f l) -> NoDup (map f (sort compare l)).
Proof.
  apply Permutation_NoDup, Permutation_map. symmetry. apply sort_Permutation.
Qed.

End SortFacts.

Section EntriesFacts.
Context {E : Type}.
Variable idOf : E -> string.
Variable new : E -> nat -> TestItem * nat.
Variable prefix : string.

Import TestItemCollection.

Hypothesis new_id : forall e n, id (fst (new e n)) = idOf e.
Hypothesis new_next : forall e n, n <= snd (new e n).
Hypothesis idOf_prefix : forall e, startsWith (idOf e) prefix = true.

Lemma fold_delete_In (old : list string) (c : list TestItem) (x : TestItem) :
  In x (fold_left delete old c) <-> In x c /\ ~ In (id x) old.
Proof.
  revert c. induction old as [|k old IH]; intros c; cbn [fold_left].
  - cbn. intuition.
  - rewrite IH, delete_In. cbn. intuition.
Qed.

Lemma fold_delete_get (old : list string) (c : list TestItem) (k : string) :
  ~ In k old -> get (fold_left delete old c) k = get c k.
Proof.
  revert c. induction old as [|k0 old IH]; intros c H; cbn [fold_left];
    [reflexivity|].
  rewrite IH, get_delete by (cbn in H; intuition).
  destruct (String.eqb k0 k) eqn:E0; [|reflexivity].
  apply String.eqb_eq in E0. subst. exfalso. apply H. now left.
Qed.

Lemma fold_delete_NoDup (old : list string) (c : list TestItem) :
  NoDup (ids c) -> NoDup (ids (fold_left delete old c)).
Proof.
  revert c. induction old as [|k old IH]; intros c H; cbn [fold_left]; [exact H|].
  apply IH, delete_NoDup, H.
Qed.

Lemma entries_loop (L : list E) :
  forall c0 old0 n0 done c old n,
    (forall k, In k old0 -> In k (ids c0)) ->
    LoopOk idOf new prefix c0 old0 n0 done c old n ->
    let r := fold_left (entryStep idOf new) L (c, old, n) in
    LoopOk idOf new prefix c0 old0 n0 (done ++ L)%list (fst (fst r)) (snd (fst r))
      (snd r).
Proof.
  induction L as [|e L IH]; intros c0 old0 n0 done c old n Hold H; cbn [fold_left].
  - cbn. now rewrite app_nil_r.
  - replace (done ++ e :: L)%list with ((done ++ [e]) ++ L)%list
      by now rewrite <- app_assoc.
    destruct H as [H1 H2 H3 H4 H5 H6].
    destruct (JsSet.has old (idOf e)) eqn:Hhas.
    + assert (Estep : entryStep idOf new (c, old, n) e =
                      (c, JsSet.delete old (idOf e), n)).
      { unfold entryStep. now rewrite Hhas. }
      rewrite Estep.
      apply IH; [exact Hold|]. apply JsSet_has_In in Hhas.
      constructor; try assumption.
      * intros k. rewrite JsSet_delete_In, H1, map_app, in_app_iff. cbn.
        intuition.
      * intros k. rewrite H2, map_app, in_app_iff. cbn.
        apply H1 in Hhas as [Hhas _]. intuition. subst. contradiction.
      * intros x Hx. destruct (H3 x Hx) as [?|(e' & m & He' & ->)]; [auto|].
        right. exists e', m. split; [|reflexivity]. apply in_or_app. now left.
    + destruct (new e n) as [item n'] eqn:Hnew.
      assert (Hid : id item = idOf e).
      { pose proof (new_id e n) as Hid. now rewrite Hnew in Hid. }
      assert (Hn : n <= n').
      { pose proof (new_next e n) as Hn. now rewrite Hnew in Hn. }
      assert (Hnot : ~ In (idOf e) old).
      { intros Hin. apply JsSet_has_In in Hin. congruence. }
      assert (Estep : entryStep idOf new (c, old, n) e = (add c item, old, n')).
      { unfold entryStep. now rewrite Hhas, Hnew. }
      rewrite Estep.
      apply IH; [exact Hold|]. constructor.
      * intros k. rewrite H1, map_app, in_app_iff. cbn.
        split; [|intuition]. intros [Hk Hd]. split; [exact Hk|].
        intros [Hd'|[<-|[]]]; [contradiction|].
        apply Hnot. apply H1. auto.
      * intros k. rewrite add_ids_incl, Hid, H2, map_app, in_app_iff. cbn.
        split.
        -- intros [->|[Hk|[Hk Hk']]]; [|auto|auto].
           destruct (in_dec string_dec (idOf e) (ids c0)) as [Hin|Hin]; [auto|].
           right. split; [auto|]. intros Hin'. apply Hin, Hold, Hin'.
        -- intros [Hk|[[Hk|[<-|[]]] Hk']]; auto.
      * intros x Hx. apply add_In in Hx as [->|Hx].
        -- right. exists e, n. split; [|now rewrite Hnew].
           apply in_or_app. right. now left.
        -- destruct (H3 x Hx) as [?|(e' & m & He' & ->)]; [auto|].
           right. exists e', m. split; [|reflexivity]. apply in_or_app. now left.
      * intros k Hk. rewrite get_add, Hid.
        destruct (String.eqb (idOf e) k) eqn:Ek; [|now apply H4].
        apply String.eqb_eq in Ek. subst k. rewrite idOf_prefix in Hk. discriminate.
      * intros Hnd. apply add_NoDup. auto.
      * lia.
Qed.

Lemma LoopOk_init (c0 : list TestItem) (n0 : nat) :
  LoopOk idOf new prefix c0
    (JsSet.ofList (filter (fun s => startsWith s prefix) (map id c0))) n0
    [] c0 (JsSet.ofList (filter (fun s => startsWith s prefix) (map id c0))) n0.
Proof.
  constructor; cbn; try tauto; auto.
Qed.

Lemma old_In (c0 : list TestItem) (k : string) :
  In k (JsSet.ofList (filter (fun s => startsWith s prefix) (map id c0))) <->
  In k (ids c0) /\ startsWith k prefix = true.
Proof. rewrite JsSet_ofList_In, filter_In. reflexivity. Qed.

(** What [syncEntries] does to the children [c0]. *)
Lemma syncEntries_spec (L : list E) (c0 : list TestItem) (n0 : nat) :
  let r := syncEntries idOf new prefix L c0 n0 in
  (forall k, startsWith k prefix = true ->
     (In k (ids (fst r)) <-> In k (map idOf L)))
  /\ (forall k, startsWith k prefix = false -> get (fst r) k = get c0 k)
  /\ (forall x, In x (fst r) ->
        In x c0 \/ exists e m, In e L /\ x = fst (new e m))
  /\ (NoDup (ids c0) -> NoDup (ids (fst r)))
  /\ n0 <= snd r.
Proof.
  unfold syncEntries.
  set (old0 := JsSet.ofList (filter (fun s => startsWith s prefix) (map id c0))).
  pose proof (entries_loop L c0 old0 n0 [] c0 old0 n0) as H.
  cbn zeta in H.
  destruct (fold_left (entryStep idOf new) L (c0, old0, n0)) as [[c old] n] eqn:EL.
  cbn [fst snd app] in H.
  destruct H as [H1 H2 H3 H4 H5 H6].
  { intros k Hk. now apply old_In in Hk. }
  { apply LoopOk_init. }
  cbn [fst snd]. refine (conj _ (conj _ (conj _ (conj _ _)))).
  - intros k Hk. unfold ids. rewrite in_map_iff. split.
    + intros [x [<- Hx]]. apply fold_delete_In in Hx as [Hx Hnot].
      assert (Hin : In (id x) (ids c)) by now apply in_map.
      apply H2 in Hin as [Hin|[Hin _]]; [|exact Hin].
      destruct (in_dec string_dec (id x) (map idOf L)) as [?|Hno]; [assumption|].
      exfalso. apply Hnot. apply H1. split; [|exact Hno].
      apply old_In. auto.
    + intros Hin.
      assert (Hc : In k (ids c)).
      { apply H2. destruct (in_dec string_dec k (ids c0)) as [?|Hno]; [auto|].
        right. split; [exact Hin|]. intros Ho. apply old_In in Ho. tauto. }
      apply in_map_iff in Hc as [x [<- Hx]]. exists x. split; [reflexivity|].
      apply fold_delete_In. split; [exact Hx|]. intros Ho.
      apply H1 in Ho. tauto.
  - intros k Hk. rewrite fold_delete_get; [now apply H4|].
    intros Ho. apply H1 in Ho as [Ho _]. apply old_In in Ho. destruct Ho. congruence.
  - intros x Hx. apply fold_delete_In in Hx as [Hx _]. now apply H3.
  - intros Hnd. apply fold_delete_NoDup. auto.
  - exact H6.
Qed.

Lemma entries_loop_fixed (L : list E) (c : list TestItem) (old : list string)
    (n : nat) :
  NoDup (map idOf L) -> (forall e, In e L -> In (idOf e) old) ->
  fold_left (entryStep idOf new) L (c, old, n) =
  (c, fold_left JsSet.delete (map idOf L) old, n).
Proof.
  revert old. induction L as [|e L IH]; intros old Hnd Hin; cbn [fold_left map];
    [reflexivity|].
  inversion Hnd as [|? ? He HndL]; subst.
  assert (Hhas : JsSet.has old (idOf e) = true).
  { apply JsSet_has_In, Hin. now left. }
  assert (Estep : entryStep idOf new (c, old, n) e =
                  (c, JsSet.delete old (idOf e), n)).
  { unfold entryStep. now rewrite Hhas. }
  rewrite Estep. apply IH; [exact HndL|].
  intros e' He'. apply JsSet_delete_In. split; [apply Hin; now right|].
  intros Heq. apply He. rewrite <- Heq. now apply in_map.
Qed.

Lemma fold_JsSet_delete_In (ks : list string) (old : list string) (x : string) :
  In x (fold_left JsSet.delete ks old) <-> In x old /\ ~ In x ks.
Proof.
  revert old. induction ks as [|k ks IH]; intros old; cbn [fold_left].
  - cbn. intuition.
  - rewrite IH, JsSet_delete_In. cbn. intuition.
Qed.

(** A collection that holds exactly the entries of [L], each once, is a
    fixed point of [syncEntries]. *)
Lemma syncEntries_fixed (L : list E) (c : list TestItem) (n : nat) :
  NoDup (map idOf L) ->
  (forall k, startsWith k prefix = true -> (In k (ids c) <-> In k (map idOf L))) ->
  syncEntries idOf new prefix L c n = (c, n).
Proof.
  intros Hnd Hset. unfold syncEntries.
  set (old0 := JsSet.ofList (filter (fun s => startsWith s prefix) (map id c))).
  rewrite entries_loop_fixed; [|exact Hnd|].
  - assert (Hnil : fold_left JsSet.delete (map idOf L) old0 = []).
    { destruct (fold_left JsSet.delete (map idOf L) old0) as [|x l] eqn:Ex;
        [reflexivity|].
      assert (Hx : In x (fold_left JsSet.delete (map idOf L) old0))
        by (rewrite Ex; now left).
      apply fold_JsSet_delete_In in Hx as [Hx Hno]. apply old_In in Hx as [Hx Hp].
      exfalso. apply Hno. now apply Hset. }
    now rewrite Hnil.
  - intros e He. apply old_In. split; [|apply idOf_prefix].
    apply Hset; [apply idOf_prefix| now apply in_map].
Qed.

End EntriesFacts.

Section Synthetic.
Context {P : Platform}.

Import TestItemCollection.

(** *** Generations and the ids of the auxiliary entries *)

Lemma hex_generation_head (guid s : string) :
  isHex guid = true -> startsWith s (guid ++ ":") = true ->
  exists c s', s = String c s' /\ (isHexDigit c = true \/ c = ":"%char).
Proof.
  intros Hhex Hs. destruct guid as [|c guid]; cbn in Hs.
  - apply prefix_head in Hs as [s' ->]. eauto.
  - change (String.prefix (String c (guid ++ ":")) s = true) in Hs.
    apply prefix_head in Hs as [s' ->]. cbn in Hhex.
    apply andb_prop in Hhex as [Hc _]. eauto.
Qed.

Lemma bracket_not_generation (guid s : string) :
  isHex guid = true -> startsWith s "[" = true ->
  startsWith s (guid ++ ":") = false.
Proof.
  intros Hhex Hs. destruct (startsWith s (guid ++ ":")) eqn:E; [|reflexivity].
  apply (hex_generation_head _ _ Hhex) in E as (c & s' & -> & Hc).
  apply prefix_head in Hs as [s'' [= -> _]].
  destruct Hc as [Hc|Hc]; discriminate.
Qed.

Lemma generation_not_bracket (guid k : string) :
  isHex guid = true ->
  startsWith (_idWithGeneration (guid ++ ":") k) "[" = false.
Proof.
  intros Hhex.
  destruct (startsWith (_idWithGeneration (guid ++ ":") k) "[") eqn:E;
    [|reflexivity].
  apply (bracket_not_generation guid) in E; [|exact Hhex].
  now rewrite startsWith_idWithGeneration in E.
Qed.

Lemma startsWith_bracket (s p : string) :
  startsWith s (String "[" p) = true -> startsWith s "[" = true.
Proof.
  intros H. apply prefix_head in H as [s' ->].
  unfold startsWith. now rewrite prefix_cons, prefix_nil.
Qed.

Lemma generation_not_prefixed (guid k p : string) :
  isHex guid = true ->
  startsWith (_idWithGeneration (guid ++ ":") k) (String "[" p) = false.
Proof.
  intros Hhex.
  destruct (startsWith (_idWithGeneration (guid ++ ":") k) (String "[" p)) eqn:E;
    [|reflexivity].
  apply startsWith_bracket in E. now rewrite generation_not_bracket in E.
Qed.

Lemma loading_not_generation (guid : string) :
  isHex guid = true -> startsWith "loading" (guid ++ ":") = false.
Proof.
  intros Hhex. destruct (startsWith "loading" (guid ++ ":")) eqn:E; [|reflexivity].
  apply (hex_generation_head _ _ Hhex) in E as (c & s' & [= <- _] & Hc).
  destruct Hc as [Hc|Hc]; discriminate.
Qed.

Lemma disabledProjectId_prefix (project : TestProject) :
  startsWith (disabledProjectId project) "[disabled] " = true.
Proof. apply prefix_append. Qed.

Lemma errorId_prefix (model : TestModel) (error0 : TestError) :
  startsWith (errorId model error0) "[error] " = true.
Proof. apply prefix_append. Qed.

Lemma disabled_not_error (s : string) :
  startsWith s "[disabled] " = true -> startsWith s "[error] " = false.
Proof.
  intros H. apply prefix_strip in H. rewrite <- H. reflexivity.
Qed.

Lemma error_not_disabled (s : string) :
  startsWith s "[error] " = true -> startsWith s "[disabled] " = false.
Proof.
  intros H. destruct (startsWith s "[disabled] ") eqn:E; [|reflexivity].
  apply disabled_not_error in E. congruence.
Qed.

(** *** The items of the auxiliary entries *)

Lemma newDisabledItem_id (project : TestProject) (n : nat) :
  id (fst (newDisabledItem project n)) = disabledProjectId project.
Proof. reflexivity. Qed.

Lemma newDisabledItem_next (project : TestProject) (n : nat) :
  n <= snd (newDisabledItem project n).
Proof. cbn. lia. Qed.

Lemma newDisabledItem_children (project : TestProject) (n : nat) :
  children (fst (newDisabledItem project n)) = [].
Proof. reflexivity. Qed.

Lemma newErrorItem_id (model : TestModel) (error0 : TestError) (n : nat) :
  id (fst (builtErrorItem model error0 n)) = errorId model error0.
Proof. unfold builtErrorItem. cbn. now destruct (error_location error0). Qed.

Lemma newErrorItem_next (model : TestModel) (error0 : TestError) (n : nat) :
  n <= snd (builtErrorItem model error0 n).
Proof. cbn. lia. Qed.

Lemma newErrorItem_children (model : TestModel) (error0 : TestError) (n : nat) :
  children (fst (builtErrorItem model error0 n)) = [].
Proof. unfold builtErrorItem. cbn. now destruct (error_location error0). Qed.

(** *** The synchronizers are instances of the one loop *)

Lemma syncDisabledProjects_entries (disabledProjects : list TestProject)
    (c : list TestItem) (n : nat) :
  _syncDisabledProjects disabledProjects c n =
  syncEntries disabledProjectId newDisabledItem "[disabled] "
    (sortedProjects disabledProjects) c n.
Proof. reflexivity. Qed.

Lemma fold_left_flat_map {A B C} (f : A -> C -> A) (g : B -> list C)
    (l : list B) (a : A) :
  fold_left f (flat_map g l) a = fold_left (fun a x => fold_left f (g x) a) l a.
Proof.
  revert a. induction l as [|x l IH]; intros a; cbn; [reflexivity|].
  now rewrite fold_left_app, IH.
Qed.

Lemma fold_left_map {A B C} (f : A -> C -> A) (h : B -> C) (l : list B) (a : A) :
  fold_left f (map h l) a = fold_left (fun a x => f a (h x)) l a.
Proof.
  revert a. induction l as [|x l IH]; intros a; cbn; [reflexivity|]. apply IH.
Qed.

Lemma syncConfigErrors_entries (errorsByModel : ErrorsByModel)
    (c : list TestItem) (n : nat) :
  syncConfigErrorsReturned errorsByModel c n =
  syncEntries errorIdOf newErrorItemOf "[error] " (errorEntries errorsByModel) c n.
Proof. reflexivity. Qed.

End Synthetic.

(** ** One folder: the three synchronizers in a row *)

Section ScopeSync.
Context {P : Platform}.
Variable guid : string.
Hypothesis guid_hex : isHex guid = true.

Import TestItemCollection.

Let gen := guid ++ ":".

Lemma ids_get (c c' : list TestItem) (k : string) :
  get c' k = get c k -> (In k (ids c') <-> In k (ids c)).
Proof.
  intros H. destruct (get c k) eqn:E.
  - split; intros _.
    + apply get_Some_In in E as [Hin <-]. now apply in_map.
    + apply get_Some_In in H as [Hin <-]. now apply in_map.
  - pose proof H as H'. apply get_None_iff in H'. apply get_None_iff in E. tauto.
Qed.

(** What a synchronizer of auxiliary entries keeps of a collection. *)
Lemma entries_keep_synced {E : Type} (idOf : E -> string)
    (new : E -> nat -> TestItem * nat) (p : string) (L : list E)
    (uItem : TreeItem) (c : list TestItem) (n : nat) :
  (forall e m, id (fst (new e m)) = idOf e) ->
  (forall e m, m <= snd (new e m)) ->
  (forall e, startsWith (idOf e) (String "[" p) = true) ->
  Synced gen uItem c ->
  Synced gen uItem (fst (syncEntries idOf new (String "[" p) L c n)).
Proof.
  intros Hid Hnext Hpre Hs.
  destruct (syncEntries_spec idOf new (String "[" p) Hid Hnext Hpre L c n)
    as (_ & Hget & Hitems & Hnd & _).
  apply Synced_unfold in Hs as (Hnd0 & Hkeep & Hall).
  apply Synced_unfold. refine (conj (Hnd Hnd0) (conj _ _)).
  - intros i Hi Hg. destruct (Hitems i Hi) as [Hin|(e & m & _ & ->)].
    + now apply Hkeep.
    + rewrite Hid in Hg.
      rewrite (bracket_not_generation guid) in Hg;
        [discriminate| exact guid_hex|].
      apply (startsWith_bracket _ p), Hpre.
  - intros k uChild Hin. destruct (Hall k uChild Hin) as (v & Hv & Hrest).
    exists v. split; [|exact Hrest].
    rewrite Hget; [exact Hv|]. now apply generation_not_prefixed.
Qed.

Lemma entries_keep_wf {E : Type} (idOf : E -> string)
    (new : E -> nat -> TestItem * nat) (p : string) (L : list E)
    (c : list TestItem) (n : nat) :
  (forall e m, id (fst (new e m)) = idOf e) ->
  (forall e m, m <= snd (new e m)) ->
  (forall e, startsWith (idOf e) p = true) ->
  (forall e m, children (fst (new e m)) = []) ->
  wfItems gen c -> wfItems gen (fst (syncEntries idOf new p L c n)).
Proof.
  intros Hid Hnext Hpre Hch [Hnd0 Hall].
  destruct (syncEntries_spec idOf new p Hid Hnext Hpre L c n)
    as (_ & _ & Hitems & Hnd & _).
  split; [now apply Hnd|]. apply Forall_forall. intros x Hx.
  rewrite Forall_forall in Hall.
  destruct (Hitems x Hx) as [Hin|(e & m & _ & ->)]; [auto|].
  apply wfItem_unfold. rewrite Hch.
  destruct (startsWith _ gen); [apply wfItems_nil| reflexivity].
Qed.

Variable uItem : TreeItem.
Variable disabledProjects : list TestProject.
Variable errorsByModel : ErrorsByModel.

Lemma sortedProjects_ids (k : string) :
  In k (map disabledProjectId (sortedProjects disabledProjects)) <->
  In k (map disabledProjectId disabledProjects).
Proof.
  rewrite !in_map_iff. unfold sortedProjects.
  split; intros [x [Hx Hin]]; exists x; (split; [exact Hx|]).
  - now apply sort_In in Hin.
  - now apply sort_In.
Qed.

Lemma syncScope_establishes (c : list TestItem) (n : nat) :
  wfItems gen c ->
  ScopeSynced gen uItem disabledProjects errorsByModel (fst (syncScope gen uItem disabledProjects errorsByModel c n))
  /\ wfItems gen (fst (syncScope gen uItem disabledProjects errorsByModel c n))
  /\ n <= snd (syncScope gen uItem disabledProjects errorsByModel c n).
Proof.
  intros Hwf. unfold syncScope.
  destruct (syncSuite_establishes gen uItem c n Hwf) as (Hs1 & Hwf1 & Hn1).
  destruct (_syncSuite gen uItem c n) as [c1 n1]. cbn [fst snd] in *.
  pose proof (syncDisabledProjects_entries disabledProjects c1 n1) as E2.
  destruct (syncEntries_spec disabledProjectId newDisabledItem "[disabled] "
              newDisabledItem_id newDisabledItem_next disabledProjectId_prefix
              (sortedProjects disabledProjects) c1 n1)
    as (Hset2 & _ & _ & _ & Hn2).
  pose proof (entries_keep_synced disabledProjectId newDisabledItem "disabled] "
                (sortedProjects disabledProjects) uItem c1 n1
                newDisabledItem_id newDisabledItem_next disabledProjectId_prefix Hs1)
    as Hs2.
  pose proof (entries_keep_wf disabledProjectId newDisabledItem "[disabled] "
                (sortedProjects disabledProjects) c1 n1
                newDisabledItem_id newDisabledItem_next disabledProjectId_prefix
                newDisabledItem_children Hwf1) as Hwf2.
  rewrite <- E2 in Hset2, Hn2, Hs2, Hwf2.
  destruct (_syncDisabledProjects disabledProjects c1 n1) as [c2 n2].
  cbn [fst snd] in *.
  pose proof (syncConfigErrors_entries errorsByModel c2 n2) as E3.
  destruct (syncEntries_spec errorIdOf newErrorItemOf "[error] "
              (fun e m => newErrorItem_id (fst e) (snd e) m)
              (fun e m => newErrorItem_next (fst e) (snd e) m)
              (fun e => errorId_prefix (fst e) (snd e))
              (errorEntries errorsByModel) c2 n2)
    as (Hset3 & Hget3 & _ & _ & Hn3).
  pose proof (entries_keep_synced errorIdOf newErrorItemOf "error] "
                (errorEntries errorsByModel) uItem c2 n2
                (fun e m => newErrorItem_id (fst e) (snd e) m)
                (fun e m => newErrorItem_next (fst e) (snd e) m)
                (fun e => errorId_prefix (fst e) (snd e)) Hs2)
    as Hs3.
  pose proof (entries_keep_wf errorIdOf newErrorItemOf "[error] "
                (errorEntries errorsByModel) c2 n2
                (fun e m => newErrorItem_id (fst e) (snd e) m)
                (fun e m => newErrorItem_next (fst e) (snd e) m)
                (fun e => errorId_prefix (fst e) (snd e))
                (fun e m => newErrorItem_children (fst e) (snd e) m) Hwf2) as Hwf3.
  rewrite <- E3 in Hset3, Hget3, Hn3, Hs3, Hwf3.
  destruct (syncConfigErrorsReturned errorsByModel c2 n2) as [c3 n3].
  cbn [fst snd] in *.
  split; [|split; [exact Hwf3| lia]].
  refine (conj Hs3 (conj _ Hset3)).
  intros k Hk. rewrite <- sortedProjects_ids, <- (Hset2 k Hk).
  apply ids_get, Hget3. now apply disabled_not_error.
Qed.


End ScopeSync.

(** ** Where [_update] throws *)

Section Throwing.
Context {P : Platform}.

Import TestItemCollection.

Lemma forEach_app {A B} (body : A -> B -> option A) (l l' : list B) (a : A) :
  forEach body (l ++ l') a
  = match forEach body l a with
    | Some a' => forEach body l' a'
    | None => None
    end.
Proof.
  revert a. induction l as [|x l IH]; intros a; cbn [forEach app]; [reflexivity|].
  destruct (body a x); [apply IH|reflexivity].
Qed.

Lemma forEach_flat_map {A B C} (body : A -> C -> option A) (g : B -> list C)
    (l : list B) (a : A) :
  forEach body (flat_map g l) a = forEach (fun a x => forEach body (g x) a) l a.
Proof.
  revert a. induction l as [|x l IH]; intros a; cbn [forEach flat_map];
    [reflexivity|].
  rewrite forEach_app. destruct (forEach body (g x) a); [apply IH|reflexivity].
Qed.

Lemma forEach_map {A B C} (body : A -> C -> option A) (h : B -> C) (l : list B)
    (a : A) :
  forEach body (map h l) a = forEach (fun a x => body a (h x)) l a.
Proof.
  revert a. induction l as [|x l IH]; intros a; cbn [forEach map]; [reflexivity|].
  destruct (body a (h x)); [apply IH|reflexivity].
Qed.

Lemma forEach_ext {A B} (body body' : A -> B -> option A) (l : list B) (a : A) :
  (forall a x, body a x = body' a x) -> forEach body l a = forEach body' l a.
Proof.
  intros H. revert a. induction l as [|x l IH]; intros a; cbn [forEach];
    [reflexivity|].
  rewrite H. destruct (body' a x); [apply IH|reflexivity].
Qed.

(** A loop of which every turn returns is a fold. *)
Lemma forEach_returns {A B} (body : A -> B -> option A) (f : A -> B -> A)
    (l : list B) :
  (forall a x a', body a x = Some a' -> a' = f a x) ->
  forall a a', forEach body l a = Some a' -> a' = fold_left f l a.
Proof.
  intros H. induction l as [|x l IH]; intros a a'; cbn [forEach fold_left].
  - now intros [= <-].
  - destruct (body a x) as [a1|] eqn:E; [|discriminate].
    rewrite <- (H a x a1 E). apply IH.
Qed.

(** The loop throws at the first turn that throws. *)
Lemma forEach_throws {A B} (body : A -> B -> option A) (f : A -> B -> A)
    (l : list B) :
  (forall a x a', body a x = Some a' -> a' = f a x) ->
  forall a,
    forEach body l a = None <->
    exists l1 x l2, l = (l1 ++ x :: l2)%list /\ body (fold_left f l1 a) x = None.
Proof.
  intros H. induction l as [|x l IH]; intros a; cbn [forEach].
  - split; [discriminate|]. intros (l1 & y & l2 & E & _). now destruct l1.
  - destruct (body a x) as [a1|] eqn:E.
    + rewrite IH. rewrite (H a x a1 E). split.
      * intros (l1 & y & l2 & -> & Hy). exists (x :: l1), y, l2. auto.
      * intros (l1 & y & l2 & El & Hy). destruct l1 as [|x' l1]; cbn in El, Hy.
        -- injection El as <- <-. congruence.
        -- injection El as <- ->. exists l1, y, l2. auto.
    + split; [|reflexivity]. intros _. exists [], x, l. auto.
Qed.

Lemma newPosition_spec (line0 character0 : Z) :
  newPosition line0 character0
  = if (line0 <? 0)%Z || (character0 <? 0)%Z then None
    else Some (mkPosition line0 character0).
Proof. reflexivity. Qed.

Lemma newErrorItem_spec (model : TestModel) (error0 : TestError) (n : nat) :
  newErrorItem model error0 n
  = if positioned error0 then Some (builtErrorItem model error0 n) else None.
Proof.
  unfold newErrorItem, builtErrorItem, positioned, newPosition. cbn.
  destruct (error_location error0) as [l|]; [|reflexivity].
  now destruct ((line l - 1 <? 0)%Z || (column l - 1 <? 0)%Z).
Qed.

Lemma newErrorItem_returns (model : TestModel) (error0 : TestError) (n : nat)
    (r : TestItem * nat) :
  newErrorItem model error0 n = Some r -> r = builtErrorItem model error0 n.
Proof.
  rewrite newErrorItem_spec. destruct (positioned error0); congruence.
Qed.

Lemma errorStep_spec (acc : list TestItem * JsSet.t * nat)
    (me : TestModel * TestError) :
  errorStep acc me
  = if JsSet.has (snd (fst acc)) (errorIdOf me) || positioned (snd me)
    then Some (entryStep errorIdOf newErrorItemOf acc me)
    else None.
Proof.
  destruct acc as [[cs old] n]. unfold errorStep, entryStep. cbn [fst snd].
  destruct (JsSet.has old (errorIdOf me)); [reflexivity|]. cbn [orb].
  rewrite newErrorItem_spec. unfold newErrorItemOf.
  destruct (positioned (snd me)); [|reflexivity].
  now destruct (builtErrorItem (fst me) (snd me) n).
Qed.

Lemma errorStep_returns (acc : list TestItem * JsSet.t * nat)
    (me : TestModel * TestError) (acc' : list TestItem * JsSet.t * nat) :
  errorStep acc me = Some acc' -> acc' = entryStep errorIdOf newErrorItemOf acc me.
Proof. rewrite errorStep_spec. destruct (_ || _); congruence. Qed.

(** [_syncConfigErrors] is one loop over the errors of all models. *)
Lemma syncConfigErrors_flat (errorsByModel : ErrorsByModel) (c : list TestItem)
    (n : nat) :
  _syncConfigErrors errorsByModel c n
  = match
      forEach errorStep (errorEntries errorsByModel)
        (c, JsSet.ofList (filter (fun s => startsWith s "[error] ") (map id c)), n)
    with
    | Some (c', old, n') => Some (fold_left delete old c', n')
    | None => None
    end.
Proof.
  unfold _syncConfigErrors, errorEntries. rewrite forEach_flat_map.
  match goal with
  | |- match forEach ?f _ _ with _ => _ end = match forEach ?g _ _ with _ => _ end =>
      rewrite (forEach_ext f g)
  end; [reflexivity|].
  intros a [model errors]. cbn [fst snd]. rewrite forEach_map.
  apply forEach_ext. intros [[cs old] k] e. reflexivity.
Qed.

Lemma syncConfigErrors_returns (errorsByModel : ErrorsByModel) (c : list TestItem)
    (n : nat) (r : list TestItem * nat) :
  _syncConfigErrors errorsByModel c n = Some r ->
  r = syncConfigErrorsReturned errorsByModel c n.
Proof.
  rewrite syncConfigErrors_flat. unfold syncConfigErrorsReturned, syncEntries.
  destruct (forEach errorStep _ _) as [[[c' old] n']|] eqn:E; [|discriminate].
  intros [= <-].
  apply (forEach_returns errorStep (entryStep errorIdOf newErrorItemOf) _
           errorStep_returns) in E.
  now rewrite <- E.
Qed.

(** [_syncConfigErrors] throws at the first error that needs a new item
    and has a position that [new Position] rejects; an error needs no new
    item when its id is among the children and is not the id of an error
    before it. *)
Lemma syncConfigErrors_throws (errorsByModel : ErrorsByModel) (c : list TestItem)
    (n : nat) :
  _syncConfigErrors errorsByModel c n = None <->
  exists l1 me l2,
    errorEntries errorsByModel = (l1 ++ me :: l2)%list
    /\ positioned (snd me) = false
    /\ (In (errorIdOf me) (map id c) -> In (errorIdOf me) (map errorIdOf l1)).
Proof.
  rewrite syncConfigErrors_flat.
  set (old0 := JsSet.ofList (filter (fun s => startsWith s "[error] ") (map id c))).
  assert (Hold : forall l1 me,
             JsSet.has (snd (fst (fold_left (entryStep errorIdOf newErrorItemOf) l1
                                    (c, old0, n)))) (errorIdOf me) = false
             <-> (In (errorIdOf me) (map id c) ->
                  In (errorIdOf me) (map errorIdOf l1))).
  { intros l1 me.
    pose proof (entries_loop errorIdOf newErrorItemOf "[error] "
                  (fun e m => newErrorItem_id (fst e) (snd e) m)
                  (fun e m => newErrorItem_next (fst e) (snd e) m)
                  (fun e => errorId_prefix (fst e) (snd e))
                  l1 c old0 n [] c old0 n) as H.
    cbn zeta in H.
    destruct (fold_left (entryStep errorIdOf newErrorItemOf) l1 (c, old0, n))
      as [[c1 old1] n1]. cbn [fst snd app] in *.
    destruct H as [H1 _ _ _ _ _].
    { intros k Hk. now apply old_In in Hk. }
    { apply LoopOk_init. }
    rewrite <- not_true_iff_false, JsSet_has_In, H1. unfold old0.
    rewrite old_In. unfold ids.
    pose proof (errorId_prefix (fst me) (snd me)) as Hp.
    change (errorId (fst me) (snd me)) with (errorIdOf me) in Hp.
    destruct (in_dec string_dec (errorIdOf me) (map errorIdOf l1)); tauto. }
  destruct (forEach errorStep (errorEntries errorsByModel) (c, old0, n))
    as [[[c' old] n']|] eqn:E.
  - split; [discriminate|]. intros (l1 & me & l2 & El & Hpos & Hin). exfalso.
    assert (N : forEach errorStep (errorEntries errorsByModel) (c, old0, n) = None).
    { apply (forEach_throws errorStep (entryStep errorIdOf newErrorItemOf) _
               errorStep_returns).
      exists l1, me, l2. split; [exact El|]. rewrite errorStep_spec, Hpos.
      apply Hold in Hin. now rewrite Hin. }
    congruence.
  - split; [|reflexivity]. intros _.
    apply (forEach_throws errorStep (entryStep errorIdOf newErrorItemOf) _
             errorStep_returns) in E as (l1 & me & l2 & El & Hstep).
    rewrite errorStep_spec in Hstep.
    destruct (JsSet.has _ (errorIdOf me)) eqn:Hh; [discriminate|].
    destruct (positioned (snd me)) eqn:Hpos; [discriminate|].
    exists l1, me, l2. refine (conj El (conj Hpos _)). now apply Hold.
Qed.


Lemma positioned_true (error0 : TestError) :
  positioned error0 = true <->
  (forall l, error_location error0 = Some l -> (1 <= line l /\ 1 <= column l)%Z).
Proof.
  unfold positioned. destruct (error_location error0) as [l|].
  - rewrite negb_true_iff, orb_false_iff, !Z.ltb_ge. split.
    + intros [H1 H2] l' [= <-]. lia.
    + intros H. specialize (H l eq_refl). lia.
  - split; [intros _ l; discriminate|reflexivity].
Qed.

Lemma positioned_false (error0 : TestError) :
  positioned error0 = false <->
  exists l, error_location error0 = Some l /\ (line l < 1 \/ column l < 1)%Z.
Proof.
  unfold positioned. destruct (error_location error0) as [l|].
  - rewrite negb_false_iff, orb_true_iff, !Z.ltb_lt. split.
    + intros H. exists l. split; [reflexivity|lia].
    + intros (l' & [= <-] & H). lia.
  - split; [discriminate|]. intros (l & E & _). discriminate.
Qed.

(** The items that a loop of [_syncConfigErrors] adds are those of errors
    with a position that [new Position] accepts. *)
Lemma errorLoop_items (L : list (TestModel * TestError)) :
  forall s s', forEach errorStep L s = Some s' ->
    forall x, In x (fst (fst s')) ->
      In x (fst (fst s))
      \/ exists me m, In me L /\ positioned (snd me) = true
                      /\ x = fst (newErrorItemOf me m).
Proof.
  induction L as [|me L IH]; intros s s'; cbn [forEach].
  - intros [= <-] x Hx. now left.
  - destruct (errorStep s me) as [s1|] eqn:E; [|discriminate].
    intros H x Hx. destruct (IH s1 s' H x Hx) as [Hin|(me' & m & Hme & Hp & Ex)].
    + rewrite errorStep_spec in E. destruct s as [[cs old] n]. cbn [fst snd] in *.
      unfold entryStep in E.
      destruct (JsSet.has old (errorIdOf me)) eqn:Hh; cbn [orb] in E.
      * injection E as <-. now left.
      * destruct (positioned (snd me)) eqn:Hp; [|discriminate].
        destruct (newErrorItemOf me n) as [item n1] eqn:En. injection E as <-.
        cbn [fst] in Hin. apply add_In in Hin as [->|Hin]; [|now left].
        right. exists me, n. rewrite En. split; [now left|]. auto.
    + right. exists me', m. split; [now right|]. auto.
Qed.

Lemma syncConfigErrors_items (errorsByModel : ErrorsByModel) (c : list TestItem)
    (n : nat) (after : list TestItem) (n' : nat) :
  _syncConfigErrors errorsByModel c n = Some (after, n') ->
  forall x, In x after ->
    In x c
    \/ exists me m, In me (errorEntries errorsByModel) /\ positioned (snd me) = true
                    /\ x = fst (newErrorItemOf me m).
Proof.
  rewrite syncConfigErrors_flat.
  destruct (forEach errorStep _ _) as [[[c' old] k]|] eqn:E; [|discriminate].
  intros [= <- <-] x Hx. apply fold_delete_In in Hx as [Hx _].
  exact (errorLoop_items _ _ _ E x Hx).
Qed.


Lemma updateFolder_returns (folders : list Uri) (models : list TestModel)
    (t : TestTree) (f : Uri) (t' : TestTree) :
  updateFolder folders models t f = Some t' ->
  t' = updateFolderReturned folders models t f.
Proof.
  unfold updateFolder, updateFolderReturned.
  destruct (collect models (uriToPath f)) as [[rootSuite dis] errs].
  destruct (_ && _); [now intros [= <-]|].
  destruct (_createRootItemIfNeeded folders f t) as [r t1].
  set (t2 := syncRoot r (_syncDisabledProjects dis) _).
  destruct (_syncConfigErrors errs (rootChildren t2 r) (nextObj t2))
    as [[cs k]|] eqn:E; [|discriminate].
  intros [= <-]. apply syncConfigErrors_returns in E.
  unfold syncRoot. now rewrite <- E.
Qed.

Lemma update_returns (workspaceFolders : WorkspaceFolders) (models : list TestModel)
    (t t' : TestTree) :
  _update workspaceFolders models t = Some t' ->
  updateReturned workspaceFolders models t = Some t'.
Proof.
  destruct workspaceFolders as [folders|]; cbn [_update updateReturned];
    [|exact (fun H => H)].
  destruct (forEach (updateFolder folders models) folders t) as [t1|] eqn:E;
    [|discriminate].
  intros [= <-].
  apply (forEach_returns _ (updateFolderReturned folders models) _
           (updateFolder_returns folders models)) in E.
  now rewrite E.
Qed.





End Throwing.

(** ** The tree: objects, roots and allocation *)

Section Objects.

Lemma findObj_Some (o : nat) (l : list TestItem) (i : TestItem) :
  findObj o l = Some i -> In i l /\ obj i = o.
Proof.
  intros H. apply find_some in H as [Hin Ho]. apply Nat.eqb_eq in Ho. auto.
Qed.

Lemma findObj_NoDup (l : list TestItem) (i : TestItem) :
  NoDup (map obj l) -> In i l -> findObj (obj i) l = Some i.
Proof.
  unfold findObj. induction l as [|j l IH]; cbn; [intros _ []|].
  intros Hnd [->|Hin].
  - now rewrite Nat.eqb_refl.
  - inversion Hnd as [|? ? Hj Hl]; subst.
    destruct (Nat.eqb (obj j) (obj i)) eqn:E; [|auto].
    apply Nat.eqb_eq in E. exfalso. apply Hj. rewrite E. now apply in_map.
Qed.

Lemma holds_In (l : list TestItem) (o : nat) :
  holds l o = true <-> exists i, In i l /\ obj i = o.
Proof.
  unfold holds. rewrite existsb_exists.
  split; intros [i [Hi Ho]]; exists i; (split; [exact Hi|]);
    now apply Nat.eqb_eq.
Qed.

Lemma updateObj_map {A} (g : TestItem -> A) (o : nat) (f : TestItem -> TestItem)
    (l : list TestItem) :
  (forall x, g (f x) = g x) -> map g (updateObj o f l) = map g l.
Proof.
  intros Hf. unfold updateObj. rewrite map_map. apply map_ext.
  intros x. destruct (Nat.eqb (obj x) o); [apply Hf| reflexivity].
Qed.

Lemma updateObj_In (o : nat) (f : TestItem -> TestItem) (l : list TestItem)
    (x : TestItem) :
  In x (updateObj o f l) <->
  exists i, In i l /\ ((obj i <> o /\ x = i) \/ (obj i = o /\ x = f i)).
Proof.
  unfold updateObj. rewrite in_map_iff. split.
  - intros [i [<- Hi]]. exists i. split; [exact Hi|].
    destruct (Nat.eqb (obj i) o) eqn:E.
    + apply Nat.eqb_eq in E. auto.
    + apply Nat.eqb_neq in E. auto.
  - intros [i [Hi [[Ho ->]|[Ho ->]]]]; exists i; (split; [|exact Hi]).
    + apply Nat.eqb_neq in Ho. now rewrite Ho.
    + apply Nat.eqb_eq in Ho. now rewrite Ho.
Qed.

Lemma updateObj_twice (o : nat) (f g : TestItem -> TestItem) (l : list TestItem) :
  (forall x, obj (f x) = obj x) ->
  updateObj o g (updateObj o f l) = updateObj o (fun x => g (f x)) l.
Proof.
  intros Hf. unfold updateObj. rewrite map_map. apply map_ext. intros x.
  destruct (Nat.eqb (obj x) o) eqn:E; [|now rewrite E].
  now rewrite Hf, E.
Qed.


Lemma filter_nil {A} (f : A -> bool) (l : list A) :
  (forall x, In x l -> f x = false) -> filter f l = [].
Proof.
  induction l as [|x l IH]; cbn; intros H; [reflexivity|].
  rewrite (H x) by now left. apply IH. intros y Hy. apply H. now right.
Qed.

Lemma registeredNested_In (roots : JsMap.t RootItem) (o : nat) :
  registeredNested roots o = true <-> exists p, In (p, NestedRoot o) roots.
Proof.
  unfold registeredNested, JsMap.values. rewrite existsb_exists. split.
  - intros [r [Hr Ho]]. apply in_map_iff in Hr as [[p r'] [<- Hin]].
    destruct r' as [o' i u|o']; cbn in Ho; [discriminate|].
    apply Nat.eqb_eq in Ho. subst. eauto.
  - intros [p Hin]. exists (NestedRoot o). split.
    + apply in_map_iff. now exists (p, NestedRoot o).
    + cbn. apply Nat.eqb_refl.
Qed.

Lemma TestTree_eta (t : TestTree) :
  mkTestTree (_testGeneration t) (_rootItems t) (items t) (detached t)
    (_loadingItem t) (_testItemByTestId t) (_testItemByFile t) (nextObj t) = t.
Proof. now destruct t. Qed.

(** Writing to the controller what it holds already moves nothing. *)
Lemma setItems_same (t : TestTree) : setItems (items t) t = t.
Proof.
  unfold setItems. rewrite filter_nil, app_nil_r; [apply TestTree_eta|].
  intros x Hx. apply andb_false_iff. right. apply negb_false_iff.
  apply holds_In. eauto.
Qed.

Lemma JsMap_In_keys {V} (m : JsMap.t V) (k : string) (v : V) :
  In (k, v) m -> In k (JsMap.keys m).
Proof. intros H. change k with (fst (k, v)). now apply in_map. Qed.

Lemma JsMap_get_None {V} (m : JsMap.t V) (k : string) :
  JsMap.get m k = None <-> ~ In k (JsMap.keys m).
Proof.
  rewrite <- JsMap_has_false. unfold JsMap.has.
  destruct (JsMap.get m k); split; congruence.
Qed.

Lemma JsMap_delete_In {V} (m : JsMap.t V) (k : string) (e : string * V) :
  In e (JsMap.delete m k) <-> In e m /\ fst e <> k.
Proof.
  unfold JsMap.delete. now rewrite filter_In, negb_true_iff, String.eqb_neq.
Qed.


End Objects.

(** ** Identities are handed out upwards *)

Section Next.
Context {P : Platform}.

Import TestItemCollection.

Lemma ensure_next (gen : string) {A} (E : JsMap.t (TreeItem * A))
    (c : list TestItem) (n : nat) :
  n <= snd (fold_left (ensureChild gen) E (c, n)).
Proof.
  revert c n. induction E as [|e E IH]; intros c n; cbn [fold_left]; [cbn; lia|].
  unfold ensureChild at 2.
  destruct (get c (_idWithGeneration gen (fst e))); [apply IH|].
  destruct (newChild gen (fst e) (fst (snd e)) n) as [v n'] eqn:Hnew.
  pose proof (newChild_obj gen (fst e) (fst (snd e)) n) as [_ Hn].
  rewrite Hnew in Hn. cbn in Hn. subst n'.
  etransitivity; [|apply IH]. lia.
Qed.

Lemma recurse_next (gen : string) (E : UChildrenById) (c : list TestItem) (n : nat) :
  Forall (fun e => forall cs m, m <= snd (snd (snd e) cs m)) E ->
  n <= snd (fold_left (recurseChild gen) E (c, n)).
Proof.
  intros HE. revert c n. induction HE as [|e E He HE IH]; intros c n;
    cbn [fold_left]; [cbn; lia|].
  unfold recurseChild at 2.
  match goal with
  | |- context [match ?g with Some _ => _ | None => _ end] =>
      destruct g as [v|]; [|apply IH]
  end.
  specialize (He (children v) n).
  destruct (snd (snd e) (children v) n) as [cs n']. cbn in He.
  etransitivity; [exact He| apply IH].
Qed.

Lemma syncSuite_next (gen : string) (uItem : TreeItem) :
  forall c n, n <= snd (_syncSuite gen uItem c n).
Proof.
  induction uItem as [uItem IH] using TreeItem_children_ind. intros c n.
  rewrite syncSuite_unfold, syncLevel_spec.
  set (E := decorate (_syncSuite gen) (uChildrenById uItem)).
  pose proof (ensure_next gen E (filter (keepChild gen E) c) n) as H2.
  destruct (fold_left (ensureChild gen) E (filter (keepChild gen E) c, n))
    as [c2 n2]. cbn [snd] in H2.
  etransitivity; [exact H2|]. apply recurse_next.
  apply Forall_forall. intros e He cs m. unfold E, decorate in He.
  apply in_map_iff in He as [[k uChild] [<- Hin]]. cbn [fst snd].
  rewrite Forall_forall in IH. apply IH.
  now apply uChildrenById_In in Hin as [Hin _].
Qed.

Lemma syncDisabledProjects_next (disabledProjects : list TestProject)
    (c : list TestItem) (n : nat) :
  n <= snd (_syncDisabledProjects disabledProjects c n).
Proof.
  rewrite syncDisabledProjects_entries.
  apply (syncEntries_spec disabledProjectId newDisabledItem "[disabled] "
           newDisabledItem_id newDisabledItem_next disabledProjectId_prefix).
Qed.

Lemma syncConfigErrors_next (errorsByModel : ErrorsByModel)
    (c : list TestItem) (n : nat) :
  n <= snd (syncConfigErrorsReturned errorsByModel c n).
Proof.
  rewrite syncConfigErrors_entries.
  apply (syncEntries_spec errorIdOf newErrorItemOf "[error] "
           (fun e m => newErrorItem_id (fst e) (snd e) m)
           (fun e m => newErrorItem_next (fst e) (snd e) m)
           (fun e => errorId_prefix (fst e) (snd e))).
Qed.

Lemma setRootChildren_kept (r : RootItem) (cs : list TestItem) (t : TestTree) :
  _loadingItem (setRootChildren r cs t) = _loadingItem t
  /\ nextObj (setRootChildren r cs t) = nextObj t
  /\ _rootItems (setRootChildren r cs t) = _rootItems t
  /\ _testGeneration (setRootChildren r cs t) = _testGeneration t.
Proof.
  destruct r as [o i u|o]; cbn; [auto|].
  destruct (holds (items t) o); cbn; auto.
Qed.

Lemma syncRoot_kept (r : RootItem) (sync : Sync) (t : TestTree) :
  (forall c n, n <= snd (sync c n)) ->
  _loadingItem (syncRoot r sync t) = _loadingItem t
  /\ nextObj t <= nextObj (syncRoot r sync t)
  /\ _rootItems (syncRoot r sync t) = _rootItems t
  /\ _testGeneration (syncRoot r sync t) = _testGeneration t.
Proof.
  intros Hs. unfold syncRoot. specialize (Hs (rootChildren t r) (nextObj t)).
  destruct (sync (rootChildren t r) (nextObj t)) as [cs n]. cbn in Hs.
  destruct (setRootChildren_kept r cs (setNextObj n t)) as (H1 & H2 & H3 & H4).
  rewrite H1, H2, H3, H4. cbn. auto.
Qed.

Lemma deleteRootItem_kept (folders : list Uri) (fsPath : string) (t : TestTree) :
  _loadingItem (_deleteRootItem folders fsPath t) = _loadingItem t
  /\ nextObj (_deleteRootItem folders fsPath t) = nextObj t
  /\ _testGeneration (_deleteRootItem folders fsPath t) = _testGeneration t.
Proof. unfold _deleteRootItem. destruct (Nat.eqb _ 1); cbn; auto. Qed.

Lemma createRootItemIfNeeded_kept (folders : list Uri) (uri0 : Uri) (t : TestTree) :
  _loadingItem (snd (_createRootItemIfNeeded folders uri0 t)) = _loadingItem t
  /\ nextObj t <= nextObj (snd (_createRootItemIfNeeded folders uri0 t))
  /\ _testGeneration (snd (_createRootItemIfNeeded folders uri0 t))
     = _testGeneration t.
Proof.
  unfold _createRootItemIfNeeded.
  destruct (JsMap.get (_rootItems t) (uriToPath uri0)); [cbn; auto|].
  destruct (Nat.eqb _ 1); cbn; auto.
Qed.

Lemma updateFolder_unfold (folders : list Uri) (models : list TestModel)
    (t : TestTree) (folder0 : Uri) :
  updateFolderReturned folders models t folder0 =
  if scopeEmpty models (uriToPath folder0)
  then _deleteRootItem folders (uriToPath folder0) t
  else
    let r := fst (_createRootItemIfNeeded folders folder0 t) in
    let t1 := snd (_createRootItemIfNeeded folders folder0 t) in
    syncRoot r (syncConfigErrorsReturned (scopeErrors models (uriToPath folder0)))
      (syncRoot r (_syncDisabledProjects (scopeDisabled models (uriToPath folder0)))
         (syncRoot r
            (_syncSuite (_testGeneration t1)
               (scopeRootItem models (uriToPath folder0))) t1)).
Proof.
  unfold updateFolderReturned, scopeEmpty, scopeRootItem, scopeDisabled, scopeErrors.
  destruct (collect models (uriToPath folder0)) as [[rootSuite dis] errs].
  cbn [fst snd].
  destruct (_ && _); [reflexivity|].
  now destruct (_createRootItemIfNeeded folders folder0 t).
Qed.

Lemma updateFolder_kept (folders : list Uri) (models : list TestModel)
    (t : TestTree) (folder0 : Uri) :
  _loadingItem (updateFolderReturned folders models t folder0) = _loadingItem t
  /\ nextObj t <= nextObj (updateFolderReturned folders models t folder0)
  /\ _testGeneration (updateFolderReturned folders models t folder0) = _testGeneration t.
Proof.
  rewrite updateFolder_unfold. destruct (scopeEmpty _ _).
  - destruct (deleteRootItem_kept folders (uriToPath folder0) t) as (H1 & H2 & H3).
    rewrite H1, H2, H3. auto.
  - cbn zeta.
    destruct (createRootItemIfNeeded_kept folders folder0 t) as (H1 & H2 & H3).
    set (r := fst (_createRootItemIfNeeded folders folder0 t)) in *.
    set (t1 := snd (_createRootItemIfNeeded folders folder0 t)) in *.
    destruct (syncRoot_kept r (_syncSuite (_testGeneration t1)
                (scopeRootItem models (uriToPath folder0))) t1
                (syncSuite_next _ _)) as (A1 & A2 & _ & A4).
    set (t2 := syncRoot r _ t1) in *.
    destruct (syncRoot_kept r (_syncDisabledProjects
                (scopeDisabled models (uriToPath folder0))) t2
                (syncDisabledProjects_next _)) as (B1 & B2 & _ & B4).
    set (t3 := syncRoot r _ t2) in *.
    destruct (syncRoot_kept r (syncConfigErrorsReturned
                (scopeErrors models (uriToPath folder0))) t3
                (syncConfigErrors_next _)) as (C1 & C2 & _ & C4).
    rewrite C1, B1, A1, H1, C4, B4, A4, H3. repeat split. lia.
Qed.

End Next.

(** ** The ids of the nodes *)

Section Ids.
Context {P : Platform}.
Variable gen : string.

Lemma Classified_nil : Classified gen [].
Proof. intros v []. Qed.

Lemma Classified_sub (c c' : list TestItem) :
  (forall v, In v (allNodes c') -> exists y, In y (allNodes c) /\ id y = id v) ->
  Classified gen c -> Classified gen c'.
Proof.
  intros H Hc v Hv. destruct (H v Hv) as (y & Hy & E). rewrite <- E. now apply Hc.
Qed.

Lemma Classified_filter (f : TestItem -> bool) (c : list TestItem) :
  Classified gen c -> Classified gen (filter f c).
Proof.
  apply Classified_sub. intros v Hv. exists v. split; [|reflexivity].
  apply allNodes_In in Hv as (i & Hi & Hv). apply filter_In in Hi as [Hi _].
  apply allNodes_In. eauto.
Qed.

Lemma Classified_app (c c' : list TestItem) :
  Classified gen c -> Classified gen c' -> Classified gen (c ++ c')%list.
Proof.
  intros H H' v Hv. rewrite allNodes_app in Hv.
  apply in_app_or in Hv as [Hv|Hv]; auto.
Qed.

Lemma Classified_leaf (i : TestItem) :
  children i = [] -> startsWith (id i) gen = true \/ synthetic (id i) = true ->
  Classified gen [i].
Proof.
  intros Hc Hi v Hv. apply allNodes_In in Hv as (j & [<-|[]] & Hv).
  rewrite Hc in Hv. destruct Hv as [->|[]]. exact Hi.
Qed.

Lemma Classified_children (c : list TestItem) (i : TestItem) :
  Classified gen c -> In i c -> Classified gen (children i).
Proof. intros H Hi v Hv. apply H. now apply (allNodes_below c i). Qed.

Lemma Classified_updateObj (o : nat) (cs c : list TestItem) :
  Classified gen c -> Classified gen cs ->
  Classified gen (updateObj o (set_children cs) c).
Proof.
  intros Hc Hcs v Hv. apply allNodes_In in Hv as (x & Hx & Hv).
  apply updateObj_In in Hx as (i & Hi & [[_ ->]|[_ ->]]).
  - apply Hc. apply allNodes_In. eauto.
  - cbn [children set_children] in Hv. destruct Hv as [->|Hv]; [|auto].
    cbn [id set_children]. apply Hc. now apply allNodes_top.
Qed.

Lemma Classified_syncSuite (uItem : TreeItem) (c : list TestItem) (n : nat) :
  Classified gen c -> Classified gen (fst (_syncSuite gen uItem c n)).
Proof.
  intros Hc v Hv. destruct (AddsOnly_syncSuite gen uItem c n v Hv) as [Hold|Hnew].
  - destruct Hold as (y & Hy & _ & E). rewrite <- E. now apply Hc.
  - now left.
Qed.

Lemma Classified_entries {E : Type} (idOf : E -> string)
    (new : E -> nat -> TestItem * nat) (p : string) (L : list E)
    (c : list TestItem) (n : nat) :
  (forall e m, id (fst (new e m)) = idOf e) ->
  (forall e m, m <= snd (new e m)) ->
  (forall e, startsWith (idOf e) p = true) ->
  (forall e m, children (fst (new e m)) = []) ->
  (forall e, synthetic (idOf e) = true) ->
  Classified gen c -> Classified gen (fst (syncEntries idOf new p L c n)).
Proof.
  intros Hid Hnext Hpre Hch Hsyn Hc v Hv.
  destruct (syncEntries_spec idOf new p Hid Hnext Hpre L c n) as (_ & _ & H3 & _).
  apply allNodes_In in Hv as (x & Hx & Hv).
  apply H3 in Hx as [Hx|(e & m & _ & ->)].
  - apply Hc. apply allNodes_In. eauto.
  - rewrite Hch in Hv. destruct Hv as [->|[]]. right. rewrite Hid. apply Hsyn.
Qed.

Lemma synthetic_disabled (project : TestProject) :
  synthetic (disabledProjectId project) = true.
Proof. unfold synthetic. now rewrite disabledProjectId_prefix. Qed.

Lemma synthetic_error (me : TestModel * TestError) : synthetic (errorIdOf me) = true.
Proof.
  unfold synthetic, errorIdOf. rewrite errorId_prefix. apply orb_true_iff. left.
  apply orb_true_r.
Qed.

Lemma Classified_syncScope (uItem : TreeItem) (dis : list TestProject)
    (errs : ErrorsByModel) (c : list TestItem) (n : nat) :
  Classified gen c -> Classified gen (fst (syncScope gen uItem dis errs c n)).
Proof.
  intros Hc. unfold syncScope.
  pose proof (Classified_syncSuite uItem c n Hc) as H1.
  destruct (_syncSuite gen uItem c n) as [c1 n1]. cbn [fst] in H1.
  assert (H2 : Classified gen (fst (_syncDisabledProjects dis c1 n1))).
  { rewrite syncDisabledProjects_entries.
    apply Classified_entries; try assumption.
    - apply newDisabledItem_id.
    - apply newDisabledItem_next.
    - apply disabledProjectId_prefix.
    - apply newDisabledItem_children.
    - apply synthetic_disabled. }
  destruct (_syncDisabledProjects dis c1 n1) as [c2 n2]. cbn [fst] in H2.
  rewrite syncConfigErrors_entries.
  apply Classified_entries; try assumption.
  - intros e m. apply newErrorItem_id.
  - intros e m. apply newErrorItem_next.
  - intros e. apply errorId_prefix.
  - intros e m. apply newErrorItem_children.
  - apply synthetic_error.
Qed.

End Ids.

(** ** One workspace folder: the flat root *)

Section SingleFolder.
Context {P : Platform}.
Variable guid : string.
Hypothesis guid_hex : isHex guid = true.
Let gen := guid ++ ":".
Variable folders : list Uri.
Hypothesis one : List.length folders = 1.
Variable models : list TestModel.

Lemma single_noNested (t : TestTree) :
  WfTree folders gen t -> forall o, registeredNested (_rootItems t) o = false.
Proof.
  intros W o. destruct (registeredNested (_rootItems t) o) eqn:E; [|reflexivity].
  apply registeredNested_In in E as [p Hin].
  destruct (wf_single _ _ _ W one _ _ Hin) as (o' & f & Heq). discriminate.
Qed.

Lemma flat_syncRoot (o : nat) (i : string) (u : Uri) (s : Sync) (t : TestTree) :
  (forall o', registeredNested (_rootItems t) o' = false) ->
  syncRoot (FlatRoot o i u) s t =
  mkTestTree (_testGeneration t) (_rootItems t) (fst (s (items t) (nextObj t)))
    (detached t) (_loadingItem t) (_testItemByTestId t) (_testItemByFile t)
    (snd (s (items t) (nextObj t))).
Proof.
  intros H. unfold syncRoot, rootChildren. cbn [rootObject children].
  destruct (s (items t) (nextObj t)) as [cs n]. cbn [setRootChildren fst snd].
  unfold setItems. rewrite filter_nil; [now rewrite app_nil_r|].
  intros x _. unfold setNextObj. cbn [_rootItems]. now rewrite H.
Qed.

Lemma flat_syncScope (o : nat) (i : string) (u : Uri) (uItem : TreeItem)
    (dis : list TestProject) (errs : ErrorsByModel) (t : TestTree) :
  (forall o', registeredNested (_rootItems t) o' = false) ->
  syncRoot (FlatRoot o i u) (syncConfigErrorsReturned errs)
    (syncRoot (FlatRoot o i u) (_syncDisabledProjects dis)
       (syncRoot (FlatRoot o i u) (_syncSuite (_testGeneration t) uItem) t)) =
  mkTestTree (_testGeneration t) (_rootItems t)
    (fst (syncScope (_testGeneration t) uItem dis errs (items t) (nextObj t)))
    (detached t) (_loadingItem t) (_testItemByTestId t) (_testItemByFile t)
    (snd (syncScope (_testGeneration t) uItem dis errs (items t) (nextObj t))).
Proof.
  intros H. rewrite (flat_syncRoot o i u _ t H).
  match goal with
  | |- context [syncRoot _ (_syncDisabledProjects dis) ?t1] =>
      rewrite (flat_syncRoot o i u (_syncDisabledProjects dis) t1 H)
  end.
  match goal with
  | |- context [syncRoot _ (syncConfigErrorsReturned errs) ?t2] =>
      rewrite (flat_syncRoot o i u (syncConfigErrorsReturned errs) t2 H)
  end.
  cbn [items nextObj _testGeneration _rootItems detached _loadingItem
       _testItemByTestId _testItemByFile].
  unfold syncScope.
  destruct (_syncSuite (_testGeneration t) uItem (items t) (nextObj t)) as [c1 n1].
  cbn [fst snd].
  destruct (_syncDisabledProjects dis c1 n1) as [c2 n2]. reflexivity.
Qed.

Lemma createRoot_single (t : TestTree) (f : Uri) :
  In f folders -> WfTree folders gen t ->
  WfTree folders gen (snd (_createRootItemIfNeeded folders f t))
  /\ JsMap.get (_rootItems (snd (_createRootItemIfNeeded folders f t))) (uriToPath f)
     = Some (fst (_createRootItemIfNeeded folders f t))
  /\ items (snd (_createRootItemIfNeeded folders f t)) = items t
  /\ exists o u, fst (_createRootItemIfNeeded folders f t)
                 = FlatRoot o (_idWithGeneration gen (uriToPath f)) u.
Proof.
  intros Hf W. unfold _createRootItemIfNeeded.
  destruct (JsMap.get (_rootItems t) (uriToPath f)) as [r|] eqn:G.
  - cbn [fst snd]. refine (conj W (conj G (conj eq_refl _))).
    apply JsMap_get_In in G. exact (wf_single _ _ _ W one _ _ G).
  - rewrite one. cbn [Nat.eqb fst snd]. rewrite (wf_gen _ _ _ W).
    refine (conj _ (conj _ (conj eq_refl _))).
    + destruct W as [Wg Wd Wl Wn Wi Wk Wa Ws Wm Wc].
      constructor; unfold setRoot, setNextObj; fields; try assumption.
      * lia.
      * now apply JsMap_set_NoDup.
      * intros p Hp. apply JsMap_keys_set in Hp as [->|Hp]; [now apply in_map|auto].
      * intros _ p r Hin. apply JsMap_set_In in Hin as [Heq|Hin].
        -- injection Heq as -> ->. eauto.
        -- now apply (Ws one).
      * intros Hne. now destruct Hne.
    + cbn. now rewrite JsMap_get_set, String.eqb_refl.
    + eauto.
Qed.

Lemma updateFolder_single (t : TestTree) (f : Uri) :
  In f folders -> WfTree folders gen t ->
  WfTree folders gen (updateFolderReturned folders models t f)
  /\ ScopeDone folders models gen (updateFolderReturned folders models t f) (uriToPath f).
Proof.
  intros Hf W. rewrite updateFolder_unfold. unfold ScopeDone.
  destruct (scopeEmpty models (uriToPath f)) eqn:Hempty.
  - unfold _deleteRootItem. rewrite one. cbn [Nat.eqb].
    pose proof (single_noNested t W) as Hflat.
    destruct W as [Wg Wd Wl Wn Wi Wk Wa Ws Wm Wc].
    rewrite replace_NoDup by (apply ids_filter_NoDup, Wi).
    unfold deleteRoot, setItems. fields. rewrite Wd. cbn [app].
    rewrite (filter_nil (fun i => registeredNested _ _ && _))
      by (intros x _; now rewrite Hflat).
    cbn [filter].
    split.
    + constructor; fields; try assumption; try reflexivity.
      * now apply wfItems_filter.
      * now apply JsMap_delete_NoDup.
      * intros p Hp. apply JsMap_keys_delete in Hp as [Hp _]. auto.
      * intros _ p r Hin. apply JsMap_delete_In in Hin as [Hin _].
        now apply (Ws one).
      * intros Hne. now destruct Hne.
      * now apply Classified_filter.
    + split.
      * now rewrite JsMap_get_delete, String.eqb_refl.
      * intros i Hi. now apply filter_In in Hi as [_ Hi].
  - cbn zeta.
    destruct (createRoot_single t f Hf W) as (W1 & G1 & I1 & o & u & Hr).
    set (t1 := snd (_createRootItemIfNeeded folders f t)) in *.
    rewrite Hr in *.
    rewrite flat_syncScope by (apply single_noNested, W1).
    rewrite (wf_gen _ _ _ W1).
    destruct (syncScope_establishes guid guid_hex
                (scopeRootItem models (uriToPath f))
                (scopeDisabled models (uriToPath f))
                (scopeErrors models (uriToPath f)) (items t1) (nextObj t1)
                (wf_items _ _ _ W1)) as (HS & Hwf & Hn).
    fold gen in HS, Hwf, Hn.
    split.
    + destruct W1 as [Wg Wd Wl Wn Wi Wk Wa Ws Wm Wc].
      constructor; fields; try assumption; try reflexivity.
      * lia.
      * intros Hne. now destruct Hne.
      * now apply Classified_syncScope.
    + exists (FlatRoot o (_idWithGeneration gen (uriToPath f)) u).
      split; [exact G1|]. exact HS.
Qed.


End SingleFolder.

(** ** Several workspace folders: one root item for each *)

Section NestedRoots.

Lemma NoDup_map_eq {A B} (g : A -> B) (l : list A) (a b : A) :
  NoDup (map g l) -> In a l -> In b l -> g a = g b -> a = b.
Proof.
  induction l as [|x l IH]; cbn; [intros _ []|].
  intros Hnd Ha Hb E. inversion Hnd as [|? ? Hx Hl]; subst.
  destruct Ha as [->|Ha], Hb as [->|Hb]; auto.
  - exfalso. apply Hx. rewrite E. now apply in_map.
  - exfalso. apply Hx. rewrite <- E. now apply in_map.
Qed.

Lemma NoDup_map_filter {A B} (g : A -> B) (f : A -> bool) (l : list A) :
  NoDup (map g l) -> NoDup (map g (filter f l)).
Proof.
  induction l as [|x l IH]; cbn; [auto|]. intros Hnd.
  inversion Hnd as [|? ? Hx Hl]; subst.
  destruct (f x); cbn; [|auto]. constructor; [|auto].
  intros Hin. apply Hx. apply in_map_iff in Hin as [y [E Hy]].
  apply filter_In in Hy as [Hy _]. rewrite <- E. now apply in_map.
Qed.

Lemma nested_rootChildren (t : TestTree) (i : TestItem) :
  NoDup (map obj (items t)) -> In i (items t) ->
  rootChildren t (NestedRoot (obj i)) = children i.
Proof.
  intros Hnd Hin. unfold rootChildren. cbn [rootObject].
  now rewrite findObj_NoDup.
Qed.

Lemma nested_syncRoot (o : nat) (i : TestItem) (s : Sync) (t : TestTree) :
  NoDup (map obj (items t)) -> In i (items t) -> obj i = o ->
  syncRoot (NestedRoot o) s t =
  mkTestTree (_testGeneration t) (_rootItems t)
    (updateObj o (set_children (fst (s (children i) (nextObj t)))) (items t))
    (detached t) (_loadingItem t) (_testItemByTestId t) (_testItemByFile t)
    (snd (s (children i) (nextObj t))).
Proof.
  intros Hnd Hin <-. unfold syncRoot. rewrite nested_rootChildren by assumption.
  destruct (s (children i) (nextObj t)) as [cs n]. cbn [setRootChildren fst snd].
  unfold setNextObj. fields.
  assert (H : holds (items t) (obj i) = true) by (apply holds_In; eauto).
  now rewrite H.
Qed.

Lemma updateObj_children (o : nat) (c c' : list TestItem) (l : list TestItem) :
  updateObj o (set_children c') (updateObj o (set_children c) l)
  = updateObj o (set_children c') l.
Proof.
  rewrite updateObj_twice by reflexivity. unfold updateObj. apply map_ext.
  intros x. destruct (Nat.eqb (obj x) o); reflexivity.
Qed.

Lemma updateObj_holds (o : nat) (c : list TestItem) (l : list TestItem) (i : TestItem) :
  In i l -> obj i = o -> In (set_children c i) (updateObj o (set_children c) l).
Proof. intros Hin Ho. apply updateObj_In. exists i. auto. Qed.

Context {P : Platform}.

Lemma nested_syncScope (o : nat) (i : TestItem) (uItem : TreeItem)
    (dis : list TestProject) (errs : ErrorsByModel) (t : TestTree) :
  NoDup (map obj (items t)) -> In i (items t) -> obj i = o ->
  syncRoot (NestedRoot o) (syncConfigErrorsReturned errs)
    (syncRoot (NestedRoot o) (_syncDisabledProjects dis)
       (syncRoot (NestedRoot o) (_syncSuite (_testGeneration t) uItem) t)) =
  mkTestTree (_testGeneration t) (_rootItems t)
    (updateObj o
       (set_children
          (fst (syncScope (_testGeneration t) uItem dis errs (children i) (nextObj t))))
       (items t))
    (detached t) (_loadingItem t) (_testItemByTestId t) (_testItemByFile t)
    (snd (syncScope (_testGeneration t) uItem dis errs (children i) (nextObj t))).
Proof.
  intros Hnd Hin Ho. unfold syncScope.
  rewrite (nested_syncRoot o i _ t Hnd Hin Ho).
  destruct (_syncSuite (_testGeneration t) uItem (children i) (nextObj t)) as [c1 n1].
  cbn [fst snd].
  match goal with
  | |- context [syncRoot _ (_syncDisabledProjects dis) ?t1] =>
      rewrite (nested_syncRoot o (set_children c1 i) (_syncDisabledProjects dis) t1)
  end.
  2: { fields. now rewrite updateObj_map. }
  2: { fields. now apply updateObj_holds. }
  2: exact Ho.
  fields. cbn [children set_children].
  destruct (_syncDisabledProjects dis c1 n1) as [c2 n2]. cbn [fst snd].
  rewrite updateObj_children.
  match goal with
  | |- context [syncRoot _ (syncConfigErrorsReturned errs) ?t2] =>
      rewrite (nested_syncRoot o (set_children c2 i) (syncConfigErrorsReturned errs) t2)
  end.
  2: { fields. now rewrite updateObj_map. }
  2: { fields. now apply updateObj_holds. }
  2: exact Ho.
  fields. cbn [children set_children].
  now rewrite updateObj_children.
Qed.

End NestedRoots.

Section ManyFolders.
Context {P : Platform}.
Variable guid : string.
Hypothesis guid_hex : isHex guid = true.
Let gen := guid ++ ":".
Variable folders : list Uri.
Hypothesis many : List.length folders <> 1.
Variable models : list TestModel.

Import TestItemCollection.

Lemma many_false : Nat.eqb (List.length folders) 1 = false.
Proof. now apply Nat.eqb_neq. Qed.

Lemma Apart_trans (t t1 t2 : TestTree) (p : string) :
  Apart gen t t1 p -> Apart gen t1 t2 p -> Apart gen t t2 p.
Proof.
  intros H1 H2 q Hq. destruct (H1 q Hq) as (A1 & B1 & C1).
  destruct (H2 q Hq) as (A2 & B2 & C2). repeat split.
  - congruence.
  - intros r Hr. rewrite B2 by congruence. auto.
  - auto.
Qed.

Lemma Apart_refl (t : TestTree) (p : string) : Apart gen t t p.
Proof. intros q Hq. auto. Qed.

Lemma ScopeDone_apart (t t' : TestTree) (p q : string) :
  Apart gen t t' p -> q <> p ->
  ScopeDone folders models gen t q -> ScopeDone folders models gen t' q.
Proof.
  intros HA Hq. destruct (HA q Hq) as (A & B & C). unfold ScopeDone.
  rewrite many_false. destruct (scopeEmpty models q).
  - intros [G Hi]. split; [congruence|auto].
  - intros (r & G & HS). exists r. split; [congruence|].
    now rewrite B.
Qed.

Lemma registered_item (t : TestTree) (p : string) (r : RootItem) :
  WfTree folders gen t -> JsMap.get (_rootItems t) p = Some r ->
  exists i, r = NestedRoot (obj i) /\ In i (items t)
            /\ id i = _idWithGeneration gen p /\ label i = path_basename p
            /\ wfItems gen (children i)
            /\ rootChildren t r = children i.
Proof.
  intros W G. apply JsMap_get_In in G.
  destruct (wf_multi _ _ _ W many) as (Hnd & _ & Hreg & _).
  destruct (Hreg p r G) as (i & -> & Hin & Hid & Hl).
  exists i. refine (conj eq_refl (conj Hin (conj Hid (conj Hl (conj _ _))))).
  - destruct (wf_items _ _ _ W) as [_ Hall]. rewrite Forall_forall in Hall.
    specialize (Hall i Hin). apply wfItem_unfold in Hall.
    rewrite Hid in Hall. unfold gen in Hall.
    rewrite startsWith_idWithGeneration in Hall. exact Hall.
  - now apply nested_rootChildren.
Qed.

Lemma unregistered_absent (t : TestTree) (p : string) :
  WfTree folders gen t -> JsMap.get (_rootItems t) p = None ->
  ~ In (_idWithGeneration gen p) (ids (items t)).
Proof.
  intros W G Hin. apply in_map_iff in Hin as [x [Hid Hx]].
  destruct (wf_multi _ _ _ W many) as (_ & _ & _ & Htop).
  destruct (Htop x Hx) as (q & Hq & E).
  - rewrite Hid. apply startsWith_idWithGeneration.
  - rewrite Hid in E. apply idWithGeneration_inj in E. subst q.
    now apply JsMap_get_None in G.
Qed.

Lemma createRoot_many (t : TestTree) (f : Uri) :
  In f folders -> WfTree folders gen t ->
  WfTree folders gen (snd (_createRootItemIfNeeded folders f t))
  /\ JsMap.get (_rootItems (snd (_createRootItemIfNeeded folders f t))) (uriToPath f)
     = Some (fst (_createRootItemIfNeeded folders f t))
  /\ Apart gen t (snd (_createRootItemIfNeeded folders f t)) (uriToPath f).
Proof.
  intros Hf W. unfold _createRootItemIfNeeded.
  destruct (JsMap.get (_rootItems t) (uriToPath f)) as [r|] eqn:G.
  - cbn [fst snd]. refine (conj W (conj G _)). apply Apart_refl.
  - rewrite many_false. rewrite (wf_gen _ _ _ W).
    pose proof (unregistered_absent t _ W G) as Habs.
    set (p := uriToPath f) in *.
    unfold createTestItem. cbn [obj].
    set (new := mkTestItem (nextObj t) (_idWithGeneration gen p) (path_basename p)
                  (Some f) [] [] false None None None None None None None).
    rewrite (add_absent (items t) new) by exact Habs. cbn [fst snd].
    unfold setRoot, setItems, setNextObj. fields.
    destruct (wf_multi _ _ _ W many) as (Hnd & Hlt & Hreg & Htop).
    rewrite filter_nil.
    2: { intros x Hx. apply andb_false_iff. right. apply negb_false_iff.
         apply holds_In. exists x. split; [apply in_or_app; now left|reflexivity]. }
    rewrite app_nil_r.
    assert (Hnd' : NoDup (map obj (items t ++ [new])%list)).
    { rewrite map_app. cbn [map]. apply NoDup_app; [exact Hnd| |].
      - constructor; [intros []|constructor].
      - intros a Ha [<-|[]]. apply in_map_iff in Ha as [x [E Hx]].
        apply Hlt in Hx. cbn [new obj] in E. lia. }
    refine (conj _ (conj _ _)).
    + destruct W as [Wg Wd Wl Wn Wi Wk Wa Ws Wm Wc].
      constructor; fields; try assumption.
      * lia.
      * rewrite <- (add_absent (items t) new) by exact Habs.
        apply wfItems_add; [|exact Wi]. apply wfItem_unfold.
        cbn [new id children]. destruct (startsWith _ _); [apply wfItems_nil|reflexivity].
      * now apply JsMap_set_NoDup.
      * intros q Hq. apply JsMap_keys_set in Hq as [->|Hq]; [now apply in_map|auto].
      * intros Hone. now destruct many.
      * intros _. refine (conj Hnd' (conj _ (conj _ _))).
        -- intros x Hx. apply in_app_or in Hx as [Hx|[<-|[]]].
           ++ apply Hlt in Hx. lia.
           ++ cbn. lia.
        -- intros q r Hin. apply JsMap_set_In in Hin as [Heq|Hin].
           ++ injection Heq as -> ->. exists new.
              refine (conj eq_refl (conj _ (conj eq_refl eq_refl))).
              apply in_or_app. right. now left.
           ++ destruct (Hreg q r Hin) as (i & -> & Hi & Hid & Hl).
              exists i. refine (conj eq_refl (conj _ (conj Hid Hl))).
              apply in_or_app. now left.
        -- intros x Hx Hpre. apply in_app_or in Hx as [Hx|[<-|[]]].
           ++ destruct (Htop x Hx Hpre) as (q & Hq & E). exists q.
              split; [|exact E]. apply JsMap_keys_set. now right.
           ++ exists p. split; [|reflexivity]. apply JsMap_keys_set. now left.
      * apply Classified_app; [exact Wc|]. apply Classified_leaf; [reflexivity|].
        left. apply startsWith_idWithGeneration.
    + now rewrite JsMap_get_set, String.eqb_refl.
    + intros q Hq. fields. refine (conj _ (conj _ _)).
      * rewrite JsMap_get_set.
        destruct (String.eqb_spec p q) as [E|_]; [now destruct Hq|reflexivity].
      * intros r Hr. destruct (registered_item t q r W Hr) as (i & -> & Hi & _ & _ & _ & Hc).
        rewrite Hc. apply nested_rootChildren; fields; [exact Hnd'|].
        apply in_or_app. now left.
      * intros Hnone. rewrite get_app, Hnone. cbn [get new id].
        destruct (String.eqb_spec (_idWithGeneration gen p) (_idWithGeneration gen q))
          as [E|_]; [|reflexivity].
        apply idWithGeneration_inj in E. now destruct Hq.
Qed.

Lemma syncScope_many (t : TestTree) (p : string) (r : RootItem) :
  WfTree folders gen t -> JsMap.get (_rootItems t) p = Some r ->
  let t' :=
    syncRoot r (syncConfigErrorsReturned (scopeErrors models p))
      (syncRoot r (_syncDisabledProjects (scopeDisabled models p))
         (syncRoot r (_syncSuite (_testGeneration t) (scopeRootItem models p)) t)) in
  WfTree folders gen t'
  /\ JsMap.get (_rootItems t') p = Some r
  /\ ScopeSynced gen (scopeRootItem models p) (scopeDisabled models p)
       (scopeErrors models p) (rootChildren t' r)
  /\ Apart gen t t' p.
Proof.
  intros W G.
  destruct (registered_item t p r W G) as (i & -> & Hi & Hid & Hl & Hwfc & Hc).
  destruct (wf_multi _ _ _ W many) as (Hnd & Hlt & Hreg & Htop).
  rewrite (nested_syncScope (obj i) i _ _ _ t Hnd Hi eq_refl).
  rewrite (wf_gen _ _ _ W).
  destruct (syncScope_establishes guid guid_hex (scopeRootItem models p)
              (scopeDisabled models p) (scopeErrors models p) (children i)
              (nextObj t) Hwfc) as (HS & Hwf & Hn).
  fold gen in HS, Hwf, Hn.
  set (c3 := fst (syncScope gen (scopeRootItem models p) (scopeDisabled models p)
                    (scopeErrors models p) (children i) (nextObj t))) in *.
  set (n3 := snd (syncScope gen (scopeRootItem models p) (scopeDisabled models p)
                    (scopeErrors models p) (children i) (nextObj t))) in *.
  cbn zeta.
  assert (Hnd' : NoDup (map obj (updateObj (obj i) (set_children c3) (items t))))
    by now rewrite updateObj_map.
  assert (Hother : forall j, In j (items t) -> id j <> id i ->
                     In j (updateObj (obj i) (set_children c3) (items t))).
  { intros j Hj Hne. apply updateObj_In. exists j. split; [exact Hj|]. left.
    split; [|reflexivity]. intros E. apply Hne. f_equal.
    now apply (NoDup_map_eq obj (items t)). }
  refine (conj _ (conj G (conj _ _))).
  - destruct W as [Wg Wd Wl Wn Wi Wk Wa Ws Wm Wc].
    constructor; fields; try assumption; try reflexivity.
    + lia.
    + split.
      * unfold ids. rewrite updateObj_map by reflexivity. apply Wi.
      * apply Forall_forall. intros x Hx.
        destruct Wi as [_ Hall]. rewrite Forall_forall in Hall.
        apply updateObj_In in Hx as (j & Hj & [[_ ->]|[Ho ->]]); [now apply Hall|].
        assert (j = i) by now apply (NoDup_map_eq obj (items t)). subst j.
        apply wfItem_unfold. cbn [id children set_children]. rewrite Hid.
        unfold gen. rewrite startsWith_idWithGeneration. exact Hwf.
    + intros _. refine (conj Hnd' (conj _ (conj _ _))).
      * intros x Hx. apply updateObj_In in Hx as (j & Hj & [[_ ->]|[_ ->]]);
          apply Hlt in Hj; cbn [obj set_children]; lia.
      * intros q r Hin. destruct (Hreg q r Hin) as (j & -> & Hj & Hjid & Hjl).
        destruct (Nat.eq_dec (obj j) (obj i)) as [E|E].
        -- exists (set_children c3 j). refine (conj eq_refl (conj _ (conj Hjid Hjl))).
           now apply updateObj_holds.
        -- exists j. refine (conj eq_refl (conj _ (conj Hjid Hjl))).
           apply updateObj_In. exists j. auto.
      * intros x Hx Hpre.
        apply updateObj_In in Hx as (j & Hj & [[_ ->]|[_ ->]]);
          exact (Htop j Hj Hpre).
    + apply Classified_updateObj; [exact Wc|]. unfold c3.
      apply Classified_syncScope. exact (Classified_children gen _ i Wc Hi).
  - rewrite (nested_rootChildren _ (set_children c3 i)); fields;
      [exact HS| exact Hnd'| now apply updateObj_holds].
  - intros q Hq. fields. refine (conj eq_refl (conj _ _)).
    + intros r Hr.
      destruct (registered_item t q r W Hr) as (j & -> & Hj & Hjid & _ & _ & Hjc).
      rewrite Hjc. apply nested_rootChildren; fields; [exact Hnd'|].
      apply Hother; [exact Hj|]. rewrite Hjid, Hid. intros E.
      apply idWithGeneration_inj in E. now destruct Hq.
    + intros Hnone. apply get_None_iff. apply get_None_iff in Hnone.
      unfold ids in *. now rewrite updateObj_map.
Qed.

Lemma deleteRoot_many (t : TestTree) (p : string) :
  WfTree folders gen t ->
  WfTree folders gen (_deleteRootItem folders p t)
  /\ JsMap.get (_rootItems (_deleteRootItem folders p t)) p = None
  /\ get (items (_deleteRootItem folders p t)) (_idWithGeneration gen p) = None
  /\ Apart gen t (_deleteRootItem folders p t) p.
Proof.
  intros W. unfold _deleteRootItem. rewrite many_false, (wf_gen _ _ _ W).
  destruct (wf_multi _ _ _ W many) as (Hnd & Hlt & Hreg & Htop).
  unfold deleteRoot, setItems. fields. rewrite (wf_detached _ _ _ W). cbn [app].
  set (items' := delete (items t) (_idWithGeneration gen p)).
  assert (Hkept : forall q j, q <> p -> In j (items t) ->
                    id j = _idWithGeneration gen q -> In j items').
  { intros q j Hq Hj Hjid. apply delete_In. split; [exact Hj|].
    rewrite Hjid. intros E. apply idWithGeneration_inj in E. now destruct Hq. }
  assert (Hnd' : NoDup (map obj items')) by now apply NoDup_map_filter.
  rewrite (filter_nil (fun i => registeredNested (JsMap.delete _ _) _)).
  2: { intros x Hx. apply filter_In in Hx as [Hx Hev].
       apply andb_true_iff in Hev as [_ Hev]. apply negb_true_iff in Hev.
       destruct (registeredNested (JsMap.delete (_rootItems t) p) (obj x)) eqn:E;
         [|reflexivity].
       apply registeredNested_In in E as [q Hin].
       apply JsMap_delete_In in Hin as [Hin Hq]. cbn [fst] in Hq.
       destruct (Hreg q _ Hin) as (j & Ej & Hj & Hjid & _).
       injection Ej as Ej. rewrite <- Hev. symmetry. apply holds_In.
       exists j. split; [|now symmetry]. now apply (Hkept q). }
  refine (conj _ (conj _ (conj _ _))).
  - destruct W as [Wg Wd Wl Wn Wi Wk Wa Ws Wm Wc].
    constructor; fields; try assumption; try reflexivity.
    + now apply wfItems_filter.
    + now apply JsMap_delete_NoDup.
    + intros q Hq. apply JsMap_keys_delete in Hq as [Hq _]. auto.
    + intros Hone. now destruct many.
    + intros _. refine (conj Hnd' (conj _ (conj _ _))).
      * intros x Hx. apply delete_In in Hx as [Hx _]. auto.
      * intros q r Hin. apply JsMap_delete_In in Hin as [Hin Hq]. cbn [fst] in Hq.
        destruct (Hreg q r Hin) as (j & -> & Hj & Hjid & Hjl).
        exists j. refine (conj eq_refl (conj _ (conj Hjid Hjl))).
        now apply (Hkept q).
      * intros x Hx Hpre. apply delete_In in Hx as [Hx Hne].
        destruct (Htop x Hx Hpre) as (q & Hq & E). exists q. split; [|exact E].
        apply JsMap_keys_delete. split; [exact Hq|]. intros ->. now apply Hne.
    + now apply Classified_filter.
  - now rewrite JsMap_get_delete, String.eqb_refl.
  - unfold items'. now rewrite get_delete, String.eqb_refl.
  - intros q Hq. fields. refine (conj _ (conj _ _)).
    + rewrite JsMap_get_delete.
      destruct (String.eqb_spec p q) as [E|_]; [now destruct Hq|reflexivity].
    + intros r Hr.
      destruct (registered_item t q r W Hr) as (j & -> & Hj & Hjid & _ & _ & Hjc).
      rewrite Hjc. apply nested_rootChildren; fields; [exact Hnd'|].
      now apply (Hkept q).
    + intros Hnone. unfold items'. rewrite get_delete.
      now destruct (String.eqb _ _).
Qed.

(** One turn of the first loop of [updateReturned]. *)
Lemma updateFolder_many (t : TestTree) (f : Uri) :
  In f folders -> WfTree folders gen t ->
  WfTree folders gen (updateFolderReturned folders models t f)
  /\ ScopeDone folders models gen (updateFolderReturned folders models t f) (uriToPath f)
  /\ Apart gen t (updateFolderReturned folders models t f) (uriToPath f).
Proof.
  intros Hf W. rewrite updateFolder_unfold. unfold ScopeDone. rewrite many_false.
  destruct (scopeEmpty models (uriToPath f)) eqn:Hempty.
  - destruct (deleteRoot_many t (uriToPath f) W) as (W' & G & Hi & HA). auto.
  - cbn zeta. destruct (createRoot_many t f Hf W) as (W1 & G1 & A1).
    set (r := fst (_createRootItemIfNeeded folders f t)) in *.
    set (t1 := snd (_createRootItemIfNeeded folders f t)) in *.
    destruct (syncScope_many t1 (uriToPath f) r W1 G1) as (W' & G' & HS & A2).
    refine (conj W' (conj _ _)).
    + exists r. split; [exact G'| exact HS].
    + exact (Apart_trans _ _ _ _ A1 A2).
Qed.


End ManyFolders.

(** ** A pass of [updateReturned] *)

Section Index.
Context {P : Platform}.

Lemma fold_left_same {A B} (f g : A -> B -> A) (l : list B) (a : A) :
  (forall x y, f x y = g x y) -> fold_left f l a = fold_left g l a.
Proof.
  intros H. revert a. induction l as [|y l IH]; intros a; cbn; [reflexivity|].
  now rewrite H, IH.
Qed.

Lemma rootObject_same (t t' : TestTree) (r : RootItem) :
  items t' = items t -> detached t' = detached t ->
  rootObject t' r = rootObject t r.
Proof. intros Hi Hd. unfold rootObject. now rewrite Hi, Hd. Qed.

(** [_indexTree] writes the two indices and nothing else. *)
Lemma indexTree_fields (t : TestTree) :
  _testGeneration (_indexTree t) = _testGeneration t
  /\ _rootItems (_indexTree t) = _rootItems t
  /\ items (_indexTree t) = items t
  /\ detached (_indexTree t) = detached t
  /\ _loadingItem (_indexTree t) = _loadingItem t
  /\ nextObj (_indexTree t) = nextObj t.
Proof. unfold _indexTree. destruct (fold_left _ _ _). cbn. auto 10. Qed.

Lemma indexTree_rootChildren (t : TestTree) (r : RootItem) :
  rootChildren (_indexTree t) r = rootChildren t r.
Proof.
  destruct (indexTree_fields t) as (_ & _ & Hi & Hd & _).
  unfold rootChildren. now rewrite (rootObject_same _ _ r Hi Hd).
Qed.

(** The indices are a function of the roots and of what they hold. *)
Lemma indexTree_same (t t' : TestTree) :
  _testGeneration t' = _testGeneration t -> _rootItems t' = _rootItems t ->
  items t' = items t -> detached t' = detached t ->
  _loadingItem t' = _loadingItem t -> nextObj t' = nextObj t ->
  _indexTree t' = _indexTree t.
Proof.
  intros Hg Hr Hi Hd Hl Hn. unfold _indexTree. rewrite Hg, Hr, Hi, Hd, Hl, Hn.
  rewrite (fold_left_same _
             (fun ix r => match rootObject t r with
                          | Some item => visit item ix
                          | None => ix
                          end)); [reflexivity|].
  intros ix r. now rewrite (rootObject_same _ _ r Hi Hd).
Qed.

Lemma indexTree_twice (t : TestTree) : _indexTree (_indexTree t) = _indexTree t.
Proof.
  destruct (indexTree_fields t) as (Hg & Hr & Hi & Hd & Hl & Hn).
  now apply indexTree_same.
Qed.

Lemma WfTree_indexTree (folders : list Uri) (gen : string) (t : TestTree) :
  WfTree folders gen t -> WfTree folders gen (_indexTree t).
Proof.
  destruct (indexTree_fields t) as (Hg & Hr & Hi & Hd & Hl & Hn).
  intros [Wg Wd Wl Wn Wi Wk Wa Ws Wm Wc].
  constructor; rewrite ?Hg, ?Hr, ?Hi, ?Hd, ?Hl, ?Hn; assumption.
Qed.

Lemma ScopeDone_indexTree (folders : list Uri) (models : list TestModel)
    (gen : string) (t : TestTree) (p : string) :
  ScopeDone folders models gen t p -> ScopeDone folders models gen (_indexTree t) p.
Proof.
  destruct (indexTree_fields t) as (Hg & Hr & Hi & Hd & Hl & Hn).
  unfold ScopeDone. rewrite Hr, Hi. destruct (scopeEmpty models p); [auto|].
  intros (r & G & HS). exists r. now rewrite indexTree_rootChildren.
Qed.

Lemma removeStale_active (folders : list Uri) (t : TestTree) :
  (forall p, In p (JsMap.keys (_rootItems t)) -> In p (map uriToPath folders)) ->
  removeStale folders t = t.
Proof.
  intros Ha. unfold removeStale.
  generalize (JsMap.keys (_rootItems t)) at 1 as L, Ha.
  intros L. induction L as [|k L IH]; intros HL; cbn [fold_left]; [reflexivity|].
  assert (E : existsb (fun f => String.eqb (uriToPath f) k) folders = true).
  { apply existsb_exists. specialize (HL k (or_introl eq_refl)).
    apply in_map_iff in HL as [f [E Hf]]. exists f. split; [exact Hf|].
    now apply String.eqb_eq. }
  rewrite E. apply IH. intros p Hp. apply HL. now right.
Qed.

End Index.

Section Passes.
Context {P : Platform}.
Variable guid : string.
Hypothesis guid_hex : isHex guid = true.
Let gen := guid ++ ":".
Variable models : list TestModel.

Lemma one_folder (folders : list Uri) (f : Uri) (q : string) :
  List.length folders = 1 -> In f folders -> In q (map uriToPath folders) ->
  q = uriToPath f.
Proof.
  destruct folders as [|f0 [|f1 l]]; try discriminate. intros _ [<-|[]] [<-|[]].
  reflexivity.
Qed.

Lemma updateFolder_step (folders : list Uri) (t : TestTree) (f : Uri) :
  In f folders -> WfTree folders gen t ->
  WfTree folders gen (updateFolderReturned folders models t f)
  /\ ScopeDone folders models gen (updateFolderReturned folders models t f) (uriToPath f)
  /\ (forall q, In q (map uriToPath folders) -> q <> uriToPath f ->
        ScopeDone folders models gen t q ->
        ScopeDone folders models gen (updateFolderReturned folders models t f) q).
Proof.
  intros Hf W. destruct (Nat.eq_dec (List.length folders) 1) as [one|many].
  - destruct (updateFolder_single guid guid_hex folders one models t f Hf W)
      as [W' HS].
    refine (conj W' (conj HS _)). intros q Hq Hne.
    now destruct Hne; apply (one_folder folders).
  - destruct (updateFolder_many guid guid_hex folders many models t f Hf W)
      as (W' & HS & HA).
    refine (conj W' (conj HS _)). intros q _ Hne.
    now apply (ScopeDone_apart guid folders many models t _ (uriToPath f)).
Qed.


(** The first loop of [updateReturned] over the folders [l], [D] being the paths
    that are up to date before. *)
Lemma folders_loop (folders l : list Uri) :
  forall (t : TestTree) (D : list string),
  (forall f, In f l -> In f folders) ->
  WfTree folders gen t ->
  (forall q, In q D -> In q (map uriToPath folders)
                       /\ ScopeDone folders models gen t q) ->
  WfTree folders gen (fold_left (updateFolderReturned folders models) l t)
  /\ (forall q, In q D \/ In q (map uriToPath l) ->
        ScopeDone folders models gen (fold_left (updateFolderReturned folders models) l t) q).
Proof.
  induction l as [|f l IH]; intros t D Hl W HD; cbn [fold_left map].
  - split; [exact W|]. intros q [Hq|[]]. now apply HD.
  - destruct (updateFolder_step folders t f (Hl f (or_introl eq_refl)) W)
      as (W1 & HS1 & Hframe).
    destruct (IH (updateFolderReturned folders models t f) (uriToPath f :: D)) as [W' HS'].
    + intros f' Hf'. apply Hl. now right.
    + exact W1.
    + intros q [<-|Hq].
      * split; [apply in_map, Hl; now left| exact HS1].
      * destruct (HD q Hq) as [Hin HS]. split; [exact Hin|].
        destruct (String.eqb_spec q (uriToPath f)) as [->|Hne]; [exact HS1|].
        now apply Hframe.
    + split; [exact W'|]. intros q Hq. apply HS'. cbn [In].
      destruct Hq as [Hq|[Hq|Hq]]; auto.
Qed.


(** What a pass establishes. *)
Lemma pass_establishes (workspaceFolders : WorkspaceFolders) (t t' : TestTree) :
  WfTree (foldersOf workspaceFolders) gen t ->
  updateReturned workspaceFolders models t = Some t' ->
  WfTree (foldersOf workspaceFolders) gen t'
  /\ (forall f, In f (foldersOf workspaceFolders) ->
        ScopeDone (foldersOf workspaceFolders) models gen t' (uriToPath f))
  /\ _indexTree t' = t'.
Proof.
  intros W. destruct workspaceFolders as [folders|]; cbn [updateReturned foldersOf] in *.
  - intros [= <-].
    destruct (folders_loop folders folders t [] (fun f H => H) W) as [W1 HS1];
      [intros q []|].
    rewrite removeStale_active by apply (wf_active _ _ _ W1).
    refine (conj _ (conj _ _)).
    + now apply WfTree_indexTree.
    + intros f Hf. apply ScopeDone_indexTree, HS1. right. now apply in_map.
    + apply indexTree_twice.
  - destruct (JsMap.keys (_rootItems t)); [|discriminate]. intros [= <-].
    refine (conj _ (conj _ _)).
    + now apply WfTree_indexTree.
    + intros f [].
    + apply indexTree_twice.
Qed.


End Passes.

(** ** The registry across a pass *)

Section Registry.
Context {P : Platform}.

Lemma deleteRootItem_roots (folders : list Uri) (fsPath : string) (t : TestTree) :
  _rootItems (_deleteRootItem folders fsPath t) = JsMap.delete (_rootItems t) fsPath.
Proof. unfold _deleteRootItem. now destruct (Nat.eqb _ 1). Qed.

Lemma createRootItemIfNeeded_roots (folders : list Uri) (f : Uri) (t : TestTree)
    (q : string) (r0 : RootItem) :
  JsMap.get (_rootItems t) q = Some r0 ->
  JsMap.get (_rootItems (snd (_createRootItemIfNeeded folders f t))) q = Some r0.
Proof.
  intros G. unfold _createRootItemIfNeeded.
  destruct (JsMap.get (_rootItems t) (uriToPath f)) as [r|] eqn:Gf; [exact G|].
  assert (E : String.eqb (uriToPath f) q = false).
  { apply String.eqb_neq. intros E. rewrite E in Gf. congruence. }
  destruct (Nat.eqb _ 1); cbn; now rewrite JsMap_get_set, E.
Qed.

(** A root that is registered stays what it is while its folder has
    something to show. *)
Lemma updateFolder_roots (folders : list Uri) (models : list TestModel)
    (t : TestTree) (f : Uri) (q : string) (r0 : RootItem) :
  q <> uriToPath f \/ scopeEmpty models (uriToPath f) = false ->
  JsMap.get (_rootItems t) q = Some r0 ->
  JsMap.get (_rootItems (updateFolderReturned folders models t f)) q = Some r0.
Proof.
  intros Hq G. rewrite updateFolder_unfold.
  destruct (scopeEmpty models (uriToPath f)) eqn:Hempty.
  - destruct Hq as [Hq|Hq]; [|discriminate].
    rewrite deleteRootItem_roots, JsMap_get_delete.
    destruct (String.eqb_spec (uriToPath f) q) as [E|_]; [now destruct Hq|exact G].
  - cbn zeta.
    pose proof (createRootItemIfNeeded_roots folders f t q r0 G) as G1.
    set (r := fst (_createRootItemIfNeeded folders f t)) in *.
    set (t1 := snd (_createRootItemIfNeeded folders f t)) in *.
    destruct (syncRoot_kept r (_syncSuite (_testGeneration t1)
                (scopeRootItem models (uriToPath f))) t1
                (syncSuite_next _ _)) as (_ & _ & A3 & _).
    set (t2 := syncRoot r _ t1) in *.
    destruct (syncRoot_kept r (_syncDisabledProjects
                (scopeDisabled models (uriToPath f))) t2
                (syncDisabledProjects_next _)) as (_ & _ & B3 & _).
    set (t3 := syncRoot r _ t2) in *.
    destruct (syncRoot_kept r (syncConfigErrorsReturned
                (scopeErrors models (uriToPath f))) t3
                (syncConfigErrors_next _)) as (_ & _ & C3 & _).
    now rewrite C3, B3, A3.
Qed.

Lemma folders_loop_roots (folders l : list Uri) (models : list TestModel)
    (q : string) (r0 : RootItem) :
  scopeEmpty models q = false ->
  forall t, JsMap.get (_rootItems t) q = Some r0 ->
    JsMap.get (_rootItems (fold_left (updateFolderReturned folders models) l t)) q = Some r0.
Proof.
  intros Hq. induction l as [|f l IH]; intros t G; cbn [fold_left]; [exact G|].
  apply IH. apply updateFolder_roots; [|exact G].
  destruct (String.eqb_spec q (uriToPath f)) as [<-|Hne]; auto.
Qed.

(** A root that is registered before a pass over its folder, and whose
    folder has something to show, is the root after the pass. *)
Lemma update_reuses (guid : string) (workspaceFolders : WorkspaceFolders)
    (models : list TestModel) (t t' : TestTree) (q : string) (r0 : RootItem) :
  isHex guid = true ->
  WfTree (foldersOf workspaceFolders) (guid ++ ":") t ->
  updateReturned workspaceFolders models t = Some t' ->
  scopeEmpty models q = false ->
  JsMap.get (_rootItems t) q = Some r0 ->
  JsMap.get (_rootItems t') q = Some r0.
Proof.
  intros Hhex W Hu Hq G.
  destruct workspaceFolders as [folders|]; cbn [updateReturned foldersOf] in *.
  - injection Hu as <-.
    destruct (folders_loop guid Hhex models folders folders t []
                (fun f H => H) W) as [W1 _]; [intros ? []|].
    rewrite removeStale_active by apply (wf_active _ _ _ W1).
    destruct (indexTree_fields (fold_left (updateFolderReturned folders models) folders t))
      as (_ & Hr & _).
    rewrite Hr. now apply folders_loop_roots.
  - apply JsMap_get_In, JsMap_In_keys in G.
    destruct (wf_active _ _ _ W q G).
Qed.

End Registry.

(** ** A pass that has nothing to do returns *)

Section FixedReturns.
Context {P : Platform}.
Variable guid : string.
Hypothesis guid_hex : isHex guid = true.
Let gen := guid ++ ":".
Variable models : list TestModel.

Import TestItemCollection.

(** [_syncConfigErrors] creates nothing, and so does not throw, when every
    error has its item. *)
Lemma syncConfigErrors_fixed (errorsByModel : ErrorsByModel) (c : list TestItem)
    (n : nat) :
  NoDup (map errorIdOf (errorEntries errorsByModel)) ->
  (forall k, startsWith k "[error] " = true ->
     (In k (map id c) <-> In k (map errorIdOf (errorEntries errorsByModel)))) ->
  _syncConfigErrors errorsByModel c n = Some (c, n).
Proof.
  intros Hnd Hes.
  destruct (_syncConfigErrors errorsByModel c n) as [r|] eqn:E.
  - apply syncConfigErrors_returns in E. rewrite E, syncConfigErrors_entries.
    f_equal. apply syncEntries_fixed; [|exact Hnd|exact Hes].
    intros e. apply errorId_prefix.
  - exfalso. apply syncConfigErrors_throws in E as (l1 & me & l2 & El & _ & Hin).
    rewrite El, map_app in Hnd. cbn [map] in Hnd. apply NoDup_remove_2 in Hnd.
    apply Hnd. apply in_or_app. left. apply Hin.
    apply Hes; [apply (errorId_prefix (fst me) (snd me))|].
    rewrite El. apply in_map, in_or_app. right. now left.
Qed.






End FixedReturns.

(** ** A pass after the workspace folders have changed *)

Section Changes.
Context {P : Platform}.
Variable guid : string.
Hypothesis guid_hex : isHex guid = true.
Let gen := guid ++ ":".
Variable models : list TestModel.

Import TestItemCollection.

(** The functions of a pass look at the folders for their number only, to
    choose the kind of root. *)
Lemma deleteRootItem_mode (F F' : list Uri) (fsPath : string) (t : TestTree) :
  Nat.eqb (List.length F) 1 = Nat.eqb (List.length F') 1 ->
  _deleteRootItem F fsPath t = _deleteRootItem F' fsPath t.
Proof. intros E. unfold _deleteRootItem. now rewrite E. Qed.

Lemma createRootItemIfNeeded_mode (F F' : list Uri) (f : Uri) (t : TestTree) :
  Nat.eqb (List.length F) 1 = Nat.eqb (List.length F') 1 ->
  _createRootItemIfNeeded F f t = _createRootItemIfNeeded F' f t.
Proof. intros E. unfold _createRootItemIfNeeded. now rewrite E. Qed.

Lemma updateFolder_mode (F F' : list Uri) (t : TestTree) (f : Uri) :
  Nat.eqb (List.length F) 1 = Nat.eqb (List.length F') 1 ->
  updateFolderReturned F models t f = updateFolderReturned F' models t f.
Proof.
  intros E. rewrite !updateFolder_unfold.
  now rewrite (deleteRootItem_mode F F' _ _ E),
    (createRootItemIfNeeded_mode F F' _ _ E).
Qed.

Lemma folders_loop_mode (F F' l : list Uri) (t : TestTree) :
  Nat.eqb (List.length F) 1 = Nat.eqb (List.length F') 1 ->
  fold_left (updateFolderReturned F models) l t
  = fold_left (updateFolderReturned F' models) l t.
Proof. intros E. apply fold_left_same. intros x y. now apply updateFolder_mode. Qed.

Lemma ScopeDone_mode (F F' : list Uri) (t : TestTree) (p : string) :
  Nat.eqb (List.length F) 1 = Nat.eqb (List.length F') 1 ->
  ScopeDone F models gen t p -> ScopeDone F' models gen t p.
Proof. intros E. unfold ScopeDone. now rewrite E. Qed.

Lemma WfTree_mode (F F' : list Uri) (t : TestTree) :
  Nat.eqb (List.length F) 1 = Nat.eqb (List.length F') 1 ->
  WfTree F gen t ->
  (forall p, In p (JsMap.keys (_rootItems t)) -> In p (map uriToPath F')) ->
  WfTree F' gen t.
Proof.
  intros E [Wg Wd Wl Wn Wi Wk Wa Ws Wm Wc] Ha.
  constructor; try assumption.
  - intros one'. apply Ws. apply Nat.eqb_eq. rewrite E. now apply Nat.eqb_eq.
  - intros many'. apply Wm. apply Nat.eqb_neq. rewrite E. now apply Nat.eqb_neq.
Qed.

(** *** Several folders before and after *)

Lemma stale_loop (FF F' : list Uri) (L : list string) :
  List.length FF <> 1 -> List.length F' <> 1 ->
  forall t, WfTree FF gen t ->
    let t' :=
      fold_left
        (fun t itemFsPath =>
           if existsb (fun f => String.eqb (uriToPath f) itemFsPath) F'
           then t
           else _deleteRootItem F' itemFsPath t) L t in
    WfTree FF gen t'
    /\ (forall q, In q (map uriToPath F') ->
          JsMap.get (_rootItems t') q = JsMap.get (_rootItems t) q
          /\ (forall r, JsMap.get (_rootItems t) q = Some r ->
                rootChildren t' r = rootChildren t r)
          /\ (get (items t) (_idWithGeneration gen q) = None ->
              get (items t') (_idWithGeneration gen q) = None))
    /\ (forall p, Gone gen t p -> Gone gen t' p)
    /\ (forall p, In p L -> ~ In p (map uriToPath F') -> Gone gen t' p)
    /\ (forall p, In p (JsMap.keys (_rootItems t')) -> In p (JsMap.keys (_rootItems t))).
Proof.
  intros many many'.
  assert (E : Nat.eqb (List.length F') 1 = Nat.eqb (List.length FF) 1).
  { apply Nat.eqb_neq in many, many'. congruence. }
  induction L as [|k L IH]; intros t W; cbn [fold_left].
  - cbn zeta. refine (conj W (conj _ (conj _ (conj _ _)))); auto.
    intros p [].
  - destruct (existsb (fun f => String.eqb (uriToPath f) k) F') eqn:Hact.
    + destruct (IH t W) as (W' & HK & HG & HL & Hkeys). cbn zeta.
      refine (conj W' (conj HK (conj HG (conj _ Hkeys)))).
      intros p [<-|Hp] Hn; [|now apply HL].
      exfalso. apply Hn. apply existsb_exists in Hact as (f & Hf & Ef).
      apply String.eqb_eq in Ef. rewrite <- Ef. now apply in_map.
    + rewrite (deleteRootItem_mode F' FF k t E).
      destruct (deleteRoot_many guid FF many t k W) as (W1 & G1 & I1 & A1).
      destruct (IH _ W1) as (W' & HK & HG & HL & Hkeys). cbn zeta.
      assert (Hk : ~ In k (map uriToPath F')).
      { intros Hin. apply in_map_iff in Hin as (f & Ef & Hf).
        apply not_true_iff_false in Hact. apply Hact. apply existsb_exists.
        exists f. split; [exact Hf|]. now apply String.eqb_eq. }
      refine (conj W' (conj _ (conj _ (conj _ _)))).
      * intros q Hq. assert (Hne : q <> k) by (intros ->; auto).
        destruct (A1 q Hne) as (a1 & a2 & a3).
        destruct (HK q Hq) as (b1 & b2 & b3).
        refine (conj _ (conj _ _)).
        -- congruence.
        -- intros r Hr. rewrite b2 by congruence. auto.
        -- auto.
      * intros p [G I]. apply HG.
        destruct (String.eqb_spec p k) as [->|Hne]; [split; assumption|].
        destruct (A1 p Hne) as (a1 & _ & a3). split; [congruence|auto].
      * intros p [<-|Hp] Hn; [apply HG; split; assumption| now apply HL].
      * intros p Hp. apply Hkeys in Hp. rewrite deleteRootItem_roots in Hp.
        now apply JsMap_keys_delete in Hp as [Hp _].
Qed.

Lemma createRootItemIfNeeded_others (F : list Uri) (f : Uri) (t : TestTree)
    (q : string) :
  q <> uriToPath f ->
  JsMap.get (_rootItems (snd (_createRootItemIfNeeded F f t))) q
  = JsMap.get (_rootItems t) q.
Proof.
  intros Hq. apply not_eq_sym in Hq. apply String.eqb_neq in Hq.
  unfold _createRootItemIfNeeded.
  destruct (JsMap.get (_rootItems t) (uriToPath f)); [reflexivity|].
  destruct (Nat.eqb _ 1); cbn; now rewrite JsMap_get_set, Hq.
Qed.

(** A turn of the first loop leaves the registration of the other paths
    alone. *)
Lemma updateFolder_others (F : list Uri) (t : TestTree) (f : Uri) (q : string) :
  q <> uriToPath f ->
  JsMap.get (_rootItems (updateFolderReturned F models t f)) q
  = JsMap.get (_rootItems t) q.
Proof.
  intros Hq. rewrite updateFolder_unfold.
  destruct (scopeEmpty models (uriToPath f)).
  - rewrite deleteRootItem_roots, JsMap_get_delete.
    destruct (String.eqb_spec (uriToPath f) q) as [E|_]; [now destruct Hq|reflexivity].
  - cbn zeta.
    pose proof (createRootItemIfNeeded_others F f t q Hq) as G1.
    set (r := fst (_createRootItemIfNeeded F f t)) in *.
    set (t1 := snd (_createRootItemIfNeeded F f t)) in *.
    destruct (syncRoot_kept r (_syncSuite (_testGeneration t1)
                (scopeRootItem models (uriToPath f))) t1
                (syncSuite_next _ _)) as (_ & _ & A3 & _).
    set (t2 := syncRoot r _ t1) in *.
    destruct (syncRoot_kept r (_syncDisabledProjects
                (scopeDisabled models (uriToPath f))) t2
                (syncDisabledProjects_next _)) as (_ & _ & B3 & _).
    set (t3 := syncRoot r _ t2) in *.
    destruct (syncRoot_kept r (syncConfigErrorsReturned
                (scopeErrors models (uriToPath f))) t3
                (syncConfigErrors_next _)) as (_ & _ & C3 & _).
    now rewrite C3, B3, A3.
Qed.

Lemma folders_loop_others (F l : list Uri) (q : string) :
  ~ In q (map uriToPath l) ->
  forall t,
    JsMap.get (_rootItems (fold_left (updateFolderReturned F models) l t)) q
    = JsMap.get (_rootItems t) q.
Proof.
  induction l as [|f l IH]; intros Hq t; cbn [fold_left]; [reflexivity|].
  cbn [map In] in Hq. rewrite IH by tauto. apply updateFolder_others.
  intros ->. tauto.
Qed.

Lemma ScopeDone_kept (FF : list Uri) (t t' : TestTree) (q : string) :
  List.length FF <> 1 ->
  JsMap.get (_rootItems t') q = JsMap.get (_rootItems t) q ->
  (forall r, JsMap.get (_rootItems t) q = Some r ->
     rootChildren t' r = rootChildren t r) ->
  (get (items t) (_idWithGeneration gen q) = None ->
   get (items t') (_idWithGeneration gen q) = None) ->
  ScopeDone FF models gen t q -> ScopeDone FF models gen t' q.
Proof.
  intros many A B C. unfold ScopeDone. rewrite (many_false FF many).
  destruct (scopeEmpty models q).
  - intros [G Hi]. split; [congruence|auto].
  - intros (r & G & HS). exists r. split; [congruence|]. now rewrite B.
Qed.

Lemma Gone_indexTree (t : TestTree) (p : string) :
  Gone gen t p -> Gone gen (_indexTree t) p.
Proof.
  destruct (indexTree_fields t) as (_ & Hr & Hi & _).
  unfold Gone. now rewrite Hr, Hi.
Qed.

(** A pass with several folders, after a pass with several folders. *)
Lemma pass_many (F F' : list Uri) (t t' : TestTree) :
  List.length F <> 1 -> List.length F' <> 1 ->
  WfTree F gen t ->
  updateReturned (Some F') models t = Some t' ->
  WfTree F' gen t'
  /\ (forall f, In f F' -> ScopeDone F' models gen t' (uriToPath f))
  /\ (forall p, In p (JsMap.keys (_rootItems t)) -> ~ In p (map uriToPath F') ->
        Gone gen t' p)
  /\ _indexTree t' = t'.
Proof.
  intros many many' W. cbn [updateReturned]. intros [= <-].
  assert (manyFF : List.length (F ++ F') <> 1).
  { rewrite length_app. lia. }
  assert (E : Nat.eqb (List.length F') 1 = Nat.eqb (List.length (F ++ F')) 1).
  { apply Nat.eqb_neq in many', manyFF. congruence. }
  assert (E0 : Nat.eqb (List.length F) 1 = Nat.eqb (List.length (F ++ F')) 1).
  { apply Nat.eqb_neq in many, manyFF. congruence. }
  assert (W0 : WfTree (F ++ F') gen t).
  { apply (WfTree_mode F); [exact E0|exact W|].
    intros p Hp. rewrite map_app. apply in_or_app. left.
    now apply (wf_active _ _ _ W). }
  rewrite (folders_loop_mode F' (F ++ F') F' t E) in *.
  destruct (folders_loop guid guid_hex models (F ++ F') F' t [])
    as [W1 HS1]; [intros f Hf; apply in_or_app; now right|exact W0|intros q []|].
  set (t1 := fold_left (updateFolderReturned (F ++ F') models) F' t) in *.
  unfold removeStale.
  destruct (stale_loop (F ++ F') F' (JsMap.keys (_rootItems t1)) manyFF many' t1 W1)
    as (W2 & HK & HG & HL & Hkeys).
  cbn zeta in W2, HK, HG, HL, Hkeys.
  set (t2 := fold_left _ (JsMap.keys (_rootItems t1)) t1) in *.
  refine (conj _ (conj _ (conj _ _))).
  - apply WfTree_indexTree. apply (WfTree_mode (F ++ F')); [now symmetry|exact W2|].
    intros p Hp. destruct (in_dec string_dec p (map uriToPath F')) as [Hin|Hn];
      [exact Hin|].
    destruct (HL p (Hkeys p Hp) Hn) as [G _]. apply JsMap_get_None in G.
    now destruct G.
  - intros f Hf. apply ScopeDone_indexTree.
    apply (ScopeDone_mode (F ++ F')); [now symmetry|].
    assert (Hq : In (uriToPath f) (map uriToPath F')) by now apply in_map.
    destruct (HK _ Hq) as (A & B & C).
    apply (ScopeDone_kept (F ++ F') t1 t2 _ manyFF A B C). apply HS1. now right.
  - intros p Hp Hn. apply Gone_indexTree, HL; [|exact Hn].
    apply JsMap_has_keys. apply JsMap_has_keys in Hp. unfold JsMap.has in *.
    unfold t1. now rewrite (folders_loop_others (F ++ F') F' p Hn t).
  - apply indexTree_twice.
Qed.

(** *** One folder before and after *)

Lemma stale_loop_active (F' : list Uri) (L : list string) (t : TestTree) :
  (forall k, In k L -> In k (map uriToPath F')) ->
  fold_left
    (fun t itemFsPath =>
       if existsb (fun f => String.eqb (uriToPath f) itemFsPath) F'
       then t
       else _deleteRootItem F' itemFsPath t) L t = t.
Proof.
  induction L as [|k L IH]; intros H; cbn [fold_left]; [reflexivity|].
  assert (E : existsb (fun f => String.eqb (uriToPath f) k) F' = true).
  { apply existsb_exists. specialize (H k (or_introl eq_refl)).
    apply in_map_iff in H as (f & Ef & Hf). exists f. split; [exact Hf|].
    now apply String.eqb_eq. }
  rewrite E. apply IH. intros k' Hk'. apply H. now right.
Qed.

Lemma setItems_withRoot (p : string) (o : nat) (i : string) (u : Uri)
    (new : list TestItem) (t : TestTree) :
  setItems new (withRoot p (FlatRoot o i u) t)
  = withRoot p (FlatRoot o i u) (setItems new t).
Proof. reflexivity. Qed.

Lemma deleteRoot_withRoot (p q : string) (o : nat) (i : string) (u : Uri)
    (t : TestTree) :
  p <> q ->
  deleteRoot q (withRoot p (FlatRoot o i u) t)
  = withRoot p (FlatRoot o i u) (deleteRoot q t).
Proof.
  intros Hpq. apply String.eqb_neq in Hpq.
  unfold deleteRoot, withRoot. fields. unfold JsMap.delete. cbn [filter fst].
  now rewrite Hpq.
Qed.

Lemma deleteRootItem_withRoot (F : list Uri) (p q : string) (o : nat) (i : string)
    (u : Uri) (t : TestTree) :
  p <> q ->
  _deleteRootItem F q (withRoot p (FlatRoot o i u) t)
  = withRoot p (FlatRoot o i u) (_deleteRootItem F q t).
Proof.
  intros Hpq. unfold _deleteRootItem.
  destruct (Nat.eqb _ 1); rewrite setItems_withRoot; now apply deleteRoot_withRoot.
Qed.

Lemma createRootItemIfNeeded_withRoot (F : list Uri) (f : Uri) (p : string)
    (o : nat) (i : string) (u : Uri) (t : TestTree) :
  p <> uriToPath f ->
  _createRootItemIfNeeded F f (withRoot p (FlatRoot o i u) t)
  = (fst (_createRootItemIfNeeded F f t),
     withRoot p (FlatRoot o i u) (snd (_createRootItemIfNeeded F f t))).
Proof.
  intros Hp. apply String.eqb_neq in Hp. unfold _createRootItemIfNeeded.
  cbn [withRoot _rootItems JsMap.get]. rewrite Hp.
  destruct (JsMap.get (_rootItems t) (uriToPath f)); [reflexivity|].
  destruct (Nat.eqb _ 1); unfold setRoot, setItems, setNextObj, withRoot; fields;
    cbn [JsMap.set]; rewrite Hp; reflexivity.
Qed.

Lemma syncRoot_withRoot (r : RootItem) (s : Sync) (p : string) (o : nat)
    (i : string) (u : Uri) (t : TestTree) :
  syncRoot r s (withRoot p (FlatRoot o i u) t)
  = withRoot p (FlatRoot o i u) (syncRoot r s t).
Proof.
  unfold syncRoot.
  change (rootChildren (withRoot p (FlatRoot o i u) t) r) with (rootChildren t r).
  change (nextObj (withRoot p (FlatRoot o i u) t)) with (nextObj t).
  destruct (s (rootChildren t r) (nextObj t)) as [cs n].
  destruct r as [o' i' u'|o']; [reflexivity|].
  cbn [setRootChildren]. change (items (setNextObj n (withRoot p (FlatRoot o i u) t)))
    with (items (setNextObj n t)).
  now destruct (holds (items (setNextObj n t)) o').
Qed.

Lemma updateFolder_withRoot (F : list Uri) (f : Uri) (p : string) (o : nat)
    (i : string) (u : Uri) (t : TestTree) :
  p <> uriToPath f ->
  updateFolderReturned F models (withRoot p (FlatRoot o i u) t) f
  = withRoot p (FlatRoot o i u) (updateFolderReturned F models t f).
Proof.
  intros Hp. rewrite !updateFolder_unfold.
  destruct (scopeEmpty models (uriToPath f)); [now apply deleteRootItem_withRoot|].
  cbn zeta. rewrite (createRootItemIfNeeded_withRoot F f p o i u t Hp).
  cbn [fst snd]. now rewrite !syncRoot_withRoot.
Qed.

Lemma ScopeDone_RootDone (F : list Uri) (t : TestTree) (p : string) :
  ScopeDone F models gen t p -> RootDone F models gen t p.
Proof.
  unfold ScopeDone, RootDone, Removed. destruct (scopeEmpty models p); [auto|].
  intros (r & G & _). eauto.
Qed.

Lemma Removed_indexTree (F : list Uri) (t : TestTree) (p : string) :
  Removed F gen t p -> Removed F gen (_indexTree t) p.
Proof.
  destruct (indexTree_fields t) as (_ & Hr & Hi & _).
  unfold Removed. now rewrite Hr, Hi.
Qed.

Lemma RootDone_indexTree (F : list Uri) (t : TestTree) (p : string) :
  RootDone F models gen t p -> RootDone F models gen (_indexTree t) p.
Proof.
  unfold RootDone. destruct (scopeEmpty models p); [apply Removed_indexTree|].
  destruct (indexTree_fields t) as (_ & Hr & _). now rewrite Hr.
Qed.

(** A pass with one folder, after a pass with one folder. *)
Lemma pass_one (F F' : list Uri) (t t' : TestTree) :
  List.length F = 1 -> List.length F' = 1 ->
  WfTree F gen t ->
  updateReturned (Some F') models t = Some t' ->
  WfTree F' gen t'
  /\ (forall f, In f F' -> RootDone F' models gen t' (uriToPath f))
  /\ (forall p, In p (JsMap.keys (_rootItems t)) -> ~ In p (map uriToPath F') ->
        Removed F' gen t' p)
  /\ _indexTree t' = t'
  /\ ((forall f, In f F' -> ScopeDone F' models gen t' (uriToPath f))
      \/ (forall i, In i (items t') ->
            String.eqb (id i) "loading" || String.eqb (id i) "disabled" = true)).
Proof.
  intros one one' W Hu.
  assert (E : Nat.eqb (List.length F) 1 = Nat.eqb (List.length F') 1)
    by now rewrite one, one'.
  assert (A : (forall p, In p (JsMap.keys (_rootItems t)) -> In p (map uriToPath F'))
              -> WfTree F' gen t'
                 /\ (forall f, In f F' -> RootDone F' models gen t' (uriToPath f))
                 /\ (forall p, In p (JsMap.keys (_rootItems t)) ->
                       ~ In p (map uriToPath F') -> Removed F' gen t' p)
                 /\ _indexTree t' = t'
                 /\ ((forall f, In f F' -> ScopeDone F' models gen t' (uriToPath f))
                     \/ (forall i, In i (items t') ->
                           String.eqb (id i) "loading"
                           || String.eqb (id i) "disabled" = true))).
  { intros Hact. pose proof (WfTree_mode F F' t E W Hact) as W0.
    destruct (pass_establishes guid guid_hex models (Some F') t t' W0 Hu)
      as (W' & Hdone & Hix).
    refine (conj W' (conj _ (conj _ (conj Hix (or_introl Hdone))))).
    - intros f Hf. now apply ScopeDone_RootDone, Hdone.
    - intros p Hp Hn. now destruct Hn; apply Hact. }
  destruct (_rootItems t) as [|[pa ra] rest] eqn:Hroots; [apply A; intros p []|].
  destruct (in_dec string_dec pa (map uriToPath F')) as [Hin|Hpa].
  { apply A. intros p Hp.
    destruct F as [|a [|a' l]]; try discriminate.
    pose proof (wf_active _ _ _ W) as Ha. rewrite Hroots in Ha.
    destruct (Ha pa (or_introl eq_refl)) as [<-|[]].
    destruct (Ha p Hp) as [<-|[]]. exact Hin. }
  clear A.
  assert (Hrest : rest = []).
  { destruct rest as [|[pc rc] rest]; [reflexivity|]. exfalso.
    destruct F as [|a [|a' l]]; try discriminate.
    pose proof (wf_active _ _ _ W) as Ha. pose proof (wf_keys _ _ _ W) as Hk.
    rewrite Hroots in Ha, Hk. cbn [JsMap.keys map fst] in Ha, Hk.
    destruct (Ha pa (or_introl eq_refl)) as [<-|[]].
    destruct (Ha pc (or_intror (or_introl eq_refl))) as [<-|[]].
    inversion Hk as [|? ? Hx _]. apply Hx. now left. }
  subst rest.
  destruct (wf_single _ _ _ W one pa ra) as (o & u & ->);
    [rewrite Hroots; now left|].
  destruct F' as [|b [|b' l]]; try discriminate.
  assert (Hpb : pa <> uriToPath b) by (intros ->; apply Hpa; now left).
  set (t0 := mkTestTree (_testGeneration t) [] (items t) (detached t)
               (_loadingItem t) (_testItemByTestId t) (_testItemByFile t)
               (nextObj t)).
  assert (Et : t = withRoot pa (FlatRoot o (_idWithGeneration gen pa) u) t0).
  { rewrite <- (TestTree_eta t) at 1. unfold withRoot, t0. fields.
    now rewrite Hroots. }
  assert (W0 : WfTree [b] gen t0).
  { destruct W as [Wg Wd Wl Wn Wi Wk Wa Ws Wm Wc].
    constructor; unfold t0; fields; try assumption.
    - constructor.
    - intros p [].
    - intros _ p r [].
    - intros many. now destruct many. }
  cbn [updateReturned fold_left] in Hu. injection Hu as <-.
  destruct (updateFolder_single guid guid_hex [b] one' models t0 b
              (or_introl eq_refl) W0) as [W1 HS1].
  rewrite Et, (updateFolder_withRoot [b] b pa o _ u t0 Hpb).
  set (t1 := updateFolderReturned [b] models t0 b) in *.
  assert (Hnot : ~ In pa (JsMap.keys (_rootItems t1))).
  { intros Hin. apply (wf_active _ _ _ W1) in Hin as [Hin|[]]. now apply Hpb. }
  unfold removeStale. cbn [withRoot _rootItems JsMap.keys map fst fold_left].
  fold (JsMap.keys (_rootItems t1)).
  assert (Eex : existsb (fun f => String.eqb (uriToPath f) pa) [b] = false).
  { cbn. apply String.eqb_neq in Hpb. rewrite String.eqb_sym. now rewrite Hpb. }
  rewrite Eex.
  rewrite stale_loop_active by apply (wf_active _ _ _ W1).
  set (t2 := _deleteRootItem [b] pa
               (withRoot pa (FlatRoot o (_idWithGeneration gen pa) u) t1)).
  assert (E2 : t2 = mkTestTree (_testGeneration t1) (_rootItems t1)
                 (filter (fun i => String.eqb (id i) "loading"
                                   || String.eqb (id i) "disabled") (items t1))
                 [] (_loadingItem t1) (_testItemByTestId t1) (_testItemByFile t1)
                 (nextObj t1)).
  { unfold t2, _deleteRootItem. cbn [List.length Nat.eqb].
    rewrite setItems_withRoot.
    rewrite replace_NoDup by (apply ids_filter_NoDup, (wf_items _ _ _ W1)).
    unfold deleteRoot, withRoot, setItems. fields.
    rewrite (wf_detached _ _ _ W1). cbn [app].
    rewrite (filter_nil (fun i => registeredNested _ _ && _))
      by (intros x _; now rewrite (single_noNested guid [b] one' t1 W1)).
    cbn [filter]. unfold JsMap.delete. cbn [filter fst].
    rewrite String.eqb_refl. cbn [negb].
    fold (JsMap.delete (_rootItems t1) pa).
    now rewrite JsMap_delete_absent. }
  assert (W2 : WfTree [b] gen t2).
  { rewrite E2. destruct W1 as [Wg Wd Wl Wn Wi Wk Wa Ws Wm Wc].
    constructor; fields; try assumption; try reflexivity.
    - now apply wfItems_filter.
    - intros many. now destruct many.
    - now apply Classified_filter. }
  assert (Hall : forall i, In i (items t2) ->
             String.eqb (id i) "loading" || String.eqb (id i) "disabled" = true).
  { rewrite E2. fields. intros i Hi. now apply filter_In in Hi. }
  refine (conj _ (conj _ (conj _ (conj _ _)))).
  - now apply WfTree_indexTree.
  - intros f [<-|[]]. apply RootDone_indexTree.
    apply ScopeDone_RootDone in HS1. unfold RootDone, Removed in *.
    cbn [List.length Nat.eqb] in *.
    destruct (scopeEmpty models (uriToPath b)).
    + destruct HS1 as [G _]. split; [|exact Hall]. rewrite E2. fields. exact G.
    + rewrite E2. fields. exact HS1.
  - intros p [<-|[]] _. apply Removed_indexTree. split.
    + rewrite E2. fields. now apply JsMap_get_None.
    + cbn [List.length Nat.eqb]. exact Hall.
  - apply indexTree_twice.
  - right. destruct (indexTree_fields t2) as (_ & _ & Hi & _). now rewrite Hi.
Qed.

(** *** Any change that keeps the kind of the roots *)

(** The second loop of [_update] leaves the roots of the workspace folders
    registered. *)
Lemma removeStale_registered (F' : list Uri) (t : TestTree) (q : string) :
  In q (map uriToPath F') ->
  JsMap.get (_rootItems (removeStale F' t)) q = JsMap.get (_rootItems t) q.
Proof.
  intros Hq. unfold removeStale. generalize (JsMap.keys (_rootItems t)) as L.
  intros L. revert t. induction L as [|k L IH]; intros t; cbn [fold_left];
    [reflexivity|].
  destruct (existsb (fun f => String.eqb (uriToPath f) k) F') eqn:Hact; [apply IH|].
  rewrite IH, deleteRootItem_roots, JsMap_get_delete.
  destruct (String.eqb_spec k q) as [->|_]; [|reflexivity].
  apply not_true_iff_false in Hact. destruct Hact. apply existsb_exists.
  apply in_map_iff in Hq as (f & Ef & Hf). exists f. split; [exact Hf|].
  now apply String.eqb_eq.
Qed.

(** The root of a folder that has something to show is reused. *)
Lemma pass_reuses (workspaceFolders' : WorkspaceFolders) (t t' : TestTree)
    (q : string) (r0 : RootItem) :
  updateReturned workspaceFolders' models t = Some t' ->
  scopeEmpty models q = false ->
  In q (map uriToPath (foldersOf workspaceFolders')) ->
  JsMap.get (_rootItems t) q = Some r0 ->
  JsMap.get (_rootItems t') q = Some r0.
Proof.
  intros Hu Hq Hin G.
  destruct workspaceFolders' as [F'|]; cbn [updateReturned foldersOf] in *;
    [|destruct Hin].
  injection Hu as <-.
  destruct (indexTree_fields
              (removeStale F' (fold_left (updateFolderReturned F' models) F' t)))
    as (_ & Hr & _).
  rewrite Hr, removeStale_registered by exact Hin.
  now apply folders_loop_roots.
Qed.

Lemma pass_changes (workspaceFolders workspaceFolders' : WorkspaceFolders)
    (t t' : TestTree) :
  WfTree (foldersOf workspaceFolders) gen t ->
  sameRoots workspaceFolders workspaceFolders' ->
  updateReturned workspaceFolders' models t = Some t' ->
  WfTree (foldersOf workspaceFolders') gen t'
  /\ (forall f, In f (foldersOf workspaceFolders') ->
        RootDone (foldersOf workspaceFolders') models gen t' (uriToPath f))
  /\ (forall p, In p (JsMap.keys (_rootItems t)) ->
        ~ In p (map uriToPath (foldersOf workspaceFolders')) ->
        Removed (foldersOf workspaceFolders') gen t' p)
  /\ _indexTree t' = t'
  /\ ((forall f, In f (foldersOf workspaceFolders') ->
         ScopeDone (foldersOf workspaceFolders') models gen t' (uriToPath f))
      \/ (forall i, In i (items t') ->
            String.eqb (id i) "loading" || String.eqb (id i) "disabled" = true)).
Proof.
  intros W Hsame Hu. unfold sameRoots in Hsame.
  destruct workspaceFolders' as [F'|]; cbn [foldersOf] in *.
  - destruct (Nat.eq_dec (List.length F') 1) as [one'|many'].
    + apply (pass_one (foldersOf workspaceFolders) F' t t'); try assumption.
      apply Nat.eqb_eq. rewrite Hsame. now apply Nat.eqb_eq.
    + assert (many : List.length (foldersOf workspaceFolders) <> 1).
      { apply Nat.eqb_neq. rewrite Hsame. now apply Nat.eqb_neq. }
      destruct (pass_many (foldersOf workspaceFolders) F' t t' many many' W Hu)
        as (W' & Hdone & Hgone & Hix).
      refine (conj W' (conj _ (conj _ (conj Hix (or_introl Hdone))))).
      * intros f Hf. now apply ScopeDone_RootDone, Hdone.
      * intros p Hp Hn. destruct (Hgone p Hp Hn) as [G I]. split; [exact G|].
        now rewrite (many_false F' many').
  - cbn [updateReturned] in Hu.
    destruct (JsMap.keys (_rootItems t)) as [|k l] eqn:Hk; [|discriminate].
    injection Hu as <-.
    refine (conj _ (conj _ (conj _ (conj _ _)))).
    + apply WfTree_indexTree. apply (WfTree_mode (foldersOf workspaceFolders));
        [exact Hsame|exact W|]. rewrite Hk. intros p [].
    + intros f [].
    + intros p [].
    + apply indexTree_twice.
    + left. intros f [].
Qed.

End Changes.

(** ** The trees of a session *)

Section Sessions.
Context {P : Platform}.

Lemma startedLoading_kept (workspaceFolders : WorkspaceFolders) (guid : string)
    (t : TestTree) :
  Kept t -> Kept (startedLoading workspaceFolders guid t).
Proof.
  intros [Hl Hn]. unfold startedLoading.
  destruct workspaceFolders as [[|f l]|]; split; assumption.
Qed.

Lemma folders_loop_kept (folders l : list Uri) (models : list TestModel) :
  forall t, Kept t -> Kept (fold_left (updateFolderReturned folders models) l t).
Proof.
  induction l as [|f l IH]; intros t K; cbn [fold_left]; [exact K|].
  apply IH. destruct K as [Hl Hn].
  destruct (updateFolder_kept folders models t f) as (E & Hle & _).
  split; [congruence|lia].
Qed.

Lemma removeStale_kept (folders : list Uri) (t : TestTree) :
  Kept t -> Kept (removeStale folders t).
Proof.
  unfold removeStale. generalize (JsMap.keys (_rootItems t)) as L.
  intros L. revert t. induction L as [|k L IH]; intros t K; cbn [fold_left];
    [exact K|].
  apply IH. destruct (existsb _ folders); [exact K|].
  destruct K as [Hl Hn].
  destruct (deleteRootItem_kept folders k t) as (E1 & E2 & _).
  split; congruence.
Qed.

Lemma indexTree_kept (t : TestTree) : Kept t -> Kept (_indexTree t).
Proof.
  destruct (indexTree_fields t) as (_ & _ & _ & _ & Hl & Hn).
  intros [K1 K2]. split; congruence.
Qed.

Lemma finishedLoading_kept (t : TestTree) : Kept t -> Kept (finishedLoading t).
Proof.
  intros K. unfold finishedLoading.
  destruct (TestItemCollection.get (items t) (id (_loadingItem t))); exact K.
Qed.

Lemma Alive_kept (t : TestTree) : Alive t -> Kept t.
Proof.
  induction 1 as [|wsf guid t _ IH|t _ IH|wsf models t t' _ IH Hu].
  - split; cbn; [reflexivity|lia].
  - now apply startedLoading_kept.
  - now apply finishedLoading_kept.
  - apply update_returns in Hu.
    destruct wsf as [folders|]; cbn [updateReturned] in Hu.
    + injection Hu as <-.
      now apply indexTree_kept, removeStale_kept, folders_loop_kept.
    + destruct (JsMap.keys (_rootItems t)); [|discriminate].
      injection Hu as <-. now apply indexTree_kept.
Qed.

Variable guid : string.
Hypothesis guid_hex : isHex guid = true.
Let gen := guid ++ ":".

Lemma cleared_wf (folders : list Uri) (its : list TestItem) (loading : TestItem)
    (n : nat) :
  loading = fst (createTestItem "loading" "Loading…" None 0) -> 1 <= n ->
  its = [] \/ its = [loading] ->
  WfTree folders gen
    (mkTestTree gen JsMap.empty its [] loading JsMap.empty JsMap.empty n).
Proof.
  intros Hl Hn Hits.
  assert (Hpre : startsWith "loading" gen = false)
    by apply (loading_not_generation guid guid_hex).
  assert (Hin : forall i, In i its -> i = loading).
  { intros i Hi. destruct Hits as [->| ->]; [destruct Hi|].
    destruct Hi as [<-|[]]. reflexivity. }
  assert (Hnd : forall {A} (g : TestItem -> A), NoDup (map g its)).
  { intros A g. destruct Hits as [->| ->]; cbn; repeat constructor. intros []. }
  constructor; fields; try reflexivity.
  - exact Hl.
  - exact Hn.
  - split; [apply Hnd|]. apply Forall_forall. intros i Hi.
    rewrite (Hin i Hi), Hl. apply wfItem_unfold. cbn [createTestItem fst id children].
    now rewrite Hpre.
  - constructor.
  - intros p [].
  - intros _ p r [].
  - intros _. refine (conj (Hnd _ _) (conj _ (conj _ _))).
    + intros i Hi. rewrite (Hin i Hi), Hl. cbn. lia.
    + intros p r [].
    + intros i Hi. rewrite (Hin i Hi), Hl. cbn [createTestItem fst id].
      rewrite Hpre. discriminate.
  - destruct Hits as [->| ->]; [apply Classified_nil|].
    apply Classified_leaf; rewrite Hl; [reflexivity| now right].
Qed.

Lemma startedLoading_wf (workspaceFolders : WorkspaceFolders) (t : TestTree) :
  Kept t -> WfTree (foldersOf workspaceFolders) gen (startedLoading workspaceFolders guid t).
Proof.
  intros [Hl Hn]. unfold startedLoading.
  destruct workspaceFolders as [[|f l]|]; cbn [foldersOf];
    unfold setItems; fields;
    cbn [TestItemCollection.replace fold_left TestItemCollection.add app filter];
    apply cleared_wf; auto.
Qed.

(** Without the loading item the tree is as well formed as with it. *)
Lemma finishedLoading_wf (folders : list Uri) (t : TestTree) :
  WfTree folders gen t -> WfTree folders gen (finishedLoading t).
Proof.
  intros W. unfold finishedLoading. rewrite (wf_loading _ _ _ W).
  cbn [createTestItem fst id].
  destruct (TestItemCollection.get (items t) "loading"); [|exact W].
  assert (Hpre : forall p, _idWithGeneration gen p <> "loading").
  { intros p E. pose proof (startsWith_idWithGeneration gen p) as H.
    rewrite E in H. unfold gen in H.
    now rewrite (loading_not_generation guid guid_hex) in H. }
  assert (Hev : forall x, In x (items t) ->
            registeredNested (_rootItems t) (obj x) = true ->
            holds (TestItemCollection.delete (items t) "loading") (obj x) = true).
  { intros x Hx Hreg. apply registeredNested_In in Hreg as [p Hin].
    destruct (Nat.eq_dec (List.length folders) 1) as [one|many].
    - destruct (wf_single _ _ _ W one _ _ Hin) as (o & u & E). discriminate.
    - destruct (wf_multi _ _ _ W many) as (_ & _ & Hroots & _).
      destruct (Hroots p _ Hin) as (j & Ej & Hj & Hjid & _). injection Ej as Ej.
      apply holds_In. exists j. split; [|now symmetry].
      apply delete_In. split; [exact Hj|]. rewrite Hjid. apply Hpre. }
  unfold setItems. rewrite filter_nil.
  2: { intros x Hx. destruct (registeredNested (_rootItems t) (obj x)) eqn:E;
         [|reflexivity].
       now rewrite (Hev x Hx E). }
  rewrite app_nil_r.
  destruct W as [Wg Wd Wl Wn Wi Wk Wa Ws Wm Wc].
  constructor; fields; try assumption.
  - now apply wfItems_filter.
  - intros many. destruct (Wm many) as (Hnd & Hlt & Hroots & Htop).
    refine (conj _ (conj _ (conj _ _))).
    + now apply NoDup_map_filter.
    + intros x Hx. apply delete_In in Hx as [Hx _]. auto.
    + intros p r Hin. destruct (Hroots p r Hin) as (j & -> & Hj & Hjid & Hjl).
      exists j. refine (conj eq_refl (conj _ (conj Hjid Hjl))).
      apply delete_In. split; [exact Hj|]. rewrite Hjid. apply Hpre.
    + intros x Hx. apply delete_In in Hx as [Hx _]. auto.
  - now apply Classified_filter.
Qed.

Lemma Session_generation (workspaceFolders : WorkspaceFolders) (g : string)
    (t : TestTree) :
  Session workspaceFolders g t -> g = guid ->
  WfTree (foldersOf workspaceFolders) gen t.
Proof.
  induction 1 as [wsf g t Ha|wsf g t _ IH|wsf wsf' g models t t' _ IH Hsame Hu];
    intros Eg.
  - rewrite Eg. now apply startedLoading_wf, Alive_kept.
  - now apply finishedLoading_wf, IH.
  - apply update_returns in Hu.
    now apply (pass_changes guid guid_hex models wsf wsf' t t' (IH Eg) Hsame).
Qed.

Lemma Session_wf (workspaceFolders : WorkspaceFolders) (t : TestTree) :
  Session workspaceFolders guid t -> WfTree (foldersOf workspaceFolders) gen t.
Proof. intros H. now apply (Session_generation workspaceFolders guid). Qed.

End Sessions.

(** ** What the tree and the indices hold after a pass *)

Section Reach.
Context {P : Platform}.

Import TestItemCollection.

(** Induction on a test item, with the property at hand for every child. *)
Lemma TestItem_children_ind (Q : TestItem -> Prop) :
  (forall i, Forall Q (children i) -> Q i) -> forall i, Q i.
Proof.
  intros H. fix IH 1. intros [o i l u ch tg cr rg er ds st sy dp ce]. apply H. cbn.
  induction ch as [|x ch IHch]; constructor; [apply IH| exact IHch].
Qed.

Lemma uIds_unfold (uItem : TreeItem) :
  uIds uItem = flat_map (fun c => u_id c :: uIds c) (u_children uItem).
Proof. now destruct uItem. Qed.

(** In a synced collection the ids with the generation are those of the
    logical tree. *)
Lemma Synced_ids (gen : string) (uItem : TreeItem) :
  forall c v, wfItems gen c -> Synced gen uItem c ->
    In v (allNodes c) -> startsWith (id v) gen = true ->
    In (substringFrom (String.length gen) (id v)) (uIds uItem).
Proof.
  induction uItem as [uItem IH] using TreeItem_children_ind.
  intros c v Hwf HS Hv Hpre. rewrite Forall_forall in IH.
  apply Synced_unfold in HS as (Hnd & Hhas & Hall).
  apply allNodes_In in Hv as (i & Hi & Hv).
  destruct Hwf as [_ Hwf]. rewrite Forall_forall in Hwf.
  specialize (Hwf i Hi). apply wfItem_unfold in Hwf.
  destruct (startsWith (id i) gen) eqn:Hipre.
  - specialize (Hhas i Hi Hipre). apply JsMap_has_keys in Hhas.
    apply in_map_iff in Hhas as [[k uc] [Ek Hin]]. cbn [fst] in Ek.
    destruct (uChildrenById_In _ _ _ Hin) as [Huc Hk].
    destruct (Hall k uc Hin) as (v0 & Hget & _ & HSc).
    assert (Eid : _idWithGeneration gen k = id i)
      by (rewrite Ek; now apply idWithGeneration_strip).
    rewrite Eid, (get_NoDup_In c i Hnd Hi) in Hget. injection Hget as <-.
    rewrite uIds_unfold. apply in_flat_map. exists uc. split; [exact Huc|].
    destruct Hv as [->|Hv].
    + left. congruence.
    + right. now apply (IH uc Huc (children i) v).
  - rewrite Hwf in Hv. destruct Hv as [->|[]]. congruence.
Qed.

Lemma visit_unfold (item : TestItem) (ix : JsMap.t TestItem * JsMap.t TestItem) :
  visit item ix =
  let byId :=
    match testTreeItemSymbol item with
    | Some u =>
        if isCaseOrTest (u_kind u)
        then match u_test u with
             | Some test0 => JsMap.set (fst ix) (test_id test0) item
             | None => fst ix
             end
        else fst ix
    | None => fst ix
    end in
  let r := fold_left (fun ix child => visit child ix) (children item) (byId, snd ix) in
  match uri item, range item with
  | Some u, None => (fst r, JsMap.set (snd r) (uriToPath u) item)
  | _, _ => r
  end.
Proof.
  destruct item as [o i l u ch tg cr rg er ds st sy dp ce], ix as [byId byFile].
  cbn [visit testTreeItemSymbol children uri range fst snd].
  match goal with
  | |- context [fold_left ?f ch ?a] => destruct (fold_left f ch a) as [a1 b1]
  end.
  destruct u, rg; reflexivity.
Qed.

Lemma values_set {V} (m : JsMap.t V) (k : string) (x v : V) :
  In v (JsMap.values (JsMap.set m k x)) -> v = x \/ In v (JsMap.values m).
Proof.
  intros H. apply in_map_iff in H as [[k' v'] [<- Hin]].
  apply JsMap_set_In in Hin as [E|Hin].
  - injection E as _ ->. now left.
  - right. now apply (in_map snd) in Hin.
Qed.

Lemma visit_values (item : TestItem) :
  forall ix, Indexed ix (visit item ix) (nodes item).
Proof.
  induction item as [item IH] using TestItem_children_ind. intros ix.
  rewrite visit_unfold, nodes_unfold. cbn zeta.
  set (byId := match testTreeItemSymbol item with Some _ => _ | None => _ end).
  assert (H0 : Indexed ix (byId, snd ix) [item]).
  { intros v. cbn [fst snd]. split; [|auto]. unfold byId.
    destruct (testTreeItemSymbol item) as [u|]; [|auto].
    destruct (isCaseOrTest (u_kind u)); [|auto].
    destruct (u_test u); [|auto].
    intros H. apply values_set in H as [->|H]; cbn; auto. }
  assert (H1 : forall ch a, Forall (fun i => forall ix, Indexed ix (visit i ix) (nodes i)) ch ->
                 Indexed a (fold_left (fun ix child => visit child ix) ch a) (allNodes ch)).
  { clear. intros ch a Hch. revert a.
    induction Hch as [|x ch Hx Hch IHch]; intros a; cbn [fold_left].
    - intros v. auto.
    - intros v. destruct (IHch (visit x a) v) as [A1 A2].
      destruct (Hx a v) as [B1 B2]. unfold allNodes. cbn [flat_map].
      split; intros H; [apply A1 in H| apply A2 in H];
        (destruct H as [H|H]; [|right; apply in_or_app; now right]);
        [apply B1 in H| apply B2 in H];
        (destruct H as [H|H]; [now left| right; apply in_or_app; now left]). }
  specialize (H1 (children item) (byId, snd ix) IH).
  set (r := fold_left _ (children item) (byId, snd ix)) in *.
  assert (H2 : Indexed ix r (item :: allNodes (children item))).
  { intros v. destruct (H0 v) as [A1 A2], (H1 v) as [B1 B2].
    split; intros H; [apply B1 in H| apply B2 in H];
      (destruct H as [H|H]; [|right; now right]);
      [apply A1 in H| apply A2 in H];
      (destruct H as [H|[<-|[]]]; [now left| right; now left]). }
  destruct (uri item) as [u|]; [|exact H2].
  destruct (range item); [exact H2|].
  intros v. destruct (H2 v) as [A1 A2]. cbn [fst snd]. split; [exact A1|].
  intros H. apply values_set in H as [->|H]; [right; now left| auto].
Qed.

(** The indices hold nodes of the registered roots. *)
Lemma indexTree_values (t : TestTree) (v : TestItem) :
  In v (JsMap.values (_testItemByTestId (_indexTree t)))
  \/ In v (JsMap.values (_testItemByFile (_indexTree t))) ->
  exists r item, In r (JsMap.values (_rootItems t))
                 /\ rootObject t r = Some item /\ In v (nodes item).
Proof.
  unfold _indexTree.
  set (F := fun ix r => match rootObject t r with
                        | Some item => visit item ix
                        | None => ix
                        end).
  assert (H : forall L a,
             In v (JsMap.values (fst (fold_left F L a)))
             \/ In v (JsMap.values (snd (fold_left F L a))) ->
             (In v (JsMap.values (fst a)) \/ In v (JsMap.values (snd a)))
             \/ exists r item, In r L /\ rootObject t r = Some item /\ In v (nodes item)).
  { induction L as [|r L IHL]; intros a; cbn [fold_left]; [auto|].
    intros Hv. apply IHL in Hv as [Hv|(r' & item & Hr' & Ho & Hn)].
    - unfold F in Hv. destruct (rootObject t r) as [item|] eqn:Ho; [|auto].
      destruct (visit_values item a v) as [A1 A2].
      destruct Hv as [Hv|Hv]; [apply A1 in Hv| apply A2 in Hv];
        (destruct Hv as [Hv|Hv]; [auto|]);
        right; exists r, item; cbn; auto.
    - right. exists r', item. cbn. auto. }
  specialize (H (JsMap.values (_rootItems t)) (JsMap.empty, JsMap.empty)).
  destruct (fold_left F (JsMap.values (_rootItems t)) (JsMap.empty, JsMap.empty))
    as [byId byFile].
  fields. intros Hv. destruct (H Hv) as [[[]|[]]|Hr]. exact Hr.
Qed.

End Reach.

Section Content.
Context {P : Platform}.
Variable guid : string.
Hypothesis guid_hex : isHex guid = true.
Let gen := guid ++ ":".

Import TestItemCollection.

Lemma disabled_not_generation : startsWith "disabled" gen = false.
Proof.
  unfold gen, startsWith. destruct guid as [|a [|b g]]; [reflexivity| |].
  - cbn [append]. rewrite prefix_cons. apply andb_false_intro2. reflexivity.
  - cbn [append]. rewrite !prefix_cons.
    destruct (Ascii.eqb_spec b "i"%char) as [->|_].
    + cbn in guid_hex. apply andb_prop in guid_hex as [_ H]. discriminate.
    + apply andb_false_intro2. reflexivity.
Qed.

(** After a pass, the ids with the generation in the tree of the
    controller are logical ids of the pass. *)
Lemma tree_ids (folders : list Uri) (models : list TestModel) (t : TestTree) :
  WfTree folders gen t ->
  (forall f, In f folders -> ScopeDone folders models gen t (uriToPath f)) ->
  forall v, In v (allNodes (items t)) -> startsWith (id v) gen = true ->
    In (substringFrom (String.length gen) (id v)) (logicalIds folders models).
Proof.
  intros W HS v Hv Hpre. unfold logicalIds.
  apply allNodes_In in Hv as (i & Hi & Hv).
  pose proof (wf_items _ _ _ W) as [Hnd Hall]. rewrite Forall_forall in Hall.
  pose proof (Hall i Hi) as Hwi. apply wfItem_unfold in Hwi.
  destruct (startsWith (id i) gen) eqn:Hipre.
  2: { rewrite Hwi in Hv. destruct Hv as [->|[]]. congruence. }
  destruct (Nat.eq_dec (List.length folders) 1) as [one|many].
  - destruct folders as [|f [|f' l]]; try discriminate.
    specialize (HS f (or_introl eq_refl)). unfold ScopeDone in HS.
    cbn [List.length Nat.eqb] in HS.
    destruct (scopeEmpty models (uriToPath f)).
    + destruct HS as [_ HS]. specialize (HS i Hi).
      apply orb_prop in HS as [E|E]; apply String.eqb_eq in E;
        rewrite E in Hipre.
      * pose proof (loading_not_generation guid guid_hex) as L.
        unfold gen in Hipre. congruence.
      * pose proof disabled_not_generation as L. unfold gen in *. congruence.
    + destruct HS as (r & G & HS & _).
      apply JsMap_get_In in G.
      destruct (wf_single _ _ _ W one _ _ G) as (o & u & ->).
      cbn [rootChildren rootObject children] in HS.
      apply in_or_app. right. cbn [flat_map]. rewrite app_nil_r.
      apply (Synced_ids gen _ (items t) v); try assumption.
      * exact (wf_items _ _ _ W).
      * apply allNodes_In. eauto.
  - destruct (wf_multi _ _ _ W many) as (Hndo & _ & Hreg & Htop).
    destruct (Htop i Hi Hipre) as (q & Hq & Eid).
    pose proof (wf_active _ _ _ W q Hq) as Hact.
    apply in_map_iff in Hact as [f [Ef Hf]]. specialize (HS f Hf).
    rewrite Ef in HS. unfold ScopeDone in HS.
    destruct (scopeEmpty models q).
    { destruct HS as [G _]. now apply JsMap_get_None in G. }
    destruct HS as (r & G & HS & _).
    destruct (registered_item guid folders many t q r W G)
      as (i' & _ & Hi' & Eid' & _ & _ & Hc).
    assert (i' = i).
    { apply (NoDup_map_eq id (items t)); try assumption.
      transitivity (_idWithGeneration gen q); [exact Eid'| now symmetry]. }
    subst i'. rewrite Hc in HS.
    destruct Hv as [->|Hv].
    + apply in_or_app. left. rewrite Eid. unfold gen.
      rewrite strip_idWithGeneration. rewrite <- Ef. now apply in_map.
    + apply in_or_app. right. apply in_flat_map. exists f. split; [exact Hf|].
      rewrite Ef. now apply (Synced_ids gen _ (children i) v).
Qed.

(** The nodes of a registered root are the root that [_createRootItemIfNeeded]
    made for a folder, or nodes of the tree of the controller. *)
Lemma rootObject_nodes (folders : list Uri) (t : TestTree) (r : RootItem)
    (item v : TestItem) :
  WfTree folders gen t -> In r (JsMap.values (_rootItems t)) ->
  rootObject t r = Some item -> In v (nodes item) ->
  (exists f, In f folders /\ id v = _idWithGeneration gen (uriToPath f))
  \/ In v (allNodes (items t)).
Proof.
  intros W Hr Ho Hv. apply in_map_iff in Hr as [[p r'] [E Hin]]. cbn [snd] in E.
  subst r'. pose proof (wf_active _ _ _ W p (JsMap_In_keys _ _ _ Hin)) as Hp.
  apply in_map_iff in Hp as [f [Ef Hf]].
  destruct (Nat.eq_dec (List.length folders) 1) as [one|many].
  - destruct (wf_single _ _ _ W one _ _ Hin) as (o & u & ->).
    cbn [rootObject] in Ho. injection Ho as <-.
    rewrite nodes_unfold in Hv. cbn [children] in Hv.
    destruct Hv as [<-|Hv]; [|now right].
    left. exists f. split; [exact Hf|]. cbn [id]. now rewrite Ef.
  - destruct (wf_multi _ _ _ W many) as (Hndo & _ & Hreg & _).
    destruct (Hreg p r Hin) as (i & -> & Hi & _).
    cbn [rootObject] in Ho. rewrite findObj_NoDup in Ho by assumption.
    injection Ho as <-. right. rewrite nodes_unfold in Hv.
    apply allNodes_In. exists i. split; [exact Hi|].
    destruct Hv as [<-|Hv]; auto.
Qed.


(** In a controller that holds auxiliary items only, no id carries the
    generation. *)
Lemma auxiliary_only (folders : list Uri) (t : TestTree) (v : TestItem) :
  WfTree folders gen t ->
  (forall i, In i (items t) ->
     String.eqb (id i) "loading" || String.eqb (id i) "disabled" = true) ->
  In v (allNodes (items t)) -> startsWith (id v) gen = false.
Proof.
  intros W Hall Hv. apply allNodes_In in Hv as (i & Hi & Hv).
  assert (Hpre : startsWith (id i) gen = false).
  { specialize (Hall i Hi). apply orb_prop in Hall as [E|E];
      apply String.eqb_eq in E; rewrite E;
      [apply (loading_not_generation guid guid_hex)|apply disabled_not_generation]. }
  destruct (wf_items _ _ _ W) as [_ Hwf]. rewrite Forall_forall in Hwf.
  specialize (Hwf i Hi). apply wfItem_unfold in Hwf. rewrite Hpre in Hwf.
  rewrite Hwf in Hv. destruct Hv as [->|[]]. exact Hpre.
Qed.

End Content.

(** ** The children of an item after [_syncSuite] *)

Section ChildFacts.
Context {P : Platform}.
Variable gen : string.

Import TestItemCollection.

Lemma get_filter_id (p : string -> bool) (c : list TestItem) (k : string) :
  get (filter (fun i => p (id i)) c) k = if p k then get c k else None.
Proof.
  induction c as [|j c IH]; cbn [filter get]; [now destruct (p k)|].
  destruct (String.eqb (id j) k) eqn:E.
  - apply String.eqb_eq in E. subst k. destruct (p (id j)); [|exact IH].
    cbn [get]. now rewrite String.eqb_refl.
  - destruct (p (id j)); [|exact IH]. cbn [get]. now rewrite E.
Qed.

Lemma get_kept {A} (E : JsMap.t A) (c : list TestItem) (k : string) :
  JsMap.has E k = true ->
  get (filter (keepChild gen E) c) (_idWithGeneration gen k)
  = get c (_idWithGeneration gen k).
Proof.
  intros H.
  rewrite (get_filter_id
             (fun x => negb (startsWith x gen)
                       || JsMap.has E (substringFrom (String.length gen) x))).
  now rewrite strip_idWithGeneration, H, orb_true_r.
Qed.

Lemma isNone_get (c c' : list TestItem) (k : string) :
  (In k (ids c') <-> In k (ids c)) -> isNone (get c' k) = isNone (get c k).
Proof.
  intros H. destruct (get c k) eqn:E, (get c' k) eqn:E'; try reflexivity.
  - apply get_None_iff in E'. apply get_Some_In in E as [Hin <-].
    destruct E'. apply H. now apply in_map.
  - apply get_None_iff in E. apply get_Some_In in E' as [Hin <-].
    destruct E. apply H. now apply in_map.
Qed.

(** One turn of the second loop, seen from the key [r]. *)
Lemma ensureChild_other {A} (vs : list TestItem) (n : nat)
    (e : string * (TreeItem * A)) (r : string) :
  r <> _idWithGeneration gen (fst e) ->
  get (fst (ensureChild gen (vs, n) e)) r = get vs r.
Proof.
  intros Hr. apply not_eq_sym, String.eqb_neq in Hr. unfold ensureChild.
  destruct (get vs (_idWithGeneration gen (fst e))).
  - cbn [fst]. rewrite get_update by apply syncAttributes_id. now rewrite Hr.
  - destruct (newChild gen (fst e) (fst (snd e)) n) as [v n'] eqn:Hnew.
    cbn [fst]. rewrite get_update by apply syncAttributes_id. rewrite Hr.
    rewrite get_add.
    replace (id v) with (_idWithGeneration gen (fst e)); [now rewrite Hr|].
    change v with (fst (v, n')). rewrite <- Hnew. symmetry. apply newChild_id.
Qed.

Lemma ensureChild_same {A} (vs : list TestItem) (n : nat)
    (e : string * (TreeItem * A)) :
  get (fst (ensureChild gen (vs, n) e)) (_idWithGeneration gen (fst e))
  = Some (syncAttributes (fst (snd e))
            (match get vs (_idWithGeneration gen (fst e)) with
             | Some v0 => v0
             | None => fst (newChild gen (fst e) (fst (snd e)) n)
             end)).
Proof.
  unfold ensureChild.
  destruct (get vs (_idWithGeneration gen (fst e))) as [v0|] eqn:G.
  - cbn [fst]. rewrite get_update by apply syncAttributes_id.
    now rewrite String.eqb_refl, G.
  - pose proof (newChild_id gen (fst e) (fst (snd e)) n) as Hid.
    destruct (newChild gen (fst e) (fst (snd e)) n) as [v n'].
    cbn [fst] in *. rewrite get_update by apply syncAttributes_id.
    rewrite String.eqb_refl, get_add, Hid, String.eqb_refl. reflexivity.
Qed.

Lemma ensureChild_next {A} (vs : list TestItem) (n : nat)
    (e : string * (TreeItem * A)) :
  n <= snd (ensureChild gen (vs, n) e)
  /\ (get vs (_idWithGeneration gen (fst e)) = None ->
      S n = snd (ensureChild gen (vs, n) e)).
Proof.
  unfold ensureChild.
  destruct (get vs (_idWithGeneration gen (fst e))); cbn [snd]; [split; [lia|discriminate]|].
  pose proof (newChild_obj gen (fst e) (fst (snd e)) n) as [_ Hn].
  destruct (newChild gen (fst e) (fst (snd e)) n) as [v n']. cbn [snd] in *.
  subst n'. split; [lia|reflexivity].
Qed.

Lemma ensure_other {A} (E : JsMap.t (TreeItem * A)) (r : string) :
  forall vs n,
    (forall e, In e E -> r <> _idWithGeneration gen (fst e)) ->
    get (fst (fold_left (ensureChild gen) E (vs, n))) r = get vs r.
Proof.
  induction E as [|e E IH]; intros vs n H; cbn [fold_left]; [reflexivity|].
  destruct (ensureChild gen (vs, n) e) as [vs1 n1] eqn:E1.
  rewrite IH by (intros e' He'; apply H; now right).
  change vs1 with (fst (vs1, n1)). rewrite <- E1.
  apply ensureChild_other, H. now left.
Qed.

(** The item under the id of a logical child after the second loop: the
    item that was there, or a new one, with its attributes in sync. *)
Lemma ensure_child {A} (E : JsMap.t (TreeItem * A)) :
  forall vs n e,
    NoDup (JsMap.keys E) -> In e E ->
    exists m,
      n <= m
      /\ (get vs (_idWithGeneration gen (fst e)) = None ->
          m < snd (fold_left (ensureChild gen) E (vs, n)))
      /\ get (fst (fold_left (ensureChild gen) E (vs, n)))
           (_idWithGeneration gen (fst e))
         = Some (syncAttributes (fst (snd e))
                   (match get vs (_idWithGeneration gen (fst e)) with
                    | Some v0 => v0
                    | None => fst (newChild gen (fst e) (fst (snd e)) m)
                    end)).
Proof.
  induction E as [|e0 E IH]; intros vs n e Hnd Hin; [destruct Hin|].
  cbn [JsMap.keys map] in Hnd. inversion Hnd as [|? ? Hk HndE]; subst.
  cbn [fold_left].
  pose proof (ensureChild_next vs n e0) as [Hn0 Hn1].
  destruct Hin as [->|Hin].
  - exists n. split; [lia|]. split.
    + intros G. specialize (Hn1 G).
      destruct (ensureChild gen (vs, n) e) as [vs1 n1]. cbn [snd] in Hn1.
      pose proof (ensure_next gen E vs1 n1). lia.
    + pose proof (ensureChild_same vs n e) as Hs.
      destruct (ensureChild gen (vs, n) e) as [vs1 n1]. cbn [fst] in Hs.
      rewrite ensure_other; [exact Hs|].
      intros e' He' Eq. apply idWithGeneration_inj in Eq. apply Hk.
      rewrite Eq. now apply in_map.
  - assert (Hne : _idWithGeneration gen (fst e) <> _idWithGeneration gen (fst e0)).
    { intros Eq. apply idWithGeneration_inj in Eq. apply Hk. rewrite <- Eq.
      now apply in_map. }
    pose proof (ensureChild_other vs n e0 _ Hne) as Ho.
    destruct (ensureChild gen (vs, n) e0) as [vs1 n1]. cbn [fst snd] in *.
    destruct (IH vs1 n1 e HndE Hin) as (m & Hm & Hlt & Hget).
    exists m. rewrite Ho in *. split; [lia|]. split; assumption.
Qed.

Lemma recurseChild_other (vs : list TestItem) (n : nat)
    (e : string * (TreeItem * Sync)) (r : string) :
  r <> _idWithGeneration gen (fst e) ->
  get (fst (recurseChild gen (vs, n) e)) r = get vs r.
Proof.
  intros Hr. apply not_eq_sym, String.eqb_neq in Hr. unfold recurseChild.
  destruct (get vs (_idWithGeneration gen (fst e))) as [v|]; [|reflexivity].
  destruct (snd (snd e) (children v) n) as [cs n']. cbn [fst].
  rewrite get_update by reflexivity. now rewrite Hr.
Qed.

Lemma recurseChild_same (vs : list TestItem) (n : nat)
    (e : string * (TreeItem * Sync)) (v : TestItem) :
  get vs (_idWithGeneration gen (fst e)) = Some v ->
  get (fst (recurseChild gen (vs, n) e)) (_idWithGeneration gen (fst e))
  = Some (set_children (fst (snd (snd e) (children v) n)) v).
Proof.
  intros G. unfold recurseChild. rewrite G.
  destruct (snd (snd e) (children v) n) as [cs n']. cbn [fst].
  rewrite get_update by reflexivity. now rewrite String.eqb_refl, G.
Qed.

Lemma recurse_other (E : UChildrenById) (r : string) :
  forall vs n,
    (forall e, In e E -> r <> _idWithGeneration gen (fst e)) ->
    get (fst (fold_left (recurseChild gen) E (vs, n))) r = get vs r.
Proof.
  induction E as [|e E IH]; intros vs n H; cbn [fold_left]; [reflexivity|].
  destruct (recurseChild gen (vs, n) e) as [vs1 n1] eqn:E1.
  rewrite IH by (intros e' He'; apply H; now right).
  change vs1 with (fst (vs1, n1)). rewrite <- E1.
  apply recurseChild_other, H. now left.
Qed.

(** The third loop writes the children of the item and nothing else. *)
Lemma recurse_child (E : UChildrenById) :
  forall vs n e v,
    NoDup (JsMap.keys E) -> In e E ->
    get vs (_idWithGeneration gen (fst e)) = Some v ->
    exists cs,
      get (fst (fold_left (recurseChild gen) E (vs, n)))
        (_idWithGeneration gen (fst e))
      = Some (set_children cs v).
Proof.
  induction E as [|e0 E IH]; intros vs n e v Hnd Hin G; [destruct Hin|].
  cbn [JsMap.keys map] in Hnd. inversion Hnd as [|? ? Hk HndE]; subst.
  cbn [fold_left]. destruct Hin as [->|Hin].
  - pose proof (recurseChild_same vs n e v G) as Hs.
    destruct (recurseChild gen (vs, n) e) as [vs1 n1]. cbn [fst] in Hs.
    eexists. rewrite recurse_other; [exact Hs|].
    intros e' He' Eq. apply idWithGeneration_inj in Eq. apply Hk.
    rewrite Eq. now apply in_map.
  - assert (Hne : _idWithGeneration gen (fst e) <> _idWithGeneration gen (fst e0)).
    { intros Eq. apply idWithGeneration_inj in Eq. apply Hk. rewrite <- Eq.
      now apply in_map. }
    pose proof (recurseChild_other vs n e0 _ Hne) as Ho.
    destruct (recurseChild gen (vs, n) e0) as [vs1 n1]. cbn [fst] in Ho.
    apply (IH vs1 n1 e v HndE Hin). now rewrite Ho.
Qed.

(** The item of a logical child after [_syncSuite]. *)
Lemma syncSuite_child (uItem : TreeItem) (c : list TestItem) (n : nat)
    (k : string) (uChild : TreeItem) :
  In (k, uChild) (uChildrenById uItem) ->
  exists m cs,
    n <= m
    /\ (get c (_idWithGeneration gen k) = None ->
        m < snd (_syncSuite gen uItem c n))
    /\ get (fst (_syncSuite gen uItem c n)) (_idWithGeneration gen k)
       = Some (set_children cs
                 (syncAttributes uChild
                    (match get c (_idWithGeneration gen k) with
                     | Some v0 => v0
                     | None => fst (newChild gen k uChild m)
                     end))).
Proof.
  intros Hin. rewrite syncSuite_unfold, syncLevel_spec.
  set (E := decorate (_syncSuite gen) (uChildrenById uItem)).
  assert (HndE : NoDup (JsMap.keys E)).
  { unfold E. rewrite decorate_keys. apply uChildrenById_NoDup. }
  assert (HinE : In (k, (uChild, _syncSuite gen uChild)) E).
  { unfold E, decorate. apply in_map_iff. now exists (k, uChild). }
  assert (Hhas : JsMap.has E k = true).
  { apply JsMap_has_keys. change k with (fst (k, (uChild, _syncSuite gen uChild))).
    now apply in_map. }
  destruct (ensure_child E (filter (keepChild gen E) c) n _ HndE HinE)
    as (m & Hm & Hlt & Hget).
  cbn [fst snd] in Hlt, Hget. rewrite (get_kept E c k Hhas) in Hlt, Hget.
  pose proof (recurse_next gen E) as Hnext.
  destruct (fold_left (ensureChild gen) E (filter (keepChild gen E) c, n))
    as [vs2 n2]. cbn [fst snd] in *.
  destruct (recurse_child E vs2 n2 _ _ HndE HinE Hget) as [cs Hcs].
  cbn [fst] in Hcs. exists m, cs. split; [exact Hm|]. split; [|exact Hcs].
  intros G. specialize (Hlt G).
  assert (n2 <= snd (fold_left (recurseChild gen) E (vs2, n2))); [|lia].
  apply Hnext. apply Forall_forall. intros e He cs' m'. unfold E, decorate in He.
  apply in_map_iff in He as [[k' u'] [<- _]]. cbn [fst snd].
  apply syncSuite_next.
Qed.

(** The ids after the second loop: those that were there, in their order,
    then the ids of the new items in the order of the logical children. *)
Lemma ensure_ids {A} (E : JsMap.t (TreeItem * A)) :
  forall vs n,
    NoDup (JsMap.keys E) ->
    ids (fst (fold_left (ensureChild gen) E (vs, n)))
    = (ids vs
       ++ map (_idWithGeneration gen)
            (filter (fun k => isNone (get vs (_idWithGeneration gen k)))
               (JsMap.keys E)))%list.
Proof.
  induction E as [|e E IH]; intros vs n Hnd; cbn [fold_left].
  - cbn. now rewrite app_nil_r.
  - cbn [JsMap.keys map] in Hnd. inversion Hnd as [|? ? Hk HndE]; subst.
    cbn [JsMap.keys map filter].
    assert (Hstep :
      ids (fst (ensureChild gen (vs, n) e))
      = (ids vs ++ (if isNone (get vs (_idWithGeneration gen (fst e)))
                    then [_idWithGeneration gen (fst e)] else []))%list).
    { unfold ensureChild.
      destruct (get vs (_idWithGeneration gen (fst e))) as [v0|] eqn:G; cbn [isNone].
      - cbn [fst]. rewrite update_ids by apply syncAttributes_id.
        now rewrite app_nil_r.
      - pose proof (newChild_id gen (fst e) (fst (snd e)) n) as Hid.
        destruct (newChild gen (fst e) (fst (snd e)) n) as [v n']. cbn [fst] in *.
        rewrite update_ids by apply syncAttributes_id.
        rewrite add_absent by (rewrite Hid; now apply get_None_iff).
        unfold ids. rewrite map_app. cbn [map]. now rewrite Hid. }
    destruct (ensureChild gen (vs, n) e) as [vs1 n1]. cbn [fst] in Hstep.
    rewrite IH by exact HndE. rewrite Hstep, <- app_assoc. f_equal.
    assert (Hext : filter (fun k => isNone (get vs1 (_idWithGeneration gen k)))
                     (JsMap.keys E)
                   = filter (fun k => isNone (get vs (_idWithGeneration gen k)))
                       (JsMap.keys E)).
    { apply filter_ext_in. intros k' Hk'. apply isNone_get. rewrite Hstep.
      rewrite in_app_iff. split; [|auto]. intros [H|H]; [exact H|].
      destruct (isNone _); [|destruct H]. destruct H as [Eq|[]].
      apply idWithGeneration_inj in Eq. subst k'. now destruct Hk. }
    fold (JsMap.keys E). rewrite Hext.
    destruct (isNone (get vs (_idWithGeneration gen (fst e)))); reflexivity.
Qed.

Lemma recurse_ids (E : UChildrenById) :
  forall vs n, ids (fst (fold_left (recurseChild gen) E (vs, n))) = ids vs.
Proof.
  induction E as [|e E IH]; intros vs n; cbn [fold_left]; [reflexivity|].
  assert (Hstep : ids (fst (recurseChild gen (vs, n) e)) = ids vs).
  { unfold recurseChild.
    destruct (get vs (_idWithGeneration gen (fst e))) as [v|]; [|reflexivity].
    destruct (snd (snd e) (children v) n) as [cs n']. cbn [fst].
    now apply update_ids. }
  destruct (recurseChild gen (vs, n) e) as [vs1 n1]. cbn [fst] in Hstep.
  now rewrite IH.
Qed.

End ChildFacts.

(** ** What the indices hold *)

Section IndexFacts.
Context {P : Platform}.

Lemma holdsTest_spec (v : TestItem) :
  holdsTest v = true <->
  exists u T, testTreeItemSymbol v = Some u
              /\ isCaseOrTest (u_kind u) = true /\ u_test u = Some T.
Proof.
  unfold holdsTest. destruct (testTreeItemSymbol v) as [u|].
  - rewrite andb_true_iff. split.
    + intros [Hk Ht]. destruct (u_test u) as [T|] eqn:ET; [|discriminate].
      exists u, T. refine (conj eq_refl (conj Hk ET)).
    + intros (u' & T & [= <-] & Hk & Ht). rewrite Ht. auto.
  - split; [discriminate|]. intros (u & T & H & _). discriminate.
Qed.

Lemma IndexSound_incl (l l' : list TestItem) ix :
  (forall v, In v l -> In v l') -> IndexSound l ix -> IndexSound l' ix.
Proof.
  intros Hl [H1 H2]. split; intros k v Hin.
  - destruct (H1 k v Hin) as [Hv H]. split; auto.
  - destruct (H2 k v Hin) as [Hv H]. split; auto.
Qed.

Lemma visit_sound (item : TestItem) :
  forall l ix, IndexSound l ix ->
    IndexSound (l ++ nodes item)%list (visit item ix).
Proof.
  induction item as [item IH] using TestItem_children_ind. intros l ix Hix.
  rewrite visit_unfold, nodes_unfold. cbn zeta.
  set (byId := match testTreeItemSymbol item with Some _ => _ | None => _ end).
  assert (H0 : IndexSound (l ++ [item])%list (byId, snd ix)).
  { pose proof (IndexSound_incl l (l ++ [item])%list ix
                  (fun v H => in_or_app _ _ _ (or_introl H)) Hix) as [H1 H2].
    split; [|exact H2]. cbn [fst]. unfold byId.
    destruct (testTreeItemSymbol item) as [u|] eqn:Eu; [|exact H1].
    destruct (isCaseOrTest (u_kind u)) eqn:Ek; [|exact H1].
    destruct (u_test u) as [T|] eqn:ET; [|exact H1].
    intros k v Hin. apply JsMap_set_In in Hin as [[= -> ->]|Hin]; [|now apply H1].
    split; [apply in_or_app; right; now left|]. exists u, T. auto. }
  assert (H1 : forall ch l0 a,
             Forall (fun i => forall l ix, IndexSound l ix ->
                                IndexSound (l ++ nodes i)%list (visit i ix)) ch ->
             IndexSound l0 a ->
             IndexSound (l0 ++ allNodes ch)%list
               (fold_left (fun ix child => visit child ix) ch a)).
  { clear. intros ch l0 a Hch. revert l0 a.
    induction Hch as [|x ch Hx Hch IHch]; intros l0 a Ha; cbn [fold_left].
    - unfold allNodes. cbn. now rewrite app_nil_r.
    - unfold allNodes. cbn [flat_map]. rewrite app_assoc.
      apply IHch, Hx, Ha. }
  specialize (H1 (children item) _ _ IH H0).
  set (r := fold_left _ (children item) (byId, snd ix)) in *.
  rewrite <- app_assoc in H1. cbn [app] in H1.
  destruct (uri item) as [u|] eqn:Eu; [|exact H1].
  destruct (range item) eqn:Er; [exact H1|].
  destruct H1 as [A1 A2]. split; [exact A1|]. cbn [snd].
  intros k v Hin. apply JsMap_set_In in Hin as [[= -> ->]|Hin]; [|now apply A2].
  split; [apply in_or_app; right; now left|]. exists u. auto.
Qed.

(** Keys only come into the indices. *)
Lemma has_set {V} (m : JsMap.t V) (k k' : string) (x : V) :
  JsMap.has (JsMap.set m k x) k' = String.eqb k k' || JsMap.has m k'.
Proof.
  unfold JsMap.has. rewrite JsMap_get_set.
  now destruct (String.eqb k k').
Qed.

Lemma Grown_refl ix : Grown ix ix.
Proof. split; auto. Qed.

Lemma Grown_trans a b c : Grown a b -> Grown b c -> Grown a c.
Proof. intros [A1 A2] [B1 B2]. split; auto. Qed.

Lemma Covered_grown l a b : Grown a b -> Covered l a -> Covered l b.
Proof.
  intros [G1 G2] [C1 C2]. split.
  - intros v u T Hv Hu Hk HT. apply G1. now apply (C1 v u T).
  - intros v u Hv Hu Hr. apply G2. now apply (C2 v u).
Qed.

Lemma Covered_app l l' ix : Covered l ix -> Covered l' ix -> Covered (l ++ l')%list ix.
Proof.
  intros [A1 A2] [B1 B2]. split.
  - intros v u T Hv. apply in_app_or in Hv as [Hv|Hv]; [now apply A1| now apply B1].
  - intros v u Hv. apply in_app_or in Hv as [Hv|Hv]; [now apply A2| now apply B2].
Qed.

Lemma visit_covers (item : TestItem) :
  forall ix, Grown ix (visit item ix) /\ Covered (nodes item) (visit item ix).
Proof.
  induction item as [item IH] using TestItem_children_ind. intros ix.
  rewrite visit_unfold, nodes_unfold. cbn zeta.
  set (byId := match testTreeItemSymbol item with Some _ => _ | None => _ end).
  assert (G0 : Grown ix (byId, snd ix)).
  { split; [|auto]. cbn [fst]. intros k Hk. unfold byId.
    destruct (testTreeItemSymbol item) as [u|]; [|exact Hk].
    destruct (isCaseOrTest (u_kind u)); [|exact Hk].
    destruct (u_test u); [|exact Hk].
    rewrite has_set, Hk. apply orb_true_r. }
  assert (C0 : forall v u T, In v [item] -> testTreeItemSymbol v = Some u ->
                 isCaseOrTest (u_kind u) = true -> u_test u = Some T ->
                 JsMap.has byId (test_id T) = true).
  { intros v u T [<-|[]] Hu Hk HT. unfold byId. rewrite Hu, Hk, HT.
    rewrite has_set, String.eqb_refl. reflexivity. }
  assert (H1 : forall ch a,
             Forall (fun i => forall ix, Grown ix (visit i ix)
                                         /\ Covered (nodes i) (visit i ix)) ch ->
             Grown a (fold_left (fun ix child => visit child ix) ch a)
             /\ Covered (allNodes ch)
                  (fold_left (fun ix child => visit child ix) ch a)).
  { clear. intros ch a Hch. revert a.
    induction Hch as [|x ch Hx Hch IHch]; intros a; cbn [fold_left].
    - split; [apply Grown_refl|]. split; intros v u; intros; contradiction.
    - destruct (Hx a) as [Gx Cx]. destruct (IHch (visit x a)) as [Gr Cr].
      split; [exact (Grown_trans _ _ _ Gx Gr)|].
      unfold allNodes. cbn [flat_map]. apply Covered_app; [|exact Cr].
      exact (Covered_grown _ _ _ Gr Cx). }
  destruct (H1 (children item) (byId, snd ix) IH) as [G1 C1].
  set (r := fold_left _ (children item) (byId, snd ix)) in *.
  assert (Gr : Grown ix r) by exact (Grown_trans _ _ _ G0 G1).
  assert (Cid : forall v u T, In v (item :: allNodes (children item)) ->
                  testTreeItemSymbol v = Some u ->
                  isCaseOrTest (u_kind u) = true -> u_test u = Some T ->
                  JsMap.has (fst r) (test_id T) = true).
  { intros v u T [<-|Hv] Hu Hk HT.
    - apply (proj1 G1). cbn [fst]. apply (C0 item u T); auto. now left.
    - now apply (proj1 C1 v u T). }
  destruct (uri item) as [u0|] eqn:Eu.
  2: { split; [exact Gr|]. split; [exact Cid|].
       intros v u [<-|Hv] Hu Hr; [congruence| now apply (proj2 C1 v u)]. }
  destruct (range item) eqn:Er.
  { split; [exact Gr|]. split; [exact Cid|].
    intros v u [<-|Hv] Hu Hr; [congruence| now apply (proj2 C1 v u)]. }
  split.
  - split; cbn [fst snd]; [apply Gr|]. intros k Hk. rewrite has_set.
    rewrite (proj2 Gr k Hk). apply orb_true_r.
  - split; cbn [fst snd]; [exact Cid|].
    intros v u [<-|Hv] Hu Hr; rewrite has_set.
    + assert (u = u0) by congruence. subst u. now rewrite String.eqb_refl.
    + rewrite (proj2 C1 v u Hv Hu Hr). apply orb_true_r.
Qed.

Lemma has_get {V} (m : JsMap.t V) (k : string) :
  JsMap.has m k = true -> exists v, JsMap.get m k = Some v.
Proof. unfold JsMap.has. destruct (JsMap.get m k); [eauto|discriminate]. Qed.

End IndexFacts.

Section IndexTree.
Context {P : Platform}.

(** The nodes that [_indexTree] visits. *)
Lemma rootNodes_In (t : TestTree) (L : list RootItem) (v : TestItem) :
  In v (flat_map (fun r => match rootObject t r with
                           | Some item => nodes item
                           | None => []
                           end) L)
  <-> exists r item, In r L /\ rootObject t r = Some item /\ In v (nodes item).
Proof.
  rewrite in_flat_map. split.
  - intros [r [Hr Hv]]. destruct (rootObject t r) as [item|] eqn:Ho; [|destruct Hv].
    eauto.
  - intros (r & item & Hr & Ho & Hv). exists r. rewrite Ho. auto.
Qed.

Lemma indexTree_fold (t : TestTree) (L : list RootItem) :
  forall l0 a,
    IndexSound l0 a ->
    let b := fold_left (fun ix r => match rootObject t r with
                                    | Some item => visit item ix
                                    | None => ix
                                    end) L a in
    IndexSound
      (l0 ++ flat_map (fun r => match rootObject t r with
                                | Some item => nodes item
                                | None => []
                                end) L)%list b
    /\ Grown a b
    /\ Covered (flat_map (fun r => match rootObject t r with
                                   | Some item => nodes item
                                   | None => []
                                   end) L) b.
Proof.
  induction L as [|r L IH]; intros l0 a Ha; cbn [fold_left flat_map].
  - cbn zeta. rewrite app_nil_r. split; [exact Ha|]. split; [apply Grown_refl|].
    split; intros v u; intros; contradiction.
  - cbn zeta. rewrite app_assoc.
    destruct (rootObject t r) as [item|].
    + destruct (IH _ _ (visit_sound item l0 a Ha)) as (S1 & G1 & C1).
      destruct (visit_covers item a) as [G0 C0].
      split; [exact S1|]. split; [exact (Grown_trans _ _ _ G0 G1)|].
      apply Covered_app; [|exact C1]. exact (Covered_grown _ _ _ G1 C0).
    + rewrite app_nil_r. destruct (IH _ _ Ha) as (S1 & G1 & C1). auto.
Qed.

Lemma indexTree_spec (t : TestTree) :
  let l := flat_map (fun r => match rootObject t r with
                              | Some item => nodes item
                              | None => []
                              end) (JsMap.values (_rootItems t)) in
  IndexSound l (_testItemByTestId (_indexTree t), _testItemByFile (_indexTree t))
  /\ Covered l (_testItemByTestId (_indexTree t), _testItemByFile (_indexTree t)).
Proof.
  cbn zeta. unfold _indexTree.
  destruct (indexTree_fold t (JsMap.values (_rootItems t)) []
              (JsMap.empty, JsMap.empty)) as (S1 & _ & C1).
  { split; intros k v []. }
  cbn zeta in S1, C1. cbn [app] in S1.
  destruct (fold_left _ (JsMap.values (_rootItems t)) (JsMap.empty, JsMap.empty))
    as [byId byFile].
  fields. auto.
Qed.

End IndexTree.

(** ** [collectTestsInside], [finishedLoading] and the registration of roots *)

Section EntryPoints.
Context {P : Platform}.

Import TestItemCollection.

Lemma collectTestsInside_unfold (rootItem : TestItem) :
  collectTestsInside rootItem
  = if holdsTest rootItem then [rootItem]
    else flat_map collectTestsInside (children rootItem).
Proof. now destruct rootItem. Qed.

Lemma collectTestsInside_sound (rootItem : TestItem) :
  forall v, In v (collectTestsInside rootItem) ->
    holdsTest v = true /\ In v (nodes rootItem).
Proof.
  induction rootItem as [i IH] using TestItem_children_ind. intros v Hv.
  rewrite collectTestsInside_unfold in Hv. rewrite nodes_unfold.
  destruct (holdsTest i) eqn:Hi.
  - destruct Hv as [<-|[]]. split; [exact Hi| now left].
  - apply in_flat_map in Hv as (c & Hc & Hv). rewrite Forall_forall in IH.
    destruct (IH c Hc v Hv) as [Ht Hn]. split; [exact Ht|]. right.
    apply in_flat_map. eauto.
Qed.

Lemma collectTestsInside_covers (rootItem : TestItem) :
  forall v, In v (nodes rootItem) -> holdsTest v = true ->
    exists w, In w (collectTestsInside rootItem) /\ In v (nodes w).
Proof.
  induction rootItem as [i IH] using TestItem_children_ind. intros v Hv Ht.
  rewrite collectTestsInside_unfold.
  destruct (holdsTest i) eqn:Hi.
  - exists i. split; [now left| exact Hv].
  - rewrite nodes_unfold in Hv. destruct Hv as [<-|Hv]; [congruence|].
    apply in_flat_map in Hv as (c & Hc & Hv). rewrite Forall_forall in IH.
    destruct (IH c Hc v Hv Ht) as (w & Hw & Hvw). exists w. split; [|exact Hvw].
    apply in_flat_map. eauto.
Qed.

Lemma finishedLoading_items (t : TestTree) :
  items (finishedLoading t) = delete (items t) (id (_loadingItem t)).
Proof.
  unfold finishedLoading.
  destruct (get (items t) (id (_loadingItem t))) eqn:G; [reflexivity|].
  symmetry. apply delete_absent. now apply get_None_iff.
Qed.

Lemma finishedLoading_fields (t : TestTree) :
  _testGeneration (finishedLoading t) = _testGeneration t
  /\ _rootItems (finishedLoading t) = _rootItems t
  /\ _loadingItem (finishedLoading t) = _loadingItem t
  /\ _testItemByTestId (finishedLoading t) = _testItemByTestId t
  /\ _testItemByFile (finishedLoading t) = _testItemByFile t
  /\ nextObj (finishedLoading t) = nextObj t.
Proof.
  unfold finishedLoading.
  destruct (get (items t) (id (_loadingItem t))); repeat split; reflexivity.
Qed.


End EntryPoints.

(** ** Every logical node has its item *)

Section Complete.
Context {P : Platform}.
Variable gen : string.

Import TestItemCollection.






End Complete.

(** ** The loading item during the passes *)

Section Loading.
Context {P : Platform}.
Variable guid : string.
Hypothesis guid_hex : isHex guid = true.
Let gen := guid ++ ":".

Import TestItemCollection.

Lemma get_nonGeneration (c c' : list TestItem) (k : string) :
  filter (nonGeneration gen) c' = filter (nonGeneration gen) c ->
  startsWith k gen = false -> get c' k = get c k.
Proof.
  intros E Hk.
  pose proof (get_filter_id (fun s => negb (startsWith s gen)) c k) as H.
  pose proof (get_filter_id (fun s => negb (startsWith s gen)) c' k) as H'.
  cbn beta in H, H'. rewrite Hk in H, H'. cbn [negb] in H, H'.
  rewrite <- H, <- H'. unfold nonGeneration in E. now rewrite E.
Qed.

Lemma syncScope_get (uItem : TreeItem) (dis : list TestProject)
    (errs : ErrorsByModel) (c : list TestItem) (n : nat) (k : string) :
  startsWith k gen = false -> startsWith k "[disabled] " = false ->
  startsWith k "[error] " = false ->
  get (fst (syncScope gen uItem dis errs c n)) k = get c k.
Proof.
  intros Hg Hd He. unfold syncScope.
  assert (E1 : get (fst (_syncSuite gen uItem c n)) k = get c k).
  { apply get_nonGeneration; [|exact Hg].
    rewrite syncSuite_unfold. apply nonGeneration_syncLevel. }
  destruct (_syncSuite gen uItem c n) as [c1 n1]. cbn [fst] in E1.
  destruct (syncEntries_spec disabledProjectId newDisabledItem "[disabled] "
              newDisabledItem_id newDisabledItem_next disabledProjectId_prefix
              (sortedProjects dis) c1 n1) as (_ & G2 & _).
  rewrite <- syncDisabledProjects_entries in G2.
  destruct (_syncDisabledProjects dis c1 n1) as [c2 n2]. cbn [fst] in G2.
  destruct (syncEntries_spec errorIdOf newErrorItemOf "[error] "
              (fun e m => newErrorItem_id (fst e) (snd e) m)
              (fun e m => newErrorItem_next (fst e) (snd e) m)
              (fun e => errorId_prefix (fst e) (snd e))
              (errorEntries errs) c2 n2) as (_ & G3 & _).
  rewrite <- syncConfigErrors_entries in G3.
  rewrite (G3 k He), (G2 k Hd). exact E1.
Qed.

Lemma get_updateObj (o : nat) (f : TestItem -> TestItem) (l : list TestItem)
    (k : string) :
  (forall i, id (f i) = id i) ->
  (forall x, In x l -> obj x = o -> id x <> k) ->
  get (updateObj o f l) k = get l k.
Proof.
  intros Hf. unfold updateObj.
  induction l as [|x l IH]; intros H; cbn [map get]; [reflexivity|].
  assert (IH' : get (map (fun i => if Nat.eqb (obj i) o then f i else i) l) k
                = get l k).
  { apply IH. intros y Hy. apply H. now right. }
  destruct (Nat.eqb_spec (obj x) o) as [Eo|_]; [|now rewrite IH'].
  rewrite Hf, IH'.
  destruct (String.eqb_spec (id x) k) as [E|_]; [|reflexivity].
  destruct (H x (or_introl eq_refl) Eo E).
Qed.

Lemma createRoot_get (folders : list Uri) (f : Uri) (t : TestTree) (k : string) :
  startsWith k (_testGeneration t) = false ->
  get (items (snd (_createRootItemIfNeeded folders f t))) k = get (items t) k.
Proof.
  intros Hk. unfold _createRootItemIfNeeded.
  destruct (JsMap.get (_rootItems t) (uriToPath f)); [reflexivity|].
  destruct (Nat.eqb _ 1); [reflexivity|].
  unfold createTestItem, setRoot, setItems, setNextObj. fields.
  rewrite get_add. cbn [id].
  destruct (String.eqb_spec (_idWithGeneration (_testGeneration t) (uriToPath f)) k)
    as [E|_]; [|reflexivity].
  rewrite <- E, startsWith_idWithGeneration in Hk. discriminate.
Qed.

Lemma loading_apart (p : string) : _idWithGeneration gen p <> "loading".
Proof.
  intros E. pose proof (loading_not_generation guid guid_hex) as H.
  fold gen in H. rewrite <- E, startsWith_idWithGeneration in H. discriminate.
Qed.

(** One turn of the first loop of [updateReturned] leaves the loading item where
    it is. *)
Lemma updateFolder_loading (folders : list Uri) (models : list TestModel)
    (t : TestTree) (f : Uri) :
  In f folders -> WfTree folders gen t ->
  get (items (updateFolderReturned folders models t f)) "loading" = get (items t) "loading".
Proof.
  intros Hf W. pose proof (loading_not_generation guid guid_hex) as Hl.
  fold gen in Hl. rewrite updateFolder_unfold.
  destruct (Nat.eq_dec (List.length folders) 1) as [one|many].
  - destruct (scopeEmpty models (uriToPath f)).
    + unfold _deleteRootItem. rewrite one. cbn [Nat.eqb].
      rewrite replace_NoDup by (apply ids_filter_NoDup, (wf_items _ _ _ W)).
      unfold deleteRoot, setItems. fields.
      now rewrite (get_filter_id
                     (fun s => String.eqb s "loading" || String.eqb s "disabled")).
    + cbn zeta.
      destruct (createRoot_single guid folders one t f Hf W) as (W1 & _ & I1 & o & u & Hr).
      rewrite Hr.
      rewrite flat_syncScope by (apply (single_noNested guid folders one), W1).
      fields. rewrite (wf_gen _ _ _ W1), syncScope_get by (exact Hl || reflexivity).
      now rewrite I1.
  - destruct (scopeEmpty models (uriToPath f)).
    + unfold _deleteRootItem. rewrite (many_false folders many), (wf_gen _ _ _ W).
      unfold deleteRoot, setItems. fields. rewrite get_delete.
      destruct (String.eqb_spec (_idWithGeneration gen (uriToPath f)) "loading")
        as [E|_]; [now destruct (loading_apart _ E)|reflexivity].
    + cbn zeta.
      destruct (createRoot_many guid folders many t f Hf W) as (W1 & G1 & _).
      pose proof (createRoot_get folders f t "loading") as I1.
      rewrite (wf_gen _ _ _ W) in I1. specialize (I1 Hl).
      set (r := fst (_createRootItemIfNeeded folders f t)) in *.
      set (t1 := snd (_createRootItemIfNeeded folders f t)) in *.
      destruct (registered_item guid folders many t1 _ r W1 G1)
        as (i & -> & Hi & Hid & _).
      destruct (wf_multi _ _ _ W1 many) as (Hnd & _).
      rewrite (nested_syncScope (obj i) i _ _ _ t1 Hnd Hi eq_refl). fields.
      rewrite get_updateObj; [exact I1|reflexivity|].
      intros x Hx Ho E.
      rewrite (NoDup_map_eq obj (items t1) x i Hnd Hx Hi Ho) in E.
      rewrite Hid in E. now apply (loading_apart (uriToPath f)).
Qed.

Lemma folders_loop_loading (folders l : list Uri) (models : list TestModel) :
  forall t, (forall f, In f l -> In f folders) -> WfTree folders gen t ->
    get (items (fold_left (updateFolderReturned folders models) l t)) "loading"
    = get (items t) "loading".
Proof.
  induction l as [|f l IH]; intros t Hl W; cbn [fold_left]; [reflexivity|].
  assert (Hf : In f folders) by (apply Hl; now left).
  destruct (updateFolder_step guid guid_hex models folders t f Hf W) as (W1 & _).
  rewrite IH; [now apply updateFolder_loading| |exact W1].
  intros f' Hf'. apply Hl. now right.
Qed.

Lemma pass_loading (workspaceFolders : WorkspaceFolders) (models : list TestModel)
    (t t' : TestTree) :
  WfTree (foldersOf workspaceFolders) gen t ->
  updateReturned workspaceFolders models t = Some t' ->
  get (items t') "loading" = get (items t) "loading".
Proof.
  intros W Hu. destruct workspaceFolders as [folders|]; cbn [updateReturned foldersOf] in *.
  - injection Hu as <-.
    destruct (folders_loop guid guid_hex models folders folders t []
                (fun f H => H) W) as [W1 _]; [intros q []|].
    rewrite removeStale_active by apply (wf_active _ _ _ W1).
    destruct (indexTree_fields (fold_left (updateFolderReturned folders models) folders t))
      as (_ & _ & E & _).
    rewrite E. now apply folders_loop_loading.
  - destruct (JsMap.keys (_rootItems t)); [|discriminate]. injection Hu as <-.
    destruct (indexTree_fields t) as (_ & _ & E & _). now rewrite E.
Qed.

End Loading.

(** ** Deleting a root twice *)

Section DeleteTwice.

Import TestItemCollection.

Lemma filter_twice {A} (f : A -> bool) (l : list A) :
  filter f (filter f l) = filter f l.
Proof.
  induction l as [|x l IH]; cbn; [reflexivity|].
  destruct (f x) eqn:E; cbn; [rewrite E; f_equal|]; exact IH.
Qed.

Lemma fold_add_NoDup (l acc : list TestItem) :
  NoDup (ids acc) -> NoDup (ids (fold_left add l acc)).
Proof.
  revert acc. induction l as [|i l IH]; intros acc H; cbn; [exact H|].
  apply IH, add_NoDup, H.
Qed.

Lemma fold_add_In (l acc : list TestItem) (x : TestItem) :
  In x (fold_left add l acc) -> In x acc \/ In x l.
Proof.
  revert acc. induction l as [|i l IH]; intros acc H; cbn in *; [auto|].
  apply IH in H as [H|H]; [|auto]. apply add_In in H as [->|H]; auto.
Qed.

Lemma replace_filter_twice (f : TestItem -> bool) (l : list TestItem) :
  replace (filter f (replace (filter f l))) = replace (filter f l).
Proof.
  assert (Hnd : NoDup (ids (replace (filter f l)))).
  { apply fold_add_NoDup. constructor. }
  rewrite (filter_all _ f (replace (filter f l))).
  - now apply replace_NoDup.
  - intros x Hx. apply fold_add_In in Hx as [[]|Hx].
    now apply filter_In in Hx.
Qed.

(** Writing to the controller the items that it holds evicts nothing. *)
Lemma setItems_held (new : list TestItem) (t : TestTree) :
  items t = new -> setItems new t = t.
Proof. intros <-. apply setItems_same. Qed.

Context {P : Platform}.

Lemma deleteRoot_twice (fsPath : string) (t : TestTree) :
  deleteRoot fsPath (deleteRoot fsPath t) = deleteRoot fsPath t.
Proof.
  unfold deleteRoot. fields. unfold JsMap.delete. now rewrite !filter_twice.
Qed.

Lemma deleteRootItem_twice (folders : list Uri) (fsPath : string) (t : TestTree) :
  _deleteRootItem folders fsPath (_deleteRootItem folders fsPath t)
  = _deleteRootItem folders fsPath t.
Proof.
  unfold _deleteRootItem.
  destruct (Nat.eqb (List.length folders) 1).
  - rewrite setItems_held; [apply deleteRoot_twice|].
    unfold deleteRoot, setItems. fields. symmetry. apply replace_filter_twice.
  - rewrite setItems_held; [apply deleteRoot_twice|].
    unfold deleteRoot, setItems. fields. unfold delete. symmetry. apply filter_twice.
Qed.

End DeleteTwice.

(** ** Attribute sync: the range *)

Section RangeSync.

Lemma syncAttributes_without_location (uChild : TreeItem) (vsChild : TestItem) :
  line (u_location uChild) = 0%Z -> column (u_location uChild) = 0%Z ->
  range (syncAttributes uChild vsChild) = range vsChild.
Proof.
  intros Hl Hc. unfold syncAttributes. rewrite Hl, Hc. cbn.
  destruct (isCase (u_kind uChild) && _); reflexivity.
Qed.

Lemma syncAttributes_with_location (uChild : TreeItem) (vsChild : TestItem) :
  truthy (jsOr (line (u_location uChild)) (column (u_location uChild))) = true ->
  match range vsChild with
  | None => True
  | Some r => (pos_line (start r) + 1)%Z <> line (u_location uChild)
  end ->
  range (syncAttributes uChild vsChild) =
  Some (Range4 (Z.max (line (u_location uChild) - 1) 0) 0
          (line (u_location uChild)) 0).
Proof.
  intros Hloc Hr. unfold syncAttributes. rewrite Hloc.
  assert (E : forall ts, range (set_tags ts (set_testTreeItemSymbol (Some uChild) vsChild))
                         = range vsChild) by reflexivity.
  destruct (isCase (u_kind uChild) && _); cbn [andb];
    change (range (set_testTreeItemSymbol (Some uChild) vsChild)) with (range vsChild);
    try rewrite E;
    (destruct (range vsChild) as [r|]; [|reflexivity]);
    apply Z.eqb_neq in Hr; rewrite Hr; reflexivity.
Qed.

End RangeSync.

(** C1 (the defect): a test case is synced with its location at line 5 and
    gets the one-line range that starts at line 4; on the next pass the
    location is gone (line and column are both 0), and the range is still
    there: the branch of [_syncSuite] that assigns [undefined] is guarded by
    [hasLocation && !vsChild.range], which the first branch has already
    taken. *)
Theorem syncSuite_range_not_cleared `{P : Platform} :
  let pass1 := _syncSuite "0a1b:" (Sample.fileWith [Sample.caseAt 5 3]) [] 1 in
  let pass2 := _syncSuite "0a1b:" (Sample.fileWith [Sample.caseAt 0 0]) (fst pass1) (snd pass1) in
  map range (fst pass1) = [Some (Range4 4 0 5 0)] /\
  map range (fst pass2) = [Some (Range4 4 0 5 0)].
Proof. split; reflexivity. Qed.

(** C3 (as stated it fails), in both directions: with a repeated tag on the
    logical side the lengths differ and the answer is [false] although the
    two sets of tags are the same; with a repeated tag on the side of the
    test item the lengths agree and the answer is [true] although the sets
    differ. *)
Lemma areEqualTags_not_set_equality :
  (areEqualTags ["smoke"; "smoke"] [mkTestTag "smoke"] = false
   /\ (forall x, In x ["smoke"; "smoke"] <-> In x (map tag_id [mkTestTag "smoke"])))
  /\ (areEqualTags ["a"; "b"] [mkTestTag "a"; mkTestTag "a"] = true
      /\ ~ (forall x, In x ["a"; "b"] <-> In x (map tag_id [mkTestTag "a"; mkTestTag "a"]))).
Proof.
  split; split; try reflexivity.
  - intros x. cbn. tauto.
  - intros H. destruct (proj1 (H "b")) as [E|[E|[]]]; [cbn; auto| |]; discriminate E.
Qed.

(** C3 (amended): on tag lists without repetitions [areEqualTags] decides
    equality of the two sets of tags, whatever their order; and a test item
    that carries the tags [a; b] keeps them untouched when the logical test
    case arrives with [b; a]. *)
Theorem areEqualTags_set_equality (uTags : list string) (vsTags : list TestTag) :
  NoDup uTags -> NoDup (map tag_id vsTags) ->
  (areEqualTags uTags vsTags = true <->
   (forall x, In x uTags <-> In x (map tag_id vsTags)))
  /\ (forall (a b : string) (uChild : TreeItem) (vsChild : TestItem),
        u_kind uChild = case -> u_tags uChild = [b; a] ->
        tags vsChild = [mkTestTag a; mkTestTag b] ->
        tags (syncAttributes uChild vsChild) = tags vsChild).
Proof.
  intros Hu Hv. split.
  - rewrite areEqualTags_spec. split.
    + intros [Hlen Hincl] x. split; [|apply Hincl].
      apply NoDup_length_incl; [exact Hv| |exact Hincl].
      rewrite length_map. lia.
    + intros H. split; [|intros x; apply H].
      rewrite <- (length_map tag_id vsTags).
      apply Nat.le_antisymm; apply NoDup_incl_length; try assumption;
        intros x; apply H.
  - intros a b uChild vsChild Hk Hut Hvt.
    assert (E : areEqualTags (u_tags uChild) (tags vsChild) = true).
    { rewrite Hut, Hvt. apply areEqualTags_spec. cbn. split; [reflexivity|].
      intuition. }
    unfold syncAttributes. cbn. rewrite Hk, E. cbn.
    repeat match goal with |- context [if ?c then _ else _] => destruct c end;
      reflexivity.
Qed.

Lemma areEqualTags_set_equality_witness :
  (areEqualTags ["a"; "b"] [mkTestTag "b"; mkTestTag "a"] = true <->
   (forall x, In x ["a"; "b"] <-> In x (map tag_id [mkTestTag "b"; mkTestTag "a"]))).
Proof.
  apply (areEqualTags_set_equality ["a"; "b"] [mkTestTag "b"; mkTestTag "a"]).
  - repeat constructor; cbn; intuition discriminate.
  - repeat constructor; cbn; intuition discriminate.
Defined.

(** ** The reverse indices after [startedLoading] *)

(** C7: right after [startedLoading] both reverse indices are empty, so
    [testItemForTest] and [testItemForFile] find nothing, whatever the tree
    held before and whether or not a workspace folder is open. *)
Theorem startedLoading_isolates_generation
    (workspaceFolders : WorkspaceFolders) (guid : string) (t : TestTree)
    (test0 : TestCase) (file0 : string) :
  testItemForTest (startedLoading workspaceFolders guid t) test0 = None /\
  testItemForFile (startedLoading workspaceFolders guid t) file0 = None.
Proof. destruct workspaceFolders as [[|f fs]|]; split; reflexivity. Qed.

(** ** Deleting the root of a single-folder workspace *)

Section DeleteRoot.

Lemma items_deleteRoot (fsPath : string) (t : TestTree) :
  items (deleteRoot fsPath t) = items t.
Proof. reflexivity. Qed.

Lemma items_setItems (new : list TestItem) (t : TestTree) :
  items (setItems new t) = new.
Proof. reflexivity. Qed.

Lemma synthetic_not_kept (s : string) :
  startsWith s "[disabled] " = true \/ startsWith s "[error] " = true ->
  String.eqb s "loading" || String.eqb s "disabled" = false.
Proof.
  intros H.
  assert (Hs : exists s', s = String "[" s').
  { destruct H as [H|H]; apply prefix_head in H; exact H. }
  destruct Hs as [s' ->]. reflexivity.
Qed.

End DeleteRoot.

(** C10: with exactly one workspace folder, [_deleteRootItem] leaves in the
    controller's collection exactly the items whose id is ["loading"] or
    ["disabled"], in their order; every other item, and so every
    ["[disabled] ..."] and ["[error] ..."] entry, is gone.  The collection is
    keyed by id, hence the ids of its items are distinct. *)
Theorem deleteRootItem_single_folder
    (folder0 : Uri) (fsPath : string) (t : TestTree) :
  NoDup (map id (items t)) ->
  items (_deleteRootItem [folder0] fsPath t) =
    filter (fun i => String.eqb (id i) "loading" || String.eqb (id i) "disabled")
      (items t)
  /\ (forall i, In i (items t) ->
        startsWith (id i) "[disabled] " = true \/ startsWith (id i) "[error] " = true ->
        ~ In i (items (_deleteRootItem [folder0] fsPath t))).
Proof.
  intros Hnd.
  assert (E : items (_deleteRootItem [folder0] fsPath t) =
              filter (fun i => String.eqb (id i) "loading" || String.eqb (id i) "disabled")
                (items t)).
  { unfold _deleteRootItem. cbn [List.length Nat.eqb].
    rewrite items_deleteRoot, items_setItems.
    apply replace_NoDup, ids_filter_NoDup, Hnd. }
  split; [exact E|].
  intros i _ Hsyn Hin. rewrite E in Hin. apply filter_In in Hin as [_ Hkeep].
  rewrite (synthetic_not_kept _ Hsyn) in Hkeep. discriminate.
Qed.

Lemma deleteRootItem_single_folder_witness :
  NoDup (map id (items Sample.afterWs))
  /\ items (_deleteRootItem ["/ws"] "/ws" Sample.afterWs) =
     filter (fun i => String.eqb (id i) "loading" || String.eqb (id i) "disabled")
       (items Sample.afterWs).
Proof.
  assert (H : NoDup (map id (items Sample.afterWs))).
  { vm_compute. constructor; [intros [H|[H|[]]]; discriminate|].
    constructor; [intros [H|[]]; discriminate|].
    constructor; [intros []|constructor]. }
  split; [exact H|].
  exact (proj1 (deleteRootItem_single_folder "/ws" "/ws"
                  Sample.afterWs H)).
Defined.

(** ** Which ids carry the generation *)

Section Prefixes.
Context {P : Platform}.

Lemma synthetic_not_generation (guid s : string) :
  isHex guid = true -> synthetic s = true -> startsWith s (guid ++ ":") = false.
Proof.
  intros Hhex Hs. unfold synthetic in Hs.
  apply orb_prop in Hs as [Hs|Hs]; [apply orb_prop in Hs as [Hs|Hs]|].
  - apply (bracket_not_generation guid s Hhex). now apply startsWith_bracket in Hs.
  - apply (bracket_not_generation guid s Hhex). now apply startsWith_bracket in Hs.
  - apply String.eqb_eq in Hs. subst s. now apply loading_not_generation.
Qed.

End Prefixes.

(** C2 (as stated it fails): after the first pass of a session over a folder
    with a file and a disabled project, the controller holds the loading
    item, the item of the file and the item of the disabled project; only
    the id of the file carries the generation ["0a1b:"]. *)
Theorem synthetic_ids_lack_generation :
  exists t1,
    _update (P := Sample.platform) (Some ["/ws"]) [Sample.modelWs]
      (Sample.started (Some ["/ws"])) = Some t1
    /\ _testGeneration t1 = "0a1b:"
    /\ map id (items t1)
       = ["loading"; "0a1b:fileA"; "[disabled] firefox - /ws/playwright.config.ts"]
    /\ map (fun i => startsWith (id i) (_testGeneration t1)) (items t1)
       = [false; true; false].
Proof. eexists. split; [reflexivity|]. repeat split. Qed.

(** C2 (amended): in a session (a call of [startedLoading], then calls of
    [finishedLoading] and passes of [_update], whose workspace folders
    may change as long as each list has exactly one folder or none has)
    every item in the tree of the controller has an id of one of two kinds, and of one only: an id with the generation
    of the session, or the id of an auxiliary item, which starts with
    ["[disabled] "] or with ["[error] "] or is ["loading"], and does not
    carry the generation. *)
Theorem session_ids `{P : Platform} (workspaceFolders : WorkspaceFolders)
    (guid : string) (t : TestTree) (v : TestItem) :
  isHex guid = true ->
  Session workspaceFolders guid t ->
  In v (allNodes (items t)) ->
  (startsWith (id v) (guid ++ ":") = true /\ synthetic (id v) = false)
  \/ (startsWith (id v) (guid ++ ":") = false /\ synthetic (id v) = true).
Proof.
  intros Hhex HS Hv.
  pose proof (Session_wf guid Hhex workspaceFolders t HS) as W.
  destruct (synthetic (id v)) eqn:Hs.
  - right. split; [|reflexivity]. now apply synthetic_not_generation.
  - left. split; [|reflexivity].
    destruct (wf_ids _ _ _ W v Hv) as [H|H]; [exact H| congruence].
Qed.

Lemma session_ids_witness :
  id Sample.disabledItem = "[disabled] firefox - /ws/playwright.config.ts"
  /\ ((startsWith (id Sample.disabledItem) (Sample.guid0 ++ ":") = true
       /\ synthetic (id Sample.disabledItem) = false)
      \/ (startsWith (id Sample.disabledItem) (Sample.guid0 ++ ":") = false
          /\ synthetic (id Sample.disabledItem) = true)).
Proof.
  split; [vm_compute; reflexivity|].
  apply (session_ids (P := Sample.platform) (Some ["/ws"]) Sample.guid0 Sample.afterWs
           Sample.disabledItem eq_refl).
  - apply (session_updated (Some ["/ws"]) _ _ [Sample.modelWs]
             (Sample.started (Some ["/ws"])));
      [apply session_started, alive_new| reflexivity| vm_compute; reflexivity].
  - apply nth_In. vm_compute. lia.
Defined.

(** ** A second pass *)




(** ** Logical ids that disappear *)

(** C5 (the defect): a session has the folder [/a] alone, with the file
    [fileA] and its test [testX] at the top of the controller (the root of a
    single folder is flat).  The next pass has the folders [/b] and [/c]:
    [fileA] is no logical id of that pass, and the loop that removes the
    stale roots calls [_deleteRootItem] for [/a].  With two folders it
    deletes the item ["0a1b:/a"], which was never there, instead of clearing
    the top of the controller as its single-folder branch does: the root of
    [/a] is unregistered and the items of [fileA] and [testX] stay in the
    tree. *)
Theorem stale_items_survive_folder_change :
  exists t1 t2,
    _update (P := Sample.platform) (Some ["/a"]) [Sample.modelA; Sample.modelB]
      (Sample.started (Some ["/a"])) = Some t1
    /\ _update (P := Sample.platform) (Some ["/b"; "/c"]) [Sample.modelB] t1 = Some t2
    /\ In "fileA" (logicalIds (P := Sample.platform) ["/a"] [Sample.modelA; Sample.modelB])
    /\ ~ In "fileA" (logicalIds (P := Sample.platform) ["/b"; "/c"] [Sample.modelB])
    /\ map id (allNodes (items t2))
       = ["loading"; "0a1b:fileA"; "0a1b:testX"; "0a1b:/b";
          "[error] /b/playwright.config.ts - bad"].
Proof.
  eexists. eexists. split; [vm_compute; reflexivity|].
  split; [vm_compute; reflexivity|].
  split; [cbn; auto|]. split; [|vm_compute; reflexivity].
  cbn. intros [H|[H|[]]]; discriminate.
Qed.


(** ** Auxiliary ids and logical ids *)

(** C6 (as stated it fails): a logical id is any string, and the one of the
    file below reads like the id of the disabled project [firefox]: the two
    are equal, in the same pass.  The two items are both in the tree, since
    the id of the file carries the generation. *)
Theorem logical_id_like_disabled_id :
  exists t1,
    _update (P := Sample.platform) (Some ["/ws"]) [Sample.modelAlike]
      (Sample.started (Some ["/ws"])) = Some t1
    /\ In (disabledProjectId (Sample.disabledProject "/ws" "firefox"))
         (logicalIds (P := Sample.platform) ["/ws"] [Sample.modelAlike])
    /\ scopeDisabled [Sample.modelAlike] "/ws"
       = [Sample.disabledProject "/ws" "firefox"]
    /\ map id (items t1)
       = ["loading"; "0a1b:[disabled] firefox - /ws/playwright.config.ts";
          "[disabled] firefox - /ws/playwright.config.ts"].
Proof.
  eexists. split; [reflexivity|]. split; [cbn; auto|]. split; reflexivity.
Qed.

(** C6 (amended): with a generation made of a guid in hexadecimal digits
    and a colon, the id that [_syncSuite] gives to the item of a logical node,
    which is the logical id with the generation, is never the id of the item
    of a disabled project or of a configuration error. *)
Theorem generation_ids_not_synthetic (guid X : string)
    (project : TestProject) (model : TestModel) (error0 : TestError) :
  isHex guid = true ->
  _idWithGeneration (guid ++ ":") X <> disabledProjectId project
  /\ _idWithGeneration (guid ++ ":") X <> errorId model error0.
Proof.
  intros Hhex. split; intros E.
  - pose proof (generation_not_prefixed guid X "disabled] " Hhex) as H.
    rewrite E in H. change (String "[" "disabled] ") with "[disabled] " in H.
    now rewrite disabledProjectId_prefix in H.
  - pose proof (generation_not_prefixed guid X "error] " Hhex) as H.
    rewrite E in H. change (String "[" "error] ") with "[error] " in H.
    now rewrite errorId_prefix in H.
Qed.

Lemma generation_ids_not_synthetic_witness :
  _idWithGeneration "0a1b:" "[disabled] firefox - /ws/playwright.config.ts"
    <> disabledProjectId (Sample.disabledProject "/ws" "firefox")
  /\ _idWithGeneration "0a1b:" "[disabled] firefox - /ws/playwright.config.ts"
    <> errorId Sample.modelTwice (Sample.anError "boom").
Proof.
  exact (generation_ids_not_synthetic "0a1b"
           "[disabled] firefox - /ws/playwright.config.ts"
           (Sample.disabledProject "/ws" "firefox") Sample.modelTwice
           (Sample.anError "boom") eq_refl).
Defined.

(** ** The roots of the workspace folders *)

(** C8 (as stated it fails): the kind of a root is fixed when the root is
    created, and a root that is registered is reused whatever the number of
    folders has become.  A session starts with the folder [/a] alone, so its
    root is the flat one; the next pass has the folders [/a] and [/b]: the
    root of [/a] is still the flat root, labelled ["<root>"] and not ["a"],
    and the controller holds no item ["0a1b:/a"], while [/b] gets a root item
    among the children of the flat root. *)
Theorem root_kind_outlives_folder_count :
  exists t1 t2,
    _update (P := Sample.platform) (Some ["/a"]) [Sample.modelA; Sample.modelB]
      (Sample.started (Some ["/a"])) = Some t1
    /\ _update (P := Sample.platform) (Some ["/a"; "/b"]) [Sample.modelA; Sample.modelB] t1
       = Some t2
    /\ scopeEmpty (P := Sample.platform) [Sample.modelA; Sample.modelB] "/a" = false
    /\ JsMap.get (_rootItems t2) "/a" = Some (FlatRoot 1 "0a1b:/a" "/a")
    /\ option_map label (rootObject t2 (FlatRoot 1 "0a1b:/a" "/a")) = Some "<root>"
    /\ path_basename (Platform := Sample.platform) "/a" = "a"
    /\ TestItemCollection.get (items t2) "0a1b:/a" = None
    /\ map id (items t2) = ["loading"; "0a1b:fileA"; "0a1b:/b"].
Proof.
  eexists. eexists. split; [vm_compute; reflexivity|].
  split; [vm_compute; reflexivity|]. repeat split.
Qed.

(** C8 (amended): the kind of a root is fixed when the root is created, so
    the lifecycle holds while the folders call for roots of one kind.  In a
    session ([startedLoading], then [finishedLoading] and passes of [_update]
    whose workspace folders may change, as long as each list has exactly one
    folder or none of them has), a pass over the folders [workspaceFolders']
    leaves, for every folder of the pass:
    - when it has no logical child, no disabled project and no configuration
      error: no root, the root being deleted as [_deleteRootItem] does it
      (with one folder only items ["loading"] and ["disabled"] are left in
      the controller, otherwise the controller has no item with the
      generation and the path as its id);
    - otherwise a root, which is the root registered before the pass if
      there was one, and which is, with one folder, the flat root whose
      children are the items of the controller, and otherwise an item of the
      controller with the generation and the path as its id and the base
      name of the path as its label.
    After the pass every registered root is the root of a folder of the
    pass, and every root that was registered for another path has been
    deleted in the same way. *)
Theorem root_lifecycle `{P : Platform}
    (workspaceFolders workspaceFolders' : WorkspaceFolders)
    (guid : string) (models : list TestModel) (t t' : TestTree) :
  isHex guid = true ->
  Session workspaceFolders guid t ->
  sameRoots workspaceFolders workspaceFolders' ->
  _update workspaceFolders' models t = Some t' ->
  let folders := foldersOf workspaceFolders' in
  let gen := guid ++ ":" in
  (forall f, In f folders ->
     if scopeEmpty models (uriToPath f)
     then JsMap.get (_rootItems t') (uriToPath f) = None
          /\ (if Nat.eqb (List.length folders) 1
              then forall i, In i (items t') ->
                     String.eqb (id i) "loading" || String.eqb (id i) "disabled" = true
              else TestItemCollection.get (items t')
                     (_idWithGeneration gen (uriToPath f)) = None)
     else exists r,
         JsMap.get (_rootItems t') (uriToPath f) = Some r
         /\ (forall r0, JsMap.get (_rootItems t) (uriToPath f) = Some r0 -> r = r0)
         /\ (if Nat.eqb (List.length folders) 1
             then (exists o u, r = FlatRoot o (_idWithGeneration gen (uriToPath f)) u)
                  /\ rootChildren t' r = items t'
             else exists i, r = NestedRoot (obj i) /\ In i (items t')
                            /\ id i = _idWithGeneration gen (uriToPath f)
                            /\ label i = path_basename (uriToPath f)
                            /\ rootChildren t' r = children i))
  /\ (forall p, In p (JsMap.keys (_rootItems t')) -> In p (map uriToPath folders))
  /\ (forall p, In p (JsMap.keys (_rootItems t)) -> ~ In p (map uriToPath folders) ->
        JsMap.get (_rootItems t') p = None
        /\ (if Nat.eqb (List.length folders) 1
            then forall i, In i (items t') ->
                   String.eqb (id i) "loading" || String.eqb (id i) "disabled" = true
            else TestItemCollection.get (items t') (_idWithGeneration gen p) = None)).
Proof.
  intros Hhex HS Hsame Hu folders gen.
  pose proof (Session_wf guid Hhex workspaceFolders t HS) as W.
  apply update_returns in Hu.
  destruct (pass_changes guid Hhex models workspaceFolders workspaceFolders' t t'
              W Hsame Hu) as (W' & Hdone & Hstale & _ & _).
  fold folders gen in W', Hdone, Hstale.
  refine (conj _ (conj (wf_active _ _ _ W') Hstale)).
  intros f Hf. specialize (Hdone f Hf). unfold RootDone in Hdone.
  destruct (scopeEmpty models (uriToPath f)) eqn:Hempty; [exact Hdone|].
  destruct Hdone as (r & G). exists r. split; [exact G|]. split.
  - intros r0 G0.
    pose proof (pass_reuses models workspaceFolders' t t' _ r0 Hu Hempty
                  (in_map uriToPath _ _ Hf) G0).
    congruence.
  - destruct (Nat.eqb_spec (List.length folders) 1) as [one|many].
    + apply JsMap_get_In in G.
      destruct (wf_single _ _ _ W' one _ _ G) as (o & u & ->).
      split; [eauto|reflexivity].
    + destruct (registered_item guid folders many t' _ r W' G)
        as (i & -> & Hi & Hid & Hl & _ & Hc).
      exists i. auto.
Qed.

Lemma root_lifecycle_witness :
  exists t1 t',
    _update (P := Sample.platform) (Some ["/a"; "/b"]) [Sample.modelA; Sample.modelB]
      (Sample.started (Some ["/a"; "/b"])) = Some t1
    /\ In "/b" (JsMap.keys (_rootItems t1))
    /\ _update (P := Sample.platform) (Some ["/a"; "/c"]) [Sample.modelA; Sample.modelB]
         t1 = Some t'
    /\ JsMap.get (_rootItems t') "/b" = None
    /\ TestItemCollection.get (items t') "0a1b:/b" = None.
Proof.
  eexists. eexists. split; [vm_compute; reflexivity|].
  split; [vm_compute; right; left; reflexivity|].
  split; [vm_compute; reflexivity|].
  refine (proj2 (proj2 (root_lifecycle (P := Sample.platform) (Some ["/a"; "/b"])
                          (Some ["/a"; "/c"]) Sample.guid0
                          [Sample.modelA; Sample.modelB] _ _ eq_refl _ eq_refl _))
            "/b" _ _).
  - apply (session_updated (Some ["/a"; "/b"]) _ _ [Sample.modelA; Sample.modelB]
             (Sample.started (Some ["/a"; "/b"])));
      [apply session_started, alive_new| reflexivity| vm_compute; reflexivity].
  - vm_compute. reflexivity.
  - vm_compute. right. left. reflexivity.
  - vm_compute. intros [H|[H|[]]]; discriminate.
Defined.

(** X1: [_syncSuite] neither reorders the children it keeps nor mixes the
    new ones among them: the ids of the children after the call are the ids
    of the children that stay (those without the generation, and those whose
    id without the generation is the id of a logical child), in the order
    they had, followed by the ids of the new items, in the order of the
    logical children. *)
Theorem syncSuite_child_order `{P : Platform}
    (gen : string) (uItem : TreeItem) (vsChildren : list TestItem) (n : nat) :
  map id (fst (_syncSuite gen uItem vsChildren n))
  = (map id (filter (keepChild gen (uChildrenById uItem)) vsChildren)
     ++ map (_idWithGeneration gen)
          (filter
             (fun k => isNone (TestItemCollection.get vsChildren
                                 (_idWithGeneration gen k)))
             (JsMap.keys (uChildrenById uItem))))%list.
Proof.
  rewrite syncSuite_unfold, syncLevel_spec.
  set (E := decorate (_syncSuite gen) (uChildrenById uItem)).
  assert (HndE : NoDup (JsMap.keys E)).
  { unfold E. rewrite decorate_keys. apply uChildrenById_NoDup. }
  pose proof (ensure_ids gen E (filter (keepChild gen E) vsChildren) n HndE) as H2.
  pose proof (recurse_ids gen E) as H3.
  destruct (fold_left (ensureChild gen) E (filter (keepChild gen E) vsChildren, n))
    as [vs2 n2]. cbn [fst] in H2.
  specialize (H3 vs2 n2). unfold TestItemCollection.ids in H2, H3.
  rewrite H3, H2. f_equal.
  - f_equal. apply filter_ext. intros i. unfold keepChild, E.
    now rewrite decorate_has.
  - f_equal. unfold E at 2. rewrite decorate_keys.
    apply filter_ext_in. intros k Hk. f_equal. apply get_kept.
    apply JsMap_has_keys. unfold E. now rewrite decorate_keys.
Qed.

(** X2: [_syncSuite] updates the item of a logical child in place: when the
    children hold an item under the id of the logical child with the
    generation, the item under that id after the call is the same object,
    with the label, the uri and the [canResolveChildren] it had (none of them
    is refreshed from the logical child), and [upstreamTreeItem] gives the
    logical child for it. *)
Theorem syncSuite_reuses_item `{P : Platform}
    (gen : string) (uItem : TreeItem) (vsChildren : list TestItem) (n : nat)
    (k : string) (uChild : TreeItem) (vsChild : TestItem) :
  In (k, uChild) (uChildrenById uItem) ->
  TestItemCollection.get vsChildren (_idWithGeneration gen k) = Some vsChild ->
  exists v,
    TestItemCollection.get (fst (_syncSuite gen uItem vsChildren n))
      (_idWithGeneration gen k) = Some v
    /\ obj v = obj vsChild
    /\ label v = label vsChild
    /\ uri v = uri vsChild
    /\ canResolveChildren v = canResolveChildren vsChild
    /\ upstreamTreeItem v = Some uChild.
Proof.
  intros Hin G.
  destruct (syncSuite_child gen uItem vsChildren n k uChild Hin)
    as (m & cs & _ & _ & Hget).
  rewrite G in Hget. eexists. split; [exact Hget|].
  destruct (syncAttributes_rest uChild vsChild) as (Hl & Hu & Hc & _).
  cbn [obj label uri canResolveChildren set_children upstreamTreeItem
       testTreeItemSymbol].
  rewrite syncAttributes_obj, Hl, Hu, Hc, syncAttributes_symbol. auto.
Qed.

Lemma syncSuite_reuses_item_witness :
  exists v,
    TestItemCollection.get
      (fst (_syncSuite (P := Sample.platform) "0a1b:" (Sample.fileWith [Sample.caseAt 9 1])
              [Sample.oldCase] 7))
      "0a1b:test:a" = Some v
    /\ obj v = 3 /\ label v = "old label" /\ uri v = None
    /\ canResolveChildren v = true
    /\ upstreamTreeItem v = Some (Sample.caseAt 9 1).
Proof.
  apply (syncSuite_reuses_item (P := Sample.platform) "0a1b:"
           (Sample.fileWith [Sample.caseAt 9 1]) [Sample.oldCase] 7 "test:a"
           (Sample.caseAt 9 1) Sample.oldCase).
  - left. reflexivity.
  - reflexivity.
Defined.

(** X3: [_syncSuite] creates the item of a logical child that has none: when
    no child has the id of the logical child with the generation, the item
    under that id after the call is a new object, labelled with the title of
    the logical child, with the uri of the file of its location; it can
    resolve children exactly when the logical child is a file without
    children; and [upstreamTreeItem] gives the logical child for it. *)
Theorem syncSuite_creates_item `{P : Platform}
    (gen : string) (uItem : TreeItem) (vsChildren : list TestItem) (n : nat)
    (k : string) (uChild : TreeItem) :
  In (k, uChild) (uChildrenById uItem) ->
  TestItemCollection.get vsChildren (_idWithGeneration gen k) = None ->
  exists v,
    TestItemCollection.get (fst (_syncSuite gen uItem vsChildren n))
      (_idWithGeneration gen k) = Some v
    /\ n <= obj v < snd (_syncSuite gen uItem vsChildren n)
    /\ label v = u_title uChild
    /\ uri v = Some (Uri_file (file (u_location uChild)))
    /\ canResolveChildren v
       = isFileGroup uChild && Nat.eqb (List.length (u_children uChild)) 0
    /\ upstreamTreeItem v = Some uChild.
Proof.
  intros Hin G.
  destruct (syncSuite_child gen uItem vsChildren n k uChild Hin)
    as (m & cs & Hm & Hlt & Hget).
  rewrite G in Hget. specialize (Hlt G). eexists. split; [exact Hget|].
  destruct (syncAttributes_rest uChild (fst (newChild gen k uChild m)))
    as (Hl & Hu & Hc & _).
  cbn [obj label uri canResolveChildren set_children upstreamTreeItem
       testTreeItemSymbol].
  rewrite syncAttributes_obj, Hl, Hu, Hc, syncAttributes_symbol.
  destruct (newChild_obj gen k uChild m) as [Ho _]. rewrite Ho.
  unfold newChild. cbn [createTestItem fst].
  destruct (isFileGroup uChild && Nat.eqb (List.length (u_children uChild)) 0);
    cbn; repeat split; lia.
Qed.

Lemma syncSuite_creates_item_witness :
  exists v,
    TestItemCollection.get
      (fst (_syncSuite (P := Sample.platform) "0a1b:" (Sample.fileWith [Sample.caseAt 9 1])
              [] 7))
      "0a1b:test:a" = Some v
    /\ 7 <= obj v
       < snd (_syncSuite (P := Sample.platform) "0a1b:"
                (Sample.fileWith [Sample.caseAt 9 1]) [] 7)
    /\ label v = "a" /\ uri v = Some "a.spec.ts"
    /\ canResolveChildren v = false
    /\ upstreamTreeItem v = Some (Sample.caseAt 9 1).
Proof.
  apply (syncSuite_creates_item (P := Sample.platform) "0a1b:"
           (Sample.fileWith [Sample.caseAt 9 1]) [] 7 "test:a" (Sample.caseAt 9 1)).
  - left. reflexivity.
  - reflexivity.
Defined.

(** X4: after [_syncSuite] the tags of the item of a logical test case agree
    with the tags of the case in the sense of [areEqualTags]; the tags of the
    item of any other logical child (a group, a test) are never written: they
    are the tags the item had, and none for a new item. *)
Theorem syncSuite_tags `{P : Platform}
    (gen : string) (uItem : TreeItem) (vsChildren : list TestItem) (n : nat)
    (k : string) (uChild : TreeItem) :
  In (k, uChild) (uChildrenById uItem) ->
  exists v,
    TestItemCollection.get (fst (_syncSuite gen uItem vsChildren n))
      (_idWithGeneration gen k) = Some v
    /\ (u_kind uChild = case -> areEqualTags (u_tags uChild) (tags v) = true)
    /\ (u_kind uChild <> case ->
        tags v = match TestItemCollection.get vsChildren (_idWithGeneration gen k) with
                 | Some vsChild => tags vsChild
                 | None => []
                 end).
Proof.
  intros Hin.
  destruct (syncSuite_child gen uItem vsChildren n k uChild Hin)
    as (m & cs & _ & _ & Hget).
  eexists. split; [exact Hget|]. cbn [tags set_children].
  rewrite syncAttributes_tags. split.
  - intros Hk. rewrite Hk. cbn [isCase andb].
    match goal with
    | |- context [negb (areEqualTags ?a ?b)] =>
        destruct (areEqualTags a b) eqn:E; cbn [negb]; [exact E|]
    end.
    apply areEqualTags_own_tags.
  - intros Hk. assert (E : isCase (u_kind uChild) = false)
      by (destruct (u_kind uChild); [reflexivity|now destruct Hk|reflexivity]).
    rewrite E. cbn [andb].
    destruct (TestItemCollection.get vsChildren (_idWithGeneration gen k));
      [reflexivity|].
    unfold newChild. cbn [createTestItem fst].
    now destruct (isFileGroup uChild && _).
Qed.

Lemma syncSuite_tags_witness :
  exists v,
    TestItemCollection.get
      (fst (_syncSuite (P := Sample.platform) "0a1b:" (Sample.fileWith [Sample.caseAt 9 1])
              [Sample.oldCase] 7))
      "0a1b:test:a" = Some v
    /\ (u_kind (Sample.caseAt 9 1) = case ->
        areEqualTags (u_tags (Sample.caseAt 9 1)) (tags v) = true)
    /\ (u_kind (Sample.caseAt 9 1) <> case ->
        tags v = match TestItemCollection.get [Sample.oldCase] "0a1b:test:a" with
                 | Some vsChild => tags vsChild
                 | None => []
                 end).
Proof.
  apply (syncSuite_tags (P := Sample.platform) "0a1b:"
           (Sample.fileWith [Sample.caseAt 9 1]) [Sample.oldCase] 7 "test:a"
           (Sample.caseAt 9 1)).
  left. reflexivity.
Defined.

(** X5: [_syncSuite] is idempotent on a keyed collection.  When the ids of
    the children are distinct at every level (and only items with the
    generation have children), a second call with the same logical item
    returns the children of the first call as they are and allocates
    nothing. *)
Theorem syncSuite_idempotent `{P : Platform}
    (gen : string) (uItem : TreeItem) (vsChildren : list TestItem) (n : nat) :
  wfItems gen vsChildren ->
  _syncSuite gen uItem (fst (_syncSuite gen uItem vsChildren n))
    (snd (_syncSuite gen uItem vsChildren n))
  = _syncSuite gen uItem vsChildren n.
Proof.
  intros Hwf.
  destruct (syncSuite_establishes gen uItem vsChildren n Hwf) as (HS & _ & _).
  rewrite (syncSuite_fixed gen uItem _ _ HS).
  now destruct (_syncSuite gen uItem vsChildren n).
Qed.

Lemma syncSuite_idempotent_witness :
  _syncSuite (P := Sample.platform) "0a1b:" (Sample.fileWith [Sample.caseAt 9 1])
    (fst (_syncSuite (P := Sample.platform) "0a1b:"
            (Sample.fileWith [Sample.caseAt 9 1]) [Sample.oldCase] 7))
    (snd (_syncSuite (P := Sample.platform) "0a1b:"
            (Sample.fileWith [Sample.caseAt 9 1]) [Sample.oldCase] 7))
  = _syncSuite (P := Sample.platform) "0a1b:" (Sample.fileWith [Sample.caseAt 9 1])
      [Sample.oldCase] 7.
Proof.
  apply (syncSuite_idempotent (P := Sample.platform)).
  split.
  - repeat constructor. intros [].
  - repeat constructor.
Defined.

(** X6: after [_syncDisabledProjects], the children whose id starts with
    ["[disabled] "] are those of the disabled projects: such an id is among
    the children exactly when it is the id of one of the projects.  Every
    other child is looked up as before, every child is a child from before
    or the new item of one of the projects, with its description, sort text
    and project, and distinct ids stay distinct. *)
Theorem syncDisabledProjects_post `{P : Platform}
    (disabledProjects : list TestProject) (rootChildren : list TestItem) (n : nat) :
  let after := fst (_syncDisabledProjects disabledProjects rootChildren n) in
  (forall k, startsWith k "[disabled] " = true ->
     (In k (map id after) <-> In k (map disabledProjectId disabledProjects)))
  /\ (forall k, startsWith k "[disabled] " = false ->
        TestItemCollection.get after k = TestItemCollection.get rootChildren k)
  /\ (forall x, In x after ->
        In x rootChildren
        \/ exists project,
             In project disabledProjects
             /\ id x = "[disabled] " ++ name project ++ " - "
                       ++ configFile (project_config project)
             /\ label x = ""
             /\ description x
                = Some (path_relative (workspaceFolder (project_config project))
                          (normalizePath (configFile (project_config project)))
                        ++ " [" ++ name project ++ "] — disabled")
             /\ sortText x = Some ("z" ++ name project)
             /\ disabledProjectSymbol x = Some project
             /\ children x = [])
  /\ (NoDup (map id rootChildren) -> NoDup (map id after)).
Proof.
  cbn zeta. rewrite syncDisabledProjects_entries.
  destruct (syncEntries_spec disabledProjectId newDisabledItem "[disabled] "
              newDisabledItem_id newDisabledItem_next disabledProjectId_prefix
              (sortedProjects disabledProjects) rootChildren n)
    as (H1 & H2 & H3 & H4 & _).
  refine (conj _ (conj H2 (conj _ H4))).
  - intros k Hk. rewrite (H1 k Hk). unfold sortedProjects.
    rewrite !in_map_iff.
    split; intros [x [Hx Hin]]; exists x; (split; [exact Hx|]);
      [now apply sort_In in Hin| now apply sort_In].
  - intros x Hx. destruct (H3 x Hx) as [Hin|(project & m & Hin & ->)]; [now left|].
    right. exists project. split; [now apply sort_In in Hin|].
    repeat split.
Qed.

(** X7: [_syncConfigErrors] returns or throws.
    When it returns, the children whose id starts with ["[error] "] are
    those of the configuration errors: such an id is among the children
    exactly when it is the id of an error of one of the models.  Every other
    child is looked up as before, every child is a child from before or the
    new item of one of the errors, which shows the message of the error
    ([message], else [value], else ["Unknown error"]) and points to the
    location of the error, at line and column at least 1 (to the
    configuration file, without a range, when the error has no location);
    distinct ids stay distinct.
    It throws exactly when, going through the errors in order, it comes to an
    error that is located at a line or column below 1 and needs a new item:
    its id is not among the children, or is the id of an error before it. *)
Theorem syncConfigErrors_post `{P : Platform}
    (errorsByModel : list (TestModel * list TestError))
    (rootChildren : list TestItem) (n : nat) :
  (forall after n',
     _syncConfigErrors errorsByModel rootChildren n = Some (after, n') ->
     (forall k, startsWith k "[error] " = true ->
        (In k (map id after) <->
         exists model errors error0,
           In (model, errors) errorsByModel /\ In error0 errors
           /\ k = errorId model error0))
     /\ (forall k, startsWith k "[error] " = false ->
           TestItemCollection.get after k = TestItemCollection.get rootChildren k)
     /\ (forall x, In x after ->
           In x rootChildren
           \/ exists model errors error0,
                In (model, errors) errorsByModel /\ In error0 errors
                /\ id x = errorId model error0
                /\ error x = Some (nullish (message error0)
                                     (nullish (value error0) "Unknown error"))
                /\ uri x = Some (Uri_file (match error_location error0 with
                                           | Some l => file l
                                           | None => configFile (config model)
                                           end))
                /\ range x = match error_location error0 with
                             | Some l =>
                                 Some (mkRange (mkPosition (line l - 1) (column l - 1))
                                         (mkPosition (line l - 1) (column l - 1)))
                             | None => None
                             end
                /\ (forall l, error_location error0 = Some l ->
                      (1 <= line l /\ 1 <= column l)%Z)
                /\ configErrorSymbol x = Some error0
                /\ children x = [])
     /\ (NoDup (map id rootChildren) -> NoDup (map id after)))
  /\ (_syncConfigErrors errorsByModel rootChildren n = None <->
      exists l1 model error0 l2 l,
        errorEntries errorsByModel = (l1 ++ (model, error0) :: l2)%list
        /\ error_location error0 = Some l
        /\ (line l < 1 \/ column l < 1)%Z
        /\ (In (errorId model error0) (map id rootChildren) ->
            In (errorId model error0) (map errorIdOf l1))).
Proof.
  split.
  - intros after n' E.
    pose proof (syncConfigErrors_items _ _ _ _ _ E) as Hitems.
    apply syncConfigErrors_returns in E. rewrite syncConfigErrors_entries in E.
    destruct (syncEntries_spec errorIdOf newErrorItemOf "[error] "
                (fun e m => newErrorItem_id (fst e) (snd e) m)
                (fun e m => newErrorItem_next (fst e) (snd e) m)
                (fun e => errorId_prefix (fst e) (snd e))
                (errorEntries errorsByModel) rootChildren n)
      as (H1 & H2 & _ & H4 & _).
    cbn zeta in H1, H2, H4. rewrite <- E in H1, H2, H4. cbn [fst] in H1, H2, H4.
    assert (Hentries : forall me, In me (errorEntries errorsByModel) <->
              exists errors, In (fst me, errors) errorsByModel /\ In (snd me) errors).
    { intros [model error0]. unfold errorEntries. rewrite in_flat_map. cbn [fst snd].
      split.
      - intros [[model' errors] [Hin Hme]]. cbn [fst snd] in Hme.
        apply in_map_iff in Hme as [e [[= <- <-] He]]. eauto.
      - intros [errors [Hin He]]. exists (model, errors). split; [exact Hin|].
        cbn [fst snd]. now apply in_map. }
    refine (conj _ (conj H2 (conj _ H4))).
    + intros k Hk. unfold TestItemCollection.ids in H1.
      rewrite (H1 k Hk), in_map_iff. split.
      * intros [[model error0] [<- Hin]]. apply Hentries in Hin as [errors [H He]].
        exists model, errors, error0. auto.
      * intros (model & errors & error0 & Hin & He & ->).
        exists (model, error0). split; [reflexivity|]. apply Hentries. eauto.
    + intros x Hx.
      destruct (Hitems x Hx) as [Hin|([model error0] & m & Hin & Hpos & ->)];
        [now left|].
      right. apply Hentries in Hin as [errors [Hin He]].
      exists model, errors, error0. cbn [fst snd] in *.
      pose proof (proj1 (positioned_true _) Hpos) as Hl. clear Hpos.
      refine (conj Hin (conj He (conj _ _))); [apply newErrorItem_id|].
      unfold newErrorItemOf, builtErrorItem. cbn [fst snd createTestItem].
      destruct (error_location error0);
        exact (conj eq_refl (conj eq_refl (conj eq_refl (conj Hl (conj eq_refl eq_refl))))).
  - rewrite syncConfigErrors_throws. split.
    + intros (l1 & [model error0] & l2 & El & Hpos & Hin).
      apply positioned_false in Hpos as (l & Hl & Hlt). cbn [snd] in Hl.
      exists l1, model, error0, l2, l. auto.
    + intros (l1 & model & error0 & l2 & l & El & Hl & Hlt & Hin).
      exists l1, (model, error0), l2. refine (conj El (conj _ Hin)).
      apply positioned_false. exists l. auto.
Qed.

(** X8: the two auxiliary synchronizers are idempotent when the ids of
    their entries are distinct: a second call of [_syncDisabledProjects] with
    the same disabled projects returns the children of the first call as
    they are and allocates nothing; and when [_syncConfigErrors] has
    returned, a second call with the same errors does not throw, returns
    the children of the first call as they are and allocates nothing. *)
Theorem auxiliary_sync_idempotent `{P : Platform}
    (disabledProjects : list TestProject)
    (errorsByModel : list (TestModel * list TestError))
    (rootChildren : list TestItem) (n : nat) :
  (NoDup (map disabledProjectId disabledProjects) ->
   _syncDisabledProjects disabledProjects
     (fst (_syncDisabledProjects disabledProjects rootChildren n))
     (snd (_syncDisabledProjects disabledProjects rootChildren n))
   = _syncDisabledProjects disabledProjects rootChildren n)
  /\ (NoDup (map errorIdOf (errorEntries errorsByModel)) ->
      forall after n',
        _syncConfigErrors errorsByModel rootChildren n = Some (after, n') ->
        _syncConfigErrors errorsByModel after n' = Some (after, n')).
Proof.
  split; intros Hnd.
  - rewrite !syncDisabledProjects_entries.
    destruct (syncEntries_spec disabledProjectId newDisabledItem "[disabled] "
                newDisabledItem_id newDisabledItem_next disabledProjectId_prefix
                (sortedProjects disabledProjects) rootChildren n) as (H1 & _).
    rewrite (syncEntries_fixed disabledProjectId newDisabledItem "[disabled] "
               disabledProjectId_prefix (sortedProjects disabledProjects) _ _
               (sort_NoDup_map _ disabledProjectId disabledProjects Hnd) H1).
    now destruct (syncEntries _ _ _ _ rootChildren n).
  - intros after n' E. apply syncConfigErrors_returns in E.
    rewrite syncConfigErrors_entries in E.
    destruct (syncEntries_spec errorIdOf newErrorItemOf "[error] "
                (fun e m => newErrorItem_id (fst e) (snd e) m)
                (fun e m => newErrorItem_next (fst e) (snd e) m)
                (fun e => errorId_prefix (fst e) (snd e))
                (errorEntries errorsByModel) rootChildren n) as (H1 & _).
    cbn zeta in H1. rewrite <- E in H1. cbn [fst] in H1.
    now apply syncConfigErrors_fixed.
Qed.

Lemma auxiliary_sync_idempotent_witness :
  (NoDup (map disabledProjectId [Sample.disabledProject "/ws" "firefox"])
   /\ _syncDisabledProjects (P := Sample.platform) [Sample.disabledProject "/ws" "firefox"]
        (fst (_syncDisabledProjects (P := Sample.platform)
                [Sample.disabledProject "/ws" "firefox"] [] 1))
        (snd (_syncDisabledProjects (P := Sample.platform)
                [Sample.disabledProject "/ws" "firefox"] [] 1))
      = _syncDisabledProjects (P := Sample.platform)
          [Sample.disabledProject "/ws" "firefox"] [] 1)
  /\ exists after n',
       _syncConfigErrors (P := Sample.platform)
         [(Sample.modelLocated 3 1, [Sample.errorAt 3 1])] [] 1 = Some (after, n')
       /\ map id after = ["[error] /ws/playwright.config.ts:3 - bad option"%string]
       /\ _syncConfigErrors (P := Sample.platform)
            [(Sample.modelLocated 3 1, [Sample.errorAt 3 1])] after n' = Some (after, n').
Proof.
  assert (H : NoDup (map disabledProjectId [Sample.disabledProject "/ws" "firefox"])).
  { constructor; [intros []|constructor]. }
  assert (H' : NoDup (map errorIdOf
                        (errorEntries [(Sample.modelLocated 3 1, [Sample.errorAt 3 1])]))).
  { constructor; [intros []|constructor]. }
  pose proof (auxiliary_sync_idempotent (P := Sample.platform)
                [Sample.disabledProject "/ws" "firefox"]
                [(Sample.modelLocated 3 1, [Sample.errorAt 3 1])] [] 1) as [T1 T2].
  split; [exact (conj H (T1 H))|].
  destruct (_syncConfigErrors (P := Sample.platform)
              [(Sample.modelLocated 3 1, [Sample.errorAt 3 1])] [] 1)
    as [[after n']|] eqn:E; [|vm_compute in E; discriminate E].
  exists after, n'. split; [reflexivity|]. split; [|exact (T2 H' after n' eq_refl)].
  vm_compute in E. injection E as <- _. reflexivity.
Defined.

(** X9: what [_indexTree] puts into the indices is right.  An item that
    [testItemForTest] returns for a test holds a test case (or a test) whose
    test has the id asked for; an item that [testItemForFile] returns for a
    path has a uri with that path and no range; and both are items of the
    tree below a registered root.  Nothing of the indices from before is
    left. *)
Theorem indexTree_sound `{P : Platform} (t : TestTree) :
  (forall test0 v,
     testItemForTest (_indexTree t) test0 = Some v ->
     holdsTest v = true
     /\ (exists u T, upstreamTreeItem v = Some u /\ u_test u = Some T
                     /\ test_id T = test_id test0)
     /\ (exists r item, In r (JsMap.values (_rootItems t))
                        /\ rootObject t r = Some item /\ In v (nodes item)))
  /\ (forall file0 v,
        testItemForFile (_indexTree t) file0 = Some v ->
        (exists u, uri v = Some u /\ uriToPath u = file0)
        /\ range v = None
        /\ (exists r item, In r (JsMap.values (_rootItems t))
                           /\ rootObject t r = Some item /\ In v (nodes item))).
Proof.
  destruct (indexTree_spec t) as [[S1 S2] _]. cbn [fst snd] in S1, S2. split.
  - intros test0 v Hv. unfold testItemForTest in Hv. apply JsMap_get_In in Hv.
    destruct (S1 _ _ Hv) as [Hin (u & T & Hu & Hk & HT & Hid)].
    refine (conj _ (conj _ _)).
    + apply holdsTest_spec. eauto.
    + exists u, T. auto.
    + now apply rootNodes_In.
  - intros file0 v Hv. unfold testItemForFile in Hv. apply JsMap_get_In in Hv.
    destruct (S2 _ _ Hv) as [Hin (u & Hu & Hp & Hr)].
    refine (conj _ (conj Hr _)); [eauto| now apply rootNodes_In].
Qed.

(** X10: [_indexTree] misses nothing.  For every item of the tree below a
    registered root: if it holds a test case (or a test) with its test,
    [testItemForTest] finds an item for that test; if it has a uri and no
    range, [testItemForFile] finds an item for the path of the uri. *)
Theorem indexTree_complete `{P : Platform} (t : TestTree) (r : RootItem)
    (item v : TestItem) :
  In r (JsMap.values (_rootItems t)) ->
  rootObject t r = Some item ->
  In v (nodes item) ->
  (forall u T, upstreamTreeItem v = Some u -> isCaseOrTest (u_kind u) = true ->
     u_test u = Some T ->
     exists v', testItemForTest (_indexTree t) T = Some v')
  /\ (forall u, uri v = Some u -> range v = None ->
        exists v', testItemForFile (_indexTree t) (uriToPath u) = Some v').
Proof.
  intros Hr Ho Hv. destruct (indexTree_spec t) as [_ [C1 C2]].
  cbn [fst snd] in C1, C2.
  assert (Hin : In v (flat_map (fun r => match rootObject t r with
                                         | Some item => nodes item
                                         | None => []
                                         end) (JsMap.values (_rootItems t)))).
  { apply rootNodes_In. eauto. }
  split.
  - intros u T Hu Hk HT. apply has_get. now apply (C1 v u T).
  - intros u Hu Hrg. apply has_get. now apply (C2 v u).
Qed.

Lemma indexTree_complete_witness :
  exists v',
    testItemForTest (_indexTree (P := Sample.platform) Sample.afterWs)
      (mkTestCase "testX") = Some v'.
Proof.
  assert (Hr : In (FlatRoot 1 "0a1b:/ws" "/ws") (JsMap.values (_rootItems Sample.afterWs))).
  { vm_compute. left. reflexivity. }
  assert (Hv : In Sample.testXItem
                 (nodes (mkTestItem 1 "0a1b:/ws" "<root>" (Some "/ws")
                           (items Sample.afterWs) [] false
                           None None None None None None None))).
  { vm_compute. do 3 right. left. reflexivity. }
  assert (Hu : upstreamTreeItem Sample.testXItem
               = Some (Sample.treeItemOf (mkTeleSuite "testX" "case" []))).
  { vm_compute. reflexivity. }
  exact (proj1 (indexTree_complete (P := Sample.platform) Sample.afterWs
                  (FlatRoot 1 "0a1b:/ws" "/ws") _ Sample.testXItem Hr eq_refl Hv)
           _ (mkTestCase "testX") Hu eq_refl eq_refl).
Defined.

(** X11: [collectTestsInside] returns the outermost items that hold a test.
    Every item it returns is the root item or an item below it and holds a
    test case (or a test) with its test; every such item of the tree is
    returned or lies below a returned one; and the walk stops at a returned
    item, so that collecting inside it gives just that item. *)
Theorem collectTestsInside_outermost (rootItem : TestItem) :
  (forall v, In v (collectTestsInside rootItem) ->
     holdsTest v = true /\ In v (nodes rootItem))
  /\ (forall v, In v (nodes rootItem) -> holdsTest v = true ->
        exists w, In w (collectTestsInside rootItem) /\ In v (nodes w))
  /\ (forall w, In w (collectTestsInside rootItem) -> collectTestsInside w = [w]).
Proof.
  refine (conj (collectTestsInside_sound rootItem)
            (conj (collectTestsInside_covers rootItem) _)).
  intros w Hw. destruct (collectTestsInside_sound rootItem w Hw) as [Ht _].
  now rewrite collectTestsInside_unfold, Ht.
Qed.

(** X12: [finishedLoading] takes the loading item, and nothing else, out of
    the items of the controller: no item is found under its id afterwards,
    every other id is looked up as before, the registered roots, the
    generation and the indices are untouched, and a second call changes
    nothing.  Right after [startedLoading] it leaves the controller empty. *)
Theorem finishedLoading_removes_loading (t : TestTree) :
  TestItemCollection.get (items (finishedLoading t)) (id (_loadingItem t)) = None
  /\ (forall k, k <> id (_loadingItem t) ->
        TestItemCollection.get (items (finishedLoading t)) k
        = TestItemCollection.get (items t) k)
  /\ (forall v, In v (items (finishedLoading t)) <->
                In v (items t) /\ id v <> id (_loadingItem t))
  /\ _rootItems (finishedLoading t) = _rootItems t
  /\ _testGeneration (finishedLoading t) = _testGeneration t
  /\ _testItemByTestId (finishedLoading t) = _testItemByTestId t
  /\ _testItemByFile (finishedLoading t) = _testItemByFile t
  /\ finishedLoading (finishedLoading t) = finishedLoading t
  /\ (forall workspaceFolders guid,
        items (finishedLoading (startedLoading workspaceFolders guid t)) = []).
Proof.
  destruct (finishedLoading_fields t) as (Eg & Er & El & Ei & Ef & _).
  assert (G : TestItemCollection.get (items (finishedLoading t)) (id (_loadingItem t))
              = None).
  { rewrite finishedLoading_items, get_delete. now rewrite String.eqb_refl. }
  refine (conj G (conj _ (conj _ (conj Er (conj Eg (conj Ei (conj Ef (conj _ _)))))))).
  - intros k Hk. rewrite finishedLoading_items, get_delete.
    apply not_eq_sym in Hk. apply String.eqb_neq in Hk. now rewrite Hk.
  - intros v. rewrite finishedLoading_items. apply delete_In.
  - unfold finishedLoading at 1. now rewrite El, G.
  - intros wsf guid. rewrite finishedLoading_items. unfold startedLoading.
    destruct wsf as [[|f l]|]; cbn; try reflexivity.
    now rewrite String.eqb_refl.
Qed.

(** X13: [_createRootItemIfNeeded] registers the root of a folder once.  After
    a call the returned root is the one registered for the path of the uri,
    the roots of the other paths are registered as before, and a second call
    for the same uri returns the same root and changes nothing, whatever the
    number of workspace folders has become. *)
Theorem createRootItemIfNeeded_once `{P : Platform} (folders folders' : list Uri)
    (uri0 : Uri) (t : TestTree) :
  JsMap.get (_rootItems (snd (_createRootItemIfNeeded folders uri0 t))) (uriToPath uri0)
  = Some (fst (_createRootItemIfNeeded folders uri0 t))
  /\ (forall q, q <> uriToPath uri0 ->
        JsMap.get (_rootItems (snd (_createRootItemIfNeeded folders uri0 t))) q
        = JsMap.get (_rootItems t) q)
  /\ _createRootItemIfNeeded folders' uri0 (snd (_createRootItemIfNeeded folders uri0 t))
     = _createRootItemIfNeeded folders uri0 t.
Proof.
  assert (G : JsMap.get (_rootItems (snd (_createRootItemIfNeeded folders uri0 t)))
                (uriToPath uri0)
              = Some (fst (_createRootItemIfNeeded folders uri0 t))).
  { unfold _createRootItemIfNeeded.
    destruct (JsMap.get (_rootItems t) (uriToPath uri0)) as [r|] eqn:G0; [exact G0|].
    destruct (Nat.eqb _ 1); cbn; now rewrite JsMap_get_set, String.eqb_refl. }
  refine (conj G (conj _ _)).
  - intros q Hq. unfold _createRootItemIfNeeded.
    destruct (JsMap.get (_rootItems t) (uriToPath uri0)) as [r|] eqn:G0; [reflexivity|].
    apply not_eq_sym in Hq. apply String.eqb_neq in Hq.
    destruct (Nat.eqb _ 1); cbn; now rewrite JsMap_get_set, Hq.
  - unfold _createRootItemIfNeeded at 1. cbn zeta. rewrite G.
    now destruct (_createRootItemIfNeeded folders uri0 t).
Qed.



(** X19: a pass throws on a configuration error located at line 0: in the
    session started on the folder [/ws], the first pass over a model whose
    only configuration error is located at line 0, column 1 does not
    return, while the same pass with the error at line 1 returns and adds
    the item of the error to the controller, after the loading item. *)
Theorem update_throws_on_line_zero :
  _update (P := Sample.platform) (Some ["/ws"]) [Sample.modelLocated 0 1]
    (Sample.started (Some ["/ws"])) = None
  /\ exists t',
       _update (P := Sample.platform) (Some ["/ws"]) [Sample.modelLocated 1 1]
         (Sample.started (Some ["/ws"])) = Some t'
       /\ map id (items t')
          = ["loading"; "[error] /ws/playwright.config.ts:1 - bad option"]%string.
Proof.
  split; [vm_compute; reflexivity|].
  eexists. split; vm_compute; reflexivity.
Qed.



(** X16: the passes of a session leave the loading item alone.  Whatever a
    pass of [_update] creates, synchronizes or deletes, the item found under
    the id ["loading"] among the items of the controller is the same before
    and after the pass. *)
Theorem update_keeps_loading_item `{P : Platform} (workspaceFolders : WorkspaceFolders)
    (guid : string) (models : list TestModel) (t t' : TestTree) :
  isHex guid = true ->
  Session workspaceFolders guid t ->
  _update workspaceFolders models t = Some t' ->
  TestItemCollection.get (items t') "loading" = TestItemCollection.get (items t) "loading".
Proof.
  intros Hhex HS Hu.
  apply (pass_loading guid Hhex workspaceFolders models t t');
    [|exact (update_returns _ _ _ _ Hu)].
  now apply Session_wf.
Qed.

Lemma update_keeps_loading_item_witness :
  TestItemCollection.get (items Sample.afterWs) "loading"
  = Some (_loadingItem Sample.afterWs).
Proof.
  assert (HS : Session (P := Sample.platform) (Some ["/ws"]) Sample.guid0
                 (Sample.started (Some ["/ws"]))).
  { apply session_started, alive_new. }
  assert (Hu : _update (P := Sample.platform) (Some ["/ws"]) [Sample.modelWs]
                 (Sample.started (Some ["/ws"])) = Some Sample.afterWs).
  { vm_compute. reflexivity. }
  rewrite (update_keeps_loading_item (P := Sample.platform) (Some ["/ws"]) Sample.guid0
             [Sample.modelWs] (Sample.started (Some ["/ws"])) Sample.afterWs
             eq_refl HS Hu).
  vm_compute. reflexivity.
Defined.

(** X17: [_deleteRootItem] unregisters the root of its path and no other.
    With a number of workspace folders other than one it takes out of the
    controller the item that has the current generation and the path as its
    id, and looks up every other id as before.  A second call changes
    nothing, whatever the number of folders. *)
Theorem deleteRootItem_unregisters (folders : list Uri) (fsPath : string)
    (t : TestTree) :
  JsMap.get (_rootItems (_deleteRootItem folders fsPath t)) fsPath = None
  /\ (forall q, q <> fsPath ->
        JsMap.get (_rootItems (_deleteRootItem folders fsPath t)) q
        = JsMap.get (_rootItems t) q)
  /\ (List.length folders <> 1 ->
      forall k,
        TestItemCollection.get (items (_deleteRootItem folders fsPath t)) k
        = if String.eqb (_idWithGeneration (_testGeneration t) fsPath) k
          then None else TestItemCollection.get (items t) k)
  /\ _deleteRootItem folders fsPath (_deleteRootItem folders fsPath t)
     = _deleteRootItem folders fsPath t.
Proof.
  refine (conj _ (conj _ (conj _ (deleteRootItem_twice folders fsPath t)))).
  - unfold _deleteRootItem, deleteRoot. fields.
    destruct (Nat.eqb _ 1); cbn [setItems _rootItems];
      now rewrite JsMap_get_delete, String.eqb_refl.
  - intros q Hq. apply not_eq_sym in Hq. apply String.eqb_neq in Hq.
    unfold _deleteRootItem, deleteRoot. fields.
    destruct (Nat.eqb _ 1); cbn [setItems _rootItems];
      now rewrite JsMap_get_delete, Hq.
  - intros many k. apply Nat.eqb_neq in many.
    unfold _deleteRootItem. rewrite many. unfold deleteRoot, setItems. fields.
    apply get_delete.
Qed.

Lemma deleteRootItem_unregisters_witness :
  List.length ["/a"; "/b"] <> 1
  /\ TestItemCollection.get
       (items (_deleteRootItem ["/a"; "/b"] "/ws" Sample.afterWs)) "loading"
     = TestItemCollection.get (items Sample.afterWs) "loading".
Proof.
  assert (H : List.length ["/a"; "/b"] <> 1) by (cbn; lia).
  split; [exact H|].
  rewrite (proj1 (proj2 (proj2 (deleteRootItem_unregisters
                                  ["/a"; "/b"] "/ws" Sample.afterWs))) H "loading").
  vm_compute. reflexivity.
Defined.

(** X18: deletion completeness while the roots keep their kind.  In a session
    (whose workspace folders may change from pass to pass as long as each
    list has exactly one folder or none of them has), after a pass an id [X]
    that is no logical id of the pass (neither the path of a workspace folder
    of the pass nor the id of a node of one of its logical trees) has no
    node: no item anywhere below the items of the controller has the id [X]
    with the generation, and neither [testItemForTest] nor [testItemForFile]
    returns one. *)
Theorem deletion_completeness `{P : Platform}
    (workspaceFolders workspaceFolders' : WorkspaceFolders)
    (guid : string) (models : list TestModel) (t t' : TestTree) (X : string) :
  isHex guid = true ->
  Session workspaceFolders guid t ->
  sameRoots workspaceFolders workspaceFolders' ->
  _update workspaceFolders' models t = Some t' ->
  ~ In X (logicalIds (foldersOf workspaceFolders') models) ->
  (forall v, In v (allNodes (items t')) -> id v <> _idWithGeneration (guid ++ ":") X)
  /\ (forall test0 v, testItemForTest t' test0 = Some v ->
        id v <> _idWithGeneration (guid ++ ":") X)
  /\ (forall file0 v, testItemForFile t' file0 = Some v ->
        id v <> _idWithGeneration (guid ++ ":") X).
Proof.
  intros Hhex HS Hsame Hu HX.
  pose proof (Session_wf guid Hhex workspaceFolders t HS) as W.
  apply update_returns in Hu.
  destruct (pass_changes guid Hhex models workspaceFolders workspaceFolders' t t'
              W Hsame Hu) as (W' & _ & _ & Hix & Hcontent).
  assert (Htree : forall v, In v (allNodes (items t')) ->
                    id v <> _idWithGeneration (guid ++ ":") X).
  { intros v Hv E. destruct Hcontent as [Hdone|Hall].
    - apply HX.
      pose proof (tree_ids guid Hhex _ models t' W' Hdone v Hv) as H.
      rewrite E, startsWith_idWithGeneration, strip_idWithGeneration in H.
      now apply H.
    - pose proof (auxiliary_only guid Hhex _ t' v W' Hall Hv) as H.
      rewrite E, startsWith_idWithGeneration in H. discriminate. }
  assert (Hindex : forall v,
             In v (JsMap.values (_testItemByTestId t'))
             \/ In v (JsMap.values (_testItemByFile t')) ->
             id v <> _idWithGeneration (guid ++ ":") X).
  { intros v Hv. rewrite <- Hix in Hv.
    apply indexTree_values in Hv as (r & item & Hr & Ho & Hn).
    destruct (rootObject_nodes guid _ t' r item v W' Hr Ho Hn) as [(f & Hf & E)|Hin];
      [|now apply Htree].
    rewrite E. intros E'. apply idWithGeneration_inj in E'. apply HX.
    unfold logicalIds. apply in_or_app. left. rewrite <- E'. now apply in_map. }
  refine (conj Htree (conj _ _)).
  - intros test0 v Hv. apply Hindex. left. unfold testItemForTest in Hv.
    apply JsMap_get_In in Hv. now apply (in_map snd) in Hv.
  - intros file0 v Hv. apply Hindex. right. unfold testItemForFile in Hv.
    apply JsMap_get_In in Hv. now apply (in_map snd) in Hv.
Qed.

Lemma deletion_completeness_witness :
  exists t1 t2,
    _update (P := Sample.platform) (Some ["/a"; "/b"]) [Sample.modelA; Sample.modelB]
      (Sample.started (Some ["/a"; "/b"])) = Some t1
    /\ In "0a1b:/b" (map id (items t1))
    /\ _update (P := Sample.platform) (Some ["/a"; "/c"]) [Sample.modelA; Sample.modelB]
         t1 = Some t2
    /\ (forall v, In v (allNodes (items t2)) -> id v <> "0a1b:/b").
Proof.
  eexists. eexists. split; [vm_compute; reflexivity|].
  split; [vm_compute; do 2 right; left; reflexivity|].
  split; [vm_compute; reflexivity|].
  refine (proj1 (deletion_completeness (P := Sample.platform) (Some ["/a"; "/b"])
                   (Some ["/a"; "/c"]) Sample.guid0 [Sample.modelA; Sample.modelB]
                   _ _ "/b" eq_refl _ eq_refl _ _)).
  - apply (session_updated (Some ["/a"; "/b"]) _ _ [Sample.modelA; Sample.modelB]
             (Sample.started (Some ["/a"; "/b"])));
      [apply session_started, alive_new| reflexivity| vm_compute; reflexivity].
  - vm_compute. reflexivity.
  - vm_compute. intros [H|[H|[H|[H|[]]]]]; discriminate.
Defined.

(** X20: the single workspace folder replaced by another one.  A session
    has the folder [/a] alone and shows its file and test.  The next pass
    has the folder [/b] alone, which has a file and a test: the pass
    registers the flat root of [/b] and fills the controller, then deletes
    the stale root of [/a] with the single-folder branch of
    [_deleteRootItem], which empties the controller down to the loading
    item.  After the pass [/b] is registered and nothing of it is shown; one
    more pass with the same folder and models shows it. *)
Theorem single_folder_replaced :
  exists t1 t2 t3,
    _update (P := Sample.platform) (Some ["/a"]) [Sample.modelA; Sample.modelBTests]
      (Sample.started (Some ["/a"])) = Some t1
    /\ map id (allNodes (items t1)) = ["loading"; "0a1b:fileA"; "0a1b:testX"]
    /\ _update (P := Sample.platform) (Some ["/b"]) [Sample.modelA; Sample.modelBTests] t1
       = Some t2
    /\ scopeEmpty (P := Sample.platform) [Sample.modelA; Sample.modelBTests] "/b" = false
    /\ JsMap.keys (_rootItems t2) = ["/b"]
    /\ map id (allNodes (items t2)) = ["loading"]
    /\ _update (P := Sample.platform) (Some ["/b"]) [Sample.modelA; Sample.modelBTests] t2
       = Some t3
    /\ map id (allNodes (items t3)) = ["loading"; "0a1b:fileB"; "0a1b:testY"].
Proof.
  do 3 eexists. split; [vm_compute; reflexivity|].
  split; [vm_compute; reflexivity|]. split; [vm_compute; reflexivity|].
  split; [vm_compute; reflexivity|]. split; [vm_compute; reflexivity|].
  split; [vm_compute; reflexivity|]. split; vm_compute; reflexivity.
Qed.
